(* ===== verification/_CoqProject ===== *)
-Q . S2P
Prelude.v
Regs.v
Endian.v
ListHead.v
HList.v
Rbtree.v
RbtreeRep.v
RbtreeInsert.v
RbtreeErase.v
RbtreeWalk.v
PageAlloc.v
Sched.v
SchedInv.v
SchedOps.v
SchedProps.v
Kmem.v
Buddy.v
Memchunk.v
MemchunkProps.v
Heap.v
ObjAlloc.v
Vma.v
VmaProps.v
VmaFree.v
Ctype.v
Vsprintf.v
VsprintfProps.v
KeyTree.v
Inode.v
InodeProps.v
Fdt.v
FdtProps.v
Blk.v
BlkProps.v
Ext2.v
Ext2Props.v
Namei.v
Vfs.v
VfsProps.v
Pagecache.v
PagecacheProps.v
Paging.v
PagingProps.v
PageFault.v
Exec.v
ExecProps.v
Intr.v
Boot.v
BootProps.v
BootMap.v
Io.v
Vga.v
VgaProps.v
PrintkProps.v
Pci.v
PciProps.v
Ata.v
AtaProps.v
Floppy.v
FloppyProps.v
Task.v
TaskProps.v
Syscall.v
UString.v
User.v
Timer.v
TimerProps.v
Partition.v
PartitionProps.v
Setup.v
Drivers.v
