(* ===== verification/Prelude.v ===== *)
(** * ScaraOS: a verification of the kernel

    ScaraOS is a small teaching kernel for the PC, in C.  This library models
    its core as executable functions and proves what they do.  Every routine
    is a function in one monad ([M] below): a state passed along, and an
    outcome that is a value, a failed [BUG_ON], an access through a bad
    pointer, a task that blocks, or a loop out of fuel.  A theorem says that
    the routine returns ([wp], total correctness) and what holds then; a loop
    with a fuel argument is shown to end within a bound that the theorem
    states.

    ** The parts of the kernel and the files that model them

    - Lists ([include/scaraOS/list.h]): [ListHead], on a store of cells with
      two pointers, each operation against the sequence it works on; [HList],
      the lists with a head of one pointer.
    - Red-black trees ([kernel/rbtree.c], [include/scaraOS/rbtree.h]):
      [Rbtree] is the code, on nodes whose parent word carries the colour.
      [RbtreeRep] relates a store to a tree, [RbtreeInsert] and [RbtreeErase]
      verify the two rebalancing loops, [RbtreeWalk] has the theorems.
      [KeyTree] is the search by key that two clients contain.
    - Scheduler, wait queues, semaphores ([kernel/sched.c],
      [kernel/semaphore.c], parts of [arch-ia32/task.c], [arch-ia32/irq.c]): [Sched]
      is a machine whose step is a task running to its next switch, or an
      interrupt; [SchedInv] has the invariants, [SchedOps] that every
      operation keeps them, [SchedProps] what follows for every reachable
      state: the kernel never stops, no wake-up is lost, a semaphore excludes.
      Interrupts come between the steps of a task; the start of a kernel
      thread is one step, although the source leaves interrupts enabled in it.
    - Memory of the kernel: [Kmem] is the store of bytes and the string
      routines ([kernel/string.c]); [PageAlloc] is the interface of a page
      allocator, [Buddy] the allocator of [kernel/buddy.c] that implements it.
      [Memchunk] has the object caches and [kmalloc] ([kernel/memchunk.c],
      [kernel/kmalloc.c]); [MemchunkProps] their invariant, which relates the
      headers of the slabs, the lists of the caches and the free objects linked
      through memory, and what allocation, release and start-up do to it;
      [Heap] what clients do with the memory they get: [strdup], and the
      caches every subsystem makes ([mm_init], [blk_init], [vfs_init],
      [_fdt_init]).  [ObjAlloc] is the interface of object caches the
      clients are verified against: what is live, and what allocations are
      sure to succeed ([objs_avail]); the caches themselves keep less than it
      (they stop the kernel when no frame is left, and at a release the check
      of [do_cache_free] may be wrong), which is why it has an
      implementation of its own.
    - Address spaces: [Vma] has the areas and contexts of [kernel/mm.c] over an
      interface to inodes and page tables, [VmaProps] their theorems, [VmaFree]
      the release and the copy of a context and the independence of contexts.  [Paging] and
      [PagingProps] have the page tables of [arch-ia32/mm.c], [Pagecache] and
      [PagecacheProps] the page cache ([kernel/pagecache.c]).  [PageFault]
      implements the interface of the areas by these two, and verifies the
      handling of a page fault through all of them ([page_fault] and [exc_handler] of
      [arch-ia32/idt.c]).  [Boot], [BootProps], [BootMap] have the set-up of
      memory at boot (the rest of [arch-ia32/mm.c]).
    - Files: [Inode], [InodeProps] are the cache of inodes ([fs/inode.c]);
      [Blk], [BlkProps] the block layer ([kernel/blk.c], [kernel/blkdev.c]);
      [Ext2], [Ext2Props] the file system ([fs/ext2.c]); [Namei] the path walk
      ([fs/dentry.c]); [Fdt], [FdtProps] the descriptor tables
      ([kernel/fdt.c], [kernel/file.c]); [Vfs], [VfsProps] mounting and the
      system calls open, close and read ([fs/vfs.c], [fs/mount.c],
      [kernel/open.c], [kernel/close.c], [kernel/read.c]); [Partition],
      [PartitionProps] the partition tables ([drivers/partition.c]).
    - Programs: [Exec], [ExecProps] are [kernel/exec.c], from the headers of an
      ELF file to the entry into user mode; [Regs] the frames and segments,
      [Task], [TaskProps] the descriptors of [arch-ia32/task.c] and
      [kernel/fork.c]; [Syscall] the entry of system calls
      ([arch-ia32/syscalls.c]); [User] the stubs of [src/user], each of which is
      shown to be its call of the kernel, [cat] and [init], [UString] the string
      routines of the programs.
    - Interrupts and time: [Intr] has the two 8259A controllers
      ([arch-ia32/8259a.c]), the interrupt gates ([arch-ia32/idt.c]) and the
      table of handlers ([arch-ia32/irq.c]); [Timer], [TimerProps] the interval
      timer ([arch-ia32/timer.c]) and the keyboard ([arch-ia32/pc_keyb.c]).
    - Devices: [Io] has the port instructions ([arch-ia32/io.S]); [Pci],
      [PciProps] the bus ([drivers/pci.c], [arch-ia32/pci.c]); [Ata],
      [AtaProps] the disks ([drivers/ata.c]); [Floppy], [FloppyProps] the
      floppy disks and the DMA controller ([arch-ia32/floppy.c],
      [arch-ia32/dma.c]).
    - Text: [Ctype] has the character classes ([kernel/ctype.c]), [Vsprintf],
      [VsprintfProps] the formatter ([kernel/vsprintf.c]); [Vga], [VgaProps]
      the screen and the serial line ([arch-ia32/vga.c], [arch-ia32/serio.c]),
      [PrintkProps] the log ([kernel/printk.c]).
    - [Drivers]: the initialisation of the floppy, serial and screen drivers
      and the printed dump of a frame ([arch-ia32/idt.c]).
    - The start: [Setup] ([arch-ia32/setup.c], [kernel/init.c]); [Endian] the
      byte order ([include/arch-ia32/endian.h]).

    ** How the model corresponds to the code

    Definitions keep the names of the source.  Machine integers are numbers in [Z] with
    the wrap-around written out ([u32], [s32]).  A structure is a record, a
    pointer to it a key of a finite map from addresses; an address without an
    entry faults.  Where a structure is the first member of another the two
    have the same address.  Structures read from the disk or from a file are
    layouts over bytes ([Ext2]).  A semaphore is a counter in sequential code
    ([down], [sem_up] below) and a wait queue in [Sched].

    Components meet at interfaces: a class of operations ([PageOps], [ObjOps],
    [MmuOps], [VfsOps], [ExecOps], [Driver]) and, where a client relies on it, a class of laws
    ([PageSpec], [ObjSpec], [MmuSpec], [CloneSpec], [VfsLaws], [ExecSpec],
    [DriverSpec]).  The buddy allocator discharges [PageSpec], the page tables
    [MmuSpec] and [CloneSpec], the ATA driver [DriverSpec]; the [attach] of a
    PCI driver, which the code calls through a pointer, is a parameter with a
    law ([attach_law] in [PciProps]).  Each interface also has a small implementation, with which the theorems are applied to concrete
    states.  A component that allocates has a part of the allocator's state of
    its own: what it takes is its own until it gives it back.

    A device is a parameter: its state is a type, and a class has the effect
    of a port access on it ([PortDev] in [Io]; with the passing of time in
    [Timer], with the answers of a drive in [Ata], with the registers of the
    bus in [Pci]).  What a driver relies on is a hypothesis in the terms of
    the data sheet, and every such theorem is applied to a small device.  Where
    only the order of accesses matters the device is their trace ([trace]).

    ** Fuel

    Walks of red-black trees take a bound on the height, which is at most
    twice the logarithm of the size ([rbtree_depth]); loops over lists and
    paths take the length; [vsnprintf] takes the length of the format; the
    recursion over interrupt controllers is two deep; the walk over the boot
    loader's map has at most one step for every byte.  The free list of a slab
    has at most 1024 objects ([free_list_fuel]); the search for the length of
    the delay loop doubles a number at most 19 times before it exceeds the
    second; a request to the floppy is tried once more for every failure it
    allows; [cat] reads at least one byte in a round.

    ** What the theorems show about the code

    Most of the code does what it means to.  Where it does not, the theorem
    says what it does: the second entry of a descriptor table is never found
    ([FdtProps]), inodes outside the first group are read from the wrong
    block ([Ext2Props]), a cloned address space has no areas and shares its
    page tables ([VmaProps], [PagingProps]), a page that is first read and then written
    kills its task ([PageFault]), masking one line of the second
    controller masks all, and the lines 10 to 15 have no handler ([Intr]), the
    check of [objcache_free] stops the kernel on a good object ([Memchunk]),
    a partition table that was read is taken for a failure
    ([PartitionProps]), a disk is never written ([AtaProps]), a
    text too long for [printk] prints the memory behind its buffer
    ([PrintkProps]), [write] loses its buffer when the text cannot be read
    ([Syscall]), [hlist_add_after] stores through NULL ([HList]), [cat] takes
    a failed open for a file ([User]).

    ** Not modelled

    The assembly of the boot sector entry and of the interrupt stubs
    ([entry.S], [intr.S]); what the DMA controller does with the memory it is programmed
    for; messages of [dprintk], which are not compiled in; the programs that only burn time; the functions under
    [#if 0] ([sscanf], [mempool_new] and others).  Most of [elf.h] and
    [ext2.h] are constants without a user.  Caches of translations (the TLB)
    are not modelled: a page table is looked up as it is. *)
From stdpp Require Export base list gmap numbers sorting.
From Stdlib Require Export ssreflect ZArith Lia.

#[global] Open Scope general_if_scope.
#[global] Open Scope Z_scope.
Set Default Goal Selector "!".

(** ** Machine integers

    The kernel is built with [-m32]: [unsigned long], [size_t], pointers and
    [vaddr_t] are 32 bits wide.  An unsigned value of width [w] is a [Z] in
    [0 .. 2^w - 1]; arithmetic that may wrap is written with the truncations
    below. *)
Definition u8 (x : Z) : Z := x mod 2 ^ 8.
Definition u16 (x : Z) : Z := x mod 2 ^ 16.
Definition u32 (x : Z) : Z := x mod 2 ^ 32.
Definition u64 (x : Z) : Z := x mod 2 ^ 64.

(** Two's complement reading of a truncated value. *)
Definition sign (w x : Z) : Z :=
  if x mod 2 ^ w <? 2 ^ (w - 1) then x mod 2 ^ w else x mod 2 ^ w - 2 ^ w.
Definition s8 (x : Z) : Z := sign 8 x.
Definition s16 (x : Z) : Z := sign 16 x.
Definition s32 (x : Z) : Z := sign 32 x.
Definition s64 (x : Z) : Z := sign 64 x.

Definition NULL : Z := 0.

(** A C condition: zero is false. *)
Definition ctrue (x : Z) : bool := negb (x =? 0).

Lemma u32_id x : 0 <= x < 2 ^ 32 → u32 x = x.
Proof. apply Z.mod_small. Qed.

Lemma u32_range x : 0 <= u32 x < 2 ^ 32.
Proof. apply Z.mod_pos_bound; lia. Qed.

Lemma s32_id x : - 2 ^ 31 <= x < 2 ^ 31 → s32 x = x.
Proof.
  intros H. rewrite /s32 /sign. destruct (Z.ltb_spec x 0).
  - replace (x mod 2 ^ 32) with (x + 2 ^ 32).
    { destruct (Z.ltb_spec (x + 2 ^ 32) (2 ^ (32 - 1))); lia. }
    rewrite -(Z.mod_add _ 1) // Z.mod_small; lia.
  - rewrite Z.mod_small; [lia|]. destruct (Z.ltb_spec x (2 ^ (32 - 1))); lia.
Qed.

Lemma u8_range x : 0 <= u8 x < 2 ^ 8.
Proof. apply Z.mod_pos_bound; lia. Qed.

Lemma u64_id x : 0 <= x < 2 ^ 64 → u64 x = x.
Proof. apply Z.mod_small. Qed.

(** ** Outcomes and the kernel monad

    A kernel routine run on a state either returns, or stops the machine:
    [Bug] is a failed [BUG_ON] (the kernel is built with [KDEBUG=1]) or a call of [panic],
    [Fault] is an access through a pointer that designates no object of the
    modelled store, [Block] is a task put to sleep (a semaphore that is not
    available in the sequential model), [NoFuel] is a bounded loop that has not
    ended within its bound. *)
Inductive outcome (A : Type) : Type :=
  | Ret (a : A)
  | Bug
  | Fault
  | Block
  | NoFuel.
Arguments Ret {A} a.
Arguments Bug {A}.
Arguments Fault {A}.
Arguments Block {A}.
Arguments NoFuel {A}.

Definition M (S A : Type) : Type := S → outcome (A * S).

Definition ret {S A} (a : A) : M S A := λ s, Ret (a, s).
Definition bind {S A B} (m : M S A) (k : A → M S B) : M S B := λ s,
  match m s with
  | Ret (a, s') => k a s'
  | Bug => Bug
  | Fault => Fault
  | Block => Block
  | NoFuel => NoFuel
  end.
Definition get {S} : M S S := λ s, Ret (s, s).
Definition gets {S A} (f : S → A) : M S A := λ s, Ret (f s, s).
Definition modify {S} (f : S → S) : M S unit := λ s, Ret (tt, f s).
Definition panic {S A} : M S A := λ _, Bug.
Definition fault {S A} : M S A := λ _, Fault.
Definition block {S A} : M S A := λ _, Block.
Definition nofuel {S A} : M S A := λ _, NoFuel.

(** [BUG_ON(x)]. *)
Definition bug_on {S} (b : bool) : M S unit := if b then panic else ret tt.

(** An object that must exist. *)
Definition deref {S A} (o : option A) : M S A :=
  match o with Some a => ret a | None => fault end.

Definition when {S} (b : bool) (m : M S unit) : M S unit :=
  if b then m else ret tt.

(** Running a routine of a component on the part of a larger state that
    belongs to it. *)
Definition zoom {S T A} (g : S → T) (p : T → S → S) (m : M T A) : M S A := λ s,
  match m (g s) with
  | Ret (a, t) => Ret (a, p t s)
  | Bug => Bug
  | Fault => Fault
  | Block => Block
  | NoFuel => NoFuel
  end.

Declare Scope kernel_scope.
Delimit Scope kernel_scope with K.
Notation "'let!' x := m 'in' k" := (bind m (λ x, k))
  (at level 10, x name, m at level 100, k at level 200,
   format "'[v' 'let!'  x  :=  m  'in' '//' k ']'") : kernel_scope.
Notation "'do!' m 'then' k" := (bind m (λ _, k))
  (at level 10, m at level 100, k at level 200,
   format "'[v' 'do!'  m  'then' '//' k ']'") : kernel_scope.
#[global] Open Scope kernel_scope.

(** [for(i = from; i < from + n; i++) f(i)] *)
Fixpoint each {S} (n : nat) (i : Z) (f : Z → M S unit) : M S unit :=
  match n with O => ret tt | Datatypes.S n => do! f i then each n (i + 1) f end.

(** ** Semaphores in sequential code

    A routine that is verified as one piece of sequential code takes its
    semaphores as counters: [down] is a [sem_P] that finds the semaphore
    available (otherwise the task blocks and the routine is resumed later, see
    [Sched]), [sem_up] is [sem_V]. *)
Definition down : M Z unit := λ v, if v <=? 0 then Block else Ret (tt, v - 1).
Definition sem_up : M Z unit := λ v, Ret (tt, v + 1).

(** ** Total-correctness assertions

    [wp m Q s]: run from [s], [m] returns (it neither panics, nor faults, nor
    blocks, nor runs out of fuel) and [Q] holds of its result and final state. *)
Definition wp {S A} (m : M S A) (Q : A → S → Prop) (s : S) : Prop :=
  match m s with Ret (a, s') => Q a s' | _ => False end.

Section wp.
Context {S A B : Type}.
Implicit Types (m : M S A) (s : S).

Lemma wp_ret (a : A) Q s : Q a s → wp (ret a) Q s.
Proof. done. Qed.

Lemma wp_bind m (k : A → M S B) Q s :
  wp m (λ a s', wp (k a) Q s') s → wp (bind m k) Q s.
Proof. rewrite /wp /bind. by destruct (m s) as [[]| | | |]. Qed.

Lemma wp_mono m (Q Q' : A → S → Prop) s :
  wp m Q s → (∀ a s', Q a s' → Q' a s') → wp m Q' s.
Proof. rewrite /wp. destruct (m s) as [[]| | | |]; auto. Qed.

Lemma wp_gets (f : S → A) Q s : Q (f s) s → wp (gets f) Q s.
Proof. done. Qed.

Lemma wp_modify (f : S → S) Q s : Q tt (f s) → wp (modify f) Q s.
Proof. done. Qed.

Lemma wp_deref (o : option A) (a : A) Q s :
  o = Some a → Q a s → wp (deref o) Q s.
Proof. by intros ->. Qed.

Lemma wp_bug_on (b : bool) (Q : unit → S → Prop) s :
  b = false → Q tt s → wp (bug_on b) Q s.
Proof. by intros ->. Qed.

Lemma wp_elim m Q s : wp m Q s → ∃ a s', m s = Ret (a, s') ∧ Q a s'.
Proof. rewrite /wp. destruct (m s) as [[a s']| | | |]; naive_solver. Qed.
End wp.

Lemma wp_zoom {S T A} (g : S → T) (p : T → S → S) (m : M T A) Q s :
  wp m (λ a t, Q a (p t s)) (g s) → wp (zoom g p m) Q s.
Proof. rewrite /wp /zoom. by destruct (m (g s)) as [[]| | | |]. Qed.

Lemma wp_down v (Q : unit → Z → Prop) : 0 < v → Q tt (v - 1) → wp down Q v.
Proof. intros Hv HQ. rewrite /wp /down. by destruct (Z.leb_spec v 0); [lia|]. Qed.

(** The rule for the counting loop. *)
Lemma wp_each {S} n i (f : Z → M S unit) (Inv : Z → S → Prop) (Q : unit → S → Prop) s :
  Inv i s →
  (∀ j s, i ≤ j < i + Z.of_nat n → Inv j s → wp (f j) (λ _ s', Inv (j + 1) s') s) →
  (∀ s, Inv (i + Z.of_nat n) s → Q tt s) → wp (each n i f) Q s.
Proof.
  revert i s. induction n as [|n IH]; intros i s Hi Hstep HQ; cbn [each].
  - apply wp_ret, HQ. by rewrite Z.add_0_r.
  - apply wp_bind. eapply wp_mono; [apply Hstep; [lia|exact Hi]|]. intros [] s' Hs'. apply IH; [exact Hs'| |].
    + intros j s1 Hj. apply Hstep. lia.
    + intros s1 Hs1. apply HQ. by replace (i + Z.of_nat (Datatypes.S n)) with (i + 1 + Z.of_nat n) by lia.
Qed.

(** ** Tactics *)

(** Deciding a closed proposition by computation. *)
Ltac decide_closed := apply (bool_decide_unpack _); vm_compute; exact I.

(** Splitting the booleans the source's conditions compute into. *)
Ltac bool_cases :=
  repeat match goal with
  | |- context [ (?a <? ?b)%Z ] => destruct (Z.ltb_spec a b)
  | |- context [ (?a <=? ?b)%Z ] => destruct (Z.leb_spec a b)
  | |- context [ (?a =? ?b)%Z ] => destruct (Z.eqb_spec a b)
  end.

Ltac wp_step :=
  first
    [ apply wp_bind
    | apply wp_ret
    | apply wp_gets
    | apply wp_modify
    | apply wp_bug_on; [ by try lia |]
    | eapply wp_deref; [ eassumption |] ].

(** ** Shared lemmas *)

Create HintDb scara discriminated.
#[export] Hint Resolve NoDup_nil_2 : scara.

Lemma NoDup_app_l {A} (l k : list A) : NoDup (l ++ k) → NoDup l.
Proof. intros H. by apply NoDup_app in H as (? & _ & _). Qed.

Lemma NoDup_app_r {A} (l k : list A) : NoDup (l ++ k) → NoDup k.
Proof. intros H. by apply NoDup_app in H as (_ & _ & ?). Qed.

Lemma Forall_perm {A} (P : A → Prop) (l k : list A) :
  l ≡ₚ k → Forall P l → Forall P k.
Proof. by intros ->. Qed.

(** An element of a duplicate-free list splits it in one way only. *)
Lemma NoDup_split {A} (l1 l2 k1 k2 : list A) a :
  NoDup (l1 ++ a :: l2) → l1 ++ a :: l2 = k1 ++ a :: k2 → l1 = k1 ∧ l2 = k2.
Proof.
  revert k1. induction l1 as [|b l1 IH]; intros [|b' k1] Hnd H; simpl in *;
    simplify_eq; [done|..]; apply NoDup_cons in Hnd as [Hn Hnd].
  - set_solver.
  - set_solver.
  - edestruct (IH k1 Hnd) as [-> ->]; done.
Qed.

(** Removing an element that is not there. *)
Lemma filter_ne_id {A} `{EqDecision A} (t : A) (l : list A) :
  t ∉ l → filter (λ u, u ≠ t) l = l.
Proof.
  induction l as [|a l IH]; intros H; [done|]. apply not_elem_of_cons in H as [? ?].
  rewrite filter_cons_True; [congruence|]. by rewrite IH.
Qed.

Lemma filter_ne_head {A} `{EqDecision A} (t : A) (l : list A) :
  t ∉ l → filter (λ u, u ≠ t) (t :: l) = l.
Proof. intros H. rewrite filter_cons_False; [by intros []|]. by apply filter_ne_id. Qed.

(** Membership around an element. *)
Lemma elem_of_mid {A} (a b : A) l r : a ∈ l ++ b :: r ↔ a = b ∨ a ∈ l ++ r.
Proof. rewrite !elem_of_app elem_of_cons. naive_solver. Qed.
