(* ===== verification/Regs.v ===== *)
(** * Segments, task states and interrupt frames ([include/arch-ia32/gdt.h],
      [include/arch-ia32/task.h], [include/arch-ia32/regs.h]) *)
From S2P Require Import Prelude.

Definition KERNEL_CS : Z := 1.
Definition KERNEL_DS : Z := 2.
Definition USER_CS : Z := 3.
Definition USER_DS : Z := 4.
Definition TSS0 : Z := 5.
Definition TSS1 : Z := 6.
Definition __KERNEL_CS : Z := Z.shiftl KERNEL_CS 3.
Definition __KERNEL_DS : Z := Z.shiftl KERNEL_DS 3.
Definition __USER_CS : Z := Z.shiftl USER_CS 3.
Definition __USER_DS : Z := Z.shiftl USER_DS 3.
Definition __TSS0 : Z := Z.shiftl TSS0 3.
Definition __TSS1 : Z := Z.shiftl TSS1 3.
Definition __CPL3 : Z := 3.

(** [struct ia32_tss] without its padding and the registers nobody sets. *)
Record ia32_tss := mk_tss {
  tss_sp0 : Z; tss_ss0 : Z; tss_cr3 : Z; tss_eip : Z; tss_flags : Z; tss_eax : Z; tss_esp : Z;
  tss_es : Z; tss_cs : Z; tss_ss : Z; tss_ds : Z; tss_fs : Z; tss_gs : Z; tss_io_bitmap_base : Z
}.
Definition sizeof_tss : Z := 104.

(** [struct intr_ctx] *)
Record intr_ctx := mk_intr_ctx {
  r_edi : Z; r_esi : Z; r_ebp : Z; r_esp : Z; r_ebx : Z; r_edx : Z; r_ecx : Z; r_eax : Z;
  r_err_code : Z; r_eip : Z; r_cs : Z; r_eflags : Z; r_esp3 : Z; r_ss : Z
}.
Definition sizeof_intr_ctx : Z := 56.
Definition set_eax (v : Z) (x : intr_ctx) : intr_ctx :=
  mk_intr_ctx (r_edi x) (r_esi x) (r_ebp x) (r_esp x) (r_ebx x) (r_edx x) (r_ecx x) v
    (r_err_code x) (r_eip x) (r_cs x) (r_eflags x) (r_esp3 x) (r_ss x).
Definition set_eip (v : Z) (x : intr_ctx) : intr_ctx :=
  mk_intr_ctx (r_edi x) (r_esi x) (r_ebp x) (r_esp x) (r_ebx x) (r_edx x) (r_ecx x) (r_eax x)
    (r_err_code x) v (r_cs x) (r_eflags x) (r_esp3 x) (r_ss x).
Definition set_esp3 (v : Z) (x : intr_ctx) : intr_ctx :=
  mk_intr_ctx (r_edi x) (r_esi x) (r_ebp x) (r_esp x) (r_ebx x) (r_edx x) (r_ecx x) (r_eax x)
    (r_err_code x) (r_eip x) (r_cs x) (r_eflags x) v (r_ss x).

(** The data selector to load on the way out of an interrupt. *)
Definition return_from_intr {S} (regs : intr_ctx) : M S Z :=
  let rpl := Z.land (r_cs regs) __CPL3 in
  if 0 =? rpl then ret __KERNEL_DS else
  do! bug_on (negb (rpl =? __CPL3)) then
  ret (Z.lor __USER_DS rpl).

(** A frame of user mode. *)
Lemma return_to_user {S} (regs : intr_ctx) (s : S) :
  Z.land (r_cs regs) __CPL3 = __CPL3 → return_from_intr regs s = Ret (Z.lor __USER_DS __CPL3, s).
Proof. intros E. by rewrite /return_from_intr E. Qed.
Lemma wp_return_to_user {S} (regs : intr_ctx) (Q : Z → S → Prop) s :
  Z.land (r_cs regs) __CPL3 = __CPL3 → Q (Z.lor __USER_DS __CPL3) s → wp (return_from_intr regs) Q s.
Proof. intros E HQ. by rewrite /wp return_to_user. Qed.
