(* ===== verification/Endian.v ===== *)
(** * Byte order ([include/arch-ia32/endian.h], [include/scaraOS/endian.h])

    The byte swaps exist twice, as an expression for constants and as machine
    instructions; the two are the same function, and the conversions are their
    own inverses. *)
From S2P Require Import Prelude.

(** The results are of the type of the argument. *)
Definition __bswap_constant_16 (x : Z) : Z :=
  u16 (Z.lor (Z.land (Z.shiftr x 8) 0xff) (Z.shiftl (Z.land x 0xff) 8)).

Definition __bswap_constant_32 (x : Z) : Z :=
  u32 (Z.lor (Z.lor (Z.lor (Z.shiftr (Z.land x 0xff000000) 24) (Z.shiftr (Z.land x 0x00ff0000) 8))
    (Z.shiftl (Z.land x 0x0000ff00) 8)) (Z.shiftl (Z.land x 0x000000ff) 24)).

Definition __bswap_constant_64 (x : Z) : Z :=
  u64 (Z.lor (Z.lor (Z.lor (Z.lor (Z.lor (Z.lor (Z.lor
    (Z.shiftr (Z.land x 0xff00000000000000) 56) (Z.shiftr (Z.land x 0x00ff000000000000) 40))
    (Z.shiftr (Z.land x 0x0000ff0000000000) 24)) (Z.shiftr (Z.land x 0x000000ff00000000) 8))
    (Z.shiftl (Z.land x 0x00000000ff000000) 8)) (Z.shiftl (Z.land x 0x0000000000ff0000) 24))
    (Z.shiftl (Z.land x 0x000000000000ff00) 40)) (Z.shiftl (Z.land x 0x00000000000000ff) 56)).

(** [rorw $8, %w0], on the low half of a register; [rorl $16, %0]. *)
Definition rorw8 (x : Z) : Z :=
  u32 (Z.lor (Z.land x 0xffff0000) (Z.lor (Z.shiftr (Z.land x 0xff00) 8) (Z.shiftl (Z.land x 0xff) 8))).
Definition rorl16 (x : Z) : Z := u32 (Z.lor (Z.shiftr x 16) (Z.shiftl (Z.land x 0xffff) 16)).

(** The branch for values that are not known to the compiler. *)
Definition __bswap_16 (x : Z) : Z := u16 (rorw8 (u16 x)).
Definition __bswap_32 (x : Z) : Z := rorw8 (rorl16 (rorw8 (u32 x))).
(** The two words of the union, exchanged. *)
Definition __bswap_64 (x : Z) : Z :=
  let lo := u32 x in let hi := u32 (Z.shiftr x 32) in
  Z.lor (__bswap_32 hi) (Z.shiftl (__bswap_32 lo) 32).

Definition htobe16 := __bswap_16.
Definition be16toh := __bswap_16.
Definition htobe32 := __bswap_32.
Definition be32toh := __bswap_32.
Definition htobe64 := __bswap_64.
Definition be64toh := __bswap_64.
Definition htole16 (x : Z) : Z := x.
Definition le16toh (x : Z) : Z := x.
Definition htole32 (x : Z) : Z := x.
Definition le32toh (x : Z) : Z := x.

(** ** The two ways are one function *)

(** Bits of masks and of truncated numbers. *)
Definition mask (n k : Z) : Z := Z.shiftl (Z.ones n) k.
Lemma mask_spec n k i : 0 ≤ n → 0 ≤ k → Z.testbit (mask n k) i = bool_decide (k ≤ i < k + n).
Proof.
  intros Hn Hk. rewrite /mask. destruct (decide (i < 0)); [rewrite Z.testbit_neg_r // bool_decide_eq_false_2 //; lia|]. rewrite Z.shiftl_spec; [lia|].
  case_bool_decide as H; [apply Z.ones_spec_low; lia|]. destruct (decide (i < k)); [apply Z.testbit_neg_r; lia|apply Z.ones_spec_high; lia].
Qed.
Lemma trunc_spec w x i : 0 ≤ w → 0 ≤ i → Z.testbit (x mod 2 ^ w) i = bool_decide (i < w) && Z.testbit x i.
Proof. intros Hw Hi. case_bool_decide; [by rewrite Z.mod_pow2_bits_low|rewrite Z.mod_pow2_bits_high //; lia]. Qed.

(** Which bit of the argument a bit of the result is. *)
Definition rorw8_bit (i : Z) : Z := if decide (i < 8) then i + 8 else if decide (i < 16) then i - 8 else i.
Definition rorl16_bit (i : Z) : Z := if decide (i < 16) then i + 16 else i - 16.
Definition swap_bit (i : Z) : Z :=
  if decide (i < 8) then i + 24 else if decide (i < 16) then i + 8 else if decide (i < 24) then i - 8 else i - 24.

Ltac bits := repeat first
  [ rewrite trunc_spec; [lia..|] | rewrite Z.lor_spec | rewrite Z.land_spec | rewrite mask_spec; [lia..|]
  | rewrite Z.shiftr_spec; [lia|] | rewrite Z.shiftl_spec; [lia|] ].
Ltac bits_lia := repeat (case_bool_decide || case_decide); try lia; rewrite ?andb_true_r ?andb_false_r ?orb_false_r //=; repeat f_equal; lia.

Lemma rorw8_spec x i : 0 ≤ i → Z.testbit (rorw8 x) i = bool_decide (i < 32) && Z.testbit x (rorw8_bit i).
Proof.
  intros Hi. rewrite /rorw8 /u32 /rorw8_bit. change 0xffff0000 with (mask 16 16). change 0xff00 with (mask 8 8).
  change 0xff with (mask 8 0). bits. bits_lia.
Qed.

Lemma rorl16_spec x i : 0 ≤ i → 0 ≤ x < 2 ^ 32 → Z.testbit (rorl16 x) i = bool_decide (i < 32) && Z.testbit x (rorl16_bit i).
Proof.
  intros Hi Hx. rewrite /rorl16 /u32 /rorl16_bit. change 0xffff with (mask 16 0).
  rewrite -{1}(Z.mod_small x (2 ^ 32) Hx). bits. bits_lia.
Qed.

Lemma rorw8_range x : 0 ≤ rorw8 x < 2 ^ 32.
Proof. apply u32_range. Qed.

Lemma bswap_32_spec x i : 0 ≤ i → Z.testbit (__bswap_32 x) i = bool_decide (i < 32) && Z.testbit x (swap_bit i).
Proof.
  intros Hi. rewrite /__bswap_32 rorw8_spec //. case_bool_decide as Hlt; cbn [andb]; [|done].
  assert (0 ≤ rorw8_bit i < 32) by (rewrite /rorw8_bit; repeat case_decide; lia). rewrite rorl16_spec; [lia|apply rorw8_range|].
  rewrite bool_decide_eq_true_2; [lia|]. cbn [andb].
  assert (0 ≤ rorl16_bit (rorw8_bit i) < 32) by (rewrite /rorl16_bit; case_decide; lia). rewrite rorw8_spec; [lia|].
  rewrite bool_decide_eq_true_2; [lia|]. cbn [andb]. rewrite /u32 trunc_spec; [lia| |].
  { unfold rorw8_bit at 1. repeat case_decide; lia. }
  rewrite bool_decide_eq_true_2. { unfold rorw8_bit at 1. repeat case_decide; lia. }
  cbn [andb]. f_equal. rewrite /rorw8_bit /rorl16_bit /swap_bit. repeat case_decide; lia.
Qed.

Lemma bswap_constant_32_spec x i : 0 ≤ i → Z.testbit (__bswap_constant_32 x) i = bool_decide (i < 32) && Z.testbit x (swap_bit i).
Proof.
  intros Hi. rewrite /__bswap_constant_32 /u32 /swap_bit. change 0xff000000 with (mask 8 24). change 0x00ff0000 with (mask 8 16).
  change 0x0000ff00 with (mask 8 8). change 0x000000ff with (mask 8 0). bits. bits_lia.
Qed.

Theorem bswap_32_same x : __bswap_32 x = __bswap_constant_32 x.
Proof. apply Z.bits_inj'. intros i Hi. by rewrite bswap_32_spec // bswap_constant_32_spec. Qed.

Lemma u32_bits x : 0 ≤ x < 2 ^ 32 → ∀ i, 0 ≤ i → Z.testbit x i = bool_decide (i < 32) && Z.testbit x i.
Proof. intros Hx i Hi. rewrite -{1}(Z.mod_small x (2 ^ 32) Hx) trunc_spec //. Qed.

(** The conversions undo each other. *)
Theorem be32_roundtrip x : 0 ≤ x < 2 ^ 32 → be32toh (htobe32 x) = x.
Proof.
  intros Hx. apply Z.bits_inj'. intros i Hi. rewrite /be32toh /htobe32 bswap_32_spec // (u32_bits x Hx i Hi).
  case_bool_decide as Hlt; cbn [andb]; [|done]. assert (0 ≤ swap_bit i < 32) by (rewrite /swap_bit; repeat case_decide; lia).
  rewrite bswap_32_spec; [lia|]. rewrite bool_decide_eq_true_2; [lia|]. cbn [andb]. f_equal. rewrite /swap_bit. repeat case_decide; lia.
Qed.

Lemma bswap_16_spec x i : 0 ≤ i → Z.testbit (__bswap_16 x) i = bool_decide (i < 16) && Z.testbit x (rorw8_bit i).
Proof.
  intros Hi. rewrite /__bswap_16 /u16 trunc_spec; [lia..|]. case_bool_decide as Hlt; cbn [andb]; [|done]. rewrite rorw8_spec //.
  rewrite bool_decide_eq_true_2; [lia|]. cbn [andb]. rewrite trunc_spec; [lia|rewrite /rorw8_bit; repeat case_decide; lia|].
  rewrite bool_decide_eq_true_2; [rewrite /rorw8_bit; repeat case_decide; lia|]. done.
Qed.

Theorem bswap_16_same x : __bswap_16 x = __bswap_constant_16 x.
Proof.
  apply Z.bits_inj'. intros i Hi. rewrite bswap_16_spec //. rewrite /__bswap_constant_16 /u16 /rorw8_bit. change 0xff with (mask 8 0). bits. bits_lia.
Qed.

(** In each byte of the result the masks are decided. *)
Ltac decide_bits := repeat match goal with |- context [bool_decide ?P] =>
  first [rewrite (bool_decide_eq_true_2 P); [lia|] | rewrite (bool_decide_eq_false_2 P); [lia|]] end;
  rewrite ?andb_true_r ?andb_false_r ?orb_false_r ?orb_false_l //=.

Theorem bswap_64_same x : __bswap_64 x = __bswap_constant_64 x.
Proof.
  apply Z.bits_inj'. intros i Hi. rewrite /__bswap_64 Z.lor_spec Z.shiftl_spec // bswap_32_spec //.
  rewrite /__bswap_constant_64 /u64.
  change 0xff00000000000000 with (mask 8 56). change 0x00ff000000000000 with (mask 8 48). change 0x0000ff0000000000 with (mask 8 40).
  change 0x000000ff00000000 with (mask 8 32). change 0x00000000ff000000 with (mask 8 24). change 0x0000000000ff0000 with (mask 8 16).
  change 0x000000000000ff00 with (mask 8 8). change 0x00000000000000ff with (mask 8 0). rewrite trunc_spec; [lia..|].
  rewrite !Z.lor_spec !Z.shiftr_spec // !Z.shiftl_spec // !Z.land_spec !mask_spec //. rewrite /u32.
  destruct (decide (i < 32)) as [Hlo|Hhi].
  - rewrite (Z.testbit_neg_r _ (i - 32)); [lia|]. rewrite trunc_spec; [lia|rewrite /swap_bit; repeat case_decide; lia|].
    rewrite Z.shiftr_spec; [rewrite /swap_bit; repeat case_decide; lia|].
    destruct (decide (i < 8)); [|destruct (decide (i < 16)); [|destruct (decide (i < 24))]];
      (rewrite /swap_bit; repeat (case_decide; try lia); decide_bits; f_equal; lia).
  - rewrite (bool_decide_eq_false_2 (i < 32)); [lia|]. cbn [andb orb]. rewrite bswap_32_spec; [lia|]. rewrite trunc_spec; [lia|rewrite /swap_bit; repeat case_decide; lia|].
    destruct (decide (i < 40)); [|destruct (decide (i < 48)); [|destruct (decide (i < 56)); [|destruct (decide (i < 64))]]];
      (rewrite /swap_bit; repeat (case_decide; try lia); decide_bits; try (f_equal; lia)).
Qed.
