(* ===== verification/ListHead.v ===== *)
(** * Intrusive doubly linked lists ([include/scaraOS/list.h])

    A [struct list_head] is a cell of the store, designated by its address;
    the operations are the pointer assignments of the source, in its order.
    The contract of the component is [dll]: a list head and the entries
    reachable from it form a closed doubly linked ring.  The theorems show that
    each operation on the cells refines the corresponding operation on the
    sequence of entries; the other files use these sequence operations. *)
From S2P Require Import Prelude.

(** [struct list_head]. *)
Record list_head := mk_list_head { lh_next : Z; lh_prev : Z }.

#[export] Instance list_head_eq_dec : EqDecision list_head.
Proof. solve_decision. Defined.

(** The store of list cells. *)
Abbreviation lheap := (gmap Z list_head).

(** Reads and writes of one field; a cell that does not exist faults. *)
Definition ld_next (p : Z) : M lheap Z :=
  let! h := get in let! c := deref (h !! p) in ret (lh_next c).
Definition ld_prev (p : Z) : M lheap Z :=
  let! h := get in let! c := deref (h !! p) in ret (lh_prev c).
Definition st_next (p v : Z) : M lheap unit :=
  let! h := get in
  let! c := deref (h !! p) in
  modify (λ h, <[p := mk_list_head v (lh_prev c)]> h).
Definition st_prev (p v : Z) : M lheap unit :=
  let! h := get in
  let! c := deref (h !! p) in
  modify (λ h, <[p := mk_list_head (lh_next c) v]> h).

(** [INIT_LIST_HEAD]. *)
Definition INIT_LIST_HEAD (ptr : Z) : M lheap unit :=
  do! st_next ptr ptr then st_prev ptr ptr.

(** [_list_add]: insert between two known consecutive entries. *)
Definition _list_add (new prev next : Z) : M lheap unit :=
  do! st_prev next new then
  do! st_next new next then
  do! st_prev new prev then
  st_next prev new.

Definition list_add (new head : Z) : M lheap unit :=
  let! n := ld_next head in _list_add new head n.

Definition list_add_tail (new head : Z) : M lheap unit :=
  let! p := ld_prev head in _list_add new p head.

Definition list_del_internal (prev next : Z) : M lheap unit :=
  do! st_prev next prev then st_next prev next.

Definition list_del (entry : Z) : M lheap unit :=
  let! p := ld_prev entry in
  let! n := ld_next entry in
  do! list_del_internal p n then INIT_LIST_HEAD entry.

Definition list_move (list head : Z) : M lheap unit :=
  let! p := ld_prev list in
  let! n := ld_next list in
  do! list_del_internal p n then list_add list head.

Definition list_move_tail (list head : Z) : M lheap unit :=
  let! p := ld_prev list in
  let! n := ld_next list in
  do! list_del_internal p n then list_add_tail list head.

Definition list_empty (head : Z) : M lheap bool :=
  let! n := ld_next head in ret (n =? head).

Definition list_splice (list head : Z) : M lheap unit :=
  let! e := list_empty list in
  if e then ret tt else
    let! first := ld_next list in
    let! last := ld_prev list in
    let! at_ := ld_next head in
    do! st_prev first head then
    do! st_next head first then
    do! st_next last at_ then
    do! st_prev at_ last then
    INIT_LIST_HEAD list.

(** [list_for_each]: the successive values of [pos] for which the body runs.
    The body is the continuation of the caller; [fuel] bounds the walk. *)
Fixpoint list_for_each_from (fuel : nat) (pos head : Z) : M lheap (list Z) :=
  match fuel with
  | O => nofuel
  | S fuel =>
    if pos =? head then ret [] else
      let! n := ld_next pos in
      let! rest := list_for_each_from fuel n head in
      ret (pos :: rest)
  end.
Definition list_for_each (fuel : nat) (head : Z) : M lheap (list Z) :=
  let! n := ld_next head in list_for_each_from fuel n head.

(** [list_for_each_prev]. *)
Fixpoint list_for_each_prev_from (fuel : nat) (pos head : Z) : M lheap (list Z) :=
  match fuel with
  | O => nofuel
  | S fuel =>
    if pos =? head then ret [] else
      let! p := ld_prev pos in
      let! rest := list_for_each_prev_from fuel p head in
      ret (pos :: rest)
  end.
Definition list_for_each_prev (fuel : nat) (head : Z) : M lheap (list Z) :=
  let! p := ld_prev head in list_for_each_prev_from fuel p head.

(** [list_for_each_safe] with a body: the successor is read before the body
    runs, so the body may unlink [pos]. *)
Fixpoint list_for_each_safe_from (body : Z → M lheap unit) (fuel : nat)
    (pos n head : Z) : M lheap unit :=
  match fuel with
  | O => nofuel
  | S fuel =>
    if pos =? head then ret tt else
      do! body pos then
      let! n' := ld_next n in
      list_for_each_safe_from body fuel n n' head
  end.
Definition list_for_each_safe (body : Z → M lheap unit) (fuel : nat)
    (head : Z) : M lheap unit :=
  let! pos := ld_next head in
  let! n := ld_next pos in
  list_for_each_safe_from body fuel pos n head.

(** ** The contract *)

Definition next_of (h : lheap) (a : Z) : option Z := lh_next <$> h !! a.
Definition prev_of (h : lheap) (a : Z) : option Z := lh_prev <$> h !! a.

(** Consecutive addresses of [l] are linked in both directions. *)
Fixpoint chain (h : lheap) (l : list Z) : Prop :=
  match l with
  | a :: (b :: _) as l' => next_of h a = Some b ∧ prev_of h b = Some a ∧ chain h l'
  | _ => True
  end.

(** [head] is the head of a ring whose entries are [xs], in this order. *)
Definition dll (h : lheap) (head : Z) (xs : list Z) : Prop :=
  NoDup (head :: xs) ∧ chain h (head :: xs ++ [head]).

(** Two stores agree outside a set of cells. *)
Definition same_outside (l : list Z) (h h' : lheap) : Prop :=
  ∀ a, a ∉ l → h' !! a = h !! a.

(** ** Field-level reasoning *)

Section fields.
Implicit Types (h : lheap) (p v a : Z).

Lemma wp_ld_next p v (Q : Z → lheap → Prop) h :
  next_of h p = Some v → Q v h → wp (ld_next p) Q h.
Proof.
  rewrite /next_of. intros (c & Hc & ->)%fmap_Some HQ.
  rewrite /wp /ld_next /bind /get /deref /= Hc. done.
Qed.

Lemma wp_ld_prev p v (Q : Z → lheap → Prop) h :
  prev_of h p = Some v → Q v h → wp (ld_prev p) Q h.
Proof.
  rewrite /prev_of. intros (c & Hc & ->)%fmap_Some HQ.
  rewrite /wp /ld_prev /bind /get /deref /= Hc. done.
Qed.

Lemma wp_st_next p v (Q : unit → lheap → Prop) h :
  is_Some (h !! p) →
  (∀ h', (∀ a, next_of h' a = if decide (p = a) then Some v else next_of h a) →
         (∀ a, prev_of h' a = prev_of h a) →
         same_outside [p] h h' → dom h' = dom h → Q tt h') →
  wp (st_next p v) Q h.
Proof.
  intros [c Hc] HQ. rewrite /wp /st_next /bind /get /deref /modify /= Hc /=.
  apply HQ.
  - intros a. rewrite /next_of lookup_insert. by case_decide.
  - intros a. rewrite /prev_of lookup_insert. case_decide; subst; by rewrite ?Hc.
  - intros a Ha. rewrite lookup_insert_ne //. set_solver.
  - rewrite dom_insert_lookup_L; [by exists c|done].
Qed.

Lemma wp_st_prev p v (Q : unit → lheap → Prop) h :
  is_Some (h !! p) →
  (∀ h', (∀ a, prev_of h' a = if decide (p = a) then Some v else prev_of h a) →
         (∀ a, next_of h' a = next_of h a) →
         same_outside [p] h h' → dom h' = dom h → Q tt h') →
  wp (st_prev p v) Q h.
Proof.
  intros [c Hc] HQ. rewrite /wp /st_prev /bind /get /deref /modify /= Hc /=.
  apply HQ.
  - intros a. rewrite /prev_of lookup_insert. by case_decide.
  - intros a. rewrite /next_of lookup_insert. case_decide; subst; by rewrite ?Hc.
  - intros a Ha. rewrite lookup_insert_ne //. set_solver.
  - rewrite dom_insert_lookup_L; [by exists c|done].
Qed.

Lemma next_of_is_Some h a b : next_of h a = Some b → is_Some (h !! a).
Proof. rewrite /next_of. by intros (c & -> & _)%fmap_Some. Qed.
Lemma prev_of_is_Some h a b : prev_of h a = Some b → is_Some (h !! a).
Proof. rewrite /prev_of. by intros (c & -> & _)%fmap_Some. Qed.
Lemma is_Some_dom_eq h h' a : dom h' = dom h → is_Some (h !! a) → is_Some (h' !! a).
Proof. intros Hd. rewrite -!elem_of_dom. by rewrite Hd. Qed.

Lemma same_outside_trans l1 l2 l3 h1 h2 h3 :
  same_outside l1 h1 h2 → same_outside l2 h2 h3 → l1 ⊆ l3 → l2 ⊆ l3 →
  same_outside l3 h1 h3.
Proof. intros H1 H2 ?? a ?. rewrite H2; [set_solver|]. apply H1. set_solver. Qed.
End fields.

(** ** Chains *)

Section chains.
Implicit Types (h : lheap) (l : list Z).

Lemma chain_cons h a b l :
  chain h (a :: b :: l) ↔
  next_of h a = Some b ∧ prev_of h b = Some a ∧ chain h (b :: l).
Proof. done. Qed.

Lemma chain_app h l1 a l2 :
  chain h (l1 ++ a :: l2) ↔ chain h (l1 ++ [a]) ∧ chain h (a :: l2).
Proof.
  induction l1 as [|x [|y l1] IH]; simpl.
  - by destruct l2; naive_solver.
  - destruct l2; naive_solver.
  - rewrite /= in IH. naive_solver.
Qed.

(** A chain depends on the successors of all but its last cell and on the
    predecessors of all but its first. *)
Lemma chain_ext h h' l :
  (∀ a, a ∈ removelast l → next_of h' a = next_of h a) →
  (∀ a, a ∈ tail l → prev_of h' a = prev_of h a) →
  chain h l → chain h' l.
Proof.
  induction l as [|a [|b l] IH]; [done..|]. intros Hn Hp (? & ? & ?).
  split_and!.
  - rewrite Hn //. simpl. set_solver.
  - rewrite Hp //. simpl. set_solver.
  - apply IH; [..|done].
    + intros x Hx. apply Hn. simpl. set_solver.
    + intros x Hx. apply Hp. simpl in *. set_solver.
Qed.

Lemma chain_same_outside h h' l1 l :
  same_outside l1 h h' → l1 ## l → chain h l → chain h' l.
Proof.
  intros Hs Hd. apply chain_ext; intros a Ha.
  - rewrite /next_of Hs //. intros ?. apply (Hd a); [done|].
    clear -Ha. induction l as [|x [|y l] IH]; simpl in *; set_solver.
  - rewrite /prev_of Hs //. intros ?. apply (Hd a); [done|].
    destruct l; simpl in *; set_solver.
Qed.
End chains.

(** The cells of a ring, from the head back to the head: each cell occurs
    once as a source and once as a target of a link. *)
Definition ring (l : list Z) : Prop := NoDup (removelast l) ∧ NoDup (tail l).

Section rings.
Implicit Types (h : lheap) (l : list Z).

Lemma ring_intro head xs : NoDup (head :: xs) → ring (head :: xs ++ [head]).
Proof.
  intros Hnd. split.
  - change (head :: xs ++ [head]) with ((head :: xs) ++ [head]).
    by rewrite removelast_last.
  - simpl. apply NoDup_app. apply NoDup_cons in Hnd as [??].
    split_and!; [done| |apply NoDup_singleton]. set_solver.
Qed.

Lemma ring_split l1 p n l2 :
  ring (l1 ++ p :: n :: l2) →
  p ∉ l1 ∧ n ∉ tail (l1 ++ [p]) ∧ p ∉ removelast (n :: l2) ∧ n ∉ l2.
Proof.
  intros [H1 H2]. rewrite removelast_app in H1; [done|].
  change (removelast (p :: n :: l2)) with (p :: removelast (n :: l2)) in H1.
  apply NoDup_app in H1 as (_ & H1a & H1b). apply NoDup_cons in H1b as [? _].
  replace (l1 ++ p :: n :: l2) with ((l1 ++ [p]) ++ n :: l2) in H2
    by (by rewrite -app_assoc).
  assert (tail ((l1 ++ [p]) ++ n :: l2) = tail (l1 ++ [p]) ++ n :: l2) as Ht
    by (by destruct l1).
  rewrite Ht in H2. apply NoDup_app in H2 as (_ & H2a & H2b).
  apply NoDup_cons in H2b as [? _]. split_and!; [| |done|done].
  - intros Hp. apply (H1a p Hp). set_solver.
  - intros Hn. apply (H2a n Hn). set_solver.
Qed.

Lemma elem_of_removelast l a : a ∈ removelast l → a ∈ l.
Proof. induction l as [|x [|y l] IH]; simpl in *; set_solver. Qed.
Lemma elem_of_tail l a : a ∈ tail l → a ∈ l.
Proof. destruct l; simpl; set_solver. Qed.

(** Insertion between two consecutive cells of a ring. *)
Lemma _list_add_chain h new p n l1 l2 :
  ring (l1 ++ p :: n :: l2) → new ∉ l1 ++ p :: n :: l2 → is_Some (h !! new) →
  chain h (l1 ++ p :: n :: l2) →
  wp (_list_add new p n) (λ _ h',
    chain h' (l1 ++ p :: new :: n :: l2) ∧
    same_outside [p; n; new] h h' ∧ dom h' = dom h) h.
Proof.
  intros Hr Hnew Hsnew Hch.
  destruct (ring_split _ _ _ _ Hr) as (Hp & Hn & Hp' & Hn').
  apply chain_app in Hch as [Hc1 (Hpn & Hnp & Hc2)%chain_cons].
  rewrite /_list_add.
  apply wp_bind, wp_st_prev; [eapply prev_of_is_Some; eassumption|]. intros h1 P1 N1 S1 D1.
  apply wp_bind, wp_st_next; [by apply (is_Some_dom_eq h)|]. intros h2 N2 P2 S2 D2.
  apply wp_bind, wp_st_prev;
    [apply (is_Some_dom_eq h); [congruence|done]|]. intros h3 P3 N3 S3 D3.
  apply wp_st_next.
  { apply (is_Some_dom_eq h); [congruence|]. eapply next_of_is_Some; eassumption. }
  intros h4 N4 P4 S4 D4.
  assert (∀ a, p ≠ a → new ≠ a → next_of h4 a = next_of h a) as HN.
  { intros a ??. rewrite N4 decide_False // N3 N2 decide_False // N1 //. }
  assert (∀ a, n ≠ a → new ≠ a → prev_of h4 a = prev_of h a) as HP.
  { intros a ??. rewrite P4 P3 decide_False // P2 P1 decide_False //. }
  split_and!.
  - apply chain_app. split.
    + eapply chain_ext; [| |exact Hc1]; intros a Ha.
      * rewrite removelast_last in Ha. apply HN; set_solver.
      * apply HP; [set_solver|]. intros ->. apply Hnew.
        apply elem_of_tail in Ha. set_solver.
    + rewrite !chain_cons. split_and!.
      * by rewrite N4 decide_True.
      * by rewrite P4 P3 decide_True.
      * rewrite N4 decide_False; [set_solver|]. by rewrite N3 N2 decide_True.
      * rewrite P4 P3 decide_False; [set_solver|]. by rewrite P2 P1 decide_True.
      * eapply chain_ext; [| |exact Hc2]; intros a Ha.
        -- apply HN; [set_solver|]. intros ->. apply elem_of_removelast in Ha. set_solver.
        -- apply HP; set_solver.
  - intros a Ha. rewrite S4; [set_solver|]. rewrite S3; [set_solver|].
    rewrite S2; [set_solver|]. apply S1; set_solver.
  - congruence.
Qed.

(** Unlinking one cell of a ring. *)
Lemma list_del_internal_chain h p e n l1 l2 :
  ring (l1 ++ p :: e :: n :: l2) →
  chain h (l1 ++ p :: e :: n :: l2) →
  wp (list_del_internal p n) (λ _ h',
    chain h' (l1 ++ p :: n :: l2) ∧
    same_outside [p; n] h h' ∧ dom h' = dom h) h.
Proof.
  intros Hr Hch.
  destruct (ring_split _ _ _ _ Hr) as (Hp & _ & Hp' & _).
  replace (l1 ++ p :: e :: n :: l2) with ((l1 ++ [p]) ++ e :: n :: l2) in Hr, Hch
    by (by rewrite -app_assoc).
  destruct (ring_split _ _ _ _ Hr) as (_ & Hn & _ & Hn').
  apply chain_app in Hch as [Hc1 (Hen & Hne & Hc2)%chain_cons].
  rewrite -app_assoc in Hc1. apply chain_app in Hc1 as [Hc1 (Hpe & _)].
  rewrite /list_del_internal.
  apply wp_bind, wp_st_prev; [eapply prev_of_is_Some; eassumption|]. intros h1 P1 N1 S1 D1.
  apply wp_st_next.
  { apply (is_Some_dom_eq h); [congruence|]. eapply next_of_is_Some; eassumption. }
  intros h2 N2 P2 S2 D2. split_and!.
  - apply chain_app. split.
    + eapply chain_ext; [| |exact Hc1]; intros a Ha.
      * rewrite removelast_last in Ha. rewrite N2 decide_False; [set_solver|]. apply N1.
      * rewrite P2 P1 decide_False //. intros ->. apply Hn.
        destruct l1; simpl in *; set_solver.
    + rewrite chain_cons. split_and!.
      * by rewrite N2 decide_True.
      * by rewrite P2 P1 decide_True.
      * eapply chain_ext; [| |exact Hc2]; intros a Ha.
        -- rewrite N2 decide_False; [|apply N1]. intros ->. apply Hp'. simpl in *. set_solver.
        -- simpl in Ha. rewrite P2 P1 decide_False //. set_solver.
  - intros a Ha. rewrite S2; [set_solver|]. apply S1; set_solver.
  - congruence.
Qed.
End rings.

(** ** Operations refine the operations on sequences *)

Section dll.
Implicit Types (h : lheap) (xs ys zs : list Z) (head e new : Z).

Lemma dll_frame h h' l head xs :
  same_outside l h h' → l ## head :: xs → dll h head xs → dll h' head xs.
Proof.
  intros Hs Hd [? Hc]. split; [done|]. eapply chain_same_outside; [exact Hs| |exact Hc].
  set_solver.
Qed.

Lemma cons_last x xs : ∃ l y, x :: xs = l ++ [y].
Proof. destruct (@exists_last _ (x :: xs)) as (l & y & ->); eauto. Qed.

Lemma app_head xs x : ∃ y l, xs ++ [x] = y :: l.
Proof. destruct xs; simpl; eauto. Qed.

Lemma list_add_wp h new head xs :
  dll h head xs → new ∉ head :: xs → is_Some (h !! new) →
  wp (list_add new head) (λ _ h',
    dll h' head (new :: xs) ∧ same_outside (new :: head :: xs) h h' ∧
    dom h' = dom h) h.
Proof.
  intros [Hnd Hc] Hnew Hs. pose proof (ring_intro _ _ Hnd) as Hr.
  destruct (app_head xs head) as (n & l2 & E). rewrite E in Hc Hr.
  assert (n :: l2 ⊆ head :: xs) as Hsub by (rewrite -E; set_solver).
  rewrite /list_add. apply wp_bind. eapply wp_ld_next; [apply Hc|].
  assert (new ∉ head :: n :: l2) as Hnew' by set_solver.
  eapply wp_mono; [exact (_list_add_chain h new head n [] l2 Hr Hnew' Hs Hc)|].
  intros _ h' (Hc' & So & D). split; [split|split; [|done]].
  - apply NoDup_cons in Hnd as [??]. apply NoDup_cons. split; [set_solver|].
    apply NoDup_cons. set_solver.
  - rewrite /= E. exact Hc'.
  - intros a Ha. apply So. set_solver.
Qed.

Lemma list_add_tail_wp h new head xs :
  dll h head xs → new ∉ head :: xs → is_Some (h !! new) →
  wp (list_add_tail new head) (λ _ h',
    dll h' head (xs ++ [new]) ∧ same_outside (new :: head :: xs) h h' ∧
    dom h' = dom h) h.
Proof.
  intros [Hnd Hc] Hnew Hs. pose proof (ring_intro _ _ Hnd) as Hr.
  destruct (cons_last head xs) as (l1 & p & E).
  assert (head :: xs ++ [head] = l1 ++ p :: [head]) as E2.
  { change (head :: xs ++ [head]) with ((head :: xs) ++ [head]).
    by rewrite E -app_assoc. }
  rewrite E2 in Hc Hr. pose proof Hc as (_ & _ & Hp & _)%chain_app.
  rewrite /list_add_tail. apply wp_bind. eapply wp_ld_prev; [exact Hp|].
  assert (new ∉ l1 ++ p :: [head]) as Hnew' by (rewrite -E2; set_solver).
  eapply wp_mono; [exact (_list_add_chain h new p head l1 [] Hr Hnew' Hs Hc)|].
  intros _ h' (Hc' & So & D). split; [split|split; [|done]].
  - apply NoDup_cons in Hnd as [??]. apply NoDup_cons. split; [set_solver|].
    apply NoDup_app. split_and!; [done|set_solver|apply NoDup_singleton].
  - change (head :: (xs ++ [new]) ++ [head]) with (((head :: xs) ++ [new]) ++ [head]).
    by rewrite E -!app_assoc.
  - assert (p ∈ head :: xs) as Hin by (rewrite E; clear; set_solver).
    intros a Ha. apply So. clear -Ha Hin. set_solver.
Qed.

(** The unlinking step shared by deletion and moves. *)
Lemma unlink_wp h head ys e zs :
  dll h head (ys ++ e :: zs) →
  ∃ p n, prev_of h e = Some p ∧ next_of h e = Some n ∧
  wp (list_del_internal p n) (λ _ h',
    dll h' head (ys ++ zs) ∧ same_outside (head :: ys ++ zs) h h' ∧
    dom h' = dom h ∧ is_Some (h' !! e)) h.
Proof.
  intros [Hnd Hc]. pose proof (ring_intro _ _ Hnd) as Hr.
  destruct (cons_last head ys) as (l1 & p & E1).
  destruct (app_head zs head) as (n & l2 & E2).
  assert (head :: (ys ++ e :: zs) ++ [head] = l1 ++ p :: e :: n :: l2) as E3.
  { change (head :: (ys ++ e :: zs) ++ [head])
      with ((head :: ys ++ e :: zs) ++ [head]).
    change (head :: ys ++ e :: zs) with ((head :: ys) ++ e :: zs).
    by rewrite E1 -!app_assoc /= E2. }
  rewrite E3 in Hc Hr.
  pose proof Hc as (_ & (_ & Hp & (Hn & _)%chain_cons)%chain_cons)%chain_app.
  exists p, n. split_and!; [done|done|].
  eapply wp_mono; [exact (list_del_internal_chain h p e n l1 l2 Hr Hc)|].
  intros _ h' (Hc' & So & D). split; [split|split; [|split; [done|]]].
  - change (NoDup ((head :: ys) ++ zs)).
    change (NoDup ((head :: ys) ++ e :: zs)) in Hnd.
    apply NoDup_app in Hnd as (?&?&[??]%NoDup_cons). apply NoDup_app. set_solver.
  - change (head :: (ys ++ zs) ++ [head]) with (((head :: ys) ++ zs) ++ [head]).
    by rewrite E1 -!app_assoc E2.
  - intros a Ha. apply So.
    assert (p ∈ head :: ys) as Hin1 by (rewrite E1; clear; set_solver).
    assert (n ∈ zs ++ [head]) as Hin2 by (rewrite E2; clear; set_solver).
    clear -Ha Hin1 Hin2. set_solver.
  - eapply is_Some_dom_eq; [exact D|]. eapply prev_of_is_Some; eassumption.
Qed.

Lemma INIT_LIST_HEAD_wp h p :
  is_Some (h !! p) →
  wp (INIT_LIST_HEAD p) (λ _ h', dll h' p [] ∧ same_outside [p] h h' ∧
                                 dom h' = dom h) h.
Proof.
  intros Hs. apply wp_bind, wp_st_next; [done|]. intros h1 N1 P1 S1 D1.
  apply wp_st_prev; [by apply (is_Some_dom_eq h)|]. intros h2 P2 N2 S2 D2.
  split; [split|split; [|congruence]].
  - apply NoDup_singleton.
  - simpl. rewrite N2 N1 P2. by rewrite !decide_True.
  - intros a Ha. rewrite S2 //. by apply S1.
Qed.

Lemma list_del_wp h head ys e zs :
  dll h head (ys ++ e :: zs) →
  wp (list_del e) (λ _ h',
    dll h' head (ys ++ zs) ∧ dll h' e [] ∧
    same_outside (head :: ys ++ e :: zs) h h' ∧ dom h' = dom h) h.
Proof.
  intros Hd. pose proof Hd as [Hnd _].
  destruct (unlink_wp _ _ _ _ _ Hd) as (p & n & Hp & Hn & Hw).
  apply wp_bind. eapply wp_ld_prev; [exact Hp|]. apply wp_bind.
  eapply wp_ld_next; [exact Hn|]. apply wp_bind. eapply wp_mono; [exact Hw|].
  intros _ h1 (Hd1 & S1 & D1 & Hs).
  eapply wp_mono; [by apply INIT_LIST_HEAD_wp|].
  intros _ h2 (Hd2 & S2 & D2). split_and!; [|done| |congruence].
  - eapply dll_frame; [exact S2| |exact Hd1].
    change (NoDup ((head :: ys) ++ e :: zs)) in Hnd.
    apply NoDup_app in Hnd as (?&?&[??]%NoDup_cons). set_solver.
  - intros a Ha. rewrite S2; [set_solver|]. apply S1. set_solver.
Qed.
End dll.

Section moves.
Implicit Types (h : lheap) (xs ys zs : list Z) (head e new : Z).

Lemma ring_parts head ys e zs :
  NoDup (head :: ys ++ e :: zs) → e ∉ head :: ys ++ zs ∧ NoDup (head :: ys ++ zs).
Proof.
  change (head :: ys ++ e :: zs) with ((head :: ys) ++ e :: zs).
  change (head :: ys ++ zs) with ((head :: ys) ++ zs).
  intros (?&?&[??]%NoDup_cons)%NoDup_app. split; [set_solver|].
  apply NoDup_app. set_solver.
Qed.

(** Moving an entry to the tail of its own list. *)
Lemma list_move_tail_same_wp h head ys e zs :
  dll h head (ys ++ e :: zs) →
  wp (list_move_tail e head) (λ _ h',
    dll h' head (ys ++ zs ++ [e]) ∧
    same_outside (head :: ys ++ e :: zs) h h' ∧ dom h' = dom h) h.
Proof.
  intros Hd. destruct (ring_parts _ _ _ _ (proj1 Hd)) as [He _].
  destruct (unlink_wp _ _ _ _ _ Hd) as (p & n & Hp & Hn & Hw).
  apply wp_bind. eapply wp_ld_prev; [exact Hp|]. apply wp_bind.
  eapply wp_ld_next; [exact Hn|]. apply wp_bind. eapply wp_mono; [exact Hw|].
  intros _ h1 (Hd1 & S1 & D1 & Hs).
  eapply wp_mono; [exact (list_add_tail_wp h1 e head (ys ++ zs) Hd1 He Hs)|].
  intros _ h2 (Hd2 & S2 & D2). split; [|split; [|congruence]].
  - by rewrite app_assoc.
  - intros a Ha. rewrite S2; [|apply S1]; clear -Ha; set_solver.
Qed.

(** Moving an entry between two lists. *)
Lemma list_move_wp h head1 ys e zs head2 xs :
  dll h head1 (ys ++ e :: zs) → dll h head2 xs →
  head1 :: ys ++ e :: zs ## head2 :: xs →
  wp (list_move e head2) (λ _ h',
    dll h' head1 (ys ++ zs) ∧ dll h' head2 (e :: xs) ∧
    same_outside (head1 :: ys ++ e :: zs ++ head2 :: xs) h h' ∧ dom h' = dom h) h.
Proof.
  intros Hd Hd2 Hdis. destruct (ring_parts _ _ _ _ (proj1 Hd)) as [He _].
  destruct (unlink_wp _ _ _ _ _ Hd) as (p & n & Hp & Hn & Hw).
  apply wp_bind. eapply wp_ld_prev; [exact Hp|]. apply wp_bind.
  eapply wp_ld_next; [exact Hn|]. apply wp_bind. eapply wp_mono; [exact Hw|].
  intros _ h1 (Hd1 & S1 & D1 & Hs).
  assert (dll h1 head2 xs) as Hd2'.
  { eapply dll_frame; [exact S1| |exact Hd2]. clear -Hdis. set_solver. }
  assert (e ∉ head2 :: xs) as He2 by (clear -Hdis; set_solver).
  eapply wp_mono; [exact (list_add_wp h1 e head2 xs Hd2' He2 Hs)|].
  intros _ h2 (Hd3 & S2 & D2). split_and!; [|done| |congruence].
  - eapply dll_frame; [exact S2| |exact Hd1]. clear -Hdis He. set_solver.
  - intros a Ha. rewrite S2; [|apply S1]; clear -Ha; set_solver.
Qed.

Lemma list_move_tail_wp h head1 ys e zs head2 xs :
  dll h head1 (ys ++ e :: zs) → dll h head2 xs →
  head1 :: ys ++ e :: zs ## head2 :: xs →
  wp (list_move_tail e head2) (λ _ h',
    dll h' head1 (ys ++ zs) ∧ dll h' head2 (xs ++ [e]) ∧
    same_outside (head1 :: ys ++ e :: zs ++ head2 :: xs) h h' ∧ dom h' = dom h) h.
Proof.
  intros Hd Hd2 Hdis. destruct (ring_parts _ _ _ _ (proj1 Hd)) as [He _].
  destruct (unlink_wp _ _ _ _ _ Hd) as (p & n & Hp & Hn & Hw).
  apply wp_bind. eapply wp_ld_prev; [exact Hp|]. apply wp_bind.
  eapply wp_ld_next; [exact Hn|]. apply wp_bind. eapply wp_mono; [exact Hw|].
  intros _ h1 (Hd1 & S1 & D1 & Hs).
  assert (dll h1 head2 xs) as Hd2'.
  { eapply dll_frame; [exact S1| |exact Hd2]. clear -Hdis. set_solver. }
  assert (e ∉ head2 :: xs) as He2 by (clear -Hdis; set_solver).
  eapply wp_mono; [exact (list_add_tail_wp h1 e head2 xs Hd2' He2 Hs)|].
  intros _ h2 (Hd3 & S2 & D2). split_and!; [|done| |congruence].
  - eapply dll_frame; [exact S2| |exact Hd1]. clear -Hdis He. set_solver.
  - intros a Ha. rewrite S2; [|apply S1]; clear -Ha; set_solver.
Qed.

Lemma list_empty_wp h head xs :
  dll h head xs →
  wp (list_empty head) (λ b h', b = bool_decide (xs = []) ∧ h' = h) h.
Proof.
  intros [Hnd Hc]. destruct (app_head xs head) as (n & l2 & E). rewrite E in Hc.
  apply wp_bind. eapply wp_ld_next; [apply Hc|]. apply wp_ret. split; [|done].
  apply NoDup_cons in Hnd as [Hnd _].
  destruct xs as [|x xs]; simplify_eq/=; [by rewrite Z.eqb_refl|].
  apply Z.eqb_neq. set_solver.
Qed.

Lemma list_for_each_from_wp h head xs ys fuel :
  NoDup (head :: ys ++ xs) → chain h (xs ++ [head]) → (length xs < fuel)%nat →
  wp (list_for_each_from fuel (hd head xs) head) (λ l h', l = xs ∧ h' = h) h.
Proof.
  revert ys fuel. induction xs as [|x xs IH]; intros ys fuel Hnd Hc Hf.
  - destruct fuel; [simpl in Hf; lia|]. simpl. by rewrite Z.eqb_refl.
  - destruct fuel as [|fuel]; [simpl in Hf; lia|]. simpl in Hf |- *.
    assert (x ≠ head) as Hne by (apply NoDup_cons in Hnd as [? _]; set_solver).
    rewrite (proj2 (Z.eqb_neq _ _) Hne).
    assert (next_of h x = Some (hd head xs) ∧ chain h (xs ++ [head])) as [Hn Hc'].
    { destruct xs; simpl in Hc |- *; naive_solver. }
    apply wp_bind. eapply wp_ld_next; [exact Hn|]. apply wp_bind.
    eapply wp_mono; [apply (IH (ys ++ [x])); [by rewrite -app_assoc|done|lia]|].
    by intros l h' [-> ->].
Qed.

Lemma list_for_each_wp h head xs fuel :
  dll h head xs → (length xs < fuel)%nat →
  wp (list_for_each fuel head) (λ l h', l = xs ∧ h' = h) h.
Proof.
  intros [Hnd Hc] Hf.
  assert (next_of h head = Some (hd head xs) ∧ chain h (xs ++ [head])) as [Hn Hc'].
  { destruct xs; simpl in Hc |- *; naive_solver. }
  apply wp_bind. eapply wp_ld_next; [exact Hn|].
  by apply list_for_each_from_wp with (ys := []).
Qed.
End moves.

(** ** Queues *)

(** Moving an entry between queues ([list_move_tail], the operation of the
    scheduler's run, wait and dead queues): the entry leaves the first ring wherever it
    was in it and becomes the last of the second, the order of all other
    entries is kept, a walk of the second queue finds exactly its entries, and
    no cell outside the two rings is written. *)
Theorem queue_move_correct h head1 ys e zs head2 xs fuel :
  dll h head1 (ys ++ e :: zs) → dll h head2 xs →
  head1 :: ys ++ e :: zs ## head2 :: xs → (length xs + 1 < fuel)%nat →
  ∃ h', list_move_tail e head2 h = Ret (tt, h') ∧
    dll h' head1 (ys ++ zs) ∧ dll h' head2 (xs ++ [e]) ∧
    list_for_each fuel head2 h' = Ret (xs ++ [e], h') ∧
    same_outside (head1 :: ys ++ e :: zs ++ head2 :: xs) h h'.
Proof.
  intros H1 H2 Hd Hf.
  destruct (wp_elim _ _ _ (list_move_tail_wp _ _ _ _ _ _ _ H1 H2 Hd)) as ([] & h' & E & D1 & D2 & Hs & _).
  exists h'. split_and!; [done|done|done| |done].
  destruct (wp_elim _ _ _ (list_for_each_wp h' head2 (xs ++ [e]) fuel D2 ltac:(rewrite length_app /=; lia)))
    as (r & h2 & Er & -> & ->). done.
Qed.

(** [list_add] and [list_del] are inverse: an entry added at the front and
    then deleted leaves the ring with its entries in order, and is itself an empty
    ring ([list_empty] holds of it), whatever else the store holds. *)
Theorem list_add_del_roundtrip h new head xs :
  dll h head xs → new ∉ head :: xs → is_Some (h !! new) →
  ∃ h', (do! list_add new head then do! list_del new then list_empty new) h = Ret (true, h') ∧
    dll h' head xs ∧ dll h' new [] ∧ same_outside (new :: head :: xs) h h'.
Proof.
  intros Hd Hn Hs.
  enough (wp (do! list_add new head then do! list_del new then list_empty new) (λ r h', r = true ∧
    dll h' head xs ∧ dll h' new [] ∧ same_outside (new :: head :: xs) h h') h) as Hw.
  { destruct (wp_elim _ _ _ Hw) as (r & h' & E & -> & H). by exists h'. }
  apply wp_bind. eapply wp_mono; [exact (list_add_wp _ _ _ _ Hd Hn Hs)|].
  intros _ h1 (D1 & S1 & _). apply wp_bind.
  eapply wp_mono; [exact (list_del_wp h1 head [] new xs D1)|].
  intros _ h2 (D2 & D3 & S2 & _).
  eapply wp_mono; [exact (list_empty_wp h2 new [] D3)|].
  intros r h3 [-> ->]. split_and!; [done|done|done|].
  intros a Ha. rewrite S2; [|by apply S1]. simpl. set_solver.
Qed.

(** Two queues: 100 with the entries 1 and 2, 200 with the entry 3. *)
Definition ex_queues : lheap :=
  list_to_map [(100, mk_list_head 1 2); (1, mk_list_head 2 100); (2, mk_list_head 100 1);
               (200, mk_list_head 3 3); (3, mk_list_head 200 200); (4, mk_list_head 0 0)].

Lemma queue_move_witness : ∃ h', list_move_tail 1 200 ex_queues = Ret (tt, h') ∧
  dll h' 100 [2] ∧ dll h' 200 [3; 1] ∧ list_for_each 4 200 h' = Ret ([3; 1], h') ∧
  same_outside (100 :: [] ++ 1 :: [2] ++ 200 :: [3]) ex_queues h'.
Proof.
  apply (queue_move_correct ex_queues 100 [] 1 [2] 200 [3] 4).
  - split; [decide_closed|vm_compute; tauto].
  - split; [decide_closed|vm_compute; tauto].
  - intros a. rewrite !elem_of_cons !elem_of_nil. lia.
  - simpl. lia.
Defined.

Lemma list_add_del_witness : ∃ h',
  (do! list_add 4 100 then do! list_del 4 then list_empty 4) ex_queues = Ret (true, h') ∧
  dll h' 100 [1; 2] ∧ dll h' 4 [] ∧ same_outside [4; 100; 1; 2] ex_queues h'.
Proof.
  apply (list_add_del_roundtrip ex_queues 4 100 [1; 2]).
  - split; [decide_closed|vm_compute; tauto].
  - decide_closed.
  - vm_compute. by eexists.
Defined.
