(* ===== verification/HList.v ===== *)
(** * Hash lists ([struct hlist_head], [struct hlist_node] of
      [include/scaraOS/list.h])

    Lists with a head of one pointer: a node knows its successor and the
    address of the pointer that designates it, in the head or in the node
    before.  The store is one of pointers: a node at address [n] has its
    [next] at [n] and its [pprev] at [n + 4].  Every operation is shown
    to do to the sequence of nodes what its name says, except
    [hlist_add_after], which cannot. *)
From S2P Require Import Prelude.

Abbreviation ptrs := (gmap Z Z).
Abbreviation H := (M ptrs).

Definition ld (a : Z) : H Z := let! h := get in deref (h !! a).
Definition st (a v : Z) : H unit := let! _ := ld a in modify (insert a v).

(** The fields. *)
Definition first (h : Z) : Z := h.
Definition next (n : Z) : Z := n.
Definition pprev (n : Z) : Z := n + 4.

Definition INIT_HLIST_HEAD (ptr : Z) : H unit := st (first ptr) NULL.
Definition INIT_HLIST_NODE (ptr : Z) : H unit := do! st (next ptr) NULL then st (pprev ptr) NULL.

Definition hlist_unhashed (n : Z) : H bool := let! p := ld (pprev n) in ret (p =? NULL).
Definition hlist_empty (h : Z) : H bool := let! f := ld (first h) in ret (f =? NULL).

Definition hlist_del (n : Z) : H unit :=
  let! nxt := ld (next n) in
  let! pp := ld (pprev n) in
  do! st pp nxt then
  do! when (ctrue nxt) (st (pprev nxt) pp) then
  INIT_HLIST_NODE n.

Definition hlist_add_head (n h : Z) : H unit :=
  let! f := ld (first h) in
  do! st (next n) f then
  do! when (ctrue f) (st (pprev f) (next n)) then
  do! st (first h) n then
  st (pprev n) (first h).

Definition hlist_add_before (n nxt : Z) : H unit :=
  let! pp := ld (pprev nxt) in
  do! st (pprev n) pp then
  do! st (next n) nxt then
  do! st (pprev nxt) (next n) then
  let! pp := ld (pprev n) in
  st pp n.

Definition hlist_add_after (n nxt : Z) : H unit :=
  let! nn := ld (next n) in
  do! st (next nxt) nn then
  let! pp := ld (pprev nxt) in
  do! st pp n then
  st (next n) nxt.

(** [hlist_for_each]: the nodes the body runs for. *)
Fixpoint hlist_walk (fuel : nat) (pos : Z) : H (list Z) :=
  match fuel with
  | O => nofuel
  | S fuel =>
    if pos =? NULL then ret [] else
    let! n := ld (next pos) in
    let! rest := hlist_walk fuel n in
    ret (pos :: rest)
  end.
Definition hlist_for_each (fuel : nat) (head : Z) : H (list Z) :=
  let! f := ld (first head) in hlist_walk fuel f.

(** [hlist_for_each_safe]: the successor is read before the body runs. *)
Fixpoint hlist_walk_safe (body : Z → H unit) (fuel : nat) (pos : Z) : H unit :=
  match fuel with
  | O => nofuel
  | S fuel =>
    if pos =? NULL then ret tt else
    let! n := ld (next pos) in
    do! body pos then
    hlist_walk_safe body fuel n
  end.
Definition hlist_for_each_safe (body : Z → H unit) (fuel : nat) (head : Z) : H unit :=
  let! pos := ld (first head) in hlist_walk_safe body fuel pos.

(** ** The contract *)

(** From the pointer at [pp] on: the nodes [xs], each with the address of the
    pointer to it. *)
Fixpoint hseg (h : ptrs) (pp : Z) (xs : list Z) : Prop :=
  match xs with
  | [] => h !! pp = Some NULL
  | x :: xs => h !! pp = Some x ∧ x ≠ NULL ∧ h !! pprev x = Some pp ∧ hseg h (next x) xs
  end.

(** The pointers of a node, of nodes, of a list. *)
Definition node_ptrs (x : Z) : list Z := [next x; pprev x].
Definition cells (xs : list Z) : list Z := xs ≫= node_ptrs.
Definition hlist (h : ptrs) (hd : Z) (xs : list Z) : Prop :=
  hseg h (first hd) xs ∧ NoDup (first hd :: cells xs).

(** A node that is not on a list. *)
Definition node_ok (h : ptrs) (n : Z) : Prop := n ≠ NULL ∧ is_Some (h !! next n) ∧ is_Some (h !! pprev n).

Definition same_but (l : list Z) (h h' : ptrs) : Prop := ∀ a, a ∉ l → h' !! a = h !! a.

Lemma cells_cons x xs : cells (x :: xs) = next x :: pprev x :: cells xs.
Proof. done. Qed.
Lemma cells_app xs ys : cells (xs ++ ys) = cells xs ++ cells ys.
Proof. apply bind_app. Qed.

(** The part of a list before the pointer at its end. *)
Fixpoint hpre (h : ptrs) (pp : Z) (xs : list Z) : Prop :=
  match xs with
  | [] => True
  | x :: xs => h !! pp = Some x ∧ x ≠ NULL ∧ h !! pprev x = Some pp ∧ hpre h (next x) xs
  end.
Fixpoint end_ptr (pp : Z) (xs : list Z) : Z :=
  match xs with [] => pp | x :: xs => end_ptr (next x) xs end.

Lemma hseg_app h pp xs ys : hseg h pp (xs ++ ys) ↔ hpre h pp xs ∧ hseg h (end_ptr pp xs) ys.
Proof. revert pp. induction xs as [|x xs IH]; intros pp; cbn; [naive_solver|]. rewrite IH. naive_solver. Qed.

Lemma end_ptr_in pp xs : end_ptr pp xs ∈ pp :: cells xs.
Proof.
  revert pp. induction xs as [|x xs IH]; intros pp; cbn [end_ptr]; [set_solver|]. specialize (IH (next x)). rewrite cells_cons. set_solver.
Qed.

Lemma hseg_cong h h' pp xs : (∀ a, a ∈ pp :: cells xs → h' !! a = h !! a) → hseg h pp xs → hseg h' pp xs.
Proof.
  revert pp. induction xs as [|x xs IH]; intros pp E; cbn [hseg]; [rewrite E; [set_solver|done]|].
  rewrite cells_cons in E. intros (H1 & H2 & H3 & H4). split_and!; [rewrite E; [set_solver|done]|done|rewrite E; [set_solver|done]|].
  apply IH; [|done]. intros a Ha. apply E. set_solver.
Qed.

Lemma hpre_cong h h' pp xs : NoDup (pp :: cells xs) → (∀ a, a ∈ pp :: cells xs → a ≠ end_ptr pp xs → h' !! a = h !! a) →
  hpre h pp xs → hpre h' pp xs.
Proof.
  revert pp. induction xs as [|x xs IH]; intros pp Hnd E; cbn [hpre end_ptr] in *; [done|]. rewrite cells_cons in E, Hnd.
  intros (H1 & H2 & H3 & H4). pose proof (end_ptr_in (next x) xs) as He. apply elem_of_cons in He.
  rewrite !NoDup_cons !not_elem_of_cons in Hnd. destruct Hnd as ((Np & _ & Npc) & (Nn & Nc) & Nq & Nd).
  split_and!; [|done| |].
  - rewrite E; [by left| |done]. intros Ee. rewrite -Ee in He. destruct He as [He|He]; [congruence|done].
  - rewrite E; [right; right; by left| |done]. intros Ee. rewrite -Ee in He. destruct He as [He|He]; [congruence|done].
  - apply IH; [by apply NoDup_cons| |done]. intros a Ha Hne. apply E; [|done]. rewrite !elem_of_cons in Ha |- *. tauto.
Qed.

Lemma wp_ld a v h (Q : Z → ptrs → Prop) : h !! a = Some v → Q v h → wp (ld a) Q h.
Proof. intros Ha HQ. apply wp_bind. rewrite /wp /= Ha. done. Qed.
Lemma wp_st a v h (Q : unit → ptrs → Prop) : is_Some (h !! a) → Q tt (<[a := v]> h) → wp (st a v) Q h.
Proof. intros [w Ha] HQ. apply wp_bind. eapply wp_ld; [exact Ha|done]. Qed.

(** Look-ups behind stores to other pointers. *)
Ltac ptr_ne := solve [congruence | lia].
Ltac look := repeat first [rewrite lookup_insert_eq | rewrite lookup_insert_ne; [ptr_ne|]].

(** The pointer that designates the first of [ys] when [xs] come before it,
    against the nodes that follow. *)
Lemma end_ptr_ne hd xs ys a : NoDup (hd :: cells (xs ++ ys)) → a ∈ cells ys → end_ptr hd xs ≠ a.
Proof.
  rewrite cells_app app_comm_cons. intros (_ & Hd & _)%NoDup_app Ha <-. apply (Hd _ (end_ptr_in hd xs) Ha).
Qed.

Lemma pre_ne hd xs ys a b : NoDup (hd :: cells (xs ++ ys)) → a ∈ hd :: cells xs → b ∈ cells ys → a ≠ b.
Proof. rewrite cells_app app_comm_cons. intros (_ & Hd & _)%NoDup_app Ha Hb <-. by apply (Hd a). Qed.

Lemma NoDup_pre hd xs ys : NoDup (hd :: cells (xs ++ ys)) → NoDup (hd :: cells xs) ∧ NoDup (cells ys).
Proof. rewrite cells_app app_comm_cons. intros (H1 & _ & H2)%NoDup_app. done. Qed.

(** A new node at the head. *)
Theorem hlist_add_head_correct h hd xs n : hlist h hd xs → node_ok h n → NoDup (hd :: cells (n :: xs)) →
  ∃ h', hlist_add_head n hd h = Ret (tt, h') ∧ hlist h' hd (n :: xs) ∧ same_but (hd :: cells (n :: xs)) h h'.
Proof.
  intros [Hs _] (Hn & Hnn & Hnp) Hnd. rewrite /first in Hs.
  assert (Hw : wp (hlist_add_head n hd) (λ _ h', hlist h' hd (n :: xs) ∧ same_but (hd :: cells (n :: xs)) h h') h).
  2: { destruct (wp_elim _ _ _ Hw) as ([] & h' & E & Hq). by exists h'. }
  pose proof Hnd as Hnd'. rewrite cells_cons !NoDup_cons !not_elem_of_cons in Hnd'. destruct Hnd' as ((N1 & N2 & N3) & (N4 & N5) & N6 & N7).
  unfold next, pprev, first in *. rewrite /hlist_add_head /next /pprev /first. destruct xs as [|x xs].
  - cbn in Hs. apply wp_bind. eapply wp_ld; [exact Hs|]. apply wp_bind, wp_st; [done|]. apply wp_bind, wp_ret, wp_bind, wp_st; [look; eauto|]. apply wp_st; [look; done|]. split; [split; [|done]|].
    + cbn. rewrite /first /next /pprev. split_and!; look; done.
    + intros a Ha. rewrite cells_cons !not_elem_of_cons in Ha. unfold next, pprev in Ha. destruct Ha as (? & ? & ? & _). look. done.
  - destruct Hs as (H1 & H2 & H3 & H4). unfold next, pprev in *. rewrite cells_cons !not_elem_of_cons in N3, N5, N6. unfold next, pprev in *.
    apply wp_bind. eapply wp_ld; [exact H1|]. apply wp_bind, wp_st; [done|]. apply wp_bind. rewrite /ctrue (proj2 (Z.eqb_neq _ _) H2). cbn [when negb].
    apply wp_st; [look; eauto|]. apply wp_bind, wp_st; [look; eauto|]. apply wp_st; [look; done|]. split; [split; [|done]|].
    + cbn. rewrite /first /next /pprev. split_and!; try (look; done).
      apply (hseg_cong h); [|exact H4]. intros a Ha. rewrite cells_cons NoDup_cons not_elem_of_cons in N7. unfold next, pprev in N7. destruct N7 as ((M1 & M2) & M3). apply NoDup_cons in M3 as [M3 _].
      assert (a ≠ x + 4 ∧ a ≠ n ∧ a ≠ n + 4 ∧ a ≠ hd); [|destruct_and!; look; done].
      apply elem_of_cons in Ha as [-> |Ha]; [destruct_and!; split_and!; congruence|].
      split_and!; intros ->; destruct_and!; done.
    + intros a Ha. rewrite !cells_cons !not_elem_of_cons in Ha. unfold next, pprev in Ha. destruct_and!. look. done.
Qed.

(** The pointers around node [n] between [xs] and [ys], all different. *)
Lemma around hd xs n ys q : NoDup (hd :: cells (xs ++ n :: ys)) → q = end_ptr hd xs →
  q ≠ n ∧ q ≠ n + 4 ∧ (∀ a, a ∈ cells ys → q ≠ a ∧ n ≠ a ∧ n + 4 ≠ a) ∧ NoDup (hd :: cells xs) ∧ NoDup (cells ys) ∧
  ∀ a, a ∈ hd :: cells xs → a ≠ n ∧ a ≠ n + 4 ∧ a ∉ cells ys.
Proof.
  intros Hnd ->. destruct (NoDup_pre _ _ _ Hnd) as [Hx Hy]. rewrite cells_cons !NoDup_cons !not_elem_of_cons in Hy. destruct Hy as ([_ Y1] & Y2 & Y3).
  assert (Hin : ∀ a, a = n ∨ a = n + 4 ∨ a ∈ cells ys → a ∈ cells (n :: ys)) by (intros a Ha; rewrite cells_cons !elem_of_cons; done).
  split_and!; [apply (end_ptr_ne hd xs (n :: ys)); [done|auto]..| |done|done|].
  - intros a Ha. split_and!; [apply (end_ptr_ne hd xs (n :: ys)); auto|intros E; apply Y1; by rewrite /next E|intros E; apply Y2; by rewrite /pprev E].
  - intros a Ha. split_and!; [apply (pre_ne hd xs (n :: ys)); auto..|]. intros Hy. by apply (pre_ne hd xs (n :: ys) a a); auto.
Qed.

(** The node that designates the rest is changed: [ys] hang at [q] now. *)
Lemma hseg_move h h' q q' ys : hseg h q ys → NoDup (cells ys) → h' !! q' = h !! q →
  (∀ y ys', ys = y :: ys' → h' !! pprev y = Some q' ∧ ∀ a, a ∈ next y :: cells ys' → h' !! a = h !! a) → hseg h' q' ys.
Proof.
  intros Hs Hnd Hq Hy. destruct ys as [|y ys]; cbn in *; [congruence|]. destruct Hs as (H1 & H2 & H3 & H4).
  destruct (Hy y ys eq_refl) as [Hp Ha]. split_and!; [congruence|done|done|]. by apply (hseg_cong h).
Qed.

(** Taking a node off its list. *)
Theorem hlist_del_correct h hd xs n ys : hlist h hd (xs ++ n :: ys) →
  ∃ h', hlist_del n h = Ret (tt, h') ∧ hlist h' hd (xs ++ ys) ∧ h' !! next n = Some NULL ∧ h' !! pprev n = Some NULL ∧
    same_but (hd :: cells (xs ++ n :: ys)) h h'.
Proof.
  intros [Hs Hnd]. unfold first in *. apply hseg_app in Hs as [Hp (H1 & H2 & H3 & H4)].
  assert (Hw : wp (hlist_del n) (λ _ h', hlist h' hd (xs ++ ys) ∧ h' !! next n = Some NULL ∧ h' !! pprev n = Some NULL ∧
    same_but (hd :: cells (xs ++ n :: ys)) h h') h).
  2: { destruct (wp_elim _ _ _ Hw) as ([] & h' & E & Hq). by exists h'. }
  pose proof (end_ptr_in hd xs) as Hqin. remember (end_ptr hd xs) as q eqn:Eq.
  destruct (around hd xs n ys q Hnd Eq) as (A1 & A2 & A3 & A4 & A5 & A6). rewrite /next /pprev in H3, H4 |- *.
  (* the successor, and the store when it is told *)
  assert (Hnx : ∃ nx, h !! n = Some nx ∧ wp (when (ctrue nx) (st (nx + 4) q))
      (λ _ h', h' = match ys with [] => <[q := nx]> h | y :: _ => <[y + 4 := q]> (<[q := nx]> h) end) (<[q := nx]> h)).
  { destruct ys as [|y ys]; cbn in H4; [exists NULL; split; [done|by apply wp_ret]|]. destruct H4 as (Y1 & Y2 & Y3 & _).
    exists y. split; [done|]. rewrite /ctrue (proj2 (Z.eqb_neq _ _) Y2). apply wp_st; [|done]. unfold pprev in Y3.
    destruct (A3 (y + 4)) as (? & _ & _); [rewrite cells_cons !elem_of_cons /pprev; auto|]. look. eauto. }
  destruct Hnx as (nx & Hnx & Hwhen). set (h1 := match ys with [] => _ | _ => _ end) in *.
  assert (E1 : ∀ a, a ≠ q → (∀ y ys', ys = y :: ys' → a ≠ y + 4) → h1 !! a = h !! a).
  { intros a Ha Hy. subst h1. destruct ys as [|y ys']; [look; done|]. specialize (Hy y ys' eq_refl). look. done. }
  assert (Eq1 : h1 !! q = Some nx).
  { subst h1. destruct ys as [|y ys']; [look; done|]. destruct (A3 (y + 4)) as (? & _ & _); [rewrite cells_cons !elem_of_cons /pprev; auto|]. look. done. }
  assert (Hyin : ∀ y ys', ys = y :: ys' → y + 4 ∈ cells ys) by (intros y ys' ->; rewrite cells_cons !elem_of_cons /pprev; auto).
  rewrite /hlist_del /next /pprev. apply wp_bind. eapply wp_ld; [exact Hnx|]. apply wp_bind. eapply wp_ld; [exact H3|].
  apply wp_bind, wp_st; [eauto|]. apply wp_bind. eapply wp_mono; [exact Hwhen|]. intros _ ? ->. rewrite /INIT_HLIST_NODE /next /pprev.
  assert (Hn1 : h1 !! n = Some nx). { rewrite E1; [congruence| |done]. intros y ys' Ey. destruct (A3 _ (Hyin _ _ Ey)) as (_ & ? & _). done. }
  assert (Hn4 : h1 !! (n + 4) = Some q). { rewrite E1; [congruence| |done]. intros y ys' Ey. destruct (A3 _ (Hyin _ _ Ey)) as (_ & _ & ?). done. }
  apply wp_bind, wp_st; [eauto|]. apply wp_st; [look; eauto|].
  split_and!; [split|look; done|look; done|].
  - apply hseg_app. rewrite /first -Eq. split.
    + apply (hpre_cong h); [done| |done]. rewrite -Eq. intros a Ha Hne. destruct (A6 a Ha) as (B1 & B2 & B3). look. apply E1; [done|].
      intros y ys' Ey ->. apply B3. by apply (Hyin y ys').
    + apply (hseg_move h _ n); [done|done|look; congruence|]. intros y ys' ->. split.
      * destruct (A3 (y + 4) (Hyin _ _ eq_refl)) as (? & ? & ?). rewrite /pprev. look. subst h1. look. done.
      * intros a Ha. rewrite cells_cons !NoDup_cons !not_elem_of_cons /pprev in A5. destruct A5 as ((? & _) & M2 & _).
        assert (Ha' : a ∈ cells (y :: ys')) by (rewrite cells_cons !elem_of_cons; apply elem_of_cons in Ha; tauto).
        destruct (A3 a Ha') as (? & ? & ?). look. apply E1; [congruence|]. intros z zs [= <- <-].
        apply elem_of_cons in Ha as [-> |Ha]; [done|]. by intros ->.
  - rewrite /first cells_app app_comm_cons. rewrite cells_app cells_cons app_comm_cons in Hnd. apply NoDup_app in Hnd as (D1 & D2 & D3).
    rewrite !NoDup_cons in D3. apply NoDup_app. split_and!; [done| |by destruct D3 as (_ & _ & ?)]. intros a Ha Hy. apply (D2 a Ha). by do 2 right.
  - intros a Ha. rewrite cells_app cells_cons app_comm_cons not_elem_of_app !not_elem_of_cons /next /pprev in Ha. destruct Ha as ((Hx1 & Hx2) & ? & ? & Hy).
    look. apply E1; [|intros y ys' Ey ->; by apply Hy, (Hyin y ys')]. intros ->. by apply elem_of_cons in Hqin as [?|?].
Qed.

(** A new node before one of the list. *)
Theorem hlist_add_before_correct h hd xs n y ys : hlist h hd (xs ++ y :: ys) → node_ok h n → NoDup (hd :: cells (xs ++ n :: y :: ys)) →
  ∃ h', hlist_add_before n y h = Ret (tt, h') ∧ hlist h' hd (xs ++ n :: y :: ys) ∧ same_but (hd :: cells (xs ++ n :: y :: ys)) h h'.
Proof.
  intros [Hs _] (Hn & Hnn & Hnp) Hnd. unfold first in *. apply hseg_app in Hs as [Hp (H1 & H2 & H3 & H4)].
  assert (Hw : wp (hlist_add_before n y) (λ _ h', hlist h' hd (xs ++ n :: y :: ys) ∧ same_but (hd :: cells (xs ++ n :: y :: ys)) h h') h).
  2: { destruct (wp_elim _ _ _ Hw) as ([] & h' & E & Hq). by exists h'. }
  pose proof (end_ptr_in hd xs) as Hqin. remember (end_ptr hd xs) as q eqn:Eq.
  destruct (around hd xs n (y :: ys) q Hnd Eq) as (A1 & A2 & A3 & A4 & A5 & A6). unfold next, pprev in *.
  assert (Hin : ∀ a, a = y ∨ a = y + 4 ∨ a ∈ cells ys → a ∈ cells (y :: ys)) by (intros a Ha; rewrite cells_cons !elem_of_cons; done).
  destruct (A3 y ltac:(auto)) as (Y1 & Y2 & Y3). destruct (A3 (y + 4) ltac:(auto)) as (Z1 & Z2 & Z3).
  rewrite /hlist_add_before /next /pprev. apply wp_bind. eapply wp_ld; [exact H3|]. apply wp_bind, wp_st; [done|].
  apply wp_bind, wp_st; [look; done|]. apply wp_bind, wp_st; [look; eauto|]. apply wp_bind. eapply wp_ld; [look; done|].
  apply wp_st; [look; eauto|]. split; [split; [|done]|].
  - apply hseg_app. rewrite /first -Eq. split.
    + apply (hpre_cong h); [done| |done]. rewrite -Eq. intros a Ha Hne. destruct (A6 a Ha) as (B1 & B2 & B3).
      assert (a ≠ y + 4) by (intros ->; auto). look. done.
    + cbn. rewrite /next /pprev. split_and!; try (look; done). apply (hseg_cong h); [|exact H4]. intros a Ha.
      assert (Ha' : a ∈ cells (y :: ys)) by (apply elem_of_cons in Ha as [?|?]; auto). destruct (A3 a Ha') as (? & ? & ?).
      rewrite cells_cons !NoDup_cons !not_elem_of_cons /pprev in A5. destruct A5 as ((? & _) & M2 & _).
      assert (a ≠ y + 4) by (apply elem_of_cons in Ha as [-> |Ha]; [done|by intros ->]). look. done.
  - intros a Ha. rewrite cells_app !cells_cons app_comm_cons not_elem_of_app !not_elem_of_cons /next /pprev in Ha. destruct Ha as ((? & ?) & ? & ? & ? & ? & ?).
    assert (a ≠ q) by (intros ->; by apply elem_of_cons in Hqin as [?|?]). look. done.
Qed.

(** The walk visits the nodes in order. *)
Theorem hlist_for_each_correct h hd xs : hlist h hd xs → hlist_for_each (S (length xs)) hd h = Ret (xs, h).
Proof.
  intros [Hs _]. unfold first in *.
  assert (Hw : ∀ xs pp f, hseg h pp xs → h !! pp = Some f → wp (hlist_walk (S (length xs)) f) (λ r h', r = xs ∧ h' = h) h).
  { clear. induction xs as [|x xs IH]; intros pp f Hs Hf; cbn in Hs; cbn [hlist_walk length].
    - rewrite Hf in Hs. injection Hs as ->. by apply wp_ret.
    - destruct Hs as (H1 & H2 & H3 & H4). rewrite Hf in H1. injection H1 as ->. rewrite (proj2 (Z.eqb_neq _ _) H2).
      assert (∃ v, h !! next x = Some v) as [v Hv] by (destruct xs; cbn in H4; [by exists NULL|destruct H4; eauto]).
      apply wp_bind. eapply wp_ld; [exact Hv|]. apply wp_bind. eapply wp_mono; [by eapply (IH (next x)); [exact H4|exact Hv]|].
      intros r h' [-> ->]. by apply wp_ret. }
  assert (∃ v, h !! hd = Some v) as [v Hv] by (destruct xs; cbn in Hs; [by exists NULL|destruct Hs; eauto]).
  assert (Hq : wp (hlist_for_each (S (length xs)) hd) (λ r h', r = xs ∧ h' = h) h).
  { apply wp_bind. eapply wp_ld; [exact Hv|]. by apply (Hw xs hd). }
  destruct (wp_elim _ _ _ Hq) as (r & h' & E & -> & ->). exact E.
Qed.

(** [hlist_add_after] stores through [next->pprev] of the new node: with a
    node that [INIT_HLIST_NODE] or [hlist_del] has left, that is a store
    through NULL. *)
Theorem hlist_add_after_faults h hd xs n ys nw : hlist h hd (xs ++ n :: ys) → node_ok h nw → nw ≠ n →
  h !! pprev nw = Some NULL → h !! NULL = None → hlist_add_after n nw h = Fault.
Proof.
  intros [Hs _] (Hn0 & [w Hw] & _) Hne Hp H0. apply hseg_app in Hs as [_ (_ & _ & _ & H4)].
  assert (∃ v, h !! next n = Some v) as [v Hv] by (destruct ys; cbn in H4; [by exists NULL|destruct H4; eauto]).
  unfold next, pprev, NULL in *. rewrite /hlist_add_after /st /ld /bind /get /next /pprev /modify /= Hv /= Hw /=.
  rewrite lookup_insert_ne; [lia|]. rewrite Hp /=. rewrite lookup_insert_ne; [congruence|]. by rewrite H0.
Qed.

(** ** An example: two nodes *)
Definition ex_h : ptrs := list_to_map [(16, 32); (32, 48); (36, 16); (48, 0); (52, 32); (64, 0); (68, 0)].
Example ex_walk : hlist_for_each 3 16 ex_h = Ret ([32; 48], ex_h).
Proof. reflexivity. Qed.
Example ex_add : (do! hlist_add_head 64 16 then do! hlist_del 32 then hlist_for_each 3 16) ex_h
  = match (do! hlist_add_head 64 16 then hlist_del 32) ex_h with Ret (_, h) => Ret ([64; 48], h) | r => Fault end.
Proof. vm_compute. reflexivity. Qed.
Example ex_after : hlist_add_after 48 64 ex_h = Fault.
Proof. reflexivity. Qed.
