(* ===== verification/Rbtree.v ===== *)
(** * Red-black trees ([kernel/rbtree.c], [include/scaraOS/rbtree.h])

    The pointer-level library: nodes are cells of a store, designated by their
    addresses, with the parent pointer and the colour packed in one word as in
    the source.  This file holds the data and the operations; [RbtreeRep]
    relates stores to trees, [RbtreeInsert] and [RbtreeErase] hold the
    correctness proofs of insertion and removal. *)
From S2P Require Import Prelude.

Definition RB_RED : Z := 0.
Definition RB_BLACK : Z := 1.
Definition RB_LEFT : Z := 0.
Definition RB_RIGHT : Z := 1.

(** [struct rb_node]; the two elements of [rb_child] are two fields. *)
Record rb_node := mk_rb_node {
  rb_parent_color : Z;
  rb_child_left : Z;
  rb_child_right : Z
}.

#[export] Instance rb_node_eq_dec : EqDecision rb_node.
Proof. solve_decision. Defined.

(** The nodes of the store and the [rb_node] field of the [struct rb_root]
    that the routine is given. *)
Record rb_store := mk_rb_store { rb_nodes : gmap Z rb_node; rb_root : Z }.

Definition rb_child (n : rb_node) (i : Z) : Z :=
  if i =? RB_LEFT then rb_child_left n else rb_child_right n.
Definition set_rb_child (n : rb_node) (i v : Z) : rb_node :=
  if i =? RB_LEFT then mk_rb_node (rb_parent_color n) v (rb_child_right n)
  else mk_rb_node (rb_parent_color n) (rb_child_left n) v.
Definition set_rb_pc (n : rb_node) (v : Z) : rb_node :=
  mk_rb_node v (rb_child_left n) (rb_child_right n).

(** ** Field accesses *)

Abbreviation R := (M rb_store).

Definition ld_node (p : Z) : R rb_node :=
  let! s := get in deref (rb_nodes s !! p).
Definition st_node (p : Z) (n : rb_node) : R unit :=
  modify (λ s, mk_rb_store (<[p := n]> (rb_nodes s)) (rb_root s)).
Definition ld_child (p i : Z) : R Z := let! n := ld_node p in ret (rb_child n i).
Definition st_child (p i v : Z) : R unit :=
  let! n := ld_node p in st_node p (set_rb_child n i v).
Definition ld_root : R Z := gets rb_root.
Definition st_root (v : Z) : R unit := modify (λ s, mk_rb_store (rb_nodes s) v).

(** The macros of the header. *)
Definition rb_parent (p : Z) : R Z :=
  let! n := ld_node p in ret (Z.land (rb_parent_color n) (Z.lnot 3)).
Definition rb_color (p : Z) : R Z :=
  let! n := ld_node p in ret (Z.land (rb_parent_color n) 1).
Definition rb_is_red (p : Z) : R bool :=
  let! c := rb_color p in ret (negb (ctrue c)).
Definition rb_is_black (p : Z) : R bool :=
  let! c := rb_color p in ret (ctrue c).
Definition rb_set_red (p : Z) : R unit :=
  let! n := ld_node p in
  st_node p (set_rb_pc n (Z.land (rb_parent_color n) (Z.lnot 1))).
Definition rb_set_black (p : Z) : R unit :=
  let! n := ld_node p in
  st_node p (set_rb_pc n (Z.lor (rb_parent_color n) 1)).
Definition rb_set_parent (rb p : Z) : R unit :=
  let! n := ld_node rb in
  st_node rb (set_rb_pc n (Z.lor (Z.land (rb_parent_color n) 3) p)).
Definition rb_set_color (rb color : Z) : R unit :=
  let! n := ld_node rb in
  st_node rb (set_rb_pc n (Z.lor (Z.land (rb_parent_color n) (Z.lnot 1)) color)).

(** The conditions [p && rb_is_red(p)] and [!p || rb_is_black(p)]. *)
Definition nonnull_red (p : Z) : R bool :=
  if p =? NULL then ret false else rb_is_red p.
Definition null_or_black (p : Z) : R bool :=
  if p =? NULL then ret true else rb_is_black p.

(** A [struct rb_node **]: the root field or an element of [rb_child]. *)
Inductive rb_link := LinkRoot | LinkChild (parent i : Z).

Definition ld_link (l : rb_link) : R Z :=
  match l with LinkRoot => ld_root | LinkChild p i => ld_child p i end.
Definition st_link (l : rb_link) (v : Z) : R unit :=
  match l with LinkRoot => st_root v | LinkChild p i => st_child p i v end.

Definition rb_link_node (node parent : Z) (link : rb_link) : R unit :=
  do! st_node node (mk_rb_node parent NULL NULL) then st_link link node.

(** ** Rotations *)

Definition __rb_rotate (node side : Z) : R unit :=
  let! other := ld_child node (Z.lxor RB_RIGHT side) in
  let! parent := rb_parent node in
  let! m := ld_child other (Z.lxor RB_LEFT side) in
  do! st_child node (Z.lxor RB_RIGHT side) m then
  do! when (negb (m =? NULL)) (rb_set_parent m node) then
  do! st_child other (Z.lxor RB_LEFT side) node then
  do! rb_set_parent other parent then
  do! (if negb (parent =? NULL) then
         let! c := ld_child parent (Z.lxor RB_LEFT side) in
         if node =? c then st_child parent (Z.lxor RB_LEFT side) other
         else st_child parent (Z.lxor RB_RIGHT side) other
       else st_root other) then
  rb_set_parent node other.

Definition __rb_rotate_left (node : Z) : R unit := __rb_rotate node RB_LEFT.
Definition __rb_rotate_right (node : Z) : R unit := __rb_rotate node RB_RIGHT.

(** ** Insertion

    The two branches of the loop body are the same text with [RB_LEFT] and
    [RB_RIGHT], and the two rotations, exchanged.  [side] is the side of
    [gparent] on which [parent] hangs; [rb_rotate_side] is the rotation
    towards a side. *)
Definition other_side (side : Z) : Z := Z.lxor RB_RIGHT side.
Definition rb_rotate_side (node side : Z) : R unit :=
  if side =? RB_LEFT then __rb_rotate_left node else __rb_rotate_right node.

(** One branch; the result is the node at which the loop goes on. *)
Definition rb_insert_branch (node parent gparent side : Z) : R Z :=
  let! uncle := ld_child gparent (other_side side) in
  let! ur := nonnull_red uncle in
  if ur then
    do! rb_set_black uncle then
    do! rb_set_black parent then
    do! rb_set_red gparent then
    ret gparent
  else
    let! c := ld_child parent (other_side side) in
    let! pn := (if c =? node then
                  do! rb_rotate_side parent side then ret (node, parent)
                else ret (parent, node)) in
    do! rb_set_black (fst pn) then
    do! rb_set_red gparent then
    do! rb_rotate_side gparent (other_side side) then
    ret (snd pn).

Fixpoint rb_insert_color_loop (fuel : nat) (node : Z) : R unit :=
  match fuel with
  | O => nofuel
  | S fuel =>
    let! parent := rb_parent node in
    let! c := nonnull_red parent in
    if c then
      let! gparent := rb_parent parent in
      let! gl := ld_child gparent RB_LEFT in
      let! node' :=
        (if parent =? gl then rb_insert_branch node parent gparent RB_LEFT
         else rb_insert_branch node parent gparent RB_RIGHT) in
      rb_insert_color_loop fuel node'
    else ret tt
  end.

Definition rb_insert_color (fuel : nat) (node : Z) : R unit :=
  do! rb_insert_color_loop fuel node then
  let! r := ld_root in rb_set_black r.

(** ** Removal

    Again the two branches of the loop body are mirror images.  A branch
    either goes on at a new [node] and [parent] or leaves the loop. *)
Inductive erase_step := EraseContinue (node parent : Z) | EraseBreak (node : Z).

(** The second half of a branch, when [other] is black. *)
Definition rb_erase_black_sibling (other parent side : Z) : R erase_step :=
  let! ol := ld_child other RB_LEFT in
  let! lb := null_or_black ol in
  let! both := (if lb then let! or_ := ld_child other RB_RIGHT in null_or_black or_
                else ret false) in
  if both then
    do! rb_set_red other then
    let! p := rb_parent parent in
    ret (EraseContinue parent p)
  else
    let! far := ld_child other (other_side side) in
    let! fb := null_or_black far in
    let! other := (if fb then
        let! near := ld_child other side in
        do! rb_set_black near then
        do! rb_set_red other then
        do! rb_rotate_side other (other_side side) then
        ld_child parent (other_side side)
      else ret other) in
    let! pc := rb_color parent in
    do! rb_set_color other pc then
    do! rb_set_black parent then
    let! far := ld_child other (other_side side) in
    do! rb_set_black far then
    do! rb_rotate_side parent side then
    let! r := ld_root in
    ret (EraseBreak r).

Definition rb_erase_branch (parent side : Z) : R erase_step :=
  let! other := ld_child parent (other_side side) in
  let! red := rb_is_red other in
  let! other := (if red then
      do! rb_set_black other then
      do! rb_set_red parent then
      do! rb_rotate_side parent side then
      ld_child parent (other_side side)
    else ret other) in
  rb_erase_black_sibling other parent side.

Fixpoint rb_erase_color_loop (fuel : nat) (node parent : Z) : R Z :=
  match fuel with
  | O => nofuel
  | S fuel =>
    let! nb := null_or_black node in
    let! r := ld_root in
    if nb && negb (node =? r) then
      let! pl := ld_child parent RB_LEFT in
      let! st := (if pl =? node then rb_erase_branch parent RB_LEFT
                  else rb_erase_branch parent RB_RIGHT) in
      match st with
      | EraseContinue node parent => rb_erase_color_loop fuel node parent
      | EraseBreak node => ret node
      end
    else ret node
  end.

Definition __rb_erase_color (fuel : nat) (node parent : Z) : R unit :=
  let! node := rb_erase_color_loop fuel node parent in
  when (negb (node =? NULL)) (rb_set_black node).

(** [while ((left = node->rb_child[RB_LEFT]) != NULL) node = left;] *)
Fixpoint descend (fuel : nat) (node side : Z) : R Z :=
  match fuel with
  | O => nofuel
  | S fuel =>
    let! c := ld_child node side in
    if c =? NULL then ret node else descend fuel c side
  end.

(** Replacing the link to [old] held by its parent, or by the root. *)
Definition relink (old parent new : Z) : R unit :=
  if negb (parent =? NULL) then
    let! pl := ld_child parent RB_LEFT in
    if pl =? old then st_child parent RB_LEFT new else st_child parent RB_RIGHT new
  else st_root new.

(** [rb_erase], the case of a node with two children: its in-order successor
    [node] takes its place.  The result is [(child, parent, color)] at the label
    [color:]. *)
Definition rb_erase_splice (old node : Z) : R (Z * Z * Z) :=
  let! op := rb_parent old in
  do! relink old op node then
  let! child := ld_child node RB_RIGHT in
  let! parent := rb_parent node in
  let! color := rb_color node in
  let! parent := (if parent =? old then ret node else
      do! when (negb (child =? NULL)) (rb_set_parent child parent) then
      do! st_child parent RB_LEFT child then
      let! r := ld_child old RB_RIGHT in
      do! st_child node RB_RIGHT r then
      do! rb_set_parent r node then
      ret parent) in
  let! o := ld_node old in
  let! n := ld_node node in
  do! st_node node (set_rb_pc n (rb_parent_color o)) then
  let! l := ld_child old RB_LEFT in
  do! st_child node RB_LEFT l then
  do! rb_set_parent l node then
  ret (child, parent, color).

Definition rb_erase_two (fuel : nat) (old : Z) : R (Z * Z * Z) :=
  let! node := ld_child old RB_RIGHT in
  let! node := descend fuel node RB_LEFT in
  rb_erase_splice old node.

(** [rb_erase], the case of a node with at most one child. *)
Definition rb_erase_one (node child : Z) : R (Z * Z * Z) :=
  let! parent := rb_parent node in
  let! color := rb_color node in
  do! when (negb (child =? NULL)) (rb_set_parent child parent) then
  do! relink node parent child then
  ret (child, parent, color).

Definition rb_erase (fuel : nat) (node : Z) : R unit :=
  let! l := ld_child node RB_LEFT in
  let! r := ld_child node RB_RIGHT in
  let! x := (if l =? NULL then rb_erase_one node r
             else if r =? NULL then rb_erase_one node l
             else rb_erase_two fuel node) in
  if snd x =? RB_BLACK then __rb_erase_color fuel (fst (fst x)) (snd (fst x))
  else ret tt.

(** ** Traversal and replacement *)

Definition rb_first (fuel : nat) : R Z :=
  let! n := ld_root in
  if n =? NULL then ret NULL else descend fuel n RB_LEFT.

Definition rb_last (fuel : nat) : R Z :=
  let! n := ld_root in
  if n =? NULL then ret NULL else descend fuel n RB_RIGHT.

(** [while ((parent = rb_parent(node)) && node == parent->rb_child[side])
      node = parent; return parent;] *)
Fixpoint ascend (fuel : nat) (node side : Z) : R Z :=
  match fuel with
  | O => nofuel
  | S fuel =>
    let! parent := rb_parent node in
    if parent =? NULL then ret NULL else
      let! c := ld_child parent side in
      if node =? c then ascend fuel parent side else ret parent
  end.

Definition rb_step (fuel : nat) (node side : Z) : R Z :=
  let! p := rb_parent node in
  if p =? node then ret NULL else
  let! c := ld_child node side in
  if negb (c =? NULL) then descend fuel c (other_side side)
  else ascend fuel node side.

Definition rb_next (fuel : nat) (node : Z) : R Z := rb_step fuel node RB_RIGHT.
Definition rb_prev (fuel : nat) (node : Z) : R Z := rb_step fuel node RB_LEFT.

Definition rb_replace_node (victim new : Z) : R unit :=
  let! parent := rb_parent victim in
  do! relink victim parent new then
  let! l := ld_child victim RB_LEFT in
  do! when (negb (l =? NULL)) (rb_set_parent l new) then
  let! r := ld_child victim RB_RIGHT in
  do! when (negb (r =? NULL)) (rb_set_parent r new) then
  let! v := ld_node victim in
  st_node new v.
