(* ===== verification/RbtreeRep.v ===== *)
(** * Red-black trees: stores that represent trees

    A pure tree carries the addresses of its nodes; [rep] states that the
    store of [Rbtree] holds exactly that tree below the root pointer.  The tree is
    taken apart at a node with a zipper, so that every access of the pointer
    code is a lemma about the focus, and every rotation and recolouring a lemma
    that changes the focus and leaves the context alone. *)
From S2P Require Import Prelude Rbtree.

(** ** The packed word *)

Definition colz (black : bool) : Z := if black then RB_BLACK else RB_RED.
Definition aligned (p : Z) : Prop := 0 <= p < 2 ^ 32 ∧ p mod 4 = 0.
(** A node's address: aligned, so that the two low bits are free, and not null. *)
Definition good_ptr (p : Z) : Prop := aligned p ∧ p ≠ NULL.

Section packed.
Implicit Types (p q : Z) (c d : bool).

Lemma land_low p c : aligned p → Z.land p (colz c) = 0.
Proof.
  intros [_ Hp]. rewrite (_ : colz c = Z.land (Z.ones 2) (colz c)); [by destruct c|].
  rewrite Z.land_assoc Z.land_ones // (_ : 2 ^ 2 = 4) // Hp. done.
Qed.

Lemma pack_lor p c : aligned p → Z.lor p (colz c) = p + colz c.
Proof. intros Hp. rewrite -Z.add_lor_land land_low //. lia. Qed.

Lemma unpack_parent p c : aligned p → Z.land (p + colz c) (Z.lnot 3) = p.
Proof.
  intros [? Hp]. rewrite -Z.ldiff_land (_ : 3 = Z.ones 2) // Z.ldiff_ones_r //.
  rewrite Z.shiftl_mul_pow2 // Z.shiftr_div_pow2 // (_ : 2 ^ 2 = 4) //.
  apply Z.mod_divide in Hp as [k ->]; [|done].
  destruct c; rewrite /colz /RB_BLACK /RB_RED.
  - rewrite Z.div_add_l //. change (1 / 4) with 0. lia.
  - rewrite Z.add_0_r Z.div_mul //.
Qed.

Lemma unpack_color p c : aligned p → Z.land (p + colz c) 1 = colz c.
Proof.
  intros [? Hp]. rewrite (_ : 1 = Z.ones 1) // Z.land_ones // (_ : 2 ^ 1 = 2) //.
  apply Z.mod_divide in Hp as [k ->]; [|done].
  rewrite (_ : k * 4 + colz c = colz c + (2 * k) * 2); [lia|].
  rewrite Z.mod_add //. by destruct c.
Qed.

Lemma pack_parent p q c :
  aligned p → aligned q → Z.lor (Z.land (p + colz c) 3) q = q + colz c.
Proof.
  intros [? Hp] Hq. rewrite (_ : 3 = Z.ones 2) // Z.land_ones // (_ : 2 ^ 2 = 4) //.
  rewrite (_ : (p + colz c) mod 4 = colz c).
  { apply Z.mod_divide in Hp as [k ->]; [|done].
    rewrite Z.add_comm Z.mod_add //. by destruct c. }
  rewrite Z.lor_comm. by apply pack_lor.
Qed.

Lemma pack_red p c : aligned p → Z.land (p + colz c) (Z.lnot 1) = p + colz false.
Proof.
  intros [? Hp]. rewrite -Z.ldiff_land (_ : 1 = Z.ones 1) // Z.ldiff_ones_r //.
  rewrite Z.shiftl_mul_pow2 // Z.shiftr_div_pow2 // (_ : 2 ^ 1 = 2) //.
  apply Z.mod_divide in Hp as [k ->]; [|done].
  destruct c; rewrite /colz /RB_BLACK /RB_RED.
  - rewrite (_ : k * 4 = 2 * k * 2); [lia|]. rewrite Z.div_add_l //.
    change (1 / 2) with 0. lia.
  - rewrite (_ : k * 4 = 2 * k * 2); [lia|]. rewrite Z.add_0_r Z.div_mul //; lia.
Qed.

Lemma pack_color p c d :
  aligned p → Z.lor (Z.land (p + colz c) (Z.lnot 1)) (colz d) = p + colz d.
Proof.
  intros Hp. rewrite pack_red // (_ : p + colz false = p); [rewrite /colz /RB_RED; lia|].
  by apply pack_lor.
Qed.

Lemma pack_black p c : aligned p → Z.lor (p + colz c) 1 = p + colz true.
Proof.
  intros Hp. rewrite -(pack_lor p c) // -Z.lor_assoc.
  rewrite (_ : Z.lor (colz c) 1 = colz true); [by destruct c|]. by apply pack_lor.
Qed.
End packed.

(** ** Trees, sides and contexts *)

Inductive tree := Leaf | Node (black : bool) (l : tree) (a : Z) (r : tree).

#[export] Instance tree_eq_dec : EqDecision tree.
Proof. solve_decision. Defined.

(** A side is a boolean, [true] for the right. *)
Definition sidez (s : bool) : Z := if s then RB_RIGHT else RB_LEFT.

Definition ptr (t : tree) : Z := match t with Leaf => NULL | Node _ _ a _ => a end.
Definition is_black (t : tree) : bool :=
  match t with Leaf => true | Node c _ _ _ => c end.

(** In-order sequence of addresses. *)
Fixpoint inorder (t : tree) : list Z :=
  match t with Leaf => [] | Node _ l a r => inorder l ++ a :: inorder r end.

Fixpoint height (t : tree) : nat :=
  match t with Leaf => 0 | Node _ l _ r => S (Nat.max (height l) (height r)) end%nat.

(** The node [a] with [x] on side [s] and [y] on the other side. *)
Definition nd (s c : bool) (a : Z) (x y : tree) : tree :=
  if s then Node c y a x else Node c x a y.

(** One node above the focus: the focus hangs on side [s]. *)
Record frame := Fr { f_side : bool; f_black : bool; f_addr : Z; f_sib : tree }.
Abbreviation ctx := (list frame).

Definition fill (f : frame) (t : tree) : tree :=
  nd (f_side f) (f_black f) (f_addr f) t (f_sib f).
Fixpoint plug (k : ctx) (t : tree) : tree :=
  match k with [] => t | f :: k => plug k (fill f t) end.
Definition up (k : ctx) : Z := match k with [] => NULL | f :: _ => f_addr f end.

(** Multiplicity of an address. *)
Fixpoint cnt (a : Z) (t : tree) : nat :=
  match t with
  | Leaf => 0
  | Node _ l b r => (if decide (b = a) then 1 else 0) + cnt a l + cnt a r
  end%nat.
Fixpoint cntk (a : Z) (k : ctx) : nat :=
  match k with
  | [] => 0
  | f :: k => (if decide (f_addr f = a) then 1 else 0) + cnt a (f_sib f) + cntk a k
  end%nat.

(** ** Representation *)

(** The cell of a node with parent [p], and [x] on side [s], [y] on the other. *)
Definition cell (p : Z) (s c : bool) (x y : Z) : rb_node :=
  if s then mk_rb_node (p + colz c) y x else mk_rb_node (p + colz c) x y.

Fixpoint agree (h : gmap Z rb_node) (p : Z) (t : tree) : Prop :=
  match t with
  | Leaf => True
  | Node c l a r =>
    h !! a = Some (cell p false c (ptr l) (ptr r)) ∧ agree h a l ∧ agree h a r
  end.

(** The cells of a context whose hole is filled by a tree rooted at [x]. *)
Fixpoint agreek (h : gmap Z rb_node) (x : Z) (k : ctx) : Prop :=
  match k with
  | [] => True
  | f :: k =>
    h !! f_addr f = Some (cell (up k) (f_side f) (f_black f) x (ptr (f_sib f))) ∧
    agree h (f_addr f) (f_sib f) ∧ agreek h (f_addr f) k
  end.

(** The store holds [t], and outside [t] it is the store [s0]. *)
Record rep (s0 s : rb_store) (t : tree) : Prop := {
  rep_root : rb_root s = ptr t;
  rep_agree : agree (rb_nodes s) NULL t;
  rep_uniq : ∀ a, (cnt a t ≤ 1)%nat;
  rep_good : ∀ a, (0 < cnt a t)%nat → good_ptr a;
  rep_frame : ∀ a, cnt a t = 0%nat → rb_nodes s !! a = rb_nodes s0 !! a
}.

Section trees.
Implicit Types (h : gmap Z rb_node) (t x y : tree) (k : ctx) (s c : bool) (a p : Z).

Lemma cnt_nd a s c b x y :
  cnt a (nd s c b x y) = ((if decide (b = a) then 1 else 0) + cnt a x + cnt a y)%nat.
Proof. destruct s; simpl; lia. Qed.

Lemma cnt_plug a k t : cnt a (plug k t) = (cnt a t + cntk a k)%nat.
Proof.
  revert t. induction k as [|f k IH]; intros t; simpl; [lia|].
  rewrite IH /fill cnt_nd. lia.
Qed.

Lemma cnt_elem_of a t : a ∈ inorder t ↔ (0 < cnt a t)%nat.
Proof.
  induction t as [|c l IHl b r IHr]; simpl; [set_solver by lia|].
  rewrite elem_of_app elem_of_cons IHl IHr. case_decide; subst; [|naive_solver lia].
  split; [lia|]. naive_solver.
Qed.

Lemma ptr_nd s c a x y : ptr (nd s c a x y) = a.
Proof. by destruct s. Qed.

Lemma agree_nd h p s c a x y :
  agree h p (nd s c a x y) ↔
  h !! a = Some (cell p s c (ptr x) (ptr y)) ∧ agree h a x ∧ agree h a y.
Proof. destruct s; simpl; naive_solver. Qed.

Fixpoint rootk (x : Z) (k : ctx) : Z :=
  match k with [] => x | f :: k => rootk (f_addr f) k end.

Lemma ptr_plug k t : ptr (plug k t) = rootk (ptr t) k.
Proof.
  revert t. induction k as [|f k IH]; intros t; simpl; [done|].
  by rewrite IH /fill ptr_nd.
Qed.

Lemma agree_plug h k t :
  agree h NULL (plug k t) ↔ agree h (up k) t ∧ agreek h (ptr t) k.
Proof.
  revert t. induction k as [|f k IH]; intros t; simpl; [naive_solver|].
  rewrite IH /fill agree_nd ptr_nd. naive_solver.
Qed.

(** Cells outside a tree or a context do not matter to it. *)
Lemma agree_insert h p t a n :
  cnt a t = 0%nat → agree h p t → agree (<[a := n]> h) p t.
Proof.
  revert p. induction t as [|c l IHl b r IHr]; intros p; simpl; [done|].
  case_decide as E; [lia|]. intros Hc (Hb & Hl & Hr).
  rewrite lookup_insert_ne; [congruence|]. split_and!; [done|..].
  - apply IHl; [lia|done].
  - apply IHr; [lia|done].
Qed.

Lemma agreek_insert h (x : Z) k a n :
  cntk a k = 0%nat → agreek h x k → agreek (<[a := n]> h) x k.
Proof.
  revert x. induction k as [|f k IH]; intros x; simpl; [done|].
  case_decide as E; [lia|]. intros Hc (Hf & Hs & Hk).
  rewrite lookup_insert_ne; [congruence|]. split_and!; [done|..].
  - apply agree_insert; [lia|done].
  - apply IH; [lia|done].
Qed.
End trees.

(** ** Cells *)

Section cells.
Implicit Types (p q u v w : Z) (s c d : bool).

Lemma sidez_left s : Z.lxor RB_LEFT (sidez s) = sidez s.
Proof. by destruct s. Qed.
Lemma sidez_right s : Z.lxor RB_RIGHT (sidez s) = sidez (negb s).
Proof. by destruct s. Qed.
Lemma other_sidez s : other_side (sidez s) = sidez (negb s).
Proof. by destruct s. Qed.
Lemma cell_pc p s c u v : rb_parent_color (cell p s c u v) = p + colz c.
Proof. by destruct s. Qed.
Lemma cell_near p s c u v : rb_child (cell p s c u v) (sidez s) = u.
Proof. by destruct s. Qed.
Lemma cell_far p s c u v : rb_child (cell p s c u v) (sidez (negb s)) = v.
Proof. by destruct s. Qed.
Lemma cell_set_near p s c u v w :
  set_rb_child (cell p s c u v) (sidez s) w = cell p s c w v.
Proof. by destruct s. Qed.
Lemma cell_set_far p s c u v w :
  set_rb_child (cell p s c u v) (sidez (negb s)) w = cell p s c u w.
Proof. by destruct s. Qed.
Lemma cell_set_pc p s c u v q d :
  set_rb_pc (cell p s c u v) (q + colz d) = cell q s d u v.
Proof. by destruct s. Qed.
Lemma cell_flip p s c u v : cell p (negb s) c u v = cell p s c v u.
Proof. by destruct s. Qed.
Lemma nd_flip s c a x y : nd (negb s) c a x y = nd s c a y x.
Proof. by destruct s. Qed.
Lemma nd_false c a x y : Node c x a y = nd false c a x y.
Proof. done. Qed.
End cells.

#[export] Hint Rewrite sidez_left sidez_right other_sidez cell_pc cell_near cell_far
  cell_set_near cell_set_far cell_set_pc ptr_nd Bool.negb_involutive : rb.

(** ** Accesses *)

Lemma wp_ld_node p n (Q : rb_node → rb_store → Prop) s :
  rb_nodes s !! p = Some n → Q n s → wp (ld_node p) Q s.
Proof. rewrite /wp /ld_node /bind /get /deref. by intros ->. Qed.

Lemma wp_st_node p n (Q : unit → rb_store → Prop) s :
  Q tt (mk_rb_store (<[p := n]> (rb_nodes s)) (rb_root s)) → wp (st_node p n) Q s.
Proof. done. Qed.

(** The context of the focus never contains the null address, and its packed
    words are well formed. *)
Section focus.
Context (s0 s : rb_store).
Implicit Types (k : ctx) (sd c d : bool) (a : Z) (x y t : tree).

Lemma rep_focus k sd c a x y :
  rep s0 s (plug k (nd sd c a x y)) →
  rb_nodes s !! a = Some (cell (up k) sd c (ptr x) (ptr y)).
Proof. intros Hr%rep_agree. by apply agree_plug in Hr as [(? & _)%agree_nd _]. Qed.

Lemma rep_focus_good k sd c a x y :
  rep s0 s (plug k (nd sd c a x y)) → good_ptr a.
Proof.
  intros Hr. apply (rep_good _ _ _ Hr). rewrite cnt_plug cnt_nd decide_True //. lia.
Qed.

Lemma rep_up_aligned k t : rep s0 s (plug k t) → aligned (up k).
Proof.
  destruct k as [|f k]; [by split|]. intros Hr.
  apply (rep_good _ _ _ Hr). simpl. rewrite cnt_plug /fill cnt_nd decide_True //. lia.
Qed.

Lemma rep_ptr_null k sd c a x y :
  rep s0 s (plug k (nd sd c a x y)) → (a =? NULL) = false.
Proof. intros [_ ?]%rep_focus_good. by apply Z.eqb_neq. Qed.

(** Replacing the tree by one with the same addresses. *)
Lemma rep_change t t' h r :
  rep s0 s t → (∀ a, cnt a t' = cnt a t) → r = ptr t' → agree h NULL t' →
  (∀ a, cnt a t = 0%nat → h !! a = rb_nodes s !! a) →
  rep s0 (mk_rb_store h r) t'.
Proof.
  intros [_ _ Hu Hg Hf] Hc Hr Ha Ho. split; simpl; [done|done|..]; intros a.
  - rewrite Hc. apply Hu.
  - rewrite Hc. apply Hg.
  - rewrite Hc. intros E. by rewrite Ho // Hf.
Qed.

Lemma rep_recolour k sd c d a x y :
  rep s0 s (plug k (nd sd c a x y)) →
  rep s0 (mk_rb_store (<[a := cell (up k) sd d (ptr x) (ptr y)]> (rb_nodes s))
                      (rb_root s)) (plug k (nd sd d a x y)).
Proof.
  intros Hr. pose proof (rep_uniq _ _ _ Hr a) as Hu.
  rewrite cnt_plug cnt_nd decide_True // in Hu.
  eapply rep_change; [exact Hr|..].
  - intros b. by rewrite !cnt_plug !cnt_nd.
  - rewrite (rep_root _ _ _ Hr) !ptr_plug !ptr_nd //.
  - pose proof (rep_agree _ _ _ Hr) as Ha.
    apply agree_plug in Ha as [(_ & Hx & Hy)%agree_nd Hk]. rewrite ptr_nd in Hk.
    apply agree_plug. rewrite agree_nd lookup_insert_eq ptr_nd.
    split_and!; [done|apply agree_insert..|apply agreek_insert]; (lia || done).
  - intros b. rewrite cnt_plug cnt_nd. case_decide; [lia|]. intros _.
    by rewrite lookup_insert_ne.
Qed.
End focus.

(** The routines that only look at or recolour the focus. *)
Section focus_wp.
Context (s0 : rb_store).
Implicit Types (k : ctx) (sd c d : bool) (a : Z) (x y t : tree) (s : rb_store).

Lemma wp_ld_near k sd c a x y Q s :
  rep s0 s (plug k (nd sd c a x y)) → Q (ptr x) s → wp (ld_child a (sidez sd)) Q s.
Proof.
  intros Hr HQ. apply wp_bind. eapply wp_ld_node; [eapply rep_focus; exact Hr|].
  apply wp_ret. by autorewrite with rb.
Qed.

Lemma wp_ld_far k sd c a x y Q s :
  rep s0 s (plug k (nd sd c a x y)) → Q (ptr y) s →
  wp (ld_child a (sidez (negb sd))) Q s.
Proof.
  intros Hr HQ. apply wp_bind. eapply wp_ld_node; [eapply rep_focus; exact Hr|].
  apply wp_ret. by autorewrite with rb.
Qed.

Lemma wp_rb_parent k sd c a x y Q s :
  rep s0 s (plug k (nd sd c a x y)) → Q (up k) s → wp (rb_parent a) Q s.
Proof.
  intros Hr HQ. apply wp_bind. eapply wp_ld_node; [eapply rep_focus; exact Hr|].
  apply wp_ret. autorewrite with rb. rewrite unpack_parent //. eapply rep_up_aligned; exact Hr.
Qed.

Lemma wp_rb_color k sd c a x y Q s :
  rep s0 s (plug k (nd sd c a x y)) → Q (colz c) s → wp (rb_color a) Q s.
Proof.
  intros Hr HQ. apply wp_bind. eapply wp_ld_node; [eapply rep_focus; exact Hr|].
  apply wp_ret. autorewrite with rb. rewrite unpack_color //. eapply rep_up_aligned; exact Hr.
Qed.

Lemma wp_rb_is_red k sd c a x y Q s :
  rep s0 s (plug k (nd sd c a x y)) → Q (negb c) s → wp (rb_is_red a) Q s.
Proof.
  intros Hr HQ. apply wp_bind. eapply wp_rb_color; [exact Hr|]. apply wp_ret.
  by destruct c.
Qed.

Lemma wp_rb_is_black k sd c a x y Q s :
  rep s0 s (plug k (nd sd c a x y)) → Q c s → wp (rb_is_black a) Q s.
Proof.
  intros Hr HQ. apply wp_bind. eapply wp_rb_color; [exact Hr|]. apply wp_ret.
  by destruct c.
Qed.

Lemma wp_rb_set_black k sd c a x y (Q : unit → rb_store → Prop) s :
  rep s0 s (plug k (nd sd c a x y)) →
  (∀ s', rep s0 s' (plug k (nd sd true a x y)) → Q tt s') → wp (rb_set_black a) Q s.
Proof.
  intros Hr HQ. apply wp_bind. eapply wp_ld_node; [eapply rep_focus; exact Hr|].
  apply wp_st_node, HQ. autorewrite with rb.
  rewrite pack_black; [eapply rep_up_aligned; exact Hr|]. rewrite cell_set_pc.
  eapply rep_recolour; exact Hr.
Qed.

Lemma wp_rb_set_red k sd c a x y (Q : unit → rb_store → Prop) s :
  rep s0 s (plug k (nd sd c a x y)) →
  (∀ s', rep s0 s' (plug k (nd sd false a x y)) → Q tt s') → wp (rb_set_red a) Q s.
Proof.
  intros Hr HQ. apply wp_bind. eapply wp_ld_node; [eapply rep_focus; exact Hr|].
  apply wp_st_node, HQ. autorewrite with rb.
  rewrite pack_red; [eapply rep_up_aligned; exact Hr|]. rewrite cell_set_pc.
  eapply rep_recolour; exact Hr.
Qed.

Lemma wp_rb_set_color k sd c d a x y (Q : unit → rb_store → Prop) s :
  rep s0 s (plug k (nd sd c a x y)) →
  (∀ s', rep s0 s' (plug k (nd sd d a x y)) → Q tt s') →
  wp (rb_set_color a (colz d)) Q s.
Proof.
  intros Hr HQ. apply wp_bind. eapply wp_ld_node; [eapply rep_focus; exact Hr|].
  apply wp_st_node, HQ. autorewrite with rb.
  rewrite pack_color; [eapply rep_up_aligned; exact Hr|]. rewrite cell_set_pc.
  eapply rep_recolour; exact Hr.
Qed.
End focus_wp.

(** ** Rotation *)

Section raw.
Implicit Types (s : rb_store) (a p q u v w : Z) (sd c : bool).

Lemma wp_ld_child_raw s a i n (Q : Z → rb_store → Prop) :
  rb_nodes s !! a = Some n → Q (rb_child n i) s → wp (ld_child a i) Q s.
Proof. intros Hn HQ. apply wp_bind. eapply wp_ld_node; [exact Hn|exact HQ]. Qed.

Lemma wp_st_child_raw s a i v n (Q : unit → rb_store → Prop) :
  rb_nodes s !! a = Some n →
  Q tt (mk_rb_store (<[a := set_rb_child n i v]> (rb_nodes s)) (rb_root s)) →
  wp (st_child a i v) Q s.
Proof. intros Hn HQ. apply wp_bind. eapply wp_ld_node; [exact Hn|]. done. Qed.

Lemma wp_rb_parent_raw s a p sd c u v (Q : Z → rb_store → Prop) :
  rb_nodes s !! a = Some (cell p sd c u v) → aligned p → Q p s → wp (rb_parent a) Q s.
Proof.
  intros Hn Hp HQ. apply wp_bind. eapply wp_ld_node; [exact Hn|].
  apply wp_ret. by rewrite cell_pc unpack_parent.
Qed.

Lemma wp_rb_set_parent_raw s a p q sd c u v (Q : unit → rb_store → Prop) :
  rb_nodes s !! a = Some (cell p sd c u v) → aligned p → aligned q →
  Q tt (mk_rb_store (<[a := cell q sd c u v]> (rb_nodes s)) (rb_root s)) →
  wp (rb_set_parent a q) Q s.
Proof.
  intros Hn Hp Hq HQ. apply wp_bind. eapply wp_ld_node; [exact Hn|].
  apply wp_st_node. by rewrite cell_pc pack_parent // cell_set_pc.
Qed.
End raw.

(** Changing the parent word of the root of a subtree. *)
Definition reparent (q : Z) (t : tree) (h : gmap Z rb_node) : gmap Z rb_node :=
  match t with
  | Leaf => h
  | Node c l a r => <[a := cell q false c (ptr l) (ptr r)]> h
  end.

(** Changing the link to the focus held by the context. *)
Definition relinkk (v : Z) (k : ctx) (h : gmap Z rb_node) : gmap Z rb_node :=
  match k with
  | [] => h
  | f :: k => <[f_addr f := cell (up k) (f_side f) (f_black f) v (ptr (f_sib f))]> h
  end.

Section moves.
Implicit Types (h : gmap Z rb_node) (t x y m : tree) (k : ctx) (s : rb_store).

Lemma agree_reparent h p q t :
  (∀ a, (cnt a t ≤ 1)%nat) → agree h p t → agree (reparent q t h) q t.
Proof.
  destruct t as [|c l a r]; [done|]. intros Hu (Ha & Hl & Hr). simpl.
  specialize (Hu a). simpl in Hu. rewrite decide_True // in Hu.
  rewrite lookup_insert_eq. split_and!; [done|apply agree_insert..]; (lia || done).
Qed.

Lemma agree_reparent_other h p q t x :
  (∀ a, (cnt a t + cnt a x ≤ 1)%nat) → agree h p x → agree (reparent q t h) p x.
Proof.
  destruct t as [|c l a r]; [done|]. intros Hu Hx. apply agree_insert; [|done].
  specialize (Hu a). simpl in Hu. rewrite decide_True // in Hu. lia.
Qed.

Lemma agreek_reparent h v q t k :
  (∀ a, (cnt a t + cntk a k ≤ 1)%nat) → agreek h v k → agreek (reparent q t h) v k.
Proof.
  destruct t as [|c l a r]; [done|]. intros Hu Hx. apply agreek_insert; [|done].
  specialize (Hu a). simpl in Hu. rewrite decide_True // in Hu. lia.
Qed.

Lemma lookup_reparent h q t a :
  cnt a t = 0%nat → reparent q t h !! a = h !! a.
Proof.
  destruct t as [|c l b r]; simpl; [done|]. case_decide; [lia|].
  intros _. by rewrite lookup_insert_ne.
Qed.

Lemma agreek_relinkk h v w k :
  (∀ a, (cntk a k ≤ 1)%nat) → agreek h v k → agreek (relinkk w k h) w k.
Proof.
  destruct k as [|f k]; [done|]. intros Hu (Ha & Hs & Hk). simpl.
  specialize (Hu (f_addr f)). simpl in Hu. rewrite decide_True // in Hu.
  rewrite lookup_insert_eq.
  split_and!; [done|apply agree_insert|apply agreek_insert]; (lia || done).
Qed.

Lemma agree_relinkk h p w k t :
  (∀ a, (cnt a t + cntk a k ≤ 1)%nat) → agree h p t → agree (relinkk w k h) p t.
Proof.
  destruct k as [|f k]; [done|]. intros Hu Ht. apply agree_insert; [|done].
  specialize (Hu (f_addr f)). simpl in Hu. rewrite decide_True // in Hu. lia.
Qed.

Lemma lookup_relinkk h w k a :
  cntk a k = 0%nat → relinkk w k h !! a = h !! a.
Proof.
  destruct k as [|f k]; simpl; [done|]. case_decide; [lia|].
  intros _. by rewrite lookup_insert_ne.
Qed.

(** [when (t != NULL) rb_set_parent(t, q)]. *)
Lemma wp_set_parent_opt s p q t (Q : unit → rb_store → Prop) :
  agree (rb_nodes s) p t → (∀ a, (0 < cnt a t)%nat → good_ptr a) →
  aligned p → aligned q →
  Q tt (mk_rb_store (reparent q t (rb_nodes s)) (rb_root s)) →
  wp (when (negb (ptr t =? NULL)) (rb_set_parent (ptr t) q)) Q s.
Proof.
  intros Ha Hg Hp Hq HQ. destruct t as [|c l a r].
  - by destruct s.
  - assert (good_ptr a) as [_ Hn] by (apply Hg; simpl; rewrite decide_True //; lia).
    simpl. rewrite (proj2 (Z.eqb_neq _ _) Hn). simpl.
    destruct Ha as (Ha & _). eapply wp_rb_set_parent_raw; eassumption.
Qed.
End moves.

Definition rootrelink (v : Z) (k : ctx) (r : Z) : Z :=
  match k with [] => v | _ :: _ => r end.

Section rotation.
Implicit Types (t x y m : tree) (k : ctx) (s : rb_store) (sd : bool).

Lemma sib_ptr_ne h f k n :
  cntk n (f :: k) = 0%nat → n ≠ NULL → agree h (f_addr f) (f_sib f) →
  (n =? ptr (f_sib f)) = false.
Proof.
  intros Hc Hn _. apply Z.eqb_neq. intros ->. simpl in Hc.
  destruct (f_sib f) as [|c l a r]; simpl in *; [done|].
  rewrite (decide_True (P := a = a)) // in Hc. lia.
Qed.

(** The context's link to [n] is replaced, whichever side it is on. *)
Lemma wp_relink_side s k n new sd (Q : unit → rb_store → Prop) :
  agreek (rb_nodes s) n k → n ≠ NULL → cntk n k = 0%nat →
  (∀ f k', k = f :: k' → f_addr f ≠ NULL) →
  Q tt (mk_rb_store (relinkk new k (rb_nodes s)) (rootrelink new k (rb_root s))) →
  wp (if negb (up k =? NULL) then
        let! c := ld_child (up k) (sidez sd) in
        if n =? c then st_child (up k) (sidez sd) new
        else st_child (up k) (sidez (negb sd)) new
      else st_root new) Q s.
Proof.
  intros Ha Hn Hc Hg HQ. destruct k as [|f k]; simpl in *; [done|].
  rewrite (proj2 (Z.eqb_neq _ _) (Hg f k eq_refl)). simpl.
  destruct Ha as (Hf & Hs & Hk). apply wp_bind.
  eapply wp_ld_child_raw; [exact Hf|].
  destruct (decide (f_side f = sd)) as [<-|Hne].
  - rewrite cell_near Z.eqb_refl. eapply wp_st_child_raw; [exact Hf|].
    by rewrite cell_set_near.
  - assert (sd = negb (f_side f)) as -> by (destruct sd, (f_side f); done).
    rewrite cell_far (sib_ptr_ne (rb_nodes s) f k) //.
    eapply wp_st_child_raw; [exact Hf|]. by rewrite Bool.negb_involutive cell_set_near.
Qed.

Lemma wp_relink s k n new (Q : unit → rb_store → Prop) :
  agreek (rb_nodes s) n k → n ≠ NULL → cntk n k = 0%nat →
  (∀ f k', k = f :: k' → f_addr f ≠ NULL) →
  Q tt (mk_rb_store (relinkk new k (rb_nodes s)) (rootrelink new k (rb_root s))) →
  wp (relink n (up k) new) Q s.
Proof.
  intros Ha Hn Hc Hg HQ.
  pose proof (wp_relink_side s k n new false Q Ha Hn Hc Hg HQ) as Hw.
  rewrite /relink. destruct (negb (up k =? NULL)); [|done].
  rewrite /wp /bind in Hw |- *. destruct (ld_child (up k) RB_LEFT s) as [[c s']| | | |] eqn:E;
    rewrite E in Hw; try done. rewrite Z.eqb_sym in Hw. done.
Qed.

Lemma rep_ctx_addr s0 s k t f k' :
  rep s0 s (plug k t) → k = f :: k' → f_addr f ≠ NULL.
Proof.
  intros Hr ->. apply (rep_good _ _ _ Hr). rewrite cnt_plug /= decide_True //. lia.
Qed.

Lemma rep_sub_good s0 s k t : rep s0 s (plug k t) → ∀ a, (0 < cnt a t)%nat → good_ptr a.
Proof. intros Hr a Ha. apply (rep_good _ _ _ Hr). rewrite cnt_plug. lia. Qed.

Lemma rep_rootrelink s0 s k t v :
  rep s0 s (plug k t) → rootrelink v k (rb_root s) = rootk v k.
Proof. intros ->%rep_root. by destruct k; simpl; rewrite ?ptr_plug ?ptr_nd. Qed.
End rotation.

(** [__rb_rotate]: the far child of the focus takes its place. *)
Lemma wp_rb_rotate s0 s k sd cn n x co o m y (Q : unit → rb_store → Prop) :
  rep s0 s (plug k (nd sd cn n x (nd sd co o m y))) →
  (∀ s', rep s0 s' (plug k (nd sd co o (nd sd cn n x m) y)) → Q tt s') →
  wp (__rb_rotate n (sidez sd)) Q s.
Proof.
  intros Hr HQ. pose proof (rep_agree _ _ _ Hr) as Ha.
  apply agree_plug in Ha as [(Hn & Hx & (Ho & Hm & Hy)%agree_nd)%agree_nd Hk].
  rewrite !ptr_nd in Hn Hk.
  pose proof (rep_uniq _ _ _ Hr) as Hu.
  assert (∀ a, (((if decide (n = a) then 1 else 0) + cnt a x +
    ((if decide (o = a) then 1 else 0) + cnt a m + cnt a y)) + cntk a k ≤ 1)%nat) as Hu'.
  { intros a. specialize (Hu a). by rewrite cnt_plug !cnt_nd in Hu. }
  assert (good_ptr n) as [Gn Gn'] by (eapply rep_focus_good; exact Hr).
  assert (good_ptr o) as [Go Go'].
  { eapply rep_sub_good; [exact Hr|]. rewrite !cnt_nd. rewrite (decide_True (P := o = o)) //. lia. }
  assert (aligned (up k)) as Gk by (eapply rep_up_aligned; exact Hr).
  assert (n ≠ o) as Hno.
  { intros ->. specialize (Hu' o). rewrite !decide_True // in Hu'. lia. }
  pose proof (not_eq_sym Hno) as Hon.
  pose proof (Hu' n) as Un. rewrite decide_True // decide_False // in Un.
  pose proof (Hu' o) as Uo. rewrite decide_False // decide_True // in Uo.
  rewrite /__rb_rotate !sidez_left !sidez_right.
  apply wp_bind. eapply wp_ld_child_raw; [exact Hn|]. rewrite cell_far.
  apply wp_bind. eapply wp_rb_parent_raw; [exact Hn|done|].
  apply wp_bind. eapply wp_ld_child_raw; [exact Ho|]. rewrite cell_near.
  apply wp_bind. eapply wp_st_child_raw; [exact Hn|]. rewrite cell_set_far.
  set (h1 := <[n := cell (up k) sd cn (ptr x) (ptr m)]> (rb_nodes s)).
  apply wp_bind. apply (wp_set_parent_opt _ o n m).
  { apply agree_insert; [lia|done]. }
  { intros a Ha. eapply rep_sub_good; [exact Hr|]. rewrite !cnt_nd. lia. }
  { done. } { done. }
  simpl. set (h2 := reparent n m h1).
  assert (h2 !! o = Some (cell n sd co (ptr m) (ptr y))) as Ho2.
  { rewrite lookup_reparent; [lia|]. by rewrite lookup_insert_ne. }
  apply wp_bind. eapply wp_st_child_raw; [exact Ho2|]. rewrite cell_set_near. simpl.
  apply wp_bind. eapply wp_rb_set_parent_raw; [apply lookup_insert_eq|done|done|].
  simpl. rewrite insert_insert_eq. set (h3 := <[o := cell (up k) sd co n (ptr y)]> h2).
  assert (agreek h3 n k) as Hk3.
  { apply agreek_insert; [lia|]. apply agreek_reparent; [intros a; specialize (Hu' a); lia|].
    apply agreek_insert; [lia|done]. }
  apply wp_bind. apply wp_relink_side; [done|done|lia| |].
  { intros f k'. eapply rep_ctx_addr; exact Hr. }
  simpl. rewrite (rep_rootrelink _ _ _ _ _ Hr).
  eapply wp_rb_set_parent_raw; [|exact Gk|exact Go|].
  { rewrite lookup_relinkk; [lia|]. rewrite lookup_insert_ne //.
    rewrite lookup_reparent; [lia|]. apply lookup_insert_eq. }
  apply HQ. simpl. set (h4 := relinkk o k h3). set (h5 := <[n := _]> h4).
  eapply rep_change; [exact Hr|..].
  - intros a. rewrite !cnt_plug !cnt_nd. lia.
  - by rewrite ptr_plug ptr_nd.
  - apply agree_plug. rewrite agree_nd agree_nd !ptr_nd. split_and!.
    + rewrite /h5 lookup_insert_ne // lookup_relinkk; [lia|]. apply lookup_insert_eq.
    + apply lookup_insert_eq.
    + apply agree_insert; [lia|]. apply agree_relinkk; [intros a; specialize (Hu' a); lia|].
      apply agree_insert; [lia|]. apply agree_reparent_other; [intros a; specialize (Hu' a); lia|].
      apply agree_insert; [lia|done].
    + apply agree_insert; [lia|]. apply agree_relinkk; [intros a; specialize (Hu' a); lia|].
      apply agree_insert; [lia|]. eapply agree_reparent; [intros a; specialize (Hu' a); lia|].
      apply agree_insert; [lia|exact Hm].
    + apply agree_insert; [lia|]. apply agree_relinkk; [intros a; specialize (Hu' a); lia|].
      apply agree_insert; [lia|]. apply agree_reparent_other; [intros a; specialize (Hu' a); lia|].
      apply agree_insert; [lia|done].
    + apply agreek_insert; [lia|]. eapply agreek_relinkk; [intros a; specialize (Hu' a); lia|].
      exact Hk3.
  - intros a. rewrite cnt_plug !cnt_nd. do 2 (case_decide; [lia|]). intros E.
    rewrite /h5 lookup_insert_ne // lookup_relinkk; [lia|]. rewrite lookup_insert_ne //.
    rewrite lookup_reparent; [lia|]. by rewrite lookup_insert_ne.
Qed.
