(* ===== verification/RbtreeInsert.v ===== *)
(** * Red-black trees: insertion

    [rb_insert_color] rebalances a tree in which one red node has just been
    linked.  The theorem states total correctness: the routine returns, the
    in-order sequence is unchanged, the tree is again a red-black tree and no
    node outside it has been written. *)
From S2P Require Import Prelude Rbtree RbtreeRep.

(** ** The red-black invariant *)

(** [rbt n t]: no red node has a red child, and every path from the root of
    [t] to a leaf crosses [n] black nodes. *)
Inductive rbt : nat → tree → Prop :=
  | rbt_leaf : rbt 0 Leaf
  | rbt_red n l a r :
      rbt n l → rbt n r → is_black l = true → is_black r = true →
      rbt n (Node false l a r)
  | rbt_black n l a r : rbt n l → rbt n r → rbt (S n) (Node true l a r).

(** A red-black tree proper also has a black root. *)
Definition rbtree (t : tree) : Prop := is_black t = true ∧ ∃ n, rbt n t.

Definition up_black (k : ctx) : Prop :=
  match k with [] => True | f :: _ => f_black f = true end.

(** [cok n k]: plugging a tree of black height [n] into [k] breaks nothing
    above the hole; a red frame always has a black parent. *)
Fixpoint cok (n : nat) (k : ctx) : Prop :=
  match k with
  | [] => True
  | f :: k' =>
    rbt n (f_sib f) ∧
    if f_black f then cok (S n) k'
    else is_black (f_sib f) = true ∧ up_black k' ∧ k' ≠ [] ∧ cok n k'
  end.

Lemma rbt_nd n s c a x y :
  rbt n (nd s c a x y) ↔
  ∃ m, rbt m x ∧ rbt m y ∧
       (if c then n = S m else n = m ∧ is_black x = true ∧ is_black y = true).
Proof.
  split.
  - destruct s; simpl; inversion 1; subst; eexists; split_and!; eauto.
  - intros (m & ? & ? & Hc). destruct c; [subst n|destruct Hc as (-> & ? & ?)];
      destruct s; by constructor.
Qed.

Lemma is_black_nd s c a x y : is_black (nd s c a x y) = c.
Proof. by destruct s. Qed.

Lemma plug_rbt n k t :
  cok n k → rbt n t → (up_black k ∨ is_black t = true) → ∃ m, rbt m (plug k t).
Proof.
  revert n t. induction k as [|f k IH]; intros n t Hc Ht Hb; simpl; [by exists n|].
  destruct Hc as [Hs Hc]. destruct f as [sd c a sib]; simpl in *.
  destruct c.
  - apply (IH (S n)); [done| |right; by rewrite /fill is_black_nd].
    rewrite /fill rbt_nd. by exists n.
  - destruct Hc as (Hsb & Hub & _ & Hc). destruct Hb as [?|Hb]; [done|].
    apply (IH n); [done| |by left]. rewrite /fill rbt_nd. by exists n.
Qed.

Lemma plug_black n k t : cok n k → k ≠ [] → is_black (plug k t) = true.
Proof.
  revert n t. induction k as [|f [|g k] IH]; intros n t Hc Hk; [done|..].
  - simpl in *. rewrite /fill is_black_nd. destruct (f_black f); naive_solver.
  - destruct Hc as [_ Hc]. simpl. destruct (f_black f).
    + by apply (IH (S n)).
    + destruct Hc as (_ & _ & _ & Hc). by apply (IH n).
Qed.

(** ** In-order sequences and contexts *)

Lemma inorder_plug k t t' :
  inorder t = inorder t' → inorder (plug k t) = inorder (plug k t').
Proof.
  revert t t'. induction k as [|f k IH]; intros t t' E; simpl; [done|].
  apply IH. rewrite /fill /nd. destruct (f_side f); simpl; by rewrite E.
Qed.

(** Rotations and recolourings keep the in-order sequence. *)
Lemma inorder_rotate s c d c' d' n x o m y :
  inorder (nd s c o (nd s d n x m) y) = inorder (nd s c' n x (nd s d' o m y)).
Proof. destruct s; simpl; by rewrite -!app_assoc. Qed.

Lemma inorder_nd s c d a x x' y y' :
  inorder x = inorder x' → inorder y = inorder y' →
  inorder (nd s c a x y) = inorder (nd s d a x' y').
Proof. destruct s; simpl; by intros -> ->. Qed.

(** Focusing on the far child. *)
Lemma plug_far k s c a x y :
  plug (Fr (negb s) c a x :: k) y = plug k (nd s c a x y).
Proof. simpl. by rewrite /fill /= nd_flip. Qed.
Lemma plug_near k s c a x y : plug (Fr s c a y :: k) x = plug k (nd s c a x y).
Proof. done. Qed.

(** Any node can be written from either side. *)
Lemma nd_sided s c l a r :
  ∃ x y, Node c l a r = nd s c a x y ∧
    (∀ P : tree → Prop, P l → P r → P x ∧ P y).
Proof. destruct s; [exists r, l|exists l, r]; split; naive_solver. Qed.

(** ** Tests on a possibly null child *)

Section tests.
Context (s0 : rb_store).

Lemma wp_nonnull_red k t Q s :
  rep s0 s (plug k t) → Q (negb (is_black t)) s → wp (nonnull_red (ptr t)) Q s.
Proof.
  intros Hr HQ. rewrite /nonnull_red. destruct t as [|c l a r]; [done|]. simpl.
  rewrite nd_false in Hr. rewrite (rep_ptr_null _ _ _ _ _ _ _ _ Hr).
  eapply wp_rb_is_red; [exact Hr|exact HQ].
Qed.

Lemma wp_null_or_black k t Q s :
  rep s0 s (plug k t) → Q (is_black t) s → wp (null_or_black (ptr t)) Q s.
Proof.
  intros Hr HQ. rewrite /null_or_black. destruct t as [|c l a r]; [done|]. simpl.
  rewrite nd_false in Hr. rewrite (rep_ptr_null _ _ _ _ _ _ _ _ Hr).
  eapply wp_rb_is_black; [exact Hr|exact HQ].
Qed.

(** Two subtrees below the same node have different roots. *)
Lemma rep_ptr_sib k s c a x sb d b y z s' :
  rep s0 s' (plug k (nd s c a (nd sb d b y z) x)) → (ptr x =? b) = false.
Proof.
  intros Hr. apply Z.eqb_neq. intros E. pose proof (rep_uniq _ _ _ Hr b) as Hu.
  rewrite cnt_plug !cnt_nd (decide_True (P := b = b)) // in Hu.
  assert (good_ptr b) as [_ Hb].
  { eapply (rep_sub_good s0 s' k _ Hr). rewrite !cnt_nd (decide_True (P := b = b)) //. lia. }
  destruct x as [|c' l a' r]; simpl in *; subst.
  - done.
  - rewrite (decide_True (P := b = b)) // in Hu. lia.
Qed.

Lemma wp_rotate_side s k sd cn n x co o m y (Q : unit → rb_store → Prop) :
  rep s0 s (plug k (nd sd cn n x (nd sd co o m y))) →
  (∀ s', rep s0 s' (plug k (nd sd co o (nd sd cn n x m) y)) → Q tt s') →
  wp (rb_rotate_side n (sidez sd)) Q s.
Proof.
  intros Hr HQ. rewrite /rb_rotate_side.
  destruct sd; simpl; [eapply (wp_rb_rotate s0 s k true)|eapply (wp_rb_rotate s0 s k false)];
    eassumption.
Qed.
End tests.

(** ** The loop *)

(** The loop's invariant at [node = a]: the tree represented by the store has
    the in-order sequence [io]; the red focus [a] hangs in the context [k], and
    the only possible violation of the red-black conditions is that its parent
    is red. *)
Definition ins_inv (s0 s : rb_store) (io : list Z) (k : ctx) (a : Z) : Prop :=
  ∃ sd x y n,
    rep s0 s (plug k (nd sd false a x y)) ∧
    inorder (plug k (nd sd false a x y)) = io ∧
    rbt n x ∧ rbt n y ∧ is_black x = true ∧ is_black y = true ∧ cok n k.

Section branch.
Context (s0 : rb_store) (io : list Z).

(** The uncle is black: one or two rotations end the rebalancing.  [q] is
    the middle node of the three, [I] the red child it keeps on side [sd]. *)
Lemma wp_insert_rotate s k n sd g q j ji jo O U (Q : Z → rb_store → Prop) :
  rep s0 s (plug k (nd sd true g (nd sd false q (nd sd false j ji jo) O) U)) →
  inorder (plug k (nd sd true g (nd sd false q (nd sd false j ji jo) O) U)) = io →
  rbt n ji → rbt n jo → rbt n O → rbt n U →
  is_black ji = true → is_black jo = true → is_black O = true → is_black U = true →
  cok (S n) k →
  (∀ s' k', (length k' = S (length k))%nat → ins_inv s0 s' io k' j → Q j s') →
  wp (do! rb_set_black q then
      do! rb_set_red g then
      do! rb_rotate_side g (sidez (negb sd)) then
      ret j) Q s.
Proof.
  intros Hr Hio Hji Hjo HO HU Bji Bjo BO BU Hk HQ.
  rewrite -plug_near in Hr. apply wp_bind.
  eapply wp_rb_set_black; [exact Hr|]. clear s Hr. intros s Hr. rewrite plug_near in Hr.
  apply wp_bind. eapply wp_rb_set_red; [exact Hr|]. clear s Hr. intros s Hr.
  rewrite -(nd_flip sd false) -(nd_flip sd true) in Hr.
  apply wp_bind. eapply wp_rotate_side; [exact Hr|]. clear s Hr. intros s Hr.
  apply wp_ret. rewrite (nd_flip sd true) (nd_flip sd false) in Hr.
  apply (HQ _ (Fr sd true q (nd sd false g O U) :: k)); [done|].
  exists sd, ji, jo, n. rewrite plug_near. split_and!; [done|..|done|done|done|done|].
  - rewrite -Hio. apply inorder_plug.
    destruct sd; simpl; by rewrite -!app_assoc.
  - simpl. split; [|done]. rewrite rbt_nd. by exists n.
Qed.

(** The uncle is red: three recolourings, and the violation moves up. *)
Lemma wp_insert_recolour s k n sd g fs p N S cu ul u ur (Q : Z → rb_store → Prop) :
  rep s0 s (plug k (nd sd true g (nd fs false p N S) (Node cu ul u ur))) →
  inorder (plug k (nd sd true g (nd fs false p N S) (Node cu ul u ur))) = io →
  rbt n N → rbt n S → rbt n (Node false ul u ur) → cok (Datatypes.S n) k →
  (∀ s', ins_inv s0 s' io k g → Q g s') →
  wp (do! rb_set_black u then
      do! rb_set_black p then
      do! rb_set_red g then
      ret g) Q s.
Proof.
  intros Hr Hio HN HS HU Hk HQ.
  rewrite -plug_far nd_false in Hr. apply wp_bind.
  eapply wp_rb_set_black; [exact Hr|]. clear s Hr. intros s Hr.
  rewrite plug_far -plug_near in Hr. apply wp_bind.
  eapply wp_rb_set_black; [exact Hr|]. clear s Hr. intros s Hr. rewrite plug_near in Hr.
  apply wp_bind. eapply wp_rb_set_red; [exact Hr|]. clear s Hr. intros s Hr.
  apply wp_ret, HQ. eexists sd, _, _, (Datatypes.S n). split_and!; [exact Hr|..].
  - rewrite -Hio. apply inorder_plug, inorder_nd; [by apply inorder_nd|done].
  - rewrite rbt_nd. by exists n.
  - rewrite nd_false in HU. apply rbt_nd in HU as (m & ? & ? & -> & _).
    rewrite rbt_nd. by exists m.
  - by rewrite is_black_nd.
  - done.
  - done.
Qed.

Lemma wp_insert_branch s k n sd g fs p a sa x y S U (Q : Z → rb_store → Prop) :
  rep s0 s (plug k (nd sd true g (nd fs false p (nd sa false a x y) S) U)) →
  inorder (plug k (nd sd true g (nd fs false p (nd sa false a x y) S) U)) = io →
  rbt n x → rbt n y → rbt n S → rbt n U →
  is_black x = true → is_black y = true → is_black S = true → cok (Datatypes.S n) k →
  (∀ v s' k', (length k' <= Datatypes.S (length k))%nat → ins_inv s0 s' io k' v → Q v s') →
  wp (rb_insert_branch a p g (sidez sd)) Q s.
Proof.
  intros Hr Hio Hx Hy HS HU Bx By BS Hk HQ. rewrite /rb_insert_branch other_sidez.
  apply wp_bind. eapply wp_ld_far; [exact Hr|].
  apply wp_bind.
  eapply (wp_nonnull_red s0 (Fr (negb sd) true g _ :: k)); [rewrite plug_far; exact Hr|].
  destruct (is_black U) eqn:BU; simpl; last first.
  { destruct U as [|[] ul u ur]; [done..|]. simpl.
    eapply wp_insert_recolour; [exact Hr|exact Hio| |exact HS|exact HU|exact Hk|].
    - rewrite rbt_nd. by exists n.
    - intros s' Hi. apply (HQ _ _ k); [lia|done]. }
  apply wp_bind. rewrite -plug_near in Hr.
  destruct (decide (fs = sd)) as [->|Hne].
  - eapply wp_ld_far; [exact Hr|]. rewrite (rep_ptr_sib _ _ _ _ _ _ _ _ _ _ _ _ Hr).
    apply wp_bind, wp_ret. simpl. rewrite plug_near in Hr.
    destruct (decide (sa = sd)) as [->|Hne].
    + eapply wp_insert_rotate with (n := n); [exact Hr|exact Hio|done..|].
      intros s' k' E Hi. apply (HQ _ _ k'); [lia|done].
    + assert (sa = negb sd) as -> by (destruct sa, sd; done).
      rewrite nd_flip in Hr Hio.
      eapply wp_insert_rotate with (n := n); [exact Hr|exact Hio|done..|].
      intros s' k' E Hi. apply (HQ _ _ k'); [lia|done].
  - assert (fs = negb sd) as -> by (destruct fs, sd; done).
    eapply wp_ld_near; [exact Hr|]. rewrite ptr_nd Z.eqb_refl.
    assert (∃ x' y', nd sa false a x y = nd sd false a x' y' ∧ rbt n x' ∧ rbt n y' ∧
      is_black x' = true ∧ is_black y' = true) as (x' & y' & E & Hx' & Hy' & Bx' & By').
    { destruct (decide (sa = sd)) as [->|Hne'].
      - by exists x, y.
      - assert (sa = negb sd) as -> by (destruct sa, sd; done).
        exists y, x. by rewrite nd_flip. }
    rewrite E nd_flip in Hr Hio. apply wp_bind, wp_bind.
    eapply wp_rotate_side; [exact Hr|]. clear s Hr. intros s Hr.
    apply wp_ret. simpl. rewrite plug_near in Hr.
    eapply wp_insert_rotate with (n := n); [exact Hr| |done..|].
    + rewrite -Hio. apply inorder_plug, inorder_nd; [apply inorder_rotate|done].
    + intros s' k' E' Hi. apply (HQ _ _ k'); [lia|done].
Qed.
End branch.

Lemma wp_insert_loop s0 io fuel s k a :
  ins_inv s0 s io k a → (length k < fuel)%nat →
  wp (rb_insert_color_loop fuel a) (λ _ s',
    ∃ t n, rep s0 s' t ∧ inorder t = io ∧ rbt n t ∧ t ≠ Leaf) s.
Proof.
  revert s k a. induction fuel as [|fuel IH]; intros s k a Hi Hf; [lia|].
  destruct Hi as (sd & x & y & n & Hr & Hio & Hx & Hy & Bx & By & Hk). simpl.
  apply wp_bind. eapply wp_rb_parent; [exact Hr|].
  assert (rbt n (nd sd false a x y)) as Hrb by (rewrite rbt_nd; by exists n).
  assert (∀ k' t, t ≠ Leaf → plug k' t ≠ Leaf) as Hnl.
  { clear. induction k' as [|f k' IH]; [done|]. intros t _. simpl. apply IH.
    rewrite /fill. by destruct (f_side f). }
  destruct k as [|f k].
  { apply wp_bind, wp_ret. simpl. eexists _, n. split_and!; [exact Hr|done|done|].
    by destruct sd. }
  destruct f as [fs c p S]. apply wp_bind. simpl up.
  pose proof Hr as Hr'. rewrite plug_near in Hr'.
  simpl f_addr. rewrite -{1}(ptr_nd fs c p (nd sd false a x y) S).
  eapply wp_nonnull_red; [exact Hr'|]. rewrite is_black_nd.
  destruct c; simpl.
  { destruct (plug_rbt n (Fr fs true p S :: k) (nd sd false a x y)) as [m Hm];
      [done|done|by left|].
    eexists _, m. split_and!; [exact Hr|done|done|]. apply Hnl. by destruct sd. }
  destruct Hk as (HS & BS & Hub & Hne & Hk). simpl in HS, BS.
  destruct k as [|[gs gc g U] k]; [done|]. simpl in Hub. subst gc.
  destruct Hk as [HU Hk]. simpl in HU, Hk.
  apply wp_bind. eapply wp_rb_parent; [exact Hr'|]. simpl up.
  rewrite plug_near in Hr'.
  assert (wp (rb_insert_branch a p g (sidez gs)) (λ v s',
    wp (rb_insert_color_loop fuel v) (λ _ s',
      ∃ t n, rep s0 s' t ∧ inorder t = io ∧ rbt n t ∧ t ≠ Leaf) s') s) as Hw.
  { eapply wp_insert_branch with (n := n); [exact Hr'|exact Hio|done..|].
    intros v s' k' Hlen Hi. apply (IH s' k' v); [done|]. simpl in Hf. lia. }
  apply wp_bind. destruct gs.
  - eapply (wp_ld_far s0 k true); [exact Hr'|]. rewrite Z.eqb_sym.
    rewrite (rep_ptr_sib _ _ _ _ _ _ _ _ _ _ _ _ Hr'). by apply wp_bind.
  - eapply (wp_ld_near s0 k false); [exact Hr'|]. rewrite ptr_nd Z.eqb_refl. by apply wp_bind.
Qed.

(** Rebalancing after a node has been linked as a red leaf, or more generally
    as a red node with black children of equal black height. *)
Lemma wp_rb_insert_color s0 io fuel s k a :
  ins_inv s0 s io k a → (length k < fuel)%nat →
  wp (rb_insert_color fuel a) (λ _ s',
    ∃ t, rep s0 s' t ∧ inorder t = io ∧ rbtree t) s.
Proof.
  intros Hi Hf. apply wp_bind.
  eapply wp_mono; [exact (wp_insert_loop _ _ _ _ _ _ Hi Hf)|].
  intros _ s1 (t & n & Hr & Hio & Hn & Ht). apply wp_bind, wp_gets.
  destruct t as [|c l b r]; [done|]. rewrite (rep_root _ _ _ Hr). simpl.
  rewrite nd_false in Hr Hn.
  eapply (wp_rb_set_black s0 [] false); [exact Hr|].
  intros s2 Hr2. eexists. split_and!; [exact Hr2|by rewrite -Hio|]. split; [done|].
  apply rbt_nd in Hn as (m & ? & ? & _). exists (S m). rewrite rbt_nd. by exists m.
Qed.

(** ** Linking a new leaf *)

Definition link_of (k : ctx) : rb_link :=
  match k with [] => LinkRoot | f :: _ => LinkChild (f_addr f) (sidez (f_side f)) end.

(** Taking a red-black tree apart at any subtree. *)
Lemma rbt_plug_inv n k t :
  rbt n (plug k t) → is_black (plug k t) = true →
  ∃ m, rbt m t ∧ cok m k ∧ (is_black t = true ∨ (k ≠ [] ∧ up_black k)).
Proof.
  revert n t. induction k as [|f k IH]; intros n t Hn Hb.
  { exists n. simpl in *. naive_solver. }
  destruct (IH n (fill f t) Hn Hb) as (m & Hm & Hk & Hor).
  rewrite /fill in Hm. apply rbt_nd in Hm as (m' & Ht & Hs & Hc).
  rewrite /fill is_black_nd in Hor. exists m'. simpl. destruct (f_black f); simpl in *.
  - subst m. naive_solver.
  - destruct Hc as (-> & Hbt & Hbs). naive_solver.
Qed.

Lemma rep_link_node s0 s k a (Q : unit → rb_store → Prop) :
  rep s0 s (plug k Leaf) → cnt a (plug k Leaf) = 0%nat → good_ptr a →
  (∀ s', rep s0 s' (plug k (Node false Leaf a Leaf)) → Q tt s') →
  wp (rb_link_node a (up k) (link_of k)) Q s.
Proof.
  intros Hr Ha Hg HQ. apply wp_bind, wp_st_node.
  rewrite cnt_plug /= in Ha.
  pose proof (rep_agree _ _ _ Hr) as Hag. apply agree_plug in Hag as [_ Hk].
  set (h1 := <[a := mk_rb_node (up k) NULL NULL]> (rb_nodes s)).
  assert (agreek h1 NULL k) as Hk1 by (by apply agreek_insert).
  assert (∀ b, (cntk b k ≤ 1)%nat) as Hu.
  { intros b. pose proof (rep_uniq _ _ _ Hr b) as E. by rewrite cnt_plug /= in E. }
  enough (Q tt (mk_rb_store (relinkk a k h1) (rootrelink a k (rb_root s)))) as HQ'.
  { destruct k as [|f k]; [done|]. simpl. destruct Hk1 as (Hf & _).
    eapply wp_st_child_raw; [exact Hf|]. by rewrite cell_set_near. }
  apply HQ. rewrite (rep_rootrelink _ _ _ _ _ Hr). split; simpl.
  - by rewrite ptr_plug.
  - apply agree_plug. simpl. split; [|eapply agreek_relinkk; eassumption].
    split_and!; [|done..]. rewrite lookup_relinkk // lookup_insert_eq.
    rewrite /cell /colz /RB_RED. f_equal. f_equal. lia.
  - intros b. rewrite cnt_plug /=. specialize (Hu b). case_decide; subst; lia.
  - intros b. rewrite cnt_plug /=. case_decide; [by subst|]. intros Hb.
    apply (rep_good _ _ _ Hr). rewrite cnt_plug /=. lia.
  - intros b. rewrite cnt_plug /=. case_decide; [lia|]. intros Hb.
    rewrite lookup_relinkk // lookup_insert_ne //. apply (rep_frame _ _ _ Hr).
    by rewrite cnt_plug.
Qed.

(** The length of a path is bounded by the height of the tree. *)
Lemma height_plug k t : (length k + height t ≤ height (plug k t))%nat.
Proof.
  revert t. induction k as [|f k IH]; intros t; simpl; [lia|].
  specialize (IH (fill f t)). rewrite {1}/fill /nd in IH.
  destruct (f_side f); simpl in IH; lia.
Qed.
Lemma length_ctx_height k t : (length k ≤ height (plug k t))%nat.
Proof. pose proof (height_plug k t). lia. Qed.

(** Linking a fresh node at a leaf of a red-black tree and rebalancing. *)
Lemma wp_link_insert s0 s k a fuel :
  rep s0 s (plug k Leaf) → rbtree (plug k Leaf) →
  cnt a (plug k Leaf) = 0%nat → good_ptr a → (height (plug k Leaf) < fuel)%nat →
  wp (do! rb_link_node a (up k) (link_of k) then rb_insert_color fuel a) (λ _ s',
    ∃ t, rep s0 s' t ∧ inorder t = inorder (plug k (Node false Leaf a Leaf)) ∧
         rbtree t) s.
Proof.
  intros Hr [Hb [n Hn]] Ha Hg Hf. apply wp_bind.
  eapply rep_link_node; [exact Hr|done|done|]. intros s' Hr'.
  destruct (rbt_plug_inv _ _ _ Hn Hb) as (m & Hm & Hk & _). inversion Hm; subst m.
  eapply (wp_rb_insert_color _ _ _ _ k).
  - exists false, Leaf, Leaf, 0%nat. by split_and!; [exact Hr'|..].
  - pose proof (length_ctx_height k Leaf). lia.
Qed.
