(* ===== verification/RbtreeErase.v ===== *)
(** * Red-black trees: removal

    [__rb_erase_color] repairs a tree in which one subtree has lost a black
    node; [rb_erase] unlinks a node and calls it.  Total correctness, as for insertion:
    the routine returns, the in-order sequence loses exactly the erased node
    and the result is a red-black tree. *)
From S2P Require Import Prelude Rbtree RbtreeRep RbtreeInsert.

Definition blacken (t : tree) : tree :=
  match t with Leaf => Leaf | Node _ l a r => Node true l a r end.

(** The focus is one black node short of the [S n] its context expects: it is
    black of height [n], or red and right once blackened. *)
Definition short (n : nat) (t : tree) : Prop :=
  if is_black t then rbt n t else rbt (S n) (blacken t).

Definition er_inv (s0 s : rb_store) (io : list Z) (k : ctx) (t : tree) : Prop :=
  ∃ n, rep s0 s (plug k t) ∧ inorder (plug k t) = io ∧ short n t ∧ cok (S n) k.

Lemma inorder_blacken t : inorder (blacken t) = inorder t.
Proof. by destruct t. Qed.
Lemma blacken_nd s c a x y : blacken (nd s c a x y) = nd s true a x y.
Proof. by destruct s. Qed.
Lemma ptr_blacken t : ptr (blacken t) = ptr t.
Proof. by destruct t. Qed.
Lemma rbt_blacken n t : rbt n t → is_black t = false → rbt (S n) (blacken t).
Proof. destruct 1; intros; try done. by constructor. Qed.

(** What a finished repair establishes. *)
Definition er_done (s0 s : rb_store) (io : list Z) : Prop :=
  ∃ t, rep s0 s t ∧ inorder t = io ∧ rbtree t.

Section branch.
Context (s0 : rb_store) (io : list Z).
Implicit Types (s : rb_store) (k : ctx) (sd c : bool).

(** Blackening a child known to be a node. *)
Lemma wp_set_black_tree k t (Q : unit → rb_store → Prop) s :
  rep s0 s (plug k t) → t ≠ Leaf →
  (∀ s', rep s0 s' (plug k (blacken t)) → Q tt s') → wp (rb_set_black (ptr t)) Q s.
Proof.
  intros Hr Ht HQ. destruct t as [|c l a r]; [done|]. simpl. rewrite nd_false in Hr.
  eapply wp_rb_set_black; [exact Hr|]. done.
Qed.

(** The tests on the two children of [other], in the order of the source. *)
Lemma wp_both_black {A} k sd o m y (K : bool → R A) (Q : A → rb_store → Prop) s :
  rep s0 s (plug k (nd sd true o m y)) →
  wp (K (is_black m && is_black y)) Q s →
  wp (let! ol := ld_child o RB_LEFT in
      let! lb := null_or_black ol in
      let! both := (if lb then let! or_ := ld_child o RB_RIGHT in null_or_black or_
                    else ret false) in
      K both) Q s.
Proof.
  intros Hr HQ.
  assert (∃ l r, nd sd true o m y = nd false true o l r ∧
    is_black m && is_black y = is_black l && is_black r) as (l & r & E & Eb).
  { destruct sd; [exists y, m|exists m, y]; split; try done. by rewrite andb_comm. }
  rewrite Eb in HQ. rewrite E in Hr.
  apply wp_bind. eapply (wp_ld_near s0 k false); [exact Hr|]. apply wp_bind.
  eapply (wp_null_or_black s0 (Fr false true o r :: k)); [exact Hr|].
  apply wp_bind. destruct (is_black l); [|done]. apply wp_bind.
  eapply (wp_ld_far s0 k false); [exact Hr|].
  eapply (wp_null_or_black s0 (Fr true true o l :: k)); [exact Hr|done].
Qed.

(** The last rotation: [far] is red, [near] has any colour. *)
Lemma wp_erase_final s k n sd c p o t m y (Q : erase_step → rb_store → Prop) :
  rep s0 s (plug k (nd sd c p t (nd sd true o m y))) →
  inorder (plug k (nd sd c p t (nd sd true o m y))) = io →
  rbt n t → rbt n m → rbt n y → is_black y = false →
  (c = false → is_black t = true ∧ up_black k ∧ k ≠ []) →
  cok (if c then S (S n) else S n) k →
  (∀ r s', rb_root s' = r → er_done s0 s' io → Q (EraseBreak r) s') →
  wp (let! pc := rb_color p in
      do! rb_set_color o pc then
      do! rb_set_black p then
      let! far := ld_child o (sidez (negb sd)) in
      do! rb_set_black far then
      do! rb_rotate_side p (sidez sd) then
      let! r := ld_root in
      ret (EraseBreak r)) Q s.
Proof.
  intros Hr Hio Ht Hm Hy By Hc Hk HQ.
  apply wp_bind. eapply wp_rb_color; [exact Hr|].
  rewrite -plug_far in Hr. apply wp_bind.
  eapply wp_rb_set_color; [exact Hr|]. clear s Hr. intros s Hr. rewrite plug_far in Hr.
  apply wp_bind. eapply wp_rb_set_black; [exact Hr|]. clear s Hr. intros s Hr.
  rewrite -plug_far in Hr. apply wp_bind. eapply wp_ld_far; [exact Hr|].
  rewrite -plug_far in Hr. apply wp_bind.
  eapply wp_set_black_tree; [exact Hr|by intros ->|]. clear s Hr. intros s Hr.
  rewrite !plug_far in Hr. apply wp_bind.
  eapply wp_rotate_side; [exact Hr|]. clear s Hr. intros s Hr.
  apply wp_bind, wp_gets, wp_ret, HQ; [done|].
  eexists. split_and!; [exact Hr|..].
  - rewrite -Hio. apply inorder_plug. rewrite (inorder_rotate sd c true c true).
    apply inorder_nd; [done|]. apply inorder_nd; [done|apply inorder_blacken].
  - assert (rbt (S n) (nd sd true p t m)) as H1 by (rewrite rbt_nd; by exists n).
    assert (rbt (S n) (blacken y)) as H2 by (by apply rbt_blacken).
    assert (is_black (blacken y) = true) as H3 by (by destruct y).
    set (u := nd sd c o (nd sd true p t m) (blacken y)).
    assert (rbt (if c then S (S n) else S n) u) as Hu.
    { rewrite rbt_nd. exists (S n). split_and!; [done|done|].
      destruct c; [done|]. by rewrite is_black_nd. }
    assert (up_black k ∨ is_black u = true) as Hor.
    { rewrite is_black_nd. destruct c; [by right|left]. by apply Hc. }
    destruct (plug_rbt _ _ _ Hk Hu Hor) as [m' Hm']. split; [|by exists m'].
    destruct k as [|f k]; [simpl; rewrite is_black_nd; destruct c; naive_solver|].
    eapply plug_black; [exact Hk|done].
Qed.

Lemma wp_erase_black s k n sd c p t o m y (Q : erase_step → rb_store → Prop) :
  rep s0 s (plug k (nd sd c p t (nd sd true o m y))) →
  inorder (plug k (nd sd c p t (nd sd true o m y))) = io →
  rbt n t → is_black t = true → rbt n m → rbt n y →
  (c = false → up_black k ∧ k ≠ []) → cok (if c then S (S n) else S n) k →
  (∀ t' s', is_black t' = c → er_inv s0 s' io k t' →
            Q (EraseContinue (ptr t') (up k)) s') →
  (∀ r s', rb_root s' = r → er_done s0 s' io → Q (EraseBreak r) s') →
  wp (rb_erase_black_sibling o p (sidez sd)) Q s.
Proof.
  intros Hr Hio Ht Bt Hm Hy Hc Hk HQ1 HQ2. rewrite /rb_erase_black_sibling.
  assert (c = false → is_black t = true ∧ up_black k ∧ k ≠ []) as Hc' by naive_solver.
  eapply (wp_both_black (Fr (negb sd) c p t :: k)); [rewrite plug_far; exact Hr|].
  destruct (is_black y) eqn:By.
  - destruct (is_black m) eqn:Bm; simpl.
    { rewrite -plug_far in Hr. apply wp_bind.
      eapply wp_rb_set_red; [exact Hr|]. clear s Hr. intros s Hr. rewrite plug_far in Hr.
      apply wp_bind. eapply wp_rb_parent; [exact Hr|]. apply wp_ret.
      rewrite -(ptr_nd sd c p t (nd sd false o m y)). apply HQ1; [by rewrite is_black_nd|].
      exists (if c then S n else n). split_and!; [exact Hr| |..].
      - rewrite -Hio. apply inorder_plug, inorder_nd; [done|]. by apply inorder_nd.
      - assert (rbt n (nd sd false o m y)) by (rewrite rbt_nd; by exists n).
        rewrite /short is_black_nd. destruct c; rewrite ?blacken_nd rbt_nd; by exists n.
      - by destruct c. }
    rewrite other_sidez. rewrite -plug_far in Hr. apply wp_bind.
    eapply wp_ld_far; [exact Hr|]. apply wp_bind.
    eapply (wp_null_or_black s0 (Fr (negb sd) true o m :: Fr (negb sd) c p t :: k)).
    { rewrite plug_far. exact Hr. }
    rewrite By. destruct m as [|[] ml mm mr]; [done..|]. 
    assert (∃ m1 m2, Node false ml mm mr = nd sd false mm m1 m2) as (m1 & m2 & E)
      by (destruct sd; eauto).
    rewrite E in Hr Hio Hm |- *. apply rbt_nd in Hm as (? & Hm1 & Hm2 & <- & Bm1 & Bm2).
    apply wp_bind, wp_bind. eapply wp_ld_near; [exact Hr|]. rewrite ptr_nd.
    rewrite -plug_near in Hr. apply wp_bind.
    eapply wp_rb_set_black; [exact Hr|]. clear s Hr. intros s Hr. rewrite plug_near in Hr.
    apply wp_bind. eapply wp_rb_set_red; [exact Hr|]. clear s Hr. intros s Hr.
    rewrite -(nd_flip sd false) -(nd_flip sd true) in Hr.
    apply wp_bind. eapply wp_rotate_side; [exact Hr|]. clear s Hr. intros s Hr.
    rewrite (nd_flip sd true) (nd_flip sd false) plug_far in Hr.
    eapply wp_ld_far; [exact Hr|]. rewrite ptr_nd.
    eapply (wp_erase_final _ _ n); [exact Hr| |done|done| | |done|done|done].
    + rewrite -Hio. apply inorder_plug, inorder_nd; [done|].
      destruct sd; simpl; by rewrite -!app_assoc.
    + rewrite rbt_nd. by exists n.
    + by rewrite is_black_nd.
  - rewrite andb_false_r other_sidez. rewrite -plug_far in Hr. apply wp_bind.
    eapply wp_ld_far; [exact Hr|]. apply wp_bind.
    eapply (wp_null_or_black s0 (Fr (negb sd) true o m :: Fr (negb sd) c p t :: k)).
    { rewrite plug_far. exact Hr. }
    rewrite By. apply wp_bind, wp_ret. rewrite plug_far in Hr.
    by eapply (wp_erase_final _ _ n); [exact Hr|exact Hio|..].
Qed.

(** A measure of the loop: one step up, or one step to a red node. *)
Definition er_measure (k : ctx) (t : tree) : nat :=
  (2 * length k + (if is_black t then 1 else 0))%nat.

Lemma rbt_S_node n t sd :
  rbt (S n) t → ∃ c o m y, t = nd sd c o m y ∧
    (if c then rbt n m ∧ rbt n y
     else rbt (S n) m ∧ rbt (S n) y ∧ is_black m = true ∧ is_black y = true).
Proof.
  destruct t as [|c l a r]; [by inversion 1|].
  assert (∃ x y, Node c l a r = nd sd c a x y) as (x & y & ->) by (destruct sd; eauto).
  intros (m & Hx & Hy & Hc)%rbt_nd. exists c, a, x, y. split; [done|].
  destruct c; naive_solver.
Qed.

Lemma wp_erase_branch s k n sd c p t S (Q : erase_step → rb_store → Prop) :
  rep s0 s (plug k (nd sd c p t S)) → inorder (plug k (nd sd c p t S)) = io →
  rbt n t → is_black t = true → cok (Datatypes.S n) (Fr sd c p S :: k) →
  (∀ k' t' s', (er_measure k' t' < er_measure (Fr sd c p S :: k) t)%nat →
     er_inv s0 s' io k' t' → Q (EraseContinue (ptr t') (up k')) s') →
  (∀ r s', rb_root s' = r → er_done s0 s' io → Q (EraseBreak r) s') →
  wp (rb_erase_branch p (sidez sd)) Q s.
Proof.
  intros Hr Hio Ht Bt [HS Hk] HQ1 HQ2. simpl in HS, Hk. rewrite /rb_erase_branch other_sidez.
  destruct (rbt_S_node _ _ sd HS) as (co & o & m & y & -> & Hco).
  apply wp_bind. eapply wp_ld_far; [exact Hr|]. rewrite ptr_nd.
  apply wp_bind. rewrite -plug_far in Hr. eapply wp_rb_is_red; [exact Hr|].
  rewrite is_black_nd in Hk. destruct co; simpl.
  - apply wp_bind, wp_ret. rewrite plug_far in Hr. destruct Hco as [Hm Hy].
    eapply (wp_erase_black _ _ n); [exact Hr|exact Hio|done..| | | |done].
    + intros ->. naive_solver.
    + destruct c; naive_solver.
    + intros t' s' Bt' Hi. apply (HQ1 k); [|done]. rewrite /er_measure Bt /=.
      destruct (is_black t'); lia.
  - destruct Hco as (Hm & Hy & Bm & By). destruct c; [|naive_solver].
    apply wp_bind, wp_bind. eapply wp_rb_set_black; [exact Hr|]. clear s Hr. intros s Hr.
    rewrite plug_far in Hr. apply wp_bind.
    eapply wp_rb_set_red; [exact Hr|]. clear s Hr. intros s Hr.
    apply wp_bind. eapply wp_rotate_side; [exact Hr|]. clear s Hr. intros s Hr.
    rewrite -plug_near in Hr. eapply wp_ld_far; [exact Hr|].
    destruct (rbt_S_node _ _ sd Hm) as (cm & q & m1 & m2 & -> & Hcm).
    rewrite is_black_nd in Bm. subst cm. destruct Hcm as [Hm1 Hm2]. rewrite ptr_nd.
    eapply (wp_erase_black _ _ n); [exact Hr| |done..| | | |done].
    + rewrite -Hio plug_near. apply inorder_plug, inorder_rotate.
    + intros _. done.
    + simpl. done.
    + intros t' s' Bt' Hi. apply (HQ1 (Fr sd true o y :: k)); [|done].
      rewrite /er_measure Bt Bt' /=. lia.
Qed.
End branch.

Lemma ptr_root s0 s k t :
  rep s0 s (plug k t) → (ptr t =? rb_root s) = bool_decide (k = []).
Proof.
  intros Hr. rewrite (rep_root _ _ _ Hr) ptr_plug.
  destruct k as [|f k]; simpl; [by rewrite Z.eqb_refl|]. apply Z.eqb_neq.
  assert (∀ k x, (0 < cntk (rootk x k) k)%nat ∨ (k = [] ∧ rootk x k = x)) as Hroot.
  { clear. induction k as [|f k IH]; intros x; simpl; [by right|left].
    destruct (IH (f_addr f)) as [?|[-> ->]]; [lia|]. simpl. rewrite decide_True //. lia. }
  assert (0 < cntk (rootk (f_addr f) k) (f :: k))%nat as Hc.
  { simpl. destruct (Hroot k (f_addr f)) as [?|[_ ->]]; [lia|]. rewrite decide_True //. lia. }
  set (r := rootk (f_addr f) k) in *.
  pose proof (rep_uniq _ _ _ Hr r) as Hu. rewrite cnt_plug in Hu.
  intros E. destruct t as [|c l a b]; simpl in E.
  - assert (good_ptr r) as [_ Hne]; [|by rewrite -E in Hne].
    apply (rep_good _ _ _ Hr). rewrite cnt_plug. lia.
  - subst a. change (cnt r (Node c l r b)) with
      ((if decide (r = r) then 1 else 0) + cnt r l + cnt r b)%nat in Hu.
    rewrite (decide_True (P := r = r)) // in Hu. lia.
Qed.

Lemma wp_erase_loop s0 io fuel s k t :
  er_inv s0 s io k t → (er_measure k t < fuel)%nat →
  wp (rb_erase_color_loop fuel (ptr t) (up k)) (λ v s',
    (∃ k' t', v = ptr t' ∧ er_inv s0 s' io k' t' ∧ (is_black t' = false ∨ k' = [])) ∨
    (v = rb_root s' ∧ er_done s0 s' io)) s.
Proof.
  revert s k t. induction fuel as [|fuel IH]; intros s k t Hi Hf; [lia|].
  destruct Hi as (n & Hr & Hio & Ht & Hk). simpl.
  apply wp_bind. eapply wp_null_or_black; [exact Hr|].
  apply wp_bind, wp_gets. rewrite (ptr_root _ _ _ _ Hr).
  destruct (is_black t) eqn:Bt; simpl; last first.
  { apply wp_ret. left. exists k, t. split_and!; [done| |by left]. by exists n. }
  rewrite /short Bt in Ht. destruct k as [|[sd c p S] k]; simpl.
  { apply wp_ret. left. exists [], t. split_and!; [done| |by right].
    exists n. split_and!; [done|done|by rewrite /short Bt|done]. }
  pose proof Hr as Hr'. rewrite plug_near in Hr'.
  assert (wp (rb_erase_branch p (sidez sd)) (λ st s', wp
    (match st with
     | EraseContinue node parent => rb_erase_color_loop fuel node parent
     | EraseBreak node => ret node
     end) (λ v s',
    (∃ k' t', v = ptr t' ∧ er_inv s0 s' io k' t' ∧ (is_black t' = false ∨ k' = [])) ∨
    (v = rb_root s' ∧ er_done s0 s' io)) s') s) as Hw.
  { eapply (wp_erase_branch _ _ _ _ n); [exact Hr'|exact Hio|done|done|exact Hk|..].
    - intros k' t' s' Hm Hi. apply IH; [done|lia].
    - intros r s' <- Hd. apply wp_ret. by right. }
  apply wp_bind. destruct Hk as [HS _]. simpl in HS.
  destruct (rbt_S_node _ _ sd HS) as (co & o & m & y & -> & _). destruct sd.
  - eapply (wp_ld_far s0 k true); [exact Hr'|].
    assert (ptr (nd true co o m y) =? ptr t = false) as ->; [|by apply wp_bind].
    rewrite ptr_nd. destruct t as [|c' l' a' r'].
    + rewrite -plug_far in Hr'. eapply rep_ptr_null; exact Hr'.
    + rewrite nd_false in Hr'. rewrite -(ptr_nd true co o m y).
      eapply rep_ptr_sib; exact Hr'.
  - eapply (wp_ld_near s0 k false); [exact Hr'|]. rewrite Z.eqb_refl. by apply wp_bind.
Qed.

(** The repair as a whole. *)
Lemma wp_rb_erase_color s0 io fuel s k t :
  er_inv s0 s io k t → (er_measure k t < fuel)%nat →
  wp (__rb_erase_color fuel (ptr t) (up k)) (λ _ s', er_done s0 s' io) s.
Proof.
  intros Hi Hf. apply wp_bind. eapply wp_mono; [exact (wp_erase_loop _ _ _ _ _ _ Hi Hf)|].
  intros v s' [(k' & t' & -> & (n & Hr & Hio & Ht & Hk) & Hor)|[-> (t' & Hr & Hio & Hb & m & Hm)]].
  - destruct t' as [|c l a r].
    { destruct Hor as [?| ->]; [done|]. simpl. exists Leaf. split_and!; [done..|].
      split; [done|]. exists n. by rewrite /short /= in Ht. }
    rewrite nd_false in Hr. simpl. assert (good_ptr a) as [_ Hne]
      by (eapply rep_focus_good; exact Hr).
    rewrite (proj2 (Z.eqb_neq _ _) Hne). simpl.
    eapply wp_rb_set_black; [exact Hr|]. intros s2 Hr2.
    eexists. split_and!; [exact Hr2|rewrite -Hio; by apply inorder_plug|].
    destruct Hor as [Hb| ->].
    + simpl in Hb. subst c. rewrite /short /= in Ht.
      destruct (plug_rbt _ _ _ Hk Ht) as [m Hm]; [by right|]. split; [|by exists m].
      destruct k' as [|f k']; [done|]. eapply plug_black; [exact Hk|done].
    + simpl. split; [done|]. destruct c; [by exists n|]. exists (S n). exact Ht.
  - rewrite (rep_root _ _ _ Hr). destruct t' as [|c l a r]; simpl.
    { exists Leaf. by split_and!; [..|split; [|exists m]]. }
    simpl in Hb. subst c. rewrite nd_false in Hr.
    assert (good_ptr a) as [_ Hne] by (eapply (rep_focus_good s0 s' []); exact Hr).
    rewrite (proj2 (Z.eqb_neq _ _) Hne). simpl.
    eapply (wp_rb_set_black s0 [] false); [exact Hr|]. intros s2 Hr2.
    eexists. split_and!; [exact Hr2|done|]. split; [done|by exists m].
Qed.

(** ** Context segments *)

(** [agreek] for the lower part of a context whose upper end is the node [p]. *)
Definition upd (p : Z) (k : ctx) : Z := match k with [] => p | f :: _ => f_addr f end.
Fixpoint segk (h : gmap Z rb_node) (x : Z) (k : ctx) (p : Z) : Prop :=
  match k with
  | [] => True
  | f :: k =>
    h !! f_addr f = Some (cell (upd p k) (f_side f) (f_black f) x (ptr (f_sib f))) ∧
    agree h (f_addr f) (f_sib f) ∧ segk h (f_addr f) k p
  end.

Lemma plug_app k1 k2 t : plug (k1 ++ k2) t = plug k2 (plug k1 t).
Proof. revert t. induction k1; intros; simpl; auto. Qed.
Lemma up_app k1 k2 : up (k1 ++ k2) = upd (up k2) k1.
Proof. by destruct k1. Qed.
Lemma rootk_app x k1 k2 : rootk x (k1 ++ k2) = rootk (rootk x k1) k2.
Proof. revert x. induction k1; simpl; auto. Qed.
Lemma cntk_app a k1 k2 : cntk a (k1 ++ k2) = (cntk a k1 + cntk a k2)%nat.
Proof. induction k1; simpl; lia. Qed.

Lemma agreek_app h x k1 k2 :
  agreek h x (k1 ++ k2) ↔ segk h x k1 (up k2) ∧ agreek h (rootk x k1) k2.
Proof.
  revert x. induction k1 as [|f k1 IH]; intros x; simpl; [naive_solver|].
  rewrite IH up_app. naive_solver.
Qed.

Lemma segk_insert h x k p a n :
  cntk a k = 0%nat → segk h x k p → segk (<[a := n]> h) x k p.
Proof.
  revert x. induction k as [|f k IH]; intros x; simpl; [done|].
  case_decide as E; [lia|]. intros Hc (Hf & Hs & Hk).
  rewrite lookup_insert_ne; [congruence|]. split_and!; [done|..].
  - apply agree_insert; [lia|done].
  - apply IH; [lia|done].
Qed.

Lemma segk_reparent h v q t k p :
  (∀ a, (cnt a t + cntk a k ≤ 1)%nat) → segk h v k p → segk (reparent q t h) v k p.
Proof.
  destruct t as [|c l a r]; [done|]. intros Hu Hx. apply segk_insert; [|done].
  specialize (Hu a). simpl in Hu. rewrite decide_True // in Hu. lia.
Qed.

Lemma segk_relinkk h v k2 k p :
  (∀ a, (cntk a k2 + cntk a k ≤ 1)%nat) → ∀ w, segk h v k p → segk (relinkk w k2 h) v k p.
Proof.
  destruct k2 as [|f k2]; [done|]. intros Hu w Hx. apply segk_insert; [|done].
  specialize (Hu (f_addr f)). simpl in Hu. rewrite decide_True // in Hu. lia.
Qed.

(** Changing the link held by the lowest frame of a segment. *)
Lemma segk_set_low h v w f k p :
  (∀ a, (cntk a (f :: k) ≤ 1)%nat) → segk h v (f :: k) p →
  segk (<[f_addr f := cell (upd p k) (f_side f) (f_black f) w (ptr (f_sib f))]> h) w (f :: k) p.
Proof.
  intros Hu (Ha & Hs & Hk). simpl. specialize (Hu (f_addr f)). simpl in Hu.
  rewrite decide_True // in Hu. rewrite lookup_insert_eq.
  split_and!; [done|apply agree_insert|apply segk_insert]; (lia || done).
Qed.

(** Changing the parent of the highest frame of a segment. *)
Lemma segk_set_high h v k p q :
  (∀ a, (cntk a k ≤ 1)%nat) → k ≠ [] → segk h v k p →
  ∃ s c x y, h !! rootk v k = Some (cell p s c x y) ∧
    segk (<[rootk v k := cell q s c x y]> h) v k q ∧ (0 < cntk (rootk v k) k)%nat.
Proof.
  revert v. induction k as [|f [|g k] IH]; intros v Hu Hk Hs; [done|..].
  - destruct Hs as (Hf & Hs & _). simpl in *. specialize (Hu (f_addr f)).
    rewrite decide_True // in Hu |- *. eexists _, _, _, _. split; [exact Hf|split; [|lia]].
    rewrite lookup_insert_eq. split_and!; [done| |done]. apply agree_insert; [lia|done].
  - destruct Hs as (Hf & Hs & Hk').
    destruct (IH (f_addr f)) as (s & c & x & y & E & Hseg & Hin); [|done|exact Hk'|].
    { intros a. specialize (Hu a). simpl in *. lia. }
    change (rootk v (f :: g :: k)) with (rootk (f_addr f) (g :: k)).
    set (r := rootk (f_addr f) (g :: k)) in *. exists s, c, x, y.
    pose proof (Hu r) as Hur.
    change (cntk r (f :: g :: k)) with
      ((if decide (f_addr f = r) then 1 else 0) + cnt r (f_sib f) + cntk r (g :: k))%nat in Hur |- *.
    split_and!; [done| |lia]. case_decide as Hd; [lia|].
    change (segk (<[r:=cell q s c x y]> h) v (f :: g :: k) q) with
      (<[r:=cell q s c x y]> h !! f_addr f =
         Some (cell (f_addr g) (f_side f) (f_black f) v (ptr (f_sib f))) ∧
       agree (<[r:=cell q s c x y]> h) (f_addr f) (f_sib f) ∧
       segk (<[r:=cell q s c x y]> h) (f_addr f) (g :: k) q).
    rewrite lookup_insert_ne; [congruence|]. split_and!; [done| |done].
    apply agree_insert; [lia|done].
Qed.

(** ** Finding the successor *)

Lemma wp_descend s0 fuel s k t sd :
  rep s0 s (plug k t) → t ≠ Leaf → (height t ≤ fuel)%nat →
  wp (descend fuel (ptr t) (sidez sd)) (λ v s', s' = s ∧
    ∃ kr c x, t = plug kr (nd sd c v Leaf x) ∧ Forall (λ f, f_side f = sd) kr) s.
Proof.
  revert k t. induction fuel as [|fuel IH]; intros k t Hr Ht Hf.
  { destruct t; [done|]. simpl in Hf. lia. }
  destruct t as [|c l a r]; [done|].
  assert (∃ x y, Node c l a r = nd sd c a x y ∧ (height x ≤ fuel)%nat) as (x & y & E & Hh).
  { simpl in Hf. destruct sd; [exists r, l|exists l, r]; split; (done || lia). }
  rewrite E in Hr |- *. rewrite ptr_nd. simpl.
  apply wp_bind. eapply wp_ld_near; [exact Hr|].
  destruct x as [|cx lx ax rx]; simpl.
  - apply wp_ret. split; [done|]. exists [], c, y. by split.
  - rewrite -plug_near in Hr. pose proof Hr as Hr'. rewrite nd_false in Hr'.
    rewrite (rep_ptr_null _ _ _ _ _ _ _ _ Hr').
    eapply wp_mono; [exact (IH (Fr sd c a y :: k) (Node cx lx ax rx) Hr ltac:(done) Hh)|].
    intros v s' [-> (kr & c' & x' & Ex & Hk)]. split; [done|].
    exists (kr ++ [Fr sd c a y]), c', x'. split.
    + rewrite plug_app -Ex. done.
    + apply Forall_app. split; [done|]. by constructor.
Qed.

(** ** Unlinking *)

(** The store outside the tree, once [a] has left it. *)
Definition outside (s0 : rb_store) (a : Z) (n : rb_node) : rb_store :=
  mk_rb_store (<[a := n]> (rb_nodes s0)) (rb_root s0).

(** [rb_erase_one]: the only child takes the place of the node. *)
Lemma wp_rb_erase_one s0 s k sd c a t (Q : Z * Z * Z → rb_store → Prop) :
  rep s0 s (plug k (nd sd c a t Leaf)) →
  (∀ n s', rep (outside s0 a n) s' (plug k t) → Q (ptr t, up k, colz c) s') →
  wp (rb_erase_one a (ptr t)) Q s.
Proof.
  intros Hr HQ. pose proof (rep_agree _ _ _ Hr) as Ha.
  apply agree_plug in Ha as [(Hc & Ht & _)%agree_nd Hk]. rewrite ptr_nd in Hk.
  assert (∀ b, ((if decide (a = b) then 1 else 0) + cnt b t + cntk b k ≤ 1)%nat) as Hu.
  { intros b. pose proof (rep_uniq _ _ _ Hr b) as E. rewrite cnt_plug cnt_nd /= in E. lia. }
  pose proof (Hu a) as Hua. rewrite decide_True // in Hua.
  assert (good_ptr a) as [Ga Gn] by (eapply rep_focus_good; exact Hr).
  assert (aligned (up k)) as Gk by (eapply rep_up_aligned; exact Hr).
  apply wp_bind. eapply wp_rb_parent; [exact Hr|].
  apply wp_bind. eapply wp_rb_color; [exact Hr|].
  apply wp_bind. apply (wp_set_parent_opt _ a); [done| |done|done|].
  { intros b Hb. apply (rep_good _ _ _ Hr). rewrite cnt_plug cnt_nd. lia. }
  apply wp_bind. apply wp_relink; [|done|lia| |].
  { apply agreek_reparent; [intros b; specialize (Hu b); lia|done]. }
  { intros f k'. eapply rep_ctx_addr; exact Hr. }
  simpl. rewrite (rep_rootrelink _ _ _ _ _ Hr). apply wp_ret.
  apply (HQ (cell (up k) sd c (ptr t) NULL)). split; simpl.
  - by rewrite ptr_plug.
  - apply agree_plug. split.
    + apply agree_relinkk; [intros b; specialize (Hu b); lia|].
      eapply agree_reparent; [intros b; specialize (Hu b); lia|exact Ht].
    + eapply agreek_relinkk; [intros b; specialize (Hu b); lia|].
      apply agreek_reparent; [intros b; specialize (Hu b); lia|exact Hk].
  - intros b. rewrite cnt_plug. specialize (Hu b). lia.
  - intros b Hb. rewrite cnt_plug in Hb. apply (rep_good _ _ _ Hr).
    rewrite cnt_plug cnt_nd. lia.
  - intros b. rewrite cnt_plug. intros Hb.
    rewrite lookup_relinkk; [lia|]. rewrite lookup_reparent; [lia|].
    rewrite lookup_insert. case_decide as E; [by subst|].
    apply (rep_frame _ _ _ Hr). rewrite cnt_plug cnt_nd decide_False //=. lia.
Qed.

(** The end of [rb_erase_two]: the successor takes over colour, parent and
    left subtree of the erased node. *)
Lemma wp_erase_tail {A} st a y p c pr l q d u v (res : A) (Q : A → rb_store → Prop) :
  rb_nodes st !! a = Some (cell p true c pr (ptr l)) →
  rb_nodes st !! y = Some (cell q false d u v) →
  l ≠ Leaf → a ≠ y → agree (rb_nodes st) a l → cnt y l = 0%nat →
  aligned p → good_ptr a → good_ptr y →
  Q res (mk_rb_store (reparent y l (<[y := cell p false c (ptr l) v]> (rb_nodes st)))
                     (rb_root st)) →
  wp (let! o := ld_node a in
      let! n := ld_node y in
      do! st_node y (set_rb_pc n (rb_parent_color o)) then
      let! l := ld_child a RB_LEFT in
      do! st_child y RB_LEFT l then
      do! rb_set_parent l y then
      ret res) Q st.
Proof.
  intros Ha Hy Hl Hne Hag Hc Hp [Ga _] [Gy _] HQ.
  apply wp_bind. eapply wp_ld_node; [exact Ha|].
  apply wp_bind. eapply wp_ld_node; [exact Hy|].
  apply wp_bind, wp_st_node. rewrite cell_pc cell_set_pc.
  apply wp_bind. eapply wp_ld_child_raw; [simpl; rewrite lookup_insert_ne; [congruence|exact Ha]|].
  apply wp_bind. eapply wp_st_child_raw; [apply lookup_insert_eq|]. simpl.
  rewrite insert_insert_eq. destruct l as [|cl ll al rl]; [done|].
  simpl in *. case_decide; [lia|]. destruct Hag as (Hal & _).
  apply wp_bind. apply (wp_rb_set_parent_raw _ al a y false cl (ptr ll) (ptr rl)); [simpl; rewrite lookup_insert_ne; [congruence|exact Hal]|..];
    [done|done|]. by apply wp_ret.
Qed.

Section erase_two.
Context (s0 s : rb_store) (k kr : ctx) (c cy : bool) (a y : Z) (l ry : tree).
Let K := kr ++ Fr true c a l :: k.
Let K' := kr ++ Fr true c y l :: k.

Hypothesis Hr : rep s0 s (plug K (nd false cy y Leaf ry)).
Hypothesis Hl : l ≠ Leaf.
Hypothesis Hleft : Forall (λ f, f_side f = false) kr.

Lemma et_uniq b :
  ((if decide (a = b) then 1 else 0) + cnt b l + (if decide (y = b) then 1 else 0) +
   cnt b ry + cntk b kr + cntk b k ≤ 1)%nat.
Proof.
  pose proof (rep_uniq _ _ _ Hr b) as E. rewrite /K cnt_plug cnt_nd cntk_app /= in E. lia.
Qed.

Lemma et_good b :
  (0 < (if decide (a = b) then 1 else 0) + cnt b l + (if decide (y = b) then 1 else 0) +
   cnt b ry + cntk b kr + cntk b k)%nat → good_ptr b.
Proof.
  intros H. apply (rep_good _ _ _ Hr). rewrite /K cnt_plug cnt_nd cntk_app /=. lia.
Qed.

Lemma et_ne : a ≠ y.
Proof. intros E. pose proof (et_uniq y) as H. rewrite E !decide_True // in H. lia. Qed.

Lemma et_cells :
  rb_nodes s !! a = Some (cell (up k) true c (rootk y kr) (ptr l)) ∧ agree (rb_nodes s) a l ∧
  agreek (rb_nodes s) a k ∧ segk (rb_nodes s) y kr a ∧
  rb_nodes s !! y = Some (cell (upd a kr) false cy NULL (ptr ry)) ∧ agree (rb_nodes s) y ry.
Proof.
  pose proof (rep_agree _ _ _ Hr) as Ha.
  apply agree_plug in Ha as [(H1 & _ & H2)%agree_nd H3].
  rewrite /K ptr_nd agreek_app in H3. destruct H3 as [H3 (H4 & H5 & H6)].
  rewrite /K up_app in H1. done.
Qed.

(** The final store, once its cells are known. *)
Lemma et_rep h n :
  h !! y = Some (cell (up k) true c (rootk (ptr ry) kr) (ptr l)) →
  agree h y l → agreek h y k → segk h (ptr ry) kr y → agree h (upd y kr) ry →
  (∀ b, a ≠ b → y ≠ b → cnt b l = 0%nat → cnt b ry = 0%nat → cntk b kr = 0%nat →
     cntk b k = 0%nat → h !! b = rb_nodes s !! b) →
  h !! a = Some n →
  rep (outside s0 a n) (mk_rb_store h (rootk y k)) (plug K' ry).
Proof.
  intros H1 H2 H3 H4 H5 H6 H7. split; simpl.
  - by rewrite /K' ptr_plug rootk_app.
  - apply agree_plug. rewrite /K' up_app. split; [exact H5|].
    apply agreek_app. split; [done|]. simpl. done.
  - intros b. rewrite /K' cnt_plug cntk_app /=. pose proof (et_uniq b). lia.
  - intros b. rewrite /K' cnt_plug cntk_app /=. intros Hb. apply et_good. lia.
  - intros b. rewrite /K' cnt_plug cntk_app /=. intros Hb.
    destruct (decide (a = b)) as [<-|E]; [by rewrite lookup_insert_eq|].
    rewrite lookup_insert_ne //. case_decide; [lia|]. rewrite H6 //; [lia..|].
    apply (rep_frame _ _ _ Hr). rewrite /K cnt_plug cnt_nd cntk_app /=.
    rewrite !decide_False //; lia.
Qed.

Lemma et_refocus : rep s0 s (plug k (nd true c a (plug kr (nd false cy y Leaf ry)) l)).
Proof. rewrite -plug_near -plug_app. exact Hr. Qed.

(** The cells after the first relinking. *)
Record et_facts (h : gmap Z rb_node) : Prop := {
  etf_a : h !! a = Some (cell (up k) true c (rootk y kr) (ptr l));
  etf_y : h !! y = Some (cell (upd a kr) false cy NULL (ptr ry));
  etf_l : agree h a l;
  etf_ry : agree h y ry;
  etf_k : agreek h y k;
  etf_seg : segk h y kr a;
  etf_out : ∀ b, a ≠ b → y ≠ b → cnt b l = 0%nat → cnt b ry = 0%nat →
    cntk b kr = 0%nat → cntk b k = 0%nat → h !! b = rb_nodes s !! b
}.

Lemma et_relink : et_facts (relinkk y k (rb_nodes s)).
Proof.
  destruct et_cells as (Ha & Hal & Hk & Hseg & Hy & Hry).
  pose proof et_uniq as Hu. pose proof et_ne as Hne. pose proof (not_eq_sym Hne) as Hne'.
  pose proof (Hu a) as Ua. rewrite decide_True // decide_False // in Ua.
  pose proof (Hu y) as Uy. rewrite decide_False // decide_True // in Uy.
  split.
  - rewrite lookup_relinkk //; lia.
  - rewrite lookup_relinkk //; lia.
  - apply agree_relinkk; [intros b; specialize (Hu b); lia|done].
  - apply agree_relinkk; [intros b; specialize (Hu b); lia|done].
  - eapply agreek_relinkk; [intros b; specialize (Hu b); lia|exact Hk].
  - apply segk_relinkk; [intros b; specialize (Hu b); lia|done].
  - intros. by rewrite lookup_relinkk.
Qed.

Lemma et_good_a : good_ptr a.
Proof. apply et_good; rewrite decide_True //; lia. Qed.
Lemma et_good_y : good_ptr y.
Proof. apply et_good; rewrite (decide_True (P := y = y)) //; lia. Qed.
Lemma et_good_up : aligned (up k).
Proof. eapply rep_up_aligned; exact et_refocus. Qed.

(** [rb_erase_splice] up to the test on the parent of the successor. *)
Lemma et_splice (Q : Z * Z * Z → rb_store → Prop) :
  aligned (upd a kr) →
  (∀ h, et_facts h →
   wp (let! parent := (if upd a kr =? a then ret y else
         do! when (negb (ptr ry =? NULL)) (rb_set_parent (ptr ry) (upd a kr)) then
         do! st_child (upd a kr) RB_LEFT (ptr ry) then
         let! r := ld_child a RB_RIGHT in
         do! st_child y RB_RIGHT r then
         do! rb_set_parent r y then
         ret (upd a kr)) in
       let! o := ld_node a in
       let! n := ld_node y in
       do! st_node y (set_rb_pc n (rb_parent_color o)) then
       let! l := ld_child a RB_LEFT in
       do! st_child y RB_LEFT l then
       do! rb_set_parent l y then
       ret (ptr ry, parent, colz cy)) Q (mk_rb_store h (rootk y k))) →
  wp (rb_erase_splice a y) Q s.
Proof.
  intros Gu HQ. destruct et_cells as (Ha & _ & Hk & _).
  pose proof (et_uniq a) as Ua. rewrite decide_True // in Ua.
  rewrite /rb_erase_splice. apply wp_bind.
  eapply wp_rb_parent_raw; [exact Ha|apply et_good_up|].
  apply wp_bind. apply wp_relink; [done|apply et_good_a|lia| |].
  { intros f k'. eapply rep_ctx_addr; exact et_refocus. }
  rewrite (rep_rootrelink _ _ _ _ _ et_refocus). pose proof et_relink as Hf.
  set (h := relinkk y k (rb_nodes s)) in *. specialize (HQ h Hf).
  pose proof (etf_y h Hf) as Hy.
  apply wp_bind. eapply wp_ld_child_raw; [exact Hy|].
  apply wp_bind. eapply wp_rb_parent_raw; [exact Hy|done|].
  apply wp_bind, wp_bind. eapply wp_ld_node; [exact Hy|]. apply wp_ret.
  rewrite cell_pc unpack_color //.
Qed.
End erase_two.

(** Uniqueness facts at one address, for [lia]. *)
Ltac uniq_at Hu b :=
  let H := fresh "U" in pose proof (Hu b) as H; repeat case_decide; try lia.
Ltac uniq_lia Hu := let b := fresh "b" in intros b; specialize (Hu b); lia.

(** The successor is the right child itself. *)
Lemma et_adjacent s0 s k c cy a y l ry (Q : Z * Z * Z → rb_store → Prop) :
  rep s0 s (plug (Fr true c a l :: k) (nd false cy y Leaf ry)) → l ≠ Leaf →
  (∀ n s', rep (outside s0 a n) s' (plug (Fr true c y l :: k) ry) →
     Q (ptr ry, y, colz cy) s') →
  wp (rb_erase_splice a y) Q s.
Proof.
  intros Hr Hl HQ.
  pose proof (et_uniq s0 s k [] c cy a y l ry Hr) as Hu.
  pose proof (et_ne s0 s k [] c cy a y l ry Hr) as Hne.
  pose proof (et_good_a s0 s k [] c cy a y l ry Hr) as Ga.
  pose proof (et_good_y s0 s k [] c cy a y l ry Hr) as Gy.
  pose proof (et_good_up s0 s k [] c cy a y l ry Hr) as Gk.
  apply (et_splice s0 s k [] c cy a y l ry Hr); [apply Ga|].
  intros h [Ha Hy Hal Hry Hk _ Hout]. simpl in Ha, Hy |- *. rewrite Z.eqb_refl.
  pose proof (Hu y) as Uy. rewrite decide_False // decide_True // in Uy.
  pose proof (Hu a) as Ua. rewrite decide_True // in Ua. simpl in Hu, Uy, Ua.
  apply wp_bind, wp_ret.
  eapply (wp_erase_tail (mk_rb_store h (rootk y k)) a y (up k) c y l a cy NULL (ptr ry));
    [exact Ha|exact Hy|done|done|done|lia|done|done|done|]. simpl.
  eapply HQ, (et_rep s0 s k [] c cy a y l ry Hr); simpl.
  - rewrite lookup_reparent; [lia|]. by rewrite lookup_insert_eq.
  - eapply agree_reparent; [uniq_lia Hu|]. apply agree_insert; [lia|exact Hal].
  - apply agreek_reparent; [uniq_lia Hu|]. apply agreek_insert; [lia|done].
  - done.
  - apply agree_reparent_other; [uniq_lia Hu|]. apply agree_insert; [lia|done].
  - intros b ? ? ? ? _ ?. rewrite lookup_reparent //. rewrite lookup_insert_ne //. by apply Hout.
  - rewrite lookup_reparent; [lia|]. rewrite lookup_insert_ne; [congruence|exact Ha].
Qed.

(** The successor is deeper in the right subtree. *)
Lemma et_deep s0 s k f kr c cy a y l ry (Q : Z * Z * Z → rb_store → Prop) :
  rep s0 s (plug ((f :: kr) ++ Fr true c a l :: k) (nd false cy y Leaf ry)) → l ≠ Leaf →
  f_side f = false →
  (∀ n s', rep (outside s0 a n) s' (plug ((f :: kr) ++ Fr true c y l :: k) ry) →
     Q (ptr ry, f_addr f, colz cy) s') →
  wp (rb_erase_splice a y) Q s.
Proof.
  intros Hr Hl Hside HQ.
  pose proof (et_uniq s0 s k (f :: kr) c cy a y l ry Hr) as Hu.
  pose proof (et_ne s0 s k (f :: kr) c cy a y l ry Hr) as Hne.
  pose proof (et_good s0 s k (f :: kr) c cy a y l ry Hr) as Hg.
  pose proof (et_good_a s0 s k (f :: kr) c cy a y l ry Hr) as Ga.
  pose proof (et_good_y s0 s k (f :: kr) c cy a y l ry Hr) as Gy.
  pose proof (et_good_up s0 s k (f :: kr) c cy a y l ry Hr) as Gk.
  pose proof (Hu y) as Uy. rewrite decide_False // decide_True // in Uy.
  pose proof (Hu a) as Ua. rewrite decide_True // in Ua.
  pose proof (Hu (f_addr f)) as Uf. simpl in Uf.
  rewrite (decide_True (P := f_addr f = f_addr f)) // in Uf.
  assert (good_ptr (f_addr f)) as Gf.
  { apply Hg. simpl. rewrite (decide_True (P := f_addr f = f_addr f)) //. lia. }
  apply (et_splice s0 s k (f :: kr) c cy a y l ry Hr); [apply Gf|].
  intros h [Ha Hy Hal Hry Hk Hseg Hout]. simpl upd in *.
  assert (f_addr f ≠ a) as Hfa by (intros E; rewrite E decide_True // in Uf; lia).
  assert (f_addr f ≠ y) as Hfy.
  { intros E. rewrite E (decide_True (P := y = y)) // in Uf. lia. }
  rewrite (proj2 (Z.eqb_neq _ _) Hfa).
  apply wp_bind, wp_bind. apply (wp_set_parent_opt _ y (f_addr f) ry);
    [done|intros b Hb; apply Hg; lia|apply Gy|apply Gf|]. simpl.
  set (h2 := reparent (f_addr f) ry h).
  assert (segk h2 y (f :: kr) a) as Hseg2 by (apply segk_reparent; [uniq_lia Hu|done]).
  pose proof Hseg2 as (Hf2 & _). apply wp_bind. eapply wp_st_child_raw; [exact Hf2|].
  rewrite (_ : RB_LEFT = sidez (f_side f)); [by rewrite Hside|]. rewrite cell_set_near. simpl.
  set (h3 := <[f_addr f := _]> h2).
  assert (segk h3 (ptr ry) (f :: kr) a) as Hseg3.
  { apply (segk_set_low _ y); [uniq_lia Hu|done]. }
  assert (h3 !! a = Some (cell (up k) true c (rootk y (f :: kr)) (ptr l))) as Ha3.
  { rewrite lookup_insert_ne // lookup_reparent; [lia|done]. }
  assert (h3 !! y = Some (cell (f_addr f) false cy NULL (ptr ry))) as Hy3.
  { rewrite lookup_insert_ne // lookup_reparent; [lia|done]. }
  apply wp_bind. eapply wp_ld_child_raw; [exact Ha3|].
  apply wp_bind. eapply wp_st_child_raw; [exact Hy3|].
  set (r := rb_child (cell (up k) true c (rootk y (f :: kr)) (ptr l)) RB_RIGHT).
  assert (r = rootk (ptr ry) (f :: kr)) as Er by done.
  set (h4 := <[y := _]> (rb_nodes (mk_rb_store h3 (rootk y k)))).
  assert (segk h4 (ptr ry) (f :: kr) a) as Hseg4 by (apply segk_insert; [lia|done]).
  destruct (segk_set_high h4 (ptr ry) (f :: kr) a y) as (sr & cr & u & v & Hr4 & Hseg5 & Hin);
    [uniq_lia Hu|done|done|]. rewrite -Er in Hr4, Hseg5, Hin.
  pose proof (Hu r) as Ur.
  assert (r ≠ a) as Hra by (intros E; rewrite -E decide_True // in Ur; lia).
  assert (r ≠ y) as Hry'.
  { intros E. rewrite -E (decide_True (P := r = r)) // in Ur. lia. }
  apply wp_bind. eapply wp_rb_set_parent_raw; [exact Hr4|apply Ga|apply Gy|].
  apply wp_ret. simpl. set (h5 := <[r := cell y sr cr u v]> h4) in *.
  rewrite Hside. change (sidez false) with RB_LEFT.
  eapply (wp_erase_tail (mk_rb_store h5 (rootk y k)) a y (up k) c r l (f_addr f) cy NULL r); simpl.
  { rewrite lookup_insert_ne // lookup_insert_ne; [congruence|]. exact Ha3. }
  { rewrite lookup_insert_ne // lookup_insert_eq. done. }
  { done. } { done. }
  { apply agree_insert; [lia|]. apply agree_insert; [lia|]. apply agree_insert; [lia|].
    apply agree_reparent_other; [uniq_lia Hu|done]. }
  { lia. } { done. } { done. } { done. }
  eapply HQ, (et_rep s0 s k (f :: kr) c cy a y l ry Hr).
  - rewrite lookup_reparent; [lia|]. rewrite lookup_insert_eq. done.
  - eapply agree_reparent; [uniq_lia Hu|]. do 4 (apply agree_insert; [lia|]).
    apply agree_reparent_other; [uniq_lia Hu|exact Hal].
  - apply agreek_reparent; [uniq_lia Hu|]. do 4 (apply agreek_insert; [lia|]).
    apply agreek_reparent; [uniq_lia Hu|done].
  - apply segk_reparent; [uniq_lia Hu|]. apply segk_insert; [lia|done].
  - apply agree_reparent_other; [uniq_lia Hu|]. do 4 (apply agree_insert; [lia|]).
    eapply agree_reparent; [uniq_lia Hu|exact Hry].
  - intros b ? ? ? ? Hb ?. rewrite lookup_reparent //. rewrite lookup_insert_ne //.
    rewrite lookup_insert_ne; [intros <-; lia|]. rewrite lookup_insert_ne //.
    rewrite lookup_insert_ne; [intros <-; simpl in Hb; rewrite decide_True // in Hb; lia|].
    rewrite lookup_reparent //. by apply Hout.
  - rewrite lookup_reparent; [lia|]. rewrite lookup_insert_ne; [congruence|].
    rewrite lookup_insert_ne // lookup_insert_ne; [congruence|]. exact Ha3.
Qed.

(** [rb_erase_two]: the in-order successor takes the place of the node. *)
Lemma wp_rb_erase_two s0 s k c a l r fuel (Q : Z * Z * Z → rb_store → Prop) :
  rep s0 s (plug k (Node c l a r)) → l ≠ Leaf → r ≠ Leaf → (height r ≤ fuel)%nat →
  (∀ kr cy y ry n s', r = plug kr (nd false cy y Leaf ry) →
     Forall (λ f, f_side f = false) kr →
     rep (outside s0 a n) s' (plug (kr ++ Fr true c y l :: k) ry) →
     Q (ptr ry, up (kr ++ Fr true c y l :: k), colz cy) s') →
  wp (rb_erase_two fuel a) Q s.
Proof.
  intros Hr Hl Hrn Hf HQ.
  change (Node c l a r) with (nd true c a r l) in Hr.
  apply wp_bind. eapply (wp_ld_near s0 k true); [exact Hr|].
  rewrite -plug_near in Hr. apply wp_bind.
  eapply wp_mono; [exact (wp_descend s0 fuel s _ r false Hr Hrn Hf)|].
  intros y s' (-> & kr & cy & ry & Er & Hleft). simpl in Hr.
  assert (rep s0 s (plug (kr ++ Fr true c a l :: k) (nd false cy y Leaf ry))) as Hr2.
  { rewrite plug_app -Er. exact Hr. }
  destruct kr as [|f kr].
  - eapply et_adjacent; [exact Hr2|done|]. intros n s' Hs'. by eapply (HQ [] cy y ry n s').
  - inversion Hleft; subst. eapply et_deep; [exact Hr2|done|done|].
    intros n s' Hs'. by eapply (HQ (f :: kr) cy y ry n s').
Qed.

(** ** The whole of [rb_erase] *)

(** The tree after splicing out a node [y] of colour [cy] with one child [x]:
    already a red-black tree if [y] was red, one black node short otherwise. *)
Lemma spliced K sd cy y x :
  rbtree (plug K (nd sd cy y x Leaf)) →
  if cy then ∃ n, short n x ∧ cok (S n) K else rbtree (plug K x).
Proof.
  intros [Hb [n Hn]]. destruct (rbt_plug_inv _ _ _ Hn Hb) as (m & Hm & Hk & Hor).
  apply rbt_nd in Hm as (m' & Hx & _ & Hc). rewrite is_black_nd in Hor. destruct cy.
  - subst m. exists m'. split; [|done]. rewrite /short. destruct (is_black x) eqn:E; [done|].
    by apply rbt_blacken.
  - destruct Hc as (-> & Hbx & _). destruct Hor as [?|[Hne Hub]]; [done|].
    split; [eapply plug_black; [exact Hk|done]|]. eapply plug_rbt; [exact Hk|done|by left].
Qed.

Lemma rbt_addr n kr sd c a b l k x :
  rbt n (plug (kr ++ Fr sd c a l :: k) x) → rbt n (plug (kr ++ Fr sd c b l :: k) x).
Proof.
  rewrite !plug_app /=. set (t := plug kr x).
  assert (∀ n, rbt n (fill (Fr sd c a l) t) → rbt n (fill (Fr sd c b l) t)) as H.
  { intros m. rewrite /fill !rbt_nd. done. }
  assert (is_black (fill (Fr sd c a l) t) = is_black (fill (Fr sd c b l) t)) as Hb.
  { by rewrite /fill !is_black_nd. }
  revert H Hb. generalize (fill (Fr sd c a l) t), (fill (Fr sd c b l) t). clear.
  revert n. induction k as [|f k IH]; intros n t u H Hb; simpl; [apply H|].
  apply IH; [|by rewrite /fill !is_black_nd]. intros m. rewrite /fill !rbt_nd -Hb.
  intros (m' & H1 & H2). exists m'. split; [by apply H|done].
Qed.

Lemma is_black_plug_addr kr sd c a b l k x :
  is_black (plug (kr ++ Fr sd c a l :: k) x) = is_black (plug (kr ++ Fr sd c b l :: k) x).
Proof.
  rewrite !plug_app /=.
  assert (is_black (fill (Fr sd c a l) (plug kr x)) = is_black (fill (Fr sd c b l) (plug kr x))).
  { by rewrite /fill !is_black_nd. }
  revert H. generalize (fill (Fr sd c a l) (plug kr x)), (fill (Fr sd c b l) (plug kr x)).
  induction k as [|f k IH]; intros t u H; simpl; [done|].
  apply IH. by rewrite /fill !is_black_nd.
Qed.

Lemma rbtree_addr kr sd c a b l k x :
  rbtree (plug (kr ++ Fr sd c a l :: k) x) → rbtree (plug (kr ++ Fr sd c b l :: k) x).
Proof.
  intros [Hb [n Hn]]. split; [by rewrite -(is_black_plug_addr kr sd c a)|].
  exists n. eapply rbt_addr. exact Hn.
Qed.

Lemma inorder_plug_split k : ∃ pre post, ∀ t, inorder (plug k t) = pre ++ inorder t ++ post.
Proof.
  induction k as [|[sd c a sib] k (pre & post & IH)].
  - exists [], []. intros t. by rewrite app_nil_r.
  - destruct sd.
    + exists (pre ++ inorder sib ++ [a]), post. intros t. simpl. rewrite IH /=.
      by rewrite -!app_assoc.
    + exists pre, (a :: inorder sib ++ post). intros t. simpl. rewrite IH /=.
      by rewrite -!app_assoc.
Qed.

Lemma inorder_plug_left kr :
  Forall (λ f, f_side f = false) kr → ∃ post, ∀ t, inorder (plug kr t) = inorder t ++ post.
Proof.
  induction 1 as [|[sd c a sib] kr Hf Hkr (post & IH)].
  - exists []. intros t. by rewrite app_nil_r.
  - simpl in Hf. subst sd. exists (a :: inorder sib ++ post). intros t. simpl. rewrite IH /=.
    by rewrite -!app_assoc.
Qed.

(** The end of [rb_erase]: rebalancing, when a black node has been unlinked. *)
Lemma wp_erase_end s0 s K cy sd y x fuel :
  rep s0 s (plug K x) → rbtree (plug K (nd sd cy y x Leaf)) →
  (2 * length K + 1 < fuel)%nat →
  wp (if colz cy =? RB_BLACK then __rb_erase_color fuel (ptr x) (up K) else ret tt)
     (λ _ s', er_done s0 s' (inorder (plug K x))) s.
Proof.
  intros Hr Hb Hf. pose proof (spliced _ _ _ _ _ Hb) as Hs. destruct cy; simpl.
  - destruct Hs as (n & Hn & Hk). apply wp_rb_erase_color; [by exists n|].
    rewrite /er_measure. destruct (is_black x); lia.
  - apply wp_ret. by exists (plug K x).
Qed.

Lemma wp_rb_erase s0 s k c l a r fuel :
  rep s0 s (plug k (Node c l a r)) → rbtree (plug k (Node c l a r)) →
  (2 * height (plug k (Node c l a r)) + 1 < fuel)%nat →
  wp (rb_erase fuel a) (λ _ s', ∃ n t pre post,
    inorder (plug k (Node c l a r)) = pre ++ a :: post ∧
    rep (outside s0 a n) s' t ∧ inorder t = pre ++ post ∧ rbtree t) s.
Proof.
  intros Hr Hb Hf.
  destruct (inorder_plug_split k) as (pre & post & Hio).
  pose proof (length_ctx_height k (Node c l a r)) as Hlen.
  apply wp_bind. eapply (wp_ld_near s0 k false); [exact Hr|].
  apply wp_bind. eapply (wp_ld_far s0 k false); [exact Hr|]. simpl sidez.
  assert (∀ t u, ptr t =? NULL = true → rep s0 s (plug k u) →
    (∀ b, (cnt b t ≤ cnt b u)%nat) → t = Leaf) as Hnull.
  { intros [|ct lt at_ rt] u E Hu Hle; [done|]. simpl in E.
    destruct (rep_good _ _ _ Hu at_) as [_ Hne].
    - rewrite cnt_plug. specialize (Hle at_). simpl in Hle. rewrite decide_True // in Hle. lia.
    - apply Z.eqb_eq in E. done. }
  apply wp_bind.
  destruct (ptr l =? NULL) eqn:El; [|destruct (ptr r =? NULL) eqn:Er].
  - assert (l = Leaf) as ->.
    { apply (Hnull l _ El Hr). intros b. simpl. lia. }
    change (Node c Leaf a r) with (nd true c a r Leaf) in *.
    eapply wp_rb_erase_one; [exact Hr|]. intros n s' Hs'.
    eapply wp_mono; [eapply (wp_erase_end _ _ k); [exact Hs'|exact Hb|lia]|].
    intros _ s2 (t & Ht & Hi & Ht'). exists n, t, pre, (inorder r ++ post).
    rewrite !Hio in Hi |- *. by split_and!.
  - assert (r = Leaf) as ->.
    { apply (Hnull r _ Er Hr). intros b. simpl. lia. }
    change (Node c l a Leaf) with (nd false c a l Leaf) in *.
    eapply wp_rb_erase_one; [exact Hr|]. intros n s' Hs'.
    eapply wp_mono; [eapply (wp_erase_end _ _ k); [exact Hs'|exact Hb|lia]|].
    intros _ s2 (t & Ht & Hi & Ht'). exists n, t, (pre ++ inorder l), post.
    rewrite !Hio in Hi |- *. split_and!; [by rewrite -!app_assoc|done|by rewrite -app_assoc|done].
  - eapply wp_rb_erase_two; [exact Hr|by intros ->|by intros ->| |].
    { pose proof (height_plug k (Node c l a r)) as Hh. simpl in Hh. lia. }
    intros kr cy y ry n s' -> Hleft Hs'.
    change (Node c l a ?x) with (nd true c a x l) in *.
    rewrite -plug_near -plug_app in Hb, Hlen, Hf.
    pose proof (length_ctx_height (kr ++ Fr true c a l :: k) (nd false cy y Leaf ry)) as Hlen2.
    eapply wp_mono.
    { eapply (wp_erase_end _ _ _ cy true y); [exact Hs'| |].
      - eapply (rbtree_addr kr true c a). exact Hb.
      - rewrite !length_app in Hlen2 |- *. cbn [length] in *. lia. }
    destruct (inorder_plug_left _ Hleft) as [post' Hp].
    intros _ s2 (t & Ht & Hi & Ht'). rewrite plug_app /= Hio /= Hp in Hi.
    exists n, t, (pre ++ inorder l), (y :: inorder ry ++ post' ++ post).
    rewrite Hio /= Hp /= Hi.
    split_and!; [by rewrite -!app_assoc /= -!app_assoc|done|by rewrite -!app_assoc /= -!app_assoc|done].
Qed.
