(* ===== verification/RbtreeWalk.v ===== *)
(** * Red-black trees: traversal, depth, and the interface theorems

    [rb_first], [rb_last], [rb_next] and [rb_prev] follow the in-order
    sequence.  The file ends with the theorems clients rely on. *)
From S2P Require Import Prelude Rbtree RbtreeRep RbtreeInsert RbtreeErase.

(** The nodes of [t] met when moving towards side [sd]. *)
Definition dir (sd : bool) (t : tree) : list Z :=
  if sd then inorder t else rev (inorder t).

(** The nodes of a context met after its hole. *)
Fixpoint after (sd : bool) (k : ctx) : list Z :=
  match k with
  | [] => []
  | f :: k =>
    if Bool.eqb (f_side f) sd then after sd k
    else f_addr f :: dir sd (f_sib f) ++ after sd k
  end.

Fixpoint before (sd : bool) (k : ctx) : list Z :=
  match k with
  | [] => []
  | f :: k =>
    if Bool.eqb (f_side f) sd then before sd k ++ dir sd (f_sib f) ++ [f_addr f]
    else before sd k
  end.

Lemma dir_nd sd c a x y : dir sd (nd sd c a x y) = dir sd y ++ a :: dir sd x.
Proof. destruct sd; simpl; [done|]. by rewrite rev_app_distr /= -app_assoc. Qed.

Lemma dir_nd_other sd c a x y : dir sd (nd (negb sd) c a x y) = dir sd x ++ a :: dir sd y.
Proof. destruct sd; simpl; [done|]. by rewrite rev_app_distr /= -app_assoc. Qed.

Lemma dir_plug sd k t : dir sd (plug k t) = before sd k ++ dir sd t ++ after sd k.
Proof.
  revert t. induction k as [|[fs c a sib] k IH]; intros t; simpl; [by rewrite app_nil_r|].
  rewrite IH /fill /=. destruct (Bool.eqb_spec fs sd) as [->|E].
  - rewrite dir_nd. by rewrite -!app_assoc.
  - assert (fs = negb sd) as -> by (by destruct fs, sd).
    rewrite dir_nd_other. by rewrite -!app_assoc.
Qed.

(** Going down on one side only leaves nothing before the focus. *)
Lemma before_other sd k : Forall (λ f, f_side f = negb sd) k → before sd k = [].
Proof.
  induction 1 as [|f k Hf _ IH]; simpl; [done|]. rewrite Hf IH. by destruct sd.
Qed.

Section walk.
Context (s0 s : rb_store).

(** Descending gives the first node met from that side. *)
Lemma wp_descend_first fuel k t sd :
  rep s0 s (plug k t) → t ≠ Leaf → (height t ≤ fuel)%nat →
  wp (descend fuel (ptr t) (sidez (negb sd))) (λ v s', s' = s ∧ hd_error (dir sd t) = Some v) s.
Proof.
  intros Hr Ht Hf. eapply wp_mono; [exact (wp_descend s0 fuel s k t _ Hr Ht Hf)|].
  intros v s' (-> & kr & c & x & -> & Hall). split; [done|].
  rewrite dir_plug before_other // dir_nd_other. by destruct sd.
Qed.

Lemma wp_ascend fuel k t sd :
  rep s0 s (plug k t) → t ≠ Leaf → (length k < fuel)%nat →
  wp (ascend fuel (ptr t) (sidez sd)) (λ v s', s' = s ∧ v = hd NULL (after sd k)) s.
Proof.
  revert k t. induction fuel as [|fuel IH]; intros k t Hr Ht Hf; [lia|].
  destruct t as [|c l a r]; [done|]. rewrite nd_false in Hr |- *. rewrite ptr_nd. simpl.
  apply wp_bind. eapply wp_rb_parent; [exact Hr|].
  destruct k as [|f k]; simpl; [by apply wp_ret|].
  assert (good_ptr (f_addr f)) as [_ Hn].
  { apply (rep_good _ _ _ Hr). rewrite cnt_plug /= (decide_True (P := f_addr f = f_addr f)) //. lia. }
  rewrite (proj2 (Z.eqb_neq _ _) Hn). destruct f as [fs d b sib]; simpl in *.
  pose proof Hr as Hr1. rewrite /fill /= in Hr1.
  apply wp_bind. destruct (Bool.eqb_spec fs sd) as [->|E].
  - eapply wp_ld_near; [exact Hr1|]. rewrite ?ptr_nd Z.eqb_refl.
    rewrite -(ptr_nd sd d b (Node c l a r) sib).
    eapply wp_mono; [eapply (IH k); [exact Hr1|by destruct sd|lia]|done].
  - assert (sidez sd = sidez (negb fs)) as -> by (by destruct fs, sd).
    eapply wp_ld_far; [exact Hr1|]. rewrite Z.eqb_sym.
    rewrite (rep_ptr_sib s0 k fs d b sib false c a l r s Hr1). by apply wp_ret.
Qed.

Lemma wp_rb_step fuel k sd c a x y :
  rep s0 s (plug k (nd sd c a x y)) → (height (plug k (nd sd c a x y)) < fuel)%nat →
  wp (rb_step fuel a (sidez sd)) (λ v s', s' = s ∧ v = hd NULL (dir sd x ++ after sd k)) s.
Proof.
  intros Hr Hf. apply wp_bind. eapply wp_rb_parent; [exact Hr|].
  pose proof (height_plug k (nd sd c a x y)) as Hh.
  assert (up k ≠ a) as Hup.
  { intros E. pose proof (rep_uniq _ _ _ Hr a) as Hu. rewrite cnt_plug cnt_nd decide_True // in Hu.
    destruct k as [|f k]; simpl in E, Hu.
    - destruct (rep_focus_good _ _ _ _ _ _ _ _ Hr) as [_ Hn]. congruence.
    - rewrite (decide_True (P := f_addr f = a)) // in Hu. lia. }
  rewrite (proj2 (Z.eqb_neq _ _) Hup).
  apply wp_bind. eapply wp_ld_near; [exact Hr|].
  destruct x as [|cx lx ax rx]; cbn [ptr].
  - rewrite Z.eqb_refl /= -{1}(ptr_nd sd c a Leaf y). eapply wp_mono.
    { eapply (wp_ascend fuel k); [exact Hr|by destruct sd|lia]. }
    intros v s' [-> ->]. split; [done|]. by destruct sd.
  - assert (good_ptr ax) as [_ Hn].
    { apply (rep_good _ _ _ Hr). rewrite cnt_plug cnt_nd /= (decide_True (P := ax = ax)) //. lia. }
    rewrite (proj2 (Z.eqb_neq _ _) Hn) /=.
    assert (other_side (sidez sd) = sidez (negb sd)) as -> by (by destruct sd).
    rewrite -plug_near in Hr.
    eapply wp_mono.
    { eapply (wp_descend_first fuel _ (Node cx lx ax rx)); [exact Hr|done|].
      assert (height (Node cx lx ax rx) < height (nd sd c a (Node cx lx ax rx) y))%nat.
      { destruct sd; simpl; lia. }
      lia. }
    intros v s' [-> Hv]. split; [done|].
    destruct (dir sd (Node cx lx ax rx)); [done|]. by inversion Hv.
Qed.
End walk.

(** A node of the tree is a focus of it. *)
Lemma inorder_focus a t sd : a ∈ inorder t → ∃ k c x y, t = plug k (nd sd c a x y).
Proof.
  induction t as [|c l IHl b r IHr]; simpl; [by rewrite elem_of_nil|].
  rewrite elem_of_app elem_of_cons. intros [H|[->|H]].
  - destruct (IHl H) as (k & c' & x & y & ->). exists (k ++ [Fr false c b r]), c', x, y.
    by rewrite plug_app.
  - destruct sd; [exists [], c, r, l|exists [], c, l, r]; done.
  - destruct (IHr H) as (k & c' & x & y & ->). exists (k ++ [Fr true c b l]), c', x, y.
    by rewrite plug_app.
Qed.

(** ** Depth *)

Lemma rbt_size n t : rbt n t → (2 ^ n ≤ S (length (inorder t)))%nat.
Proof.
  induction 1; simpl; rewrite ?length_app /=; lia.
Qed.

Lemma rbt_height n t :
  rbt n t → (height t ≤ 2 * n + (if is_black t then 0 else 1))%nat.
Proof.
  induction 1 as [|n l a r _ IHl _ IHr Hl Hr|n l a r _ IHl _ IHr]; simpl; [lia|..].
  - rewrite Hl Hr in IHl, IHr. lia.
  - destruct (is_black l), (is_black r); lia.
Qed.

Lemma rbtree_height t : rbtree t → (height t ≤ 2 * Nat.log2 (S (length (inorder t))))%nat.
Proof.
  intros [Hb [n Hn]]. pose proof (rbt_height _ _ Hn) as Hh. rewrite Hb in Hh.
  pose proof (rbt_size _ _ Hn) as Hs.
  pose proof (Nat.log2_le_mono _ _ Hs) as Hl. rewrite Nat.log2_pow2 in Hl; lia.
Qed.

(** ** Uniqueness *)

Lemma cnt_inorder a t : cnt a t = 0%nat ↔ a ∉ inorder t.
Proof.
  induction t as [|c l IHl b r IHr]; simpl; [split; [intros _; apply not_elem_of_nil|done]|].
  rewrite not_elem_of_app not_elem_of_cons -IHl -IHr. case_decide; subst; split.
  - lia.
  - by intros (_ & ? & _).
  - intros. split_and!; [lia|congruence|lia].
  - intros (? & _ & ?). lia.
Qed.

Lemma cnt_nodup t : NoDup (inorder t) → ∀ a, (cnt a t ≤ 1)%nat.
Proof.
  induction t as [|c l IHl b r IHr]; simpl; intros H a; [lia|].
  apply NoDup_app in H as (Hl & Hd & [Hb Hr]%NoDup_cons).
  specialize (IHl Hl a). specialize (IHr Hr a).
  destruct (decide (a ∈ inorder l)) as [Hal|Hal].
  - pose proof (Hd a Hal) as Hn. apply not_elem_of_cons in Hn as [? Hn%cnt_inorder].
    rewrite decide_False; [congruence|lia].
  - apply cnt_inorder in Hal. case_decide; [|lia]. subst. apply cnt_inorder in Hb. lia.
Qed.

Lemma rep_nodup s0 s t : rep s0 s t → NoDup (inorder t).
Proof.
  intros Hr. pose proof (rep_uniq _ _ _ Hr) as Hu. clear Hr.
  induction t as [|c l IHl b r IHr]; simpl; [constructor|].
  assert (∀ a, (cnt a l ≤ 1)%nat ∧ (cnt a r ≤ 1)%nat) as H.
  { intros a. specialize (Hu a). simpl in Hu. lia. }
  apply NoDup_app. split_and!; [apply IHl; intros; apply H| |].
  - intros a Ha [<-|Hb]%elem_of_cons; specialize (Hu a); simpl in Hu.
    + rewrite decide_True // in Hu. revert Ha. apply cnt_inorder. lia.
    + destruct (cnt a r) eqn:E; [by apply cnt_inorder in E|].
      destruct (cnt a l) eqn:El; [by apply cnt_inorder in El|]. lia.
  - apply NoDup_cons. split; [|apply IHr; intros; apply H].
    apply cnt_inorder. specialize (Hu b). simpl in Hu. rewrite decide_True // in Hu. lia.
Qed.

#[export] Instance good_ptr_dec p : Decision (good_ptr p).
Proof. unfold good_ptr, aligned. apply _. Defined.

Fixpoint agreeb (h : gmap Z rb_node) (p : Z) (t : tree) : bool :=
  match t with
  | Leaf => true
  | Node c l a r =>
    bool_decide (h !! a = Some (cell p false c (ptr l) (ptr r))) && agreeb h a l && agreeb h a r
  end.

Lemma agreeb_agree h p t : agreeb h p t = true → agree h p t.
Proof.
  revert p. induction t as [|c l IHl a r IHr]; intros p; simpl; [done|].
  rewrite !andb_true_iff bool_decide_eq_true. intros [[H1 H2%IHl] H3%IHr]. done.
Qed.

(** Checking a concrete store against a tree. *)
Definition repb (s : rb_store) (t : tree) : bool :=
  (rb_root s =? ptr t) && agreeb (rb_nodes s) NULL t &&
  bool_decide (NoDup (inorder t)) && bool_decide (Forall good_ptr (inorder t)).

Lemma repb_rep s t : repb s t = true → rep s s t.
Proof.
  rewrite /repb !andb_true_iff !bool_decide_eq_true.
  intros [[[Hroot%Z.eqb_eq Hag%agreeb_agree] Hnd] Hg].
  split; [done|done|by apply cnt_nodup| |done].
  intros a Ha. rewrite Forall_forall in Hg. apply Hg.
  destruct (decide (a ∈ inorder t)) as [|Hn]; [done|]. apply cnt_inorder in Hn. lia.
Qed.

(** ** Interface theorems *)


(** The addresses in front of the hole of a context and behind it, in order. *)
Fixpoint ctx_pre (k : ctx) : list Z :=
  match k with
  | [] => []
  | f :: k => ctx_pre k ++ (if f_side f then inorder (f_sib f) ++ [f_addr f] else [])
  end.
Fixpoint ctx_post (k : ctx) : list Z :=
  match k with
  | [] => []
  | f :: k => (if f_side f then [] else f_addr f :: inorder (f_sib f)) ++ ctx_post k
  end.
Lemma inorder_plug_ctx k t : inorder (plug k t) = ctx_pre k ++ inorder t ++ ctx_post k.
Proof.
  revert t. induction k as [|[sd c a x] k IH]; intros t; simpl; [by rewrite app_nil_r|].
  rewrite IH /fill. by destruct sd; simpl; rewrite -?app_assoc.
Qed.

(** The place a link stands for: the root of an empty tree, directly in front
    of the parent, or directly behind it. *)
Definition at_link (l : rb_link) (pre post : list Z) : Prop :=
  match l with
  | LinkRoot => pre = [] ∧ post = []
  | LinkChild p i => if i =? RB_LEFT then head post = Some p else last pre = Some p
  end.
Lemma at_link_of k : at_link (link_of k) (ctx_pre k) (ctx_post k).
Proof. destruct k as [|[[] c a x] k]; [done| |done]. by rewrite /at_link /= app_assoc last_snoc. Qed.

(** C1: Linking a new node at a free child slot of a red-black tree and calling
    [rb_insert_color] terminates without a fault; the result is a red-black
    tree whose in-order sequence is the old one with the new node added at the
    place of the slot: directly in front of the parent for its left slot,
    directly behind it for its right slot. No cell outside the tree is
    written. *)
Theorem rb_insert_correct s k a fuel :
  rep s s (plug k Leaf) → rbtree (plug k Leaf) →
  a ∉ inorder (plug k Leaf) → good_ptr a → (height (plug k Leaf) < fuel)%nat →
  ∃ s' t pre post,
    (do! rb_link_node a (up k) (link_of k) then rb_insert_color fuel a) s = Ret (tt, s') ∧
    rep s s' t ∧ rbtree t ∧ at_link (link_of k) pre post ∧
    inorder (plug k Leaf) = pre ++ post ∧ inorder t = pre ++ a :: post.
Proof.
  intros Hr Hb Ha%cnt_inorder Hg Hf.
  destruct (wp_elim _ _ _ (wp_link_insert _ _ _ _ _ Hr Hb Ha Hg Hf)) as ([] & s' & E & t & H1 & H2 & H3).
  exists s', t, (ctx_pre k), (ctx_post k). rewrite H2 !inorder_plug_ctx. split_and!; [done..|apply at_link_of|done|done].
Qed.

(** C2: [rb_erase] of any node of a red-black tree terminates without a fault;
    the result is a red-black tree over the same in-order sequence with that
    node removed, and apart from the erased node itself no cell outside the
    tree is written. *)
Theorem rb_erase_correct s t pre a post fuel :
  rep s s t → rbtree t → inorder t = pre ++ a :: post → (2 * height t + 1 < fuel)%nat →
  ∃ s' t', rb_erase fuel a s = Ret (tt, s') ∧ rbtree t' ∧ inorder t' = pre ++ post ∧
    rb_root s' = ptr t' ∧ agree (rb_nodes s') NULL t' ∧
    (∀ b, b ∉ inorder t → rb_nodes s' !! b = rb_nodes s !! b).
Proof.
  intros Hr Hb Hio Hf.
  destruct (inorder_focus a t false) as (k & c & x & y & ->); [rewrite Hio; set_solver|].
  destruct (wp_elim _ _ _ (wp_rb_erase _ _ _ _ _ _ _ _ Hr Hb Hf))
    as ([] & s' & E & n & t' & pre' & post' & Hio' & Hr' & Hi & Ht).
  pose proof (rep_nodup _ _ _ Hr) as Hnd. 
  assert (pre ++ a :: post = pre' ++ a :: post') as Hsp by (rewrite -Hio; exact Hio').
  assert (pre' = pre ∧ post' = post) as [-> ->].
  { rewrite Hio in Hnd. by destruct (NoDup_split _ _ _ _ _ Hnd Hsp) as [-> ->]. }
  exists s', t'. split_and!; [done|done|done|apply Hr'|apply Hr'|].
  intros b Hnb. rewrite (rep_frame _ _ _ Hr').
  { apply cnt_inorder. rewrite Hi. rewrite Hio in Hnb. clear -Hnb. set_solver. }
  rewrite lookup_insert_ne; [|done]. rewrite Hio in Hnb. clear -Hnb. set_solver.
Qed.

(** The traversal functions follow the in-order sequence: [rb_first] and
    [rb_last] give its ends, [rb_next] and [rb_prev] the neighbours of a node,
    NULL past an end, and none of them writes to the store. *)
Theorem rb_walk_correct s t fuel :
  rep s s t → (height t < fuel)%nat →
  rb_first fuel s = Ret (hd NULL (inorder t), s) ∧
  rb_last fuel s = Ret (hd NULL (rev (inorder t)), s) ∧
  ∀ pre a post, inorder t = pre ++ a :: post →
    rb_next fuel a s = Ret (hd NULL post, s) ∧
    rb_prev fuel a s = Ret (hd NULL (rev pre), s).
Proof.
  intros Hr Hf.
  assert (∀ sd, (if ptr t =? NULL then ret NULL else descend fuel (ptr t) (sidez (negb sd))) s
    = Ret (hd NULL (dir sd t), s)) as Hends.
  { intros sd. destruct t as [|c l a r]; [by destruct sd|].
    destruct (rep_good _ _ _ Hr a) as [_ Hn]; [simpl; rewrite decide_True //; lia|].
    cbn [ptr]. rewrite (proj2 (Z.eqb_neq _ _) Hn).
    destruct (wp_elim _ _ _ (wp_descend_first s s fuel [] (Node c l a r) sd Hr
      ltac:(done) ltac:(lia))) as (v & s' & E & -> & Hv).
    cbn [ptr] in E. rewrite E. destruct (dir sd (Node c l a r)); by inversion Hv. }
  assert (∀ sd pre a post, dir sd t = pre ++ a :: post →
    rb_step fuel a (sidez sd) s = Ret (hd NULL post, s)) as Hstep.
  { intros sd pre a post Hd.
    destruct (inorder_focus a t sd) as (k & c & x & y & ->).
    { assert (a ∈ dir sd t) as Ha by (rewrite Hd; set_solver). destruct sd; [done|].
      by apply list_elem_of_In, in_rev, list_elem_of_In in Ha. }
    destruct (wp_elim _ _ _ (wp_rb_step s s fuel k sd c a x y Hr Hf)) as (v & s' & E & -> & ->).
    rewrite E. do 3 f_equal. rewrite dir_plug dir_nd -!app_assoc /= in Hd.
    assert (NoDup (dir sd (plug k (nd sd c a x y)))) as Hnd.
    { pose proof (rep_nodup _ _ _ Hr) as H. destruct sd; simpl; [done|]. by apply NoDup_ListNoDup, NoDup_rev, NoDup_ListNoDup. }
    rewrite app_assoc in Hd.
    rewrite dir_plug dir_nd -!app_assoc /= app_assoc in Hnd.
    by destruct (NoDup_split _ _ _ _ _ Hnd Hd) as [_ ->]. }
  pose proof (rep_root _ _ _ Hr) as Hroot.
  split_and!.
  { rewrite /rb_first /bind /ld_root /gets Hroot. apply (Hends true). }
  { rewrite /rb_last /bind /ld_root /gets Hroot. apply (Hends false). }
  intros pre a post Hio. split; [by apply (Hstep true pre)|].
  apply (Hstep false (rev post) a (rev pre)). simpl. rewrite Hio rev_app_distr /=.
  by rewrite -app_assoc.
Qed.

(** Depth of a red-black tree: twice the logarithm of its size, so every
    loop that follows a path of the tree is logarithmic. *)
Theorem rbtree_depth t : rbtree t → (height t ≤ 2 * Nat.log2 (S (length (inorder t))))%nat.
Proof. apply rbtree_height. Qed.

(** ** A concrete tree *)

(** Four nodes, built by the code itself. *)
Definition demo_tree : tree :=
  Node true (Node true (Node false Leaf 0x1000 Leaf) 0x2000 Leaf) 0x3000
            (Node true Leaf 0x4000 Leaf).
Definition demo_insert (x : Z) (p : Z) (l : rb_link) : R unit :=
  do! rb_link_node x p l then rb_insert_color 8 x.
Definition demo_store : rb_store :=
  match (do! demo_insert 0x3000 NULL LinkRoot then
         do! demo_insert 0x2000 0x3000 (LinkChild 0x3000 RB_LEFT) then
         do! demo_insert 0x4000 0x3000 (LinkChild 0x3000 RB_RIGHT) then
         demo_insert 0x1000 0x2000 (LinkChild 0x2000 RB_LEFT)) (mk_rb_store ∅ NULL) with
  | Ret (_, s) => s
  | _ => mk_rb_store ∅ NULL
  end.

Lemma demo_rep : rep demo_store demo_store demo_tree.
Proof. apply repb_rep. vm_compute. reflexivity. Qed.
Lemma demo_rbtree : rbtree demo_tree.
Proof. split; [done|]. exists 2%nat. repeat constructor. Qed.

Lemma rb_insert_witness : ∃ s' t pre post,
  (do! rb_link_node 0x5000 0x4000 (LinkChild 0x4000 RB_RIGHT) then rb_insert_color 8 0x5000)
    demo_store = Ret (tt, s') ∧
  rep demo_store s' t ∧ rbtree t ∧ last pre = Some 0x4000 ∧ inorder demo_tree = pre ++ post ∧
  inorder t = pre ++ 0x5000 :: post.
Proof.
  apply (rb_insert_correct demo_store
    [Fr true true 0x4000 Leaf;
     Fr true true 0x3000 (Node true (Node false Leaf 0x1000 Leaf) 0x2000 Leaf)] 0x5000 8).
  - exact demo_rep.
  - exact demo_rbtree.
  - decide_closed.
  - decide_closed.
  - simpl. lia.
Defined.

Lemma rb_erase_witness : ∃ s' t',
  rb_erase 16 0x3000 demo_store = Ret (tt, s') ∧ rbtree t' ∧
  inorder t' = [0x1000; 0x2000] ++ [0x4000] ∧
  rb_root s' = ptr t' ∧ agree (rb_nodes s') NULL t' ∧
  (∀ b, b ∉ inorder demo_tree → rb_nodes s' !! b = rb_nodes demo_store !! b).
Proof.
  apply (rb_erase_correct demo_store demo_tree _ 0x3000);
    [exact demo_rep|exact demo_rbtree|reflexivity|simpl; lia].
Defined.

Lemma rb_walk_witness :
  rb_next 8 0x2000 demo_store = Ret (hd NULL [0x3000; 0x4000], demo_store).
Proof.
  destruct (rb_walk_correct demo_store demo_tree 8 demo_rep ltac:(simpl; lia)) as (_ & _ & H).
  destruct (H [0x1000] 0x2000 [0x3000; 0x4000] eq_refl) as [Hn _]. exact Hn.
Defined.

Lemma rbtree_depth_witness : (height demo_tree ≤ 2 * Nat.log2 5)%nat.
Proof. apply (rbtree_depth demo_tree). exact demo_rbtree. Defined.
