(* ===== verification/PageAlloc.v ===== *)
(** * The page allocator as its clients see it

    [alloc_page] and [free_page] are called by the scheduler, the object caches,
    the page cache and the page tables.  Their theorems are proved against this
    interface; the buddy allocator discharges it. *)
From S2P Require Import Prelude.

(** [include/arch-ia32/page.h] *)
Definition PAGE_SIZE : Z := 4096.
Definition PAGE_MASK : Z := PAGE_SIZE - 1.
Definition PAGE_OFFSET : Z := 0xc0000000.

(** The protections of a mapping ([include/scaraOS/mm.h]). *)
Definition PROT_READ : Z := Z.shiftl 1 0.
Definition PROT_EXEC : Z := Z.shiftl 1 2.
Definition PROT_WRITE : Z := Z.shiftl 1 3.

(** The two entry points, on the state [P] of an allocator; [alloc_page] gives
    NULL when there is no page. *)
Class PageOps (P : Type) := {
  alloc_page : M P Z;
  free_page : Z → M P unit
}.

(** The address of a page. *)
Definition page_ok (v : Z) : Prop := PAGE_OFFSET ≤ v ≤ 2 ^ 32 - PAGE_SIZE ∧ v mod PAGE_SIZE = 0.

(** [pages_own p A]: exactly the pages of [A] are handed out. *)
Class PageSpec (P : Type) `{!PageOps P} := {
  pages_own : P → gset Z → Prop;
  pages_alloc p A :
    pages_own p A →
    wp alloc_page (λ v p', (v = NULL ∧ pages_own p' A) ∨
      (page_ok v ∧ v ∉ A ∧ pages_own p' ({[ v ]} ∪ A))) p;
  pages_free p A v :
    pages_own p A → v ∈ A → v ≠ NULL →
    wp (free_page v) (λ _ p', pages_own p' (A ∖ {[ v ]})) p
}.

(** A pool of pages: the simplest allocator of this interface. *)
Definition pool := list Z.

#[export] Instance pool_ops : PageOps pool := {|
  alloc_page := λ l, match l with [] => Ret (NULL, []) | v :: l => Ret (v, l) end;
  free_page v := λ l, Ret (tt, v :: l)
|}.

#[export] Program Instance pool_spec : PageSpec pool := {|
  pages_own l A := NoDup l ∧ (∀ v, v ∈ l → page_ok v ∧ v ∉ A) ∧ ∀ v, v ∈ A → page_ok v
|}.
Next Obligation.
  intros [|v l] A (Hnd & Hl & HA); [by left|]. apply NoDup_cons in Hnd as [Hv Hnd]. right.
  destruct (Hl v) as [Hok Hn]; [set_solver|]. split; [exact Hok|]. split; [done|].
  split; [done|]. split.
  - intros u Hu. destruct (Hl u) as [? ?]; [set_solver|]. set_solver.
  - intros u [->%elem_of_singleton|Hu]%elem_of_union; [done|by apply HA].
Qed.
Next Obligation.
  intros l A v (Hnd & Hl & HA) Hv _. split_and!.
  - apply NoDup_cons. split; [|done]. intros Hin. by destruct (Hl v Hin).
  - intros u [->|Hu]%elem_of_cons; [split; [by apply HA|set_solver]|]. destruct (Hl u Hu). set_solver.
  - intros u [Hu _]%elem_of_difference. by apply HA.
Qed.
