(* ===== verification/Sched.v ===== *)
(** * Tasks, scheduler and semaphores

    [kernel/sched.c], [kernel/semaphore.c], [include/scaraOS/task.h],
    [include/scaraOS/semaphore.h], [irq_handler] of [arch-ia32/irq.c] and
    [switch_task] and [task_stack_overflowed] of [arch-ia32/task.c].

    The state is the one the source shares between tasks: the task structures,
    the list heads (run queue, queue of the dead, wait queues) as the sequence of
    tasks on them, and the semaphore counters.  A task that is switched out keeps, as a stack of
    [frame]s, the places its call chain will resume at; the rest of its code is
    the sequence of synchronisation operations it will call.  [exec_current]
    runs the current task up to its next return or switch, [kstep] adds
    interrupts, which may come whenever the code has them enabled.

    [wake_one] looks at its queue before it turns interrupts off; its only
    caller is [sem_V], which has turned them off, so it is not a call of a
    task's own.  [kernel_thread] is one step: until its last call puts the
    new task on the run queue, it writes a page that no queue and no other task
    refers to; the semaphore inside the page allocator, at which it could sleep,
    is not part of the machine. *)
From S2P Require Import Prelude Regs PageAlloc.

(** [include/scaraOS/task.h] *)
Definition TASK_RUNNING : Z := 0.
Definition TASK_READY : Z := 1.
Definition TASK_SLEEPING : Z := 2.
Definition TASK_ZOMBIE : Z := 3.

(** Layout of [struct task] with 32-bit pointers. *)
Definition sizeof_task : Z := 148.

(** The static list heads; a wait queue is designated by the address of its
    own head, a semaphore by its address, which is that of its [waiters]. *)
Definition runq : Z := 0xc0100000.
Definition delq : Z := 0xc0100008.

(** A synchronisation call of a task's code; [OpKthread f] names the function
    the new thread starts. *)
Inductive op :=
  | OpP (sem : Z)
  | OpV (sem : Z)
  | OpSleep (q : Z)
  | OpWakeUp (q : Z)
  | OpKthread (f : Z)
  | OpSched
  | OpExit (code : Z).

(** Where a call chain resumes: after [switch_task] in [sched]; at the end of
    [sleep_on]; at the loop test of [sem_P]; at the call of [sched] in
    [do_exit]; at the [panic] that follows it. *)
Inductive frame :=
  | FSched
  | FSleep (q : Z)
  | FSemP (sem : Z)
  | FExit
  | FPanic.

#[export] Instance frame_eq_dec : EqDecision frame.
Proof. solve_decision. Defined.
#[export] Instance op_eq_dec : EqDecision op.
Proof. solve_decision. Defined.

(** [struct task]: [list] is its place in the queues of the configuration; of
    [t.tss] the code segment and the stack pointer are kept as fields, the rest of the saved
    context is [t_frames] and [t_code]. *)
Record task := mk_task {
  t_state : Z;
  t_cs : Z;
  t_esp : Z;
  t_pid : Z;
  t_exit_code : Z;
  t_frames : list frame;
  t_code : list op
}.

Definition set_state (v : Z) (t : task) : task :=
  mk_task v (t_cs t) (t_esp t) (t_pid t) (t_exit_code t) (t_frames t) (t_code t).
Definition set_esp (v : Z) (t : task) : task :=
  mk_task (t_state t) (t_cs t) v (t_pid t) (t_exit_code t) (t_frames t) (t_code t).
Definition set_exit_code (v : Z) (t : task) : task :=
  mk_task (t_state t) (t_cs t) (t_esp t) (t_pid t) v (t_frames t) (t_code t).
Definition set_frames (v : list frame) (t : task) : task :=
  mk_task (t_state t) (t_cs t) (t_esp t) (t_pid t) (t_exit_code t) v (t_code t).
Definition set_code (v : list op) (t : task) : task :=
  mk_task (t_state t) (t_cs t) (t_esp t) (t_pid t) (t_exit_code t) (t_frames t) v.

Section sched.
(** The page allocator, and the code of the functions threads are started on. *)
Context {P : Type} `{!PageOps P} (text : Z → list op).

Record kconf := mk_kconf {
  tasks : gmap Z task;
  heads : gmap Z (list Z);
  vals : gmap Z Z;
  this_task : Z;
  idle_task : Z;
  next_pid : Z;
  pages : P
}.

Definition upd_tasks (f : gmap Z task → gmap Z task) (c : kconf) : kconf :=
  mk_kconf (f (tasks c)) (heads c) (vals c) (this_task c) (idle_task c) (next_pid c) (pages c).
Definition upd_heads (f : gmap Z (list Z) → gmap Z (list Z)) (c : kconf) : kconf :=
  mk_kconf (tasks c) (f (heads c)) (vals c) (this_task c) (idle_task c) (next_pid c) (pages c).
Definition upd_vals (f : gmap Z Z → gmap Z Z) (c : kconf) : kconf :=
  mk_kconf (tasks c) (heads c) (f (vals c)) (this_task c) (idle_task c) (next_pid c) (pages c).
Definition set_this (v : Z) (c : kconf) : kconf :=
  mk_kconf (tasks c) (heads c) (vals c) v (idle_task c) (next_pid c) (pages c).
Definition set_idle (v : Z) (c : kconf) : kconf :=
  mk_kconf (tasks c) (heads c) (vals c) (this_task c) v (next_pid c) (pages c).
Definition set_next_pid (v : Z) (c : kconf) : kconf :=
  mk_kconf (tasks c) (heads c) (vals c) (this_task c) (idle_task c) v (pages c).
Definition set_pages (v : P) (c : kconf) : kconf :=
  mk_kconf (tasks c) (heads c) (vals c) (this_task c) (idle_task c) (next_pid c) v.

Abbreviation K := (M kconf).

(** ** Accesses *)

Definition ld_task (t : Z) : K task := let! c := get in deref (tasks c !! t).
Definition st_task (t : Z) (f : task → task) : K unit :=
  let! th := ld_task t in modify (upd_tasks (insert t (f th))).
Definition ld_head (h : Z) : K (list Z) := let! c := get in deref (heads c !! h).

(** The operations of [list.h] on [&t->list]: taking [t] off the list it is
    on, putting it at the end of one.  A task that was never queued (the idle
    task) has NULL links, so that [list_del] of it faults. *)
Definition on_list (t : Z) (hs : gmap Z (list Z)) : bool :=
  bool_decide (map_Exists (λ _ l, t ∈ l) hs).
Definition list_del (t : Z) : K unit :=
  let! c := get in
  if on_list t (heads c) then modify (upd_heads (fmap (filter (λ u, u ≠ t)))) else fault.
Definition list_add_tail (t h : Z) : K unit :=
  let! l := ld_head h in modify (upd_heads (insert h (l ++ [t]))).
Definition list_move_tail (t h : Z) : K unit :=
  do! list_del t then list_add_tail t h.
Definition list_empty (h : Z) : K bool :=
  let! l := ld_head h in ret (match l with [] => true | _ => false end).
(** [list_entry(h->next, struct task, list)]. *)
Definition list_first (h : Z) : K Z :=
  let! l := ld_head h in deref (head l).

(** ** The scheduler *)

Definition task_stack_overflowed (t : Z) : K bool :=
  let! th := ld_task t in
  if Z.land (t_cs th) __CPL3 =? __CPL3 then ret false else
  do! bug_on (t_esp th <? PAGE_OFFSET) then
  ret (t_esp th <=? u32 (t + 2 * sizeof_task)).

Definition get_next_task (current : Z) : K Z :=
  let! e := list_empty runq in
  let! r := (if e : bool then gets idle_task else
    let! r := list_first runq in
    if current =? r then
      do! list_move_tail current runq then list_first runq
    else ret r) in
  let! th := ld_task r in
  do! bug_on (t_state th =? TASK_SLEEPING) then
  ret r.

Definition flush_one (t : Z) : K unit :=
  let! th := ld_task t in
  do! bug_on (negb (t_state th =? TASK_ZOMBIE)) then
  do! list_del t then
  do! zoom pages set_pages (free_page t) then
  modify (upd_tasks (delete t)).
Fixpoint flush_each (l : list Z) : K unit :=
  match l with
  | [] => ret tt
  | t :: l => do! flush_one t then flush_each l
  end.
Definition flush_delq : K unit := let! l := ld_head delq in flush_each l.

(** The processor leaves [prev], which will resume inside [sched], for
    [next]. *)
Definition switch_task (prev next : Z) : K unit :=
  let! th := ld_task prev in
  do! st_task prev (set_frames (FSched :: t_frames th)) then
  modify (set_this next).

(** [sched] up to [switch_task]; the part after it is run when the task is
    switched back ([exec_current], [FSched]). *)
Definition sched : K unit :=
  let! current := gets this_task in
  let! next := get_next_task current in
  if current =? next then ret tt else
  let! o := task_stack_overflowed next in
  do! bug_on o then
  let! th := ld_task current in
  do! when (t_state th =? TASK_RUNNING) (st_task current (set_state TASK_READY)) then
  do! st_task next (set_state TASK_RUNNING) then
  switch_task current next.

Definition sched_resume : K unit :=
  let! e := list_empty delq in
  when (negb e) flush_delq.

Definition task_to_runq (t : Z) : K unit :=
  do! st_task t (set_state TASK_READY) then list_add_tail t runq.

Definition push_frame (f : frame) : K unit :=
  let! t := gets this_task in
  st_task t (λ th, set_frames (f :: t_frames th) th).
Definition pop_frame : K unit :=
  let! t := gets this_task in
  st_task t (λ th, set_frames (tl (t_frames th)) th).

Definition sleep_on (q : Z) : K unit :=
  do! push_frame (FSleep q) then
  let! t := gets this_task in
  do! st_task t (set_state TASK_SLEEPING) then
  do! list_del t then
  do! list_add_tail t q then
  sched.

Fixpoint wake_each (l : list Z) : K unit :=
  match l with
  | [] => ret tt
  | t :: l => do! list_del t then do! task_to_runq t then wake_each l
  end.
Definition wake_up (q : Z) : K unit := let! l := ld_head q in wake_each l.

Definition wake_one (q : Z) : K unit :=
  let! e := list_empty q in
  if e then ret tt else
  let! t := list_first q in
  do! list_del t then task_to_runq t.

(** [do_exit] up to the point where interrupts are enabled again. *)
Definition do_exit (code : Z) : K unit :=
  let! t := gets this_task in
  do! list_move_tail t delq then
  do! st_task t (set_exit_code code) then
  do! st_task t (set_state TASK_ZOMBIE) then
  do! st_task t (set_code []) then
  push_frame FExit.

Definition pid_alloc : K Z :=
  let! n := gets next_pid in
  do! modify (set_next_pid (u32 (n + 1))) then
  ret (u32 (n + 1)).

(** [memset], [task_init_kthread]: a thread starts with an empty call chain,
    three words on its stack. *)
Definition new_kthread (t pid f : Z) : task :=
  mk_task 0 __KERNEL_CS (u32 (t + PAGE_SIZE - 12)) pid 0 [] (text f).

(** The memory context, the directories and the descriptor table the new task
    gets are not part of this state. *)
Definition kernel_thread (f : Z) : K Z :=
  let! t := zoom pages set_pages alloc_page in
  if t =? NULL then ret (-1) else
  let! pid := pid_alloc in
  do! modify (upd_tasks (insert t (new_kthread t pid f))) then
  do! task_to_runq t then
  ret pid.

(** ** Semaphores *)

Definition ld_val (s : Z) : K Z := let! c := get in deref (vals c !! s).
Definition st_val (s v : Z) : K unit := modify (upd_vals (insert s v)).

Definition sem_V (s : Z) : K unit :=
  let! v := ld_val s in
  do! st_val s (s32 (v + 1)) then
  when (0 <? s32 (v + 1)) (wake_one s).

(** One test of the loop of [sem_P]; the frame stays while the task sleeps. *)
Definition sem_P_loop (s : Z) : K unit :=
  let! v := ld_val s in
  if v <=? 0 then sleep_on s
  else do! st_val s (s32 (v - 1)) then pop_frame.
Definition sem_P (s : Z) : K unit := do! push_frame (FSemP s) then sem_P_loop s.

(** ** Running *)

Definition start (o : op) : K unit :=
  match o with
  | OpP s => sem_P s
  | OpV s => sem_V s
  | OpSleep q => sleep_on q
  | OpWakeUp q => wake_up q
  | OpKthread f => do! kernel_thread f then ret tt
  | OpSched => sched
  | OpExit code => do_exit code
  end.

Definition exec_current : K unit :=
  let! t := gets this_task in
  let! th := ld_task t in
  match t_frames th with
  | FSched :: _ => do! pop_frame then sched_resume
  | FSleep _ :: _ => pop_frame
  | FSemP s :: _ => sem_P_loop s
  | FExit :: _ => do! pop_frame then do! push_frame FPanic then sched
  | FPanic :: _ => panic
  | [] =>
    match t_code th with
    | [] => ret tt
    | o :: code => do! st_task t (set_code code) then start o
    end
  end.

(** [irq_handler]: the handler (the modelled ones wake wait queues), then
    [sched]. *)
Definition irq_handler (qs : list Z) : K unit :=
  do! foldr (λ q m, do! wake_up q then m) (ret tt) qs then sched.

(** Interrupts are enabled outside the critical sections: in the task's own
    code, and in [do_exit] before it calls [sched]. *)
Definition irqs_enabled (fs : list frame) : bool :=
  match fs with [] => true | FExit :: _ => true | _ => false end.

(** The stack of a task has not grown into its [struct task], which lies at
    the bottom of the same page. *)
Definition stack_fits (t : Z) (th : task) : Prop :=
  Z.land (t_cs th) __CPL3 = __CPL3 ∨
  (PAGE_OFFSET <= t_esp th ∧ u32 (t + 2 * sizeof_task) < t_esp th).

(** One step: the current task, with any stack pointer its own code has come
    to, runs to its next return or switch; or an interrupt is served, whose handler
    wakes some of the wait queues. *)
Inductive kstep (queues : gset Z) : kconf → kconf → Prop :=
  | ks_run c c' esp th :
      tasks c !! this_task c = Some th → stack_fits (this_task c) (set_esp esp th) →
      exec_current (upd_tasks (insert (this_task c) (set_esp esp th)) c) = Ret (tt, c') →
      kstep queues c c'
  | ks_irq c c' qs th :
      tasks c !! this_task c = Some th → irqs_enabled (t_frames th) = true →
      Forall (λ q, q ∈ queues) qs → irq_handler qs c = Ret (tt, c') →
      kstep queues c c'.

(** The task that becomes the idle task. *)
Definition sched_init : K unit :=
  let! t := gets this_task in
  do! modify (set_idle t) then
  modify (upd_tasks (insert t
    (mk_task TASK_RUNNING __KERNEL_CS (u32 (t + PAGE_SIZE)) 0 0 [] []))).

End sched.
