(* ===== verification/SchedInv.v ===== *)
(** * Scheduler and semaphores: invariants

    The consistency of queues and task states ([QI], [TI]), the semaphore
    invariant that no wake-up is lost ([SI]) and the accounting that makes a
    semaphore of value one a mutex ([MI]); every step of the machine preserves
    them. *)
From S2P Require Import Prelude Regs PageAlloc Sched.

(** ** Counting tasks *)

Definition cntm (f : task → bool) (m : gmap Z task) : nat :=
  size (filter (λ p : Z * task, f p.2 = true) m).

Definition b2n (b : bool) : nat := if b then 1%nat else 0%nat.

Lemma cntm_cong f g m m' :
  (∀ t, (f <$> m !! t) = (g <$> m' !! t)) → cntm f m = cntm g m'.
Proof.
  intros H. rewrite /cntm -!size_dom. f_equal. apply set_eq. intros t.
  rewrite !elem_of_dom. specialize (H t).
  rewrite /is_Some. setoid_rewrite map_lookup_filter_Some. simpl.
  destruct (m !! t) as [a|], (m' !! t) as [b|]; simpl in H; simplify_eq; naive_solver congruence.
Qed.

Lemma cntm_insert f m t th :
  m !! t = None → cntm f (<[t := th]> m) = (b2n (f th) + cntm f m)%nat.
Proof.
  intros Ht. rewrite /cntm. destruct (f th) eqn:E; simpl.
  - rewrite map_filter_insert_True //. rewrite map_size_insert_None //.
    apply map_lookup_filter_None. by left.
  - rewrite map_filter_insert_False; [by rewrite /= E|]. by rewrite delete_id.
Qed.

Lemma cntm_delete f m t th :
  m !! t = Some th → cntm f m = (b2n (f th) + cntm f (delete t m))%nat.
Proof.
  intros Ht. rewrite -{1}(insert_delete_id m t th Ht).
  apply cntm_insert, lookup_delete_eq.
Qed.

Lemma cntm_update f m t th th' :
  m !! t = Some th → (cntm f (<[t := th']> m) + b2n (f th) = cntm f m + b2n (f th'))%nat.
Proof.
  intros Ht. rewrite (cntm_delete f m t th Ht) -insert_delete_eq cntm_insert; [|lia].
  apply lookup_delete_eq.
Qed.

Lemma cntm_pos f m : (0 < cntm f m)%nat → ∃ t th, m !! t = Some th ∧ f th = true.
Proof.
  intros H. destruct (decide (filter (λ p : Z * task, f p.2 = true) m = ∅)) as [E|E].
  - rewrite /cntm E map_size_empty in H. lia.
  - apply map_choose in E as (t & th & (H1 & H2)%map_lookup_filter_Some). by exists t, th.
Qed.

Lemma cntm_two f m t t' th th' :
  m !! t = Some th → m !! t' = Some th' → t ≠ t' → f th = true → f th' = true →
  (2 ≤ cntm f m)%nat.
Proof.
  intros H1 H2 Hne E1 E2. rewrite (cntm_delete f m t th H1) E1.
  rewrite (cntm_delete f (delete t m) t' th'); [by rewrite lookup_delete_ne|]. rewrite E2 /=. lia.
Qed.

(** ** Where a task is *)

Definition waiting (th : task) : Z :=
  match t_frames th with
  | FSched :: FSleep q :: _ => q
  | FSleep q :: _ => q
  | _ => NULL
  end.

(** The head of the queue a task of that state is on. *)
Definition loc (th : task) : Z :=
  if t_state th =? TASK_ZOMBIE then delq
  else if t_state th =? TASK_SLEEPING then waiting th
  else runq.

(** Queues and states agree: a task other than the idle task is on the queue
    its state says and on no other, once. *)
Record QI (ts : gmap Z task) (hs : gmap Z (list Z)) (idle : Z) : Prop := {
  qi_nodup h l : hs !! h = Some l → NoDup l;
  qi_mem h l t : hs !! h = Some l →
    (t ∈ l ↔ ∃ th, ts !! t = Some th ∧ t ≠ idle ∧ loc th = h);
  qi_head t th : ts !! t = Some th → t ≠ idle → is_Some (hs !! loc th)
}.

Section qi.
Context (ts : gmap Z task) (hs : gmap Z (list Z)) (idle : Z).
Hypothesis HQ : QI ts hs idle.

Lemma qi_on_list t th : ts !! t = Some th → t ≠ idle → on_list t hs = true.
Proof.
  intros Ht Hi. destruct (qi_head _ _ _ HQ t th Ht Hi) as [l Hl].
  apply bool_decide_eq_true. exists (loc th), l. split; [done|].
  apply (qi_mem _ _ _ HQ _ _ _ Hl). by exists th.
Qed.

(** A task moves to the end of another queue. *)
Lemma qi_move t th' h l :
  t ≠ idle → hs !! h = Some l → loc th' = h →
  QI (<[t := th']> ts) (<[h := filter (λ u, u ≠ t) l ++ [t]]> (filter (λ u, u ≠ t) <$> hs)) idle.
Proof.
  intros Hi Hh Hl. split.
  - intros h' l'. rewrite lookup_insert_Some lookup_fmap_Some.
    intros [[<- <-]|(_ & l0 & <- & H0)].
    + apply NoDup_app. split_and!; [eapply NoDup_filter, (qi_nodup _ _ _ HQ), Hh| |apply NoDup_singleton].
      intros u Hu ->%list_elem_of_singleton. by apply list_elem_of_filter in Hu as [? _].
    + eapply NoDup_filter, (qi_nodup _ _ _ HQ), H0.
  - intros h' l' u. rewrite lookup_insert_Some lookup_fmap_Some.
    intros [[<- <-]|(Hne & l0 & <- & H0)].
    + rewrite elem_of_app list_elem_of_filter list_elem_of_singleton (qi_mem _ _ _ HQ _ _ u Hh).
      destruct (decide (u = t)) as [->|Hu].
      * rewrite lookup_insert_eq. naive_solver.
      * rewrite lookup_insert_ne; [congruence|]. naive_solver.
    + rewrite list_elem_of_filter (qi_mem _ _ _ HQ _ _ u H0).
      destruct (decide (u = t)) as [->|Hu].
      * rewrite lookup_insert_eq. naive_solver.
      * rewrite lookup_insert_ne; [congruence|]. naive_solver.
  - intros u thu. destruct (decide (u = t)) as [->|Hu].
    + rewrite lookup_insert_eq. intros [= <-] _. rewrite Hl lookup_insert_eq. by eexists.
    + rewrite lookup_insert_ne; [congruence|]. intros Hu1 Hu2.
      destruct (qi_head _ _ _ HQ u thu Hu1 Hu2) as [lu Hlu].
      destruct (decide (loc thu = h)) as [->|Hlh]; [rewrite lookup_insert_eq; by eexists|].
      rewrite lookup_insert_ne; [congruence|]; rewrite lookup_fmap Hlu. by eexists.
Qed.

(** The same queues, a task in a state of the same queue. *)
Lemma qi_stay t th th' :
  ts !! t = Some th → (t ≠ idle → loc th' = loc th) → QI (<[t := th']> ts) hs idle.
Proof.
  intros Ht Hl. split; [apply HQ| |].
  - intros h l u Hh. rewrite (qi_mem _ _ _ HQ _ _ u Hh).
    destruct (decide (u = t)) as [->|Hu]; [|rewrite lookup_insert_ne; [congruence|done]].
    rewrite lookup_insert_eq Ht. naive_solver.
  - intros u thu. destruct (decide (u = t)) as [->|Hu].
    + rewrite lookup_insert_eq. intros [= <-] Hi. rewrite (Hl Hi). by eapply (qi_head _ _ _ HQ t).
    + rewrite lookup_insert_ne; [congruence|]. apply HQ.
Qed.

(** A task leaves its queue and disappears. *)
Lemma qi_drop t :
  t ≠ idle → QI (delete t ts) (filter (λ u, u ≠ t) <$> hs) idle.
Proof.
  intros Hi. split.
  - intros h l. rewrite lookup_fmap_Some. intros (l0 & <- & H0). eapply NoDup_filter, (qi_nodup _ _ _ HQ), H0.
  - intros h l u. rewrite lookup_fmap_Some. intros (l0 & <- & H0).
    rewrite list_elem_of_filter (qi_mem _ _ _ HQ _ _ u H0).
    destruct (decide (u = t)) as [->|Hu]; [rewrite lookup_delete_eq; naive_solver|].
    rewrite lookup_delete_ne; [congruence|]. naive_solver.
  - intros u thu. rewrite lookup_delete_Some. intros [_ Hu] Hn.
    rewrite lookup_fmap. destruct (qi_head _ _ _ HQ u thu Hu Hn) as [lu ->]. by eexists.
Qed.

(** A new task is queued. *)
Lemma qi_new t th' h l :
  ts !! t = None → t ≠ idle → hs !! h = Some l → loc th' = h →
  QI (<[t := th']> ts) (<[h := l ++ [t]]> hs) idle.
Proof.
  intros Hn Hi Hh Hl.
  assert (∀ h' l', hs !! h' = Some l' → t ∉ l') as Hout.
  { intros h' l' Hh'. rewrite (qi_mem _ _ _ HQ _ _ t Hh') Hn. naive_solver. }
  assert (∀ h' l', hs !! h' = Some l' → filter (λ u, u ≠ t) l' = l') as Hf.
  { intros h' l' Hh'. apply filter_ne_id. exact (Hout _ _ Hh'). }
  rewrite -{1}(Hf _ _ Hh).
  assert (hs = filter (λ u, u ≠ t) <$> hs) as Ehs.
  { apply map_eq. intros h'. rewrite lookup_fmap. destruct (hs !! h') eqn:E; simpl; [|done].
    by rewrite (Hf _ _ E). }
  rewrite Ehs. by apply qi_move.
Qed.

Lemma qi_filter_other t th h l :
  ts !! t = Some th → hs !! h = Some l → h ≠ loc th → filter (λ u, u ≠ t) l = l.
Proof.
  intros Ht Hh Hne. apply filter_ne_id. rewrite (qi_mem _ _ _ HQ _ _ _ Hh) Ht. naive_solver.
Qed.
End qi.

(** ** Thread shapes *)

(** Call chains of a task that runs its own code or is inside one call. *)
Definition base (fs : list frame) : bool :=
  match fs with
  | [] | [FSemP _] | [FSleep _] => true
  | [FSleep q; FSemP s] => q =? s
  | _ => false
  end.
Definition unsched (fs : list frame) : list frame :=
  match fs with FSched :: fs => fs | _ => fs end.

(** A task that is not the current one. *)
Definition parked (th : task) : Prop :=
  (t_state th = TASK_READY ∧ (t_frames th = [] ∨ ∃ fs, t_frames th = FSched :: fs ∧ base fs = true)) ∨
  (t_state th = TASK_SLEEPING ∧
    ∃ q, t_frames th = [FSched; FSleep q] ∨ t_frames th = [FSched; FSleep q; FSemP q]) ∨
  (t_state th = TASK_ZOMBIE ∧ t_code th = [] ∧
    (t_frames th = [FSched; FExit] ∨ t_frames th = [FSched; FPanic])).

(** The current task between two steps. *)
Definition running (th : task) : Prop :=
  (t_state th = TASK_RUNNING ∧ base (unsched (t_frames th)) = true) ∨
  (t_state th = TASK_ZOMBIE ∧ t_code th = [] ∧ t_frames th = [FExit]).

(** The current task at a call of [sched]. *)
Definition yielding (th : task) : Prop :=
  (t_state th = TASK_RUNNING ∧ base (t_frames th) = true) ∨
  (t_state th = TASK_SLEEPING ∧
    ∃ q, t_frames th = [FSleep q] ∨ t_frames th = [FSleep q; FSemP q]) ∨
  (t_state th = TASK_ZOMBIE ∧ t_code th = [] ∧
    (t_frames th = [FExit] ∨ t_frames th = [FPanic])).

(** The idle task never sleeps. *)
Definition nonblocking (o : op) : bool :=
  match o with OpP _ | OpSleep _ | OpExit _ => false | _ => true end.
Definition idle_ok (th : task) : Prop :=
  (t_state th = TASK_READY ∨ t_state th = TASK_RUNNING) ∧
  (t_frames th = [] ∨ t_frames th = [FSched]) ∧
  Forall (λ o, nonblocking o = true) (t_code th).

(** What a task is, up to the scheduler's own bookkeeping. *)
Definition same_task (th th' : task) : Prop :=
  t_code th' = t_code th ∧ unsched (t_frames th') = unsched (t_frames th) ∧
  loc th' = loc th ∧ (t_state th' = TASK_SLEEPING ↔ t_state th = TASK_SLEEPING).

Lemma parked_loc_sched th :
  loc (set_frames (FSched :: t_frames th) th) = loc th ∨ t_state th = TASK_SLEEPING.
Proof.
  rewrite /loc /=. destruct (Z.eqb_spec (t_state th) TASK_SLEEPING); [by right|left]. done.
Qed.

(** ** What a semaphore sees of a task *)

(** [th] is inside [sem_P(s)] and not asleep: it will test the counter. *)
Definition acquiring (s : Z) (th : task) : bool := bool_decide (FSemP s ∈ t_frames th).
Definition transit (s : Z) (th : task) : bool :=
  acquiring s th && negb (t_state th =? TASK_SLEEPING).

(** The next operation on [s] in the code is [sem_V]. *)
Fixpoint next_is_V (s : Z) (code : list op) : bool :=
  match code with
  | [] => false
  | OpP s' :: code => if s' =? s then false else next_is_V s code
  | OpV s' :: code => if s' =? s then true else next_is_V s code
  | OpExit _ :: _ => false
  | _ :: code => next_is_V s code
  end.
Definition holds (s : Z) (th : task) : bool := negb (acquiring s th) && next_is_V s (t_code th).

(** [sem_P] and [sem_V] alternate; [h] says whether the semaphore is held. *)
Fixpoint brk (s : Z) (h : bool) (code : list op) : bool :=
  match code with
  | [] => negb h
  | OpP s' :: code => if s' =? s then negb h && brk s true code else brk s h code
  | OpV s' :: code => if s' =? s then h && brk s false code else brk s h code
  | OpExit _ :: _ => negb h
  | _ :: code => brk s h code
  end.
Definition bracketed (s : Z) (th : task) : Prop :=
  brk s (acquiring s th || holds s th) (t_code th) = true.

Lemma brk_next s h code : brk s h code = true → next_is_V s code = h.
Proof.
  revert h. induction code as [|o code IH]; intros h; simpl; [by destruct h|].
  destruct o; try apply IH; try (destruct (_ =? _); [|apply IH]); destruct h; try done.
Qed.

Lemma cntm_le f g m m' :
  (∀ t th, m !! t = Some th → f th = true → ∃ th', m' !! t = Some th' ∧ g th' = true) →
  (cntm f m ≤ cntm g m')%nat.
Proof.
  intros H. rewrite /cntm -!size_dom. apply subseteq_size. intros t.
  rewrite !elem_of_dom. intros [th (H1 & H2)%map_lookup_filter_Some].
  destruct (H t th H1 H2) as (th' & H3 & H4). exists th'. by apply map_lookup_filter_Some.
Qed.

Lemma elem_of_unsched s fs : FSemP s ∈ fs ↔ FSemP s ∈ unsched fs.
Proof.
  destruct fs as [|[] fs]; simpl; try done. rewrite elem_of_cons. naive_solver.
Qed.

Lemma s32_range x : - 2 ^ 31 <= s32 x < 2 ^ 31.
Proof.
  rewrite /s32 /sign. pose proof (Z.mod_pos_bound x (2 ^ 32)) as H.
  destruct (Z.ltb_spec (x mod 2 ^ 32) (2 ^ (32 - 1))); lia.
Qed.
Lemma s32_le x : - 2 ^ 31 <= x <= 2 ^ 31 → s32 x <= x.
Proof.
  intros H. destruct (decide (x = 2 ^ 31)) as [->|]; [vm_compute; done|]. rewrite s32_id; lia.
Qed.

Section sem.
Context {P : Type} `{!PageOps P, !PageSpec P} (sems queues : gset Z).
Implicit Types (c : @kconf P) (s q t : Z).

(** The objects the code names exist. *)
Definition op_ok (o : op) : Prop :=
  match o with
  | OpP s | OpV s => s ∈ sems
  | OpSleep q => q ∈ queues ∧ q ∉ sems
  | OpWakeUp q => q ∈ queues
  | _ => True
  end.
Hypothesis Hsems : sems ⊆ queues.
Hypothesis Hqueues : runq ∉ queues ∧ delq ∉ queues.

Definition frame_ok (f : frame) : Prop :=
  match f with FSleep q => q ∈ queues | FSemP s => s ∈ sems | _ => True end.

(** A task that sleeps on the queue of a semaphore is inside [sem_P]. *)
Definition frames_ok (fs : list frame) : Prop :=
  Forall frame_ok fs ∧ ∀ q, unsched fs = [FSleep q] → q ∉ sems.

(** Everything but the shape of the current task. *)
Record KI0 (c : kconf) : Prop := {
  ki_q : QI (tasks c) (heads c) (idle_task c);
  ki_vals : dom (vals c) = sems;
  ki_heads : dom (heads c) = queues ∪ {[ runq; delq ]};
  ki_code t th : tasks c !! t = Some th →
    Forall op_ok (t_code th) ∧ frames_ok (t_frames th);
  ki_parked t th : tasks c !! t = Some th → t ≠ this_task c → parked th;
  ki_idle : ∃ th, tasks c !! idle_task c = Some th ∧ idle_ok th;
  ki_stack t th : tasks c !! t = Some th → stack_fits t th;
  ki_pages : ∃ A, pages_own (pages c) A ∧ dom (tasks c) ⊆ A;
  ki_null : tasks c !! NULL = None
}.
Record KI (c : kconf) : Prop := {
  ki_base : KI0 c;
  ki_cur : ∃ th, tasks c !! this_task c = Some th ∧ running th
}.

(** A step of the scheduler leaves everything but its bookkeeping alone. *)
Record sched_rel (c c' : @kconf P) : Prop := {
  sr_vals : vals c' = vals c;
  sr_idle : idle_task c' = idle_task c;
  sr_heads h : h ≠ runq → heads c' !! h = heads c !! h;
  sr_tasks t : match tasks c !! t, tasks c' !! t with
               | Some th, Some th' => same_task th th'
               | None, None => True
               | _, _ => False
               end
}.

(** ** Primitive accesses *)

Lemma wp_ld_task t th (Q : task → kconf → Prop) c :
  tasks c !! t = Some th → Q th c → wp (ld_task t) Q c.
Proof. intros H HQ. apply wp_bind. rewrite /wp /= H. done. Qed.
Lemma wp_st_task t f th (Q : unit → kconf → Prop) c :
  tasks c !! t = Some th → Q tt (upd_tasks (insert t (f th)) c) → wp (st_task t f) Q c.
Proof. intros H HQ. apply wp_bind. eapply wp_ld_task; [exact H|done]. Qed.
Lemma wp_ld_head h l (Q : list Z → kconf → Prop) c :
  heads c !! h = Some l → Q l c → wp (ld_head h) Q c.
Proof. intros H HQ. apply wp_bind. rewrite /wp /= H. done. Qed.
Lemma wp_list_empty h l (Q : bool → kconf → Prop) c :
  heads c !! h = Some l → Q (match l with [] => true | _ => false end) c →
  wp (list_empty h) Q c.
Proof. intros H HQ. apply wp_bind. eapply wp_ld_head; [exact H|]. done. Qed.
Lemma wp_list_first h t l (Q : Z → kconf → Prop) c :
  heads c !! h = Some (t :: l) → Q t c → wp (list_first h) Q c.
Proof. intros H HQ. apply wp_bind. eapply wp_ld_head; [exact H|]. done. Qed.
Lemma wp_list_del t (Q : unit → kconf → Prop) c :
  on_list t (heads c) = true →
  Q tt (upd_heads (fmap (filter (λ u, u ≠ t))) c) → wp (list_del t) Q c.
Proof. intros H HQ. apply wp_bind. rewrite /wp /=. by rewrite H. Qed.
Lemma wp_list_add_tail t h l (Q : unit → kconf → Prop) c :
  heads c !! h = Some l → Q tt (upd_heads (insert h (l ++ [t])) c) →
  wp (list_add_tail t h) Q c.
Proof. intros H HQ. apply wp_bind. eapply wp_ld_head; [exact H|done]. Qed.

Lemma KI0_head c h : KI0 c → h ∈ queues ∪ {[ runq; delq ]} → ∃ l, heads c !! h = Some l.
Proof. intros H Hh. rewrite -(ki_heads _ H) in Hh. by apply elem_of_dom in Hh. Qed.
Lemma KI0_runq c : KI0 c → ∃ l, heads c !! runq = Some l.
Proof. intros H. eapply KI0_head; [done|clear; set_solver]. Qed.
Lemma KI0_delq c : KI0 c → ∃ l, heads c !! delq = Some l.
Proof. intros H. eapply KI0_head; [done|clear; set_solver]. Qed.

(** The part of the invariant that only looks at queues, when they change. *)
Lemma KI0_heads c hs :
  KI0 c → QI (tasks c) hs (idle_task c) → dom hs = dom (heads c) →
  KI0 (upd_heads (λ _, hs) c).
Proof. intros [] HQ Hd. split; simpl; try done. congruence. Qed.

Lemma dom_move t h l (hs : gmap Z (list Z)) :
  h ∈ dom hs → dom (<[h := l]> (filter (λ u, u ≠ t) <$> hs)) = dom hs.
Proof. intros H. rewrite dom_insert_L dom_fmap_L. clear -H. set_solver. Qed.

(** ** The scheduler *)

Lemma same_task_refl th : same_task th th.
Proof. done. Qed.

Lemma same_task_sched th st :
  (t_state th = TASK_SLEEPING → waiting (set_frames (FSched :: t_frames th) th) = waiting th) →
  unsched (t_frames th) = t_frames th →
  (st = t_state th ∨ t_state th = TASK_RUNNING ∧ st = TASK_READY) →
  same_task th (set_frames (FSched :: t_frames th) (set_state st th)).
Proof.
  intros Hw Hu Hst. split_and!; [done|by rewrite /= Hu| |].
  - rewrite /loc /=. destruct Hst as [->|[Hr ->]]; [|by rewrite Hr].
    destruct (Z.eqb_spec (t_state th) TASK_SLEEPING) as [E|]; [|done]. by rewrite -(Hw E).
  - simpl. destruct Hst as [->|[-> ->]]; done.
Qed.

Lemma yielding_unsched th : yielding th → unsched (t_frames th) = t_frames th.
Proof.
  intros [[_ H]|[(_ & q & [->| ->])|(_ & _ & [->| ->])]]; try done.
  by destruct (t_frames th) as [|[]].
Qed.
Lemma yielding_waiting th :
  yielding th → t_state th = TASK_SLEEPING →
  waiting (set_frames (FSched :: t_frames th) th) = waiting th.
Proof.
  intros [[-> _]|[(_ & q & [H|H])|(-> & _)]] E; try done; by rewrite /waiting /= H.
Qed.

(** Switched out, a task is parked. *)
Lemma yielding_parked th :
  yielding th →
  parked (set_frames (FSched :: t_frames th)
    (set_state (if t_state th =? TASK_RUNNING then TASK_READY else t_state th) th)).
Proof.
  intros [[-> H]|[(-> & q & H)|(-> & Hc & H)]]; simpl.
  - left. split; [done|]. right. by exists (t_frames th).
  - right; left. split; [done|]. exists q. destruct H as [H|H]; rewrite /= H; auto.
  - right; right. split_and!; [done|done|]. destruct H as [H|H]; rewrite /= H; auto.
Qed.

(** A sleeping task waits on a queue of its own code. *)
Lemma sleeping_waiting th :
  parked th ∨ yielding th → Forall frame_ok (t_frames th) → t_state th = TASK_SLEEPING →
  waiting th ∈ queues.
Proof.
  intros Hp Hok Es.
  assert (∃ q fs, (t_frames th = FSched :: FSleep q :: fs ∨ t_frames th = FSleep q :: fs)) as (q & fs & E).
  { destruct Hp as [Hp|Hp]; destruct Hp as [[H _]|[(_ & q & H)|[H _]]]; try by rewrite Es in H.
    all: exists q; destruct H; eauto. }
  rewrite /waiting. destruct E as [E|E]; rewrite E in Hok |- *.
  - apply Forall_cons in Hok as [_ Hok]. by apply Forall_cons in Hok as [? _].
  - by apply Forall_cons in Hok as [? _].
Qed.

(** The configurations [sched] is called in: everything is in order, the
    current task may be about to sleep or to die. *)
Definition KY (c : kconf) : Prop :=
  KI0 c ∧ ∃ th, tasks c !! this_task c = Some th ∧ yielding th.

Lemma runq_awake c l t :
  KY c → heads c !! runq = Some l → t ∈ l →
  ∃ th, tasks c !! t = Some th ∧ t ≠ idle_task c ∧ t_state th ≠ TASK_SLEEPING ∧
    t_state th ≠ TASK_ZOMBIE ∧ loc th = runq.
Proof.
  intros (HK & thc & Hcur & Hy) Hl Ht.
  apply (qi_mem _ _ _ (ki_q _ HK) _ _ _ Hl) in Ht as (tht & H1 & H2 & H3).
  exists tht. split_and!; [done|done|..|done]; intros E; rewrite /loc E /= in H3; [|done].
  assert (waiting tht ∈ queues) as Hw.
  { apply sleeping_waiting; [|by apply (ki_code _ HK _ _ H1)|done].
    destruct (decide (t = this_task c)) as [->|n]; [right; by simplify_eq|left].
    exact (ki_parked _ HK _ _ H1 n). }
  destruct Hqueues as [Hq _]. congruence.
Qed.

Lemma sched_rel_refl c : sched_rel c c.
Proof. split; try done. intros t. by destruct (tasks c !! t). Qed.

(** The current task, at the front of the run queue, goes behind the others. *)
Lemma rotate_runq c l th :
  KI0 c → heads c !! runq = Some (this_task c :: l) → tasks c !! this_task c = Some th →
  this_task c ≠ idle_task c → loc th = runq →
  let c' := upd_heads (insert runq (l ++ [this_task c]))
              (upd_heads (fmap (filter (λ u, u ≠ this_task c))) c) in
  KI0 c' ∧ sched_rel c c'.
Proof.
  intros HK Hl Ht Hni Hloc c'.
  assert (this_task c ∉ l) as Hnl.
  { pose proof (qi_nodup _ _ _ (ki_q _ HK) _ _ Hl) as Hnd. by apply NoDup_cons in Hnd as [? _]. }
  split.
  - apply (KI0_heads c (heads c')); [done| |].
    + pose proof (qi_move _ _ _ (ki_q _ HK) (this_task c) th runq _ Hni Hl Hloc) as Hm.
      by rewrite insert_id // filter_ne_head // in Hm.
    + simpl. rewrite dom_move; [|done]. apply elem_of_dom. rewrite Hl. by eexists.
  - split; try done; [|intros t; simpl; by destruct (tasks c !! t)].
    intros h Hh. simpl. rewrite lookup_insert_ne; [congruence|]. rewrite lookup_fmap.
    destruct (heads c !! h) as [lh|] eqn:Eh; [|done]. simpl. f_equal.
    eapply qi_filter_other; [exact (ki_q _ HK)|exact Ht|exact Eh|congruence].
Qed.

(** The task chosen: the first of the run queue, after the current one has
    been moved behind the others; the idle task when there is none. *)
Lemma wp_get_next_task c (Q : Z → kconf → Prop) :
  KY c →
  (∀ r c' thr, KI0 c' → sched_rel c c' → tasks c' = tasks c → this_task c' = this_task c →
     tasks c !! r = Some thr → t_state thr ≠ TASK_SLEEPING → t_state thr ≠ TASK_ZOMBIE →
     (∀ l, heads c !! runq = Some l → heads c' !! runq = Some (
        if decide (head l = Some (this_task c)) then tl l ++ [this_task c] else l) ∧
        r = (default (idle_task c) (head (
        if decide (head l = Some (this_task c)) then tl l ++ [this_task c] else l)))) →
     Q r c') →
  wp (get_next_task (this_task c)) Q c.
Proof.
  intros HY HQ. pose proof HY as (HK & thc & Hcur & Hy). destruct (KI0_runq c HK) as [l Hl].
  apply wp_bind. eapply wp_list_empty; [exact Hl|]. apply wp_bind.
  assert (∀ r c' thr, KI0 c' → sched_rel c c' → tasks c' = tasks c →
    this_task c' = this_task c → tasks c !! r = Some thr → t_state thr ≠ TASK_SLEEPING →
    t_state thr ≠ TASK_ZOMBIE →
    (let l' := if decide (head l = Some (this_task c)) then tl l ++ [this_task c] else l in
     heads c' !! runq = Some l' ∧ r = default (idle_task c) (head l')) →
    wp (let! th0 := ld_task r in do! bug_on (t_state th0 =? TASK_SLEEPING) then ret r) Q c') as Hend.
  { intros r c' thr HK' Hs Ht Hthis Hr Hst Hz Hl'. apply wp_bind.
    eapply wp_ld_task; [rewrite Ht; exact Hr|].
    apply wp_bind, wp_bug_on; [by apply Z.eqb_neq|]. apply wp_ret.
    eapply (HQ _ _ thr); try done. intros l0 Hl0. rewrite Hl in Hl0. by injection Hl0 as <-. }
  destruct l as [|t l].
  - apply wp_gets. destruct (ki_idle _ HK) as (thi & Hi & Hst & _).
    eapply (Hend _ c thi); try done; [apply sched_rel_refl|..]; destruct Hst as [->| ->]; done.
  - destruct (runq_awake c _ t HY Hl) as (tht & Ht & Hni & Hs1 & Hs2 & Hloc); [set_solver|].
    apply wp_bind. eapply wp_list_first; [exact Hl|].
    destruct (Z.eqb_spec (this_task c) t) as [<-|Hne].
    2: { apply wp_ret. eapply (Hend _ c tht); try done; [apply sched_rel_refl|].
         simpl. rewrite decide_False; [intros [=]; congruence|done]. }
    destruct (rotate_runq c l tht HK Hl Ht Hni Hloc) as [HK' Hsr].
    apply wp_bind, wp_bind, wp_list_del.
    { eapply qi_on_list; [exact (ki_q _ HK)|exact Ht|done]. }
    assert (this_task c ∉ l) as Hnl.
    { pose proof (qi_nodup _ _ _ (ki_q _ HK) _ _ Hl) as Hnd. by apply NoDup_cons in Hnd as [? _]. }
    eapply wp_list_add_tail; [simpl; rewrite lookup_fmap Hl; done|].
    rewrite filter_ne_head //.
    assert (∃ r l', l ++ [this_task c] = r :: l' ∧ r ∈ this_task c :: l) as (r & l' & E & Hr).
    { destruct l as [|r l']; eexists _, _; (split; [done|set_solver]). }
    destruct (runq_awake c _ r HY Hl Hr) as (thr & Hthr & _ & Hs1' & Hs2' & _).
    eapply wp_list_first; [simpl; rewrite lookup_insert_eq E; done|].
    eapply (Hend _ _ thr); try done. simpl. by rewrite decide_True // lookup_insert_eq E.
Qed.

Lemma sched_rel_trans c1 c2 c3 : sched_rel c1 c2 → sched_rel c2 c3 → sched_rel c1 c3.
Proof.
  intros [] []. split; [congruence|congruence|intros; naive_solver congruence|].
  intros t. specialize (sr_tasks0 t). specialize (sr_tasks1 t).
  destruct (tasks c1 !! t), (tasks c2 !! t), (tasks c3 !! t); try done.
  destruct sr_tasks0 as (? & ? & ? & ?), sr_tasks1 as (? & ? & ? & ?).
  split_and!; [congruence..|tauto].
Qed.

Lemma wp_task_stack_overflowed t th (Q : bool → kconf → Prop) c :
  tasks c !! t = Some th → stack_fits t th → Q false c → wp (task_stack_overflowed t) Q c.
Proof.
  intros Ht Hs HQ. apply wp_bind. eapply wp_ld_task; [exact Ht|].
  destruct (Z.eqb_spec (Z.land (t_cs th) __CPL3) __CPL3); [by apply wp_ret|].
  destruct Hs as [?|[H1 H2]]; [done|]. apply wp_bind, wp_bug_on; [by apply Z.ltb_ge|].
  apply wp_ret. by rewrite (proj2 (Z.leb_gt _ _) H2).
Qed.

(** The configuration after the switch from the current task to [r]. *)
Definition switched (c : @kconf P) (th : task) (r : Z) (thr : task) : kconf :=
  set_this r (upd_tasks (λ ts, <[this_task c := set_frames (FSched :: t_frames th)
      (set_state (if t_state th =? TASK_RUNNING then TASK_READY else t_state th) th)]>
    (<[r := set_state TASK_RUNNING thr]> ts)) c).

Lemma parked_ready th :
  parked th → t_state th ≠ TASK_SLEEPING → t_state th ≠ TASK_ZOMBIE →
  t_state th = TASK_READY ∧ (t_frames th = [] ∨ ∃ fs, t_frames th = FSched :: fs ∧ base fs = true).
Proof. rewrite /parked. naive_solver. Qed.

Lemma switched_rel c th r thr :
  KI0 c → tasks c !! this_task c = Some th → yielding th → r ≠ this_task c →
  tasks c !! r = Some thr → t_state thr ≠ TASK_SLEEPING → t_state thr ≠ TASK_ZOMBIE →
  sched_rel c (switched c th r thr).
Proof.
  intros HK Hcur Hy Hne Hr Hs Hz. split; try done. intros t. simpl.
  destruct (decide (t = this_task c)) as [->|Ht].
  { rewrite lookup_insert_eq Hcur. apply same_task_sched.
    - by apply yielding_waiting.
    - by apply yielding_unsched.
    - destruct (Z.eqb_spec (t_state th) TASK_RUNNING); auto. }
  rewrite lookup_insert_ne; [congruence|]. destruct (decide (t = r)) as [->|Htr].
  { rewrite lookup_insert_eq Hr.
    destruct (parked_ready thr) as [E _]; [exact (ki_parked _ HK _ _ Hr Hne)|done|done|].
    split_and!; [done|done|by rewrite /loc E|by rewrite E]. }
  rewrite lookup_insert_ne; [congruence|]. by destruct (tasks c !! t).
Qed.

Lemma frames_ok_sched fs fs' : unsched fs' = unsched fs → frames_ok fs → frames_ok fs'.
Proof.
  assert (∀ fs, Forall frame_ok fs ↔ Forall frame_ok (unsched fs)) as H.
  { intros [|[] fs0]; simpl; try done. rewrite Forall_cons. naive_solver. }
  rewrite /frames_ok. rewrite (H fs) (H fs'). by intros ->.
Qed.

(** The bookkeeping of the scheduler keeps [QI] and the code. *)
Lemma sched_rel_QI c c' :
  sched_rel c c' → heads c' = heads c → QI (tasks c) (heads c) (idle_task c) →
  QI (tasks c') (heads c') (idle_task c').
Proof.
  intros [_ Hi _ Hts] Hh HQ. rewrite Hh Hi. split; [apply HQ| |].
  - intros h l t Hl. rewrite (qi_mem _ _ _ HQ _ _ t Hl). specialize (Hts t).
    destruct (tasks c !! t), (tasks c' !! t); try done.
    destruct Hts as (_ & _ & E & _). naive_solver congruence.
  - intros t th' Ht Hne. specialize (Hts t). rewrite Ht in Hts.
    destruct (tasks c !! t) as [th|] eqn:E; [|done]. destruct Hts as (_ & _ & -> & _).
    exact (qi_head _ _ _ HQ t th E Hne).
Qed.

Lemma switched_KI c th r thr :
  KI0 c → tasks c !! this_task c = Some th → yielding th → r ≠ this_task c →
  tasks c !! r = Some thr → t_state thr ≠ TASK_SLEEPING → t_state thr ≠ TASK_ZOMBIE →
  (this_task c = idle_task c → t_state th = TASK_RUNNING) →
  KI (switched c th r thr).
Proof.
  intros HK Hcur Hy Hne Hr Hs Hz Hidle.
  pose proof (switched_rel c th r thr HK Hcur Hy Hne Hr Hs Hz) as Hrel.
  destruct (parked_ready thr) as [Est Hfr]; [exact (ki_parked _ HK _ _ Hr Hne)|done|done|].
  assert (∀ t tht, tasks (switched c th r thr) !! t = Some tht →
    ∃ th0, tasks c !! t = Some th0 ∧ same_task th0 tht) as Hback.
  { intros t tht Ht. pose proof (sr_tasks _ _ Hrel t) as H. rewrite Ht in H.
    destruct (tasks c !! t) as [th0|]; [by exists th0|done]. }
  split.
  2: { exists (set_state TASK_RUNNING thr). simpl. rewrite lookup_insert_ne; [congruence|].
       rewrite lookup_insert_eq. split; [done|left]. split; [done|]. simpl.
       by destruct Hfr as [->|(fs & -> & ?)]. }
  split.
  - by eapply sched_rel_QI; [exact Hrel| |apply HK].
  - apply HK.
  - apply HK.
  - intros t tht Ht. destruct (Hback t tht Ht) as (th0 & H0 & Hc & Hf & _).
    destruct (ki_code _ HK _ _ H0) as [H1 H2]. rewrite Hc. split; [done|].
    eapply frames_ok_sched; [exact Hf|done].
  - intros t tht. simpl. rewrite lookup_insert_Some.
    intros [[<- <-]|[Ht H]]; [by intros _; apply yielding_parked|]. intros Htr.
    rewrite lookup_insert_ne in H; [congruence|]. eapply (ki_parked _ HK); [exact H|congruence].
  - destruct (ki_idle _ HK) as (thi & Hi & Hst & Hf & Hc). simpl.
    destruct (decide (this_task c = idle_task c)) as [E|E].
    + rewrite E lookup_insert_eq. eexists; split; [done|]. rewrite -E in Hi. simplify_eq.
      rewrite (Hidle E). split_and!; [by left|simpl|done]. destruct Hf as [Hf|Hf]; rewrite Hf; [by right|].
      pose proof (yielding_unsched _ Hy) as Hu. by rewrite Hf in Hu.
    + rewrite lookup_insert_ne //. destruct (decide (r = idle_task c)) as [E'|E'].
      * rewrite E' lookup_insert_eq. eexists; split; [done|]. rewrite E' in Hr. simplify_eq.
        split_and!; [by right|done|done].
      * rewrite lookup_insert_ne //. exists thi. done.
  - intros t tht. simpl. rewrite lookup_insert_Some.
    intros [[<- <-]|[_ H]]; [exact (ki_stack _ HK _ _ Hcur)|].
    apply lookup_insert_Some in H as [[<- <-]|[_ H]]; [exact (ki_stack _ HK _ _ Hr)|].
    exact (ki_stack _ HK _ _ H).
  - destruct (ki_pages _ HK) as (A & H1 & H2). exists A. split; [done|]. simpl.
    rewrite !dom_insert_L. apply elem_of_dom_2 in Hcur, Hr. set_solver.
  - simpl. pose proof (ki_null _ HK). rewrite !lookup_insert_ne //; congruence.
Qed.

(** The run queue after a call of [sched]. *)
Definition rotated (cur : Z) (l : list Z) : list Z :=
  if decide (head l = Some cur) then tl l ++ [cur] else l.

Lemma set_state_id th : set_state (t_state th) th = th.
Proof. by destruct th. Qed.

Lemma wp_switch c th r thr (Q : unit → kconf → Prop) :
  tasks c !! this_task c = Some th → tasks c !! r = Some thr → r ≠ this_task c →
  Q tt (switched c th r thr) →
  wp (let! th := ld_task (this_task c) in
      do! when (t_state th =? TASK_RUNNING) (st_task (this_task c) (set_state TASK_READY)) then
      do! st_task r (set_state TASK_RUNNING) then
      switch_task (this_task c) r) Q c.
Proof.
  intros Hc Hr Hne HQ. apply wp_bind. eapply wp_ld_task; [exact Hc|].
  set (th1 := set_state (if t_state th =? TASK_RUNNING then TASK_READY else t_state th) th).
  assert (∀ Q' : unit → kconf → Prop, Q' tt (upd_tasks (insert (this_task c) th1) c) →
    wp (when (t_state th =? TASK_RUNNING) (st_task (this_task c) (set_state TASK_READY))) Q' c) as Hw.
  { intros Q' H. rewrite /th1 in H. destruct (t_state th =? TASK_RUNNING); simpl in *.
    - eapply wp_st_task; [exact Hc|exact H].
    - apply wp_ret. rewrite set_state_id in H. rewrite /upd_tasks insert_id // in H.
      by destruct c. }
  apply wp_bind, Hw, wp_bind.
  eapply wp_st_task; [simpl; rewrite lookup_insert_ne; [congruence|exact Hr]|].
  apply wp_bind. eapply wp_ld_task; [simpl; rewrite lookup_insert_ne; [congruence|apply lookup_insert_eq]|].
  apply wp_bind. eapply wp_st_task; [simpl; rewrite lookup_insert_ne; [congruence|apply lookup_insert_eq]|].
  apply wp_modify. rewrite /upd_tasks /set_this /=.
  rewrite (insert_insert_ne _ r); [done|]. rewrite insert_insert_eq. exact HQ.
Qed.

(** [sched]: some task is current afterwards, and it is the first of the
    rotated run queue. *)
Lemma wp_sched c :
  KY c →
  wp sched (λ _ c', KI c' ∧ sched_rel c c' ∧
    ∀ l, heads c !! runq = Some l →
      heads c' !! runq = Some (rotated (this_task c) l) ∧
      this_task c' = default (idle_task c) (head (rotated (this_task c) l))) c.
Proof.
  intros HY. pose proof HY as (HK & th & Hcur & Hy).
  apply wp_bind, wp_gets, wp_bind. apply wp_get_next_task; [done|].
  intros r c' thr HK' Hrel Hts Hthis Hr Hs Hz Hq.
  destruct (Z.eqb_spec (this_task c) r) as [<-|Hne].
  - apply wp_ret. split_and!; [|done|by rewrite Hthis].
    split; [done|]. rewrite Hthis Hts. exists th. split; [done|]. simplify_eq. left.
    destruct Hy as [[? Hb]|[[? _]|[? _]]]; [|done|done]. split; [done|].
    rewrite yielding_unsched //. by left.
  - apply wp_bind. rewrite -Hts in Hr Hcur.
    eapply wp_task_stack_overflowed; [exact Hr|exact (ki_stack _ HK' _ _ Hr)|].
    apply wp_bind, wp_bug_on; [done|]. rewrite -Hthis in Hne, Hcur |- *.
    assert (r ≠ this_task c') as Hne' by congruence.
    eapply wp_switch; [exact Hcur|exact Hr|done|]. split_and!.
    + apply switched_KI; try done. intros E. destruct (ki_idle _ HK') as (thi & Hi & Hst & _).
      rewrite -E in Hi. simplify_eq.
      destruct Hst as [Hst|?]; [|done]. destruct Hy as [[? _]|[[H _]|[H _]]]; [done|..].
      all: by rewrite Hst in H.
    + eapply sched_rel_trans; [exact Hrel|]. by apply switched_rel.
    + intros l Hl. rewrite Hthis. by destruct (Hq l Hl) as [? ?].
Qed.

(** ** Semaphore invariants *)

(** Mutexes: semaphores all the code uses in brackets. *)
Context (mutexes : gset Z).

(** No wake-up is lost: while tasks wait, at least as many tasks as the
    counter says are awake and about to test it. *)
Definition SI (s : Z) (c : @kconf P) : Prop := ∀ v l,
  vals c !! s = Some v → heads c !! s = Some l →
  - 2 ^ 31 <= v < 2 ^ 31 ∧ (l ≠ [] → v ≤ Z.of_nat (cntm (transit s) (tasks c))).

(** A mutex is held by one task, or free. *)
Definition MI (s : Z) (c : @kconf P) : Prop :=
  (∃ v, vals c !! s = Some v ∧ 0 ≤ v ∧ v + Z.of_nat (cntm (holds s) (tasks c)) = 1) ∧
  ∀ t th, tasks c !! t = Some th → bracketed s th.

Definition SM1 (s : Z) (c : @kconf P) : Prop := SI s c ∧ (s ∈ mutexes → MI s c).
Definition SM (c : @kconf P) : Prop := ∀ s, SM1 s c.

(** [th'] is [th] for the semaphore [s], or is now about to test its counter;
    with [weak] it may have stopped doing so. *)
Definition sv1 (weak : Prop) (s : Z) (th th' : task) : Prop :=
  (weak ∨ (transit s th = true → transit s th' = true)) ∧
  (s ∈ mutexes → holds s th' = holds s th ∧ (bracketed s th → bracketed s th')).
Definition sv_le (th th' : task) : Prop := ∀ s, sv1 False s th th'.

Definition opt_rel {A} (R : A → A → Prop) (x y : option A) : Prop :=
  match x, y with Some a, Some b => R a b | None, None => True | _, _ => False end.

Lemma SM1_mono (weak : Prop) s c c' :
  SM1 s c → vals c' !! s = vals c !! s →
  (weak → ∀ v, vals c !! s = Some v → v ≤ 0) →
  (∀ l', s ∈ sems → heads c' !! s = Some l' → weak ∨ l' = [] ∨
     ∃ l, heads c !! s = Some l ∧ l ≠ []) →
  dom (vals c) = sems → sems ⊆ dom (heads c) →
  (∀ t, opt_rel (sv1 weak s) (tasks c !! t) (tasks c' !! t)) → SM1 s c'.
Proof.
  intros [HS HM] Hv HE Hh Hd Hdh Ht. split.
  - intros v l' Hs Hl'. rewrite Hv in Hs.
    assert (s ∈ sems) as Hsem by (rewrite -Hd; apply elem_of_dom; by exists v).
    split.
    { pose proof (Hdh s Hsem) as [l Hl]%elem_of_dom. by apply (HS v l). }
    intros Hne. destruct (Hh l' Hsem Hl') as [Hw|[?|(l & Hl & Hl0)]];
      [specialize (HE Hw v Hs); lia|done|].
    destruct (Z_le_gt_dec v 0) as [|Hpos]; [lia|].
    destruct (HS v l Hs Hl) as [_ Hle]. specialize (Hle Hl0).
    enough (cntm (transit s) (tasks c) ≤ cntm (transit s) (tasks c'))%nat by lia.
    apply cntm_le. intros t th Hth Htr. specialize (Ht t). rewrite Hth in Ht.
    destruct (tasks c' !! t) as [th'|]; [|done]. exists th'. split; [done|].
    destruct Ht as [[Hw|Ht] _]; [specialize (HE Hw v Hs); lia|by apply Ht].
  - intros Hs. destruct (HM Hs) as [(v & H1 & H2 & H3) Hb]. split.
    + exists v. rewrite Hv. split_and!; [done|done|].
      rewrite -(cntm_cong (holds s) (holds s) (tasks c)); [|done]. intros t. specialize (Ht t).
      destruct (tasks c !! t), (tasks c' !! t); try done. simpl. f_equal. symmetry. by apply Ht.
    + intros t th' Hth'. specialize (Ht t). rewrite Hth' in Ht.
      destruct (tasks c !! t) as [th|] eqn:Et; [|done]. apply Ht; [done|]. exact (Hb t th Et).
Qed.

Lemma SM_mono c c' :
  SM c → vals c' = vals c →
  (∀ s l', s ∈ sems → heads c' !! s = Some l' → l' ≠ [] →
     ∃ l, heads c !! s = Some l ∧ l ≠ []) →
  dom (vals c) = sems → sems ⊆ dom (heads c) →
  (∀ t, opt_rel sv_le (tasks c !! t) (tasks c' !! t)) → SM c'.
Proof.
  intros HS Hv Hh Hd Hdh Ht s.
  apply (SM1_mono False s c); [done|by rewrite Hv|done| |done|done|].
  - intros l' Hs Hl'. right. destruct l' as [|x l']; [by left|right]. exact (Hh s _ Hs Hl' ltac:(done)).
  - intros t. specialize (Ht t). destruct (tasks c !! t), (tasks c' !! t); try done. apply Ht.
Qed.

Lemma sv1_refl weak s th : sv1 weak s th th.
Proof. split; [by right|done]. Qed.
Lemma sv_le_refl th : sv_le th th.
Proof. intros s. apply sv1_refl. Qed.

(** A task whose call chain is the same for semaphores, now awake if it was. *)
Lemma sv1_frames s th th' :
  (FSemP s ∈ t_frames th' ↔ FSemP s ∈ t_frames th) → t_code th' = t_code th →
  (t_state th ≠ TASK_SLEEPING → t_state th' ≠ TASK_SLEEPING) → sv1 False s th th'.
Proof.
  intros Hf Hc Hst.
  assert (acquiring s th' = acquiring s th) as Ha by (apply bool_decide_ext, Hf).
  rewrite /sv1 /transit /bracketed /holds Ha Hc. split; [right|done].
  rewrite !andb_true_iff !negb_true_iff !Z.eqb_neq. intros [? ?]. split; [done|]. by apply Hst.
Qed.

Lemma sv_le_frames th th' :
  (∀ s, FSemP s ∈ t_frames th' ↔ FSemP s ∈ t_frames th) → t_code th' = t_code th →
  (t_state th ≠ TASK_SLEEPING → t_state th' ≠ TASK_SLEEPING) → sv_le th th'.
Proof. intros ? ? ? s. by apply sv1_frames. Qed.

Lemma same_task_sv th th' : same_task th th' → sv_le th th'.
Proof.
  intros (Hc & Hf & _ & Hs). apply sv_le_frames; [|done|by rewrite Hs].
  intros s. by rewrite elem_of_unsched Hf -elem_of_unsched.
Qed.

Lemma KI0_sems c : KI0 c → sems ⊆ dom (heads c).
Proof. intros HK. rewrite (ki_heads _ HK). set_solver. Qed.

Lemma SM_sched c c' : KI0 c → sched_rel c c' → SM c → SM c'.
Proof.
  intros HK Hr HS. apply (SM_mono c); [done|apply Hr| |apply HK|by apply KI0_sems|].
  - intros s l' Hs Hl' Hne. exists l'. split; [|done]. rewrite -(sr_heads _ _ Hr) //.
    destruct Hqueues as [Hq _]. intros ->. by apply Hq, Hsems.
  - intros t. pose proof (sr_tasks _ _ Hr t) as H.
    destruct (tasks c !! t), (tasks c' !! t); try done. by apply same_task_sv.
Qed.
End sem.
