(* ===== verification/SchedOps.v ===== *)
(** * Scheduler and semaphores: every operation preserves the invariants

    Each operation of [Sched] is shown to return, to panic nowhere, and to keep
    the queue, task, semaphore and mutex invariants of [SchedInv]. *)
From S2P Require Import Prelude Regs PageAlloc Sched SchedInv.

Section ops.
Context {P : Type} `{!PageOps P, !PageSpec P} (text : Z → list op)
  (sems queues mutexes : gset Z).
Implicit Types (c : @kconf P) (s q t : Z) (th : task).
Hypothesis Htext : ∀ f, Forall (op_ok sems queues) (text f).
Hypothesis Hsems : sems ⊆ queues.
Hypothesis Hqueues : runq ∉ queues ∧ delq ∉ queues.
Hypothesis Hmutexes : mutexes ⊆ sems.
Hypothesis Hbrk : ∀ s f, s ∈ mutexes → brk s false (text f) = true.

#[local] Notation kbase := (KI0 sems queues).
#[local] Notation kinv := (KI sems queues).
#[local] Notation kyield := (KY sems queues).
#[local] Notation sinv := (SM mutexes).

(** Between steps, and at a call of [sched]. *)
Definition FI c : Prop := kinv c ∧ sinv c.
Definition FY c : Prop := kyield c ∧ sinv c.

Lemma wp_sched_FI c : FY c → wp sched (λ _ c', FI c') c.
Proof.
  intros [HY HS]. eapply wp_mono; [eapply (wp_sched sems queues); [exact Hsems|exact Hqueues|exact HY]|].
  intros _ c' (HK & Hr & _). split; [done|]. destruct HY as [HK0 _]. eapply (SM_sched sems queues); [exact Hsems|exact Hqueues|exact HK0|exact Hr|exact HS].
Qed.

(** ** Updating one task *)

Lemma upd_tasks_twice c t a b :
  upd_tasks (insert t a) (upd_tasks (insert t b) c) = upd_tasks (insert t a) c.
Proof. by rewrite /upd_tasks /= insert_insert_eq. Qed.
Lemma upd_tasks_heads c f g : upd_tasks f (upd_heads g c) = upd_heads g (upd_tasks f c).
Proof. done. Qed.

Lemma KI0_task c t th th' :
  kbase c → tasks c !! t = Some th →
  (t ≠ idle_task c → loc th' = loc th) →
  Forall (op_ok sems queues) (t_code th') → frames_ok sems queues (t_frames th') →
  (t ≠ this_task c → parked th') → (t = idle_task c → idle_ok th') → stack_fits t th' →
  kbase (upd_tasks (insert t th') c).
Proof.
  intros HK Ht Hl Hc Hf Hp Hi Hs. split; simpl; try apply HK.
  - eapply qi_stay; [apply HK|exact Ht|done].
  - intros u thu [[<- <-]|[_ H]]%lookup_insert_Some; [done|]. exact (ki_code _ _ _ HK _ _ H).
  - intros u thu [[<- <-]|[_ H]]%lookup_insert_Some; [done|]. exact (ki_parked _ _ _ HK _ _ H).
  - destruct (ki_idle _ _ _ HK) as (thi & H1 & H2).
    destruct (decide (t = idle_task c)) as [->|Hne].
    + rewrite lookup_insert_eq. eauto.
    + rewrite lookup_insert_ne //. eauto.
  - intros u thu [[<- <-]|[_ H]]%lookup_insert_Some; [done|]. exact (ki_stack _ _ _ HK _ _ H).
  - destruct (ki_pages _ _ _ HK) as (A & H1 & H2). exists A. split; [done|].
    rewrite dom_insert_L. apply elem_of_dom_2 in Ht. set_solver.
  - pose proof (ki_null _ _ _ HK). rewrite lookup_insert_ne //. congruence.
Qed.

Lemma SM_task c t th th' :
  kbase c → tasks c !! t = Some th → sv_le mutexes th th' → sinv c →
  sinv (upd_tasks (insert t th') c).
Proof.
  intros HK Ht Hv HS. apply (SM_mono sems mutexes c); [done|done| |apply HK|exact (KI0_sems _ _ Hsems Hqueues _ HK)|].
  - intros s l Hs Hl Hne. by exists l.
  - intros u. simpl. destruct (decide (u = t)) as [->|Hne].
    + by rewrite lookup_insert_eq Ht.
    + rewrite lookup_insert_ne; [congruence|]. destruct (tasks c !! u); [apply sv_le_refl|done].
Qed.

(** A task leaves its queue for another one. *)
Definition moved c t th' h l : kconf :=
  upd_tasks (insert t th')
    (upd_heads (λ hs, <[h := filter (λ u, u ≠ t) l ++ [t]]> (filter (λ u, u ≠ t) <$> hs)) c).

Lemma KI0_moved c t th th' h l :
  kbase c → tasks c !! t = Some th → t ≠ idle_task c → heads c !! h = Some l →
  loc th' = h → Forall (op_ok sems queues) (t_code th') → frames_ok sems queues (t_frames th') →
  (t ≠ this_task c → parked th') → stack_fits t th' →
  kbase (moved c t th' h l).
Proof.
  intros HK Ht Hi Hh Hl Hc Hf Hp Hs. split; simpl; try apply HK.
  - eapply qi_move; [apply HK|done|done|done].
  - rewrite dom_move; [apply elem_of_dom; by exists l|apply HK].
  - intros u thu [[<- <-]|[_ H]]%lookup_insert_Some; [done|]. exact (ki_code _ _ _ HK _ _ H).
  - intros u thu [[<- <-]|[_ H]]%lookup_insert_Some; [done|]. exact (ki_parked _ _ _ HK _ _ H).
  - rewrite lookup_insert_ne //. apply HK.
  - intros u thu [[<- <-]|[_ H]]%lookup_insert_Some; [done|]. exact (ki_stack _ _ _ HK _ _ H).
  - destruct (ki_pages _ _ _ HK) as (A & H1 & H2). exists A. split; [done|].
    rewrite dom_insert_L. apply elem_of_dom_2 in Ht. set_solver.
  - pose proof (ki_null _ _ _ HK). rewrite lookup_insert_ne //. congruence.
Qed.

(** The waiters of a semaphore after a move, when it is not to its queue. *)
Lemma moved_waiters c t th' h l s l' :
  s ≠ h → heads (moved c t th' h l) !! s = Some l' → l' ≠ [] →
  ∃ l0, heads c !! s = Some l0 ∧ l0 ≠ [].
Proof.
  intros Hs. simpl. rewrite lookup_insert_ne; [congruence|].
  rewrite lookup_fmap_Some. intros (l0 & <- & Hl0) Hne. exists l0. split; [done|]. by intros ->.
Qed.

Lemma moved_tasks c t th th' h l u :
  tasks c !! t = Some th → sv_le mutexes th th' →
  opt_rel (sv_le mutexes) (tasks c !! u) (tasks (moved c t th' h l) !! u).
Proof.
  intros Ht Hv. simpl. destruct (decide (u = t)) as [->|Hne].
  - by rewrite lookup_insert_eq Ht.
  - rewrite lookup_insert_ne; [congruence|]. destruct (tasks c !! u); [apply sv_le_refl|done].
Qed.

Lemma SM_moved c t th th' h l :
  kbase c → tasks c !! t = Some th → h ∉ sems → sv_le mutexes th th' → sinv c →
  sinv (moved c t th' h l).
Proof.
  intros HK Ht Hh Hv HS.
  apply (SM_mono sems mutexes c); [done|done| |apply HK|exact (KI0_sems _ _ Hsems Hqueues _ HK)|].
  - intros s l' Hs. apply moved_waiters. set_solver.
  - intros u. eapply moved_tasks; [exact Ht|done].
Qed.

Lemma runq_not_sem : runq ∉ sems.
Proof. destruct Hqueues. set_solver. Qed.
Lemma delq_not_sem : delq ∉ sems.
Proof. destruct Hqueues. set_solver. Qed.

(** ** Waking *)

Lemma loc_runq th : t_state th = TASK_READY ∨ t_state th = TASK_RUNNING → loc th = runq.
Proof. by rewrite /loc; intros [->| ->]. Qed.

(** A task on a wait queue is asleep, in the shape that queue implies. *)
Lemma on_waitq c q l t :
  kinv c → q ∈ queues → heads c !! q = Some l → t ∈ l →
  ∃ th, tasks c !! t = Some th ∧ t ≠ idle_task c ∧ t ≠ this_task c ∧
    t_state th = TASK_SLEEPING ∧
    (t_frames th = [FSched; FSleep q] ∨ t_frames th = [FSched; FSleep q; FSemP q]).
Proof.
  intros [HK (thc & Hc & Hr)] Hq Hl Ht.
  apply (qi_mem _ _ _ (ki_q _ _ _ HK) _ _ _ Hl) in Ht as (th & H1 & H2 & H3).
  destruct Hqueues as [Hq1 Hq2]. exists th. split; [done|]. split; [done|].
  assert (t_state th = TASK_SLEEPING) as Hs.
  { rewrite /loc in H3. destruct (Z.eqb_spec (t_state th) TASK_ZOMBIE); [congruence|].
    by destruct (Z.eqb_spec (t_state th) TASK_SLEEPING); [|congruence]. }
  assert (t ≠ this_task c) as Hne.
  { intros ->. simplify_eq. destruct Hr as [[E _]|[E _]]; by rewrite Hs in E. }
  split_and!; [done|done|].
  destruct (ki_parked _ _ _ HK _ _ H1 Hne) as [[E _]|[(_ & q' & Hf)|[E _]]];
    [by rewrite Hs in E| |by rewrite Hs in E].
  rewrite /loc Hs /waiting /= in H3. destruct Hf as [Hf|Hf]; rewrite Hf in H3 |- *; subst q'; auto.
Qed.

(** Taking a sleeper off its queue and making it ready. *)
Definition woken c t th : kconf :=
  moved c t (set_state TASK_READY th) runq (default [] (heads c !! runq)).

Lemma wp_wake c t th (Q : unit → kconf → Prop) :
  kbase c → tasks c !! t = Some th → t ≠ idle_task c → t_state th = TASK_SLEEPING →
  waiting th ∈ queues → Q tt (woken c t th) →
  wp (list_del t) (λ _ c1, wp (task_to_runq t) Q c1) c.
Proof.
  intros HK Ht Hi Hs Hw HQ. destruct (KI0_runq _ _ _ HK) as [l Hl].
  apply wp_list_del; [eapply qi_on_list; [apply HK|exact Ht|done]|].
  apply wp_bind. eapply wp_st_task; [exact Ht|].
  eapply wp_list_add_tail; [simpl; rewrite lookup_fmap Hl; done|].
  rewrite /woken /moved Hl in HQ. exact HQ.
Qed.

Lemma woken_kinv c t th q :
  kinv c → tasks c !! t = Some th → t ≠ idle_task c → t ≠ this_task c →
  t_state th = TASK_SLEEPING →
  (t_frames th = [FSched; FSleep q] ∨ t_frames th = [FSched; FSleep q; FSemP q]) →
  kinv (woken c t th).
Proof.
  intros [HK (thc & Hc & Hr)] Ht Hi Hne Hs Hf.
  destruct (KI0_runq _ _ _ HK) as [l Hl]. rewrite /woken Hl /=. split.
  - destruct (ki_code _ _ _ HK _ _ Ht) as [H1 H2].
    eapply KI0_moved; [done|exact Ht|done|done|apply loc_runq; by left|done|done| |
      exact (ki_stack _ _ _ HK _ _ Ht)].
    intros _. left. split; [done|]. right. simpl.
    destruct Hf as [->| ->]; eexists; (split; [done|]); simpl; [done|by rewrite Z.eqb_refl].
  - exists thc. simpl. by rewrite lookup_insert_ne.
Qed.

Lemma woken_sv th : sv_le mutexes th (set_state TASK_READY th).
Proof. by apply sv_le_frames. Qed.

Lemma woken_FI c q l t :
  FI c → q ∈ queues → heads c !! q = Some l → t ∈ l → ∃ th,
    tasks c !! t = Some th ∧ t_state th = TASK_SLEEPING ∧ t ≠ idle_task c ∧ waiting th ∈ queues ∧
    (q ∈ sems → acquiring q th = true) ∧
    FI (woken c t th) ∧ heads (woken c t th) !! q = Some (filter (λ u, u ≠ t) l).
Proof.
  intros [HK HS] Hq Hl Ht.
  destruct (on_waitq c q l t HK Hq Hl Ht) as (th & H1 & H2 & H3 & H4 & H5).
  assert (q ≠ runq) as Hqr by (destruct Hqueues; congruence).
  exists th. split_and!; [done|done|done| | | |].
  - rewrite /waiting. by destruct H5 as [->| ->].
  - intros Hqs. apply bool_decide_eq_true. destruct H5 as [E|E]; rewrite E; [|set_solver].
    destruct (ki_code _ _ _ (ki_base _ _ _ HK) _ _ H1) as [_ [_ Hn]].
    destruct (Hn q); [by rewrite E|done].
  - split; [eapply (woken_kinv c t th q); done|]. destruct HK as [HK _].
    eapply SM_moved; [done|exact H1|exact runq_not_sem|apply woken_sv|done].
  - rewrite /woken /=. rewrite lookup_insert_ne; [congruence|]. by rewrite lookup_fmap Hl.
Qed.

(** Waking others leaves the current task alone. *)
Definition same_cur c c' : Prop :=
  this_task c' = this_task c ∧ tasks c' !! this_task c = tasks c !! this_task c.

Lemma wp_wake_each l c q :
  FI c → q ∈ queues → heads c !! q = Some l → wp (wake_each l) (λ _ c', FI c' ∧ same_cur c c') c.
Proof.
  revert c. induction l as [|t l IH]; intros c HF Hq Hl; [by apply wp_ret|].
  destruct (on_waitq c q (t :: l) t (proj1 HF) Hq Hl) as (_ & _ & _ & Hne & _); [set_solver|].
  destruct (woken_FI c q (t :: l) t HF Hq Hl) as (th & H1 & H2 & H3 & H4 & _ & H5 & H6); [set_solver|].
  pose proof HF as [[HK _] _].
  simpl. apply wp_bind.
  apply (wp_mono _ (λ _ c1, wp (task_to_runq t) (λ _ c2, wp (wake_each l) (λ _ c', FI c' ∧ same_cur c c') c2) c1)).
  2: { intros _ c1 Hw. by apply wp_bind. }
  eapply (wp_wake c t th); [exact HK|done..|].
  eapply wp_mono; [apply (IH _ H5 Hq)|].
  2: { intros [] c' [HF' [E1 E2]]. split; [done|]. split; [done|].
       simpl in E2. rewrite E2 lookup_insert_ne //. }
  rewrite H6. f_equal. apply filter_ne_head.
  pose proof (qi_nodup _ _ _ (ki_q _ _ _ HK) _ _ Hl) as Hnd. by apply NoDup_cons in Hnd as [? _].
Qed.

Lemma wp_wake_up c q : FI c → q ∈ queues → wp (wake_up q) (λ _ c', FI c' ∧ same_cur c c') c.
Proof.
  intros HF Hq. destruct HF as [[HK Hc] HS]. destruct (KI0_head _ _ c q HK) as [l Hl];
    [set_solver|]. apply wp_bind. eapply wp_ld_head; [exact Hl|]. eapply wp_wake_each; [split; [split; [exact HK|exact Hc]|exact HS]|exact Hq|exact Hl].
Qed.

(** ** Sleeping *)

Definition asleep q th : task := set_state TASK_SLEEPING (set_frames (FSleep q :: t_frames th) th).

(** A task may go to sleep from its own code, or from [sem_P] when the
    counter is not positive. *)
Definition may_sleep c q th : Prop :=
  (t_frames th = [] ∧ q ∉ sems) ∨
  (t_frames th = [FSemP q] ∧ q ∈ sems ∧ ∀ v, vals c !! q = Some v → v ≤ 0).

Lemma asleep_base c q th l :
  kbase c → tasks c !! this_task c = Some th → this_task c ≠ idle_task c →
  q ∈ queues → heads c !! q = Some l → may_sleep c q th →
  kyield (moved c (this_task c) (asleep q th) q l).
Proof.
  intros HK Ht Hi Hq Hl Hm. destruct (ki_code _ _ _ HK _ _ Ht) as [H1 [H2 H3]]. split.
  - eapply KI0_moved; [done|exact Ht|done|done|done|done| |done|exact (ki_stack _ _ _ HK _ _ Ht)].
    split; simpl; [by apply Forall_cons|]. destruct Hm as [[-> Hn]|[-> _]]; [|done].
    by intros q' [= <-].
  - exists (asleep q th). simpl. rewrite lookup_insert_eq. split; [done|]. right; left.
    split; [done|]. exists q. simpl. destruct Hm as [[-> _]|[-> _]]; auto.
Qed.

Lemma asleep_sv c q th s :
  may_sleep c q th → sv1 mutexes (s = q ∧ q ∈ sems) s th (asleep q th).
Proof.
  intros Hm.
  assert (acquiring s (asleep q th) = acquiring s th) as Ha.
  { apply bool_decide_ext. simpl. rewrite elem_of_cons. naive_solver. }
  rewrite /sv1 /bracketed /holds Ha. split; [|done]. rewrite /transit Ha /=.
  destruct (decide (s = q ∧ q ∈ sems)) as [|Hs]; [by left|right].
  rewrite andb_true_iff. intros [Hin%bool_decide_eq_true _].
  destruct Hm as [[E _]|(E & Hq & _)]; rewrite E in Hin; [set_solver|].
  apply list_elem_of_singleton in Hin as [= ->]. by destruct Hs.
Qed.

Lemma asleep_sinv c q th l :
  kbase c → tasks c !! this_task c = Some th → may_sleep c q th → sinv c →
  sinv (moved c (this_task c) (asleep q th) q l).
Proof.
  intros HK Ht Hm HS s.
  apply (SM1_mono sems mutexes (s = q ∧ q ∈ sems) s c);
    [done|done| | |apply HK|exact (KI0_sems _ _ Hsems Hqueues _ HK)|].
  - intros [-> Hq] v Hv. destruct Hm as [[_ ?]|(_ & _ & H)]; [done|by apply H].
  - intros l' Hs Hl'. destruct (decide (s = q)) as [->|Hne]; [by left|right].
    destruct l' as [|x l']; [by left|right]. eapply moved_waiters; [exact Hne|exact Hl'|done].
  - intros u. simpl. destruct (decide (u = this_task c)) as [->|Hne].
    + rewrite lookup_insert_eq Ht. eapply asleep_sv. exact Hm.
    + rewrite lookup_insert_ne; [congruence|]. destruct (tasks c !! u); [apply sv1_refl|done].
Qed.

Lemma wp_sleep_on c q th :
  kbase c → tasks c !! this_task c = Some th → this_task c ≠ idle_task c →
  q ∈ queues → may_sleep c q th → sinv c → wp (sleep_on q) (λ _ c', FI c') c.
Proof.
  intros HK Ht Hi Hq Hm HS. destruct (KI0_head _ _ c q HK) as [l Hl]; [set_solver|].
  apply wp_bind, wp_bind, wp_gets. eapply wp_st_task; [exact Ht|].
  apply wp_bind, wp_gets, wp_bind. eapply wp_st_task; [apply lookup_insert_eq|].
  apply wp_bind, wp_list_del; [eapply qi_on_list; [apply HK|exact Ht|done]|].
  apply wp_bind. eapply wp_list_add_tail; [simpl; rewrite lookup_fmap Hl; done|].
  set (c1 := upd_heads _ _).
  assert (c1 = moved c (this_task c) (asleep q th) q l) as ->.
  { rewrite /c1 /moved /upd_heads /upd_tasks /=. by rewrite insert_insert_eq. }
  apply wp_sched_FI. split; [by apply asleep_base|by apply asleep_sinv].
Qed.

(** ** Semaphores *)

(** A semaphore operation on [s] by one task: the other semaphores see
    nothing, [s] is checked directly. *)
Lemma SM_sem s c c' :
  kbase c → sinv c → SM1 mutexes s c' →
  (∀ s', s' ≠ s → vals c' !! s' = vals c !! s') →
  (∀ s' l', s' ≠ s → s' ∈ sems → heads c' !! s' = Some l' → l' ≠ [] →
     ∃ l, heads c !! s' = Some l ∧ l ≠ []) →
  (∀ s' t, s' ≠ s → opt_rel (sv1 mutexes False s') (tasks c !! t) (tasks c' !! t)) → sinv c'.
Proof.
  intros HK HS H1 Hv Hh Ht s'. destruct (decide (s' = s)) as [->|Hne]; [done|].
  apply (SM1_mono sems mutexes False s' c);
    [done|by apply Hv|done| |apply HK|exact (KI0_sems _ _ Hsems Hqueues _ HK)|by intros; apply Ht].
  intros l' Hs Hl'. right. destruct l' as [|x l']; [by left|right].
  exact (Hh s' _ Hne Hs Hl' ltac:(done)).
Qed.

Lemma opt_rel_insert (R : task → task → Prop) (ts : gmap Z task) t th th' u :
  (∀ th, R th th) → ts !! t = Some th → R th th' → opt_rel R (ts !! u) (<[t := th']> ts !! u).
Proof.
  intros Hrefl Ht HR. destruct (decide (u = t)) as [->|Hne].
  - by rewrite lookup_insert_eq Ht.
  - rewrite lookup_insert_ne; [congruence|]. destruct (ts !! u); [apply Hrefl|done].
Qed.

(** The end of [sem_P]: the counter is taken. *)
Definition acquired c s v th : kconf :=
  upd_tasks (insert (this_task c) (set_frames [] th)) (upd_vals (insert s (s32 (v - 1))) c).

Lemma acquired_SM1 c s v th :
  tasks c !! this_task c = Some th → t_frames th = [FSemP s] → t_state th = TASK_RUNNING →
  vals c !! s = Some v → 0 < v → - 2 ^ 31 ≤ v < 2 ^ 31 → SM1 mutexes s c →
  SM1 mutexes s (acquired c s v th).
Proof.
  intros Ht Hf Hst Hv Hpos Hrg [HS HM].
  assert (acquiring s th = true) as Ha by (apply bool_decide_eq_true; rewrite Hf; set_solver).
  assert (acquiring s (set_frames [] th) = false) as Ha' by (apply bool_decide_eq_false; set_solver).
  rewrite /SM1 /SI /MI /acquired /= s32_id; [lia|]. split.
  - intros v' l. rewrite lookup_insert_eq. intros [= <-] Hl. split; [lia|]. intros Hne.
    destruct (HS v l Hv Hl) as [_ Hle]. specialize (Hle Hne).
    pose proof (cntm_update (transit s) _ _ th (set_frames [] th) Ht) as Hc.
    rewrite {2 4}/transit Ha Ha' Hst /= in Hc. lia.
  - intros Hs. destruct (HM Hs) as [(v' & Hv' & H0 & H1) Hb].
    rewrite Hv' in Hv. injection Hv as ->.
    pose proof (Hb _ _ Ht) as Hbt. rewrite /bracketed Ha /= in Hbt.
    pose proof (brk_next _ _ _ Hbt) as Hn. split.
    + exists (v - 1). rewrite lookup_insert_eq. split_and!; [done|lia|].
      pose proof (cntm_update (holds s) _ _ th (set_frames [] th) Ht) as Hc.
      rewrite {2 4}/holds Ha Ha' /= Hn /= in Hc. lia.
    + intros t th'. rewrite lookup_insert_Some. intros [[<- <-]|[_ H]]; [|exact (Hb _ _ H)].
      rewrite /bracketed /holds Ha' /= Hn. done.
Qed.

Lemma KI0_vals c s v : kbase c → s ∈ sems → kbase (upd_vals (insert s v) c).
Proof.
  intros HK Hs. split; simpl; try apply HK. rewrite dom_insert_L (ki_vals _ _ _ HK). set_solver.
Qed.

Lemma wp_sem_P_loop c s th :
  FI c → tasks c !! this_task c = Some th → t_frames th = [FSemP s] → s ∈ sems →
  this_task c ≠ idle_task c → wp (sem_P_loop s) (λ _ c', FI c') c.
Proof.
  intros [[HK (th0 & Ht0 & Hr)] HS] Ht Hf Hs Hi. rewrite Ht in Ht0. injection Ht0 as <-.
  assert (t_state th = TASK_RUNNING) as Hst.
  { destruct Hr as [[? _]|(_ & _ & E)]; [done|]. by rewrite Hf in E. }
  assert (∃ v, vals c !! s = Some v) as [v Hv].
  { apply elem_of_dom. by rewrite (ki_vals _ _ _ HK). }
  assert (∃ l, heads c !! s = Some l) as [l Hl] by (apply (KI0_head _ _ c s HK); set_solver).
  apply wp_bind, wp_bind. rewrite /wp /= Hv.
  change (wp (if v <=? 0 then sleep_on s else do! st_val s (s32 (v - 1)) then pop_frame)
    (λ _ c', FI c') c).
  destruct (Z.leb_spec v 0) as [Hle|Hgt].
  - eapply wp_sleep_on; [done|exact Ht|done|set_solver| |done].
    right. split_and!; [done|done|]. intros v' Hv'. congruence.
  - destruct (HS s) as [HSI _]. destruct (HSI v l Hv Hl) as [Hrg _].
    apply wp_bind, wp_modify, wp_bind, wp_gets. eapply wp_st_task; [exact Ht|]. rewrite Hf.
    change (FI (acquired c s v th)). destruct (ki_code _ _ _ HK _ _ Ht) as [Hco _].
    split; [split|].
    + eapply KI0_task; [by apply KI0_vals|exact Ht|by rewrite /loc /= Hst|done|
        by split; [constructor|]|done| |exact (ki_stack _ _ _ HK _ _ Ht)]. done.
    + exists (set_frames [] th). simpl. rewrite lookup_insert_eq. split; [done|by left].
    + apply (SM_sem s c); [done|done|by apply acquired_SM1| | |].
      * intros s' Hne. simpl. rewrite lookup_insert_ne; [congruence|done].
      * intros s' l' _ _ Hl' Hne. by exists l'.
      * intros s' t Hne. simpl. eapply opt_rel_insert; [apply sv1_refl|exact Ht|].
        apply sv1_frames; [|done|done]. rewrite Hf /=. set_solver.
Qed.

(** ** [sem_V] *)

Definition released c s v th code : kconf :=
  upd_vals (insert s (s32 (v + 1))) (upd_tasks (insert (this_task c) (set_code code th)) c).

(** Dropping an operation on [s] from the code: the other semaphores see
    nothing. *)
Lemma sv1_V s s' th code :
  t_code th = OpV s :: code → s' ≠ s → sv1 mutexes False s' th (set_code code th).
Proof.
  intros Hc Hne. rewrite /sv1 /transit /holds /bracketed /holds /=.
  change (acquiring s' (set_code code th)) with (acquiring s' th). rewrite Hc /=.
  rewrite (proj2 (Z.eqb_neq s s')); [congruence|]. split; [by right|done].
Qed.

(** The mutex part of [sem_V]: the holder gives the mutex back. *)
Lemma released_MI c c' s v th code :
  MI s c → tasks c !! this_task c = Some th → t_code th = OpV s :: code →
  acquiring s th = false → vals c !! s = Some v →
  vals c' !! s = Some (s32 (v + 1)) →
  (∀ t th', tasks c' !! t = Some th' → ∃ th0,
     (if decide (t = this_task c) then th0 = set_code code th else tasks c !! t = Some th0) ∧
     sv1 mutexes False s th0 th') →
  cntm (holds s) (tasks c') = cntm (holds s) (<[this_task c := set_code code th]> (tasks c)) →
  s ∈ mutexes → MI s c'.
Proof.
  intros [(v0 & Hv0 & H0 & H1) Hb] Ht Hc Ha Hv Hv' Hts Hcnt Hm.
  rewrite Hv0 in Hv. injection Hv as ->.
  assert (acquiring s (set_code code th) = false) as Ha' by done.
  pose proof (Hb _ _ Ht) as Hbt.
  assert (next_is_V s (t_code th) = true) as Hn by (by rewrite Hc /= Z.eqb_refl).
  rewrite /bracketed Ha /holds Ha Hn Hc /= Z.eqb_refl /= in Hbt.
  pose proof (brk_next _ _ _ Hbt) as Hn'.
  pose proof (cntm_update (holds s) _ _ th (set_code code th) Ht) as Hcu.
  rewrite {2 4}/holds Ha Ha' Hn /= Hn' /= in Hcu.
  split.
  - exists 1. rewrite Hv' Hcnt. split_and!; [|done|lia]. f_equal. rewrite s32_id; lia.
  - intros t th' Hth'. destruct (Hts t th' Hth') as (th0 & Hth0 & [_ Hs]).
    apply Hs; [done|]. case_decide; [|exact (Hb _ _ Hth0)].
    subst th0. by rewrite /bracketed /holds Ha' /= Hn'.
Qed.

Lemma kinv_code c th code :
  kinv c → tasks c !! this_task c = Some th → t_state th = TASK_RUNNING →
  (∃ o, t_code th = o :: code) →
  kinv (upd_tasks (insert (this_task c) (set_code code th)) c).
Proof.
  intros [HK (th0 & Ht0 & Hr)] Ht Hst [o Ho]. rewrite Ht in Ht0. injection Ht0 as <-.
  destruct (ki_code _ _ _ HK _ _ Ht) as [Hco Hfr]. rewrite Ho in Hco.
  apply Forall_cons in Hco as [_ Hco]. split.
  - eapply KI0_task; [done|exact Ht|done|done|done|done| |exact (ki_stack _ _ _ HK _ _ Ht)].
    intros E. destruct (ki_idle _ _ _ HK) as (thi & Hi & H1 & H2 & H3).
    rewrite -E Ht in Hi. injection Hi as <-. split_and!; [done|done|].
    rewrite Ho in H3. by apply Forall_cons in H3 as [_ H3].
  - exists (set_code code th). simpl. rewrite lookup_insert_eq. split; [done|].
    destruct Hr as [Hr|[E _]]; [by left|by rewrite Hst in E].
Qed.

Lemma kinv_vals c s v : kinv c → s ∈ sems → kinv (upd_vals (insert s v) c).
Proof. intros [HK Hc] Hs. split; [by apply KI0_vals|done]. Qed.

Section sem_V.
Context (c : @kconf P) (s v : Z) (th : task) (code : list op) (l : list Z).
Hypothesis HF : FI c.
Hypothesis Ht : tasks c !! this_task c = Some th.
Hypothesis Hst : t_state th = TASK_RUNNING.
Hypothesis Hfr : t_frames th = [].
Hypothesis Hc : t_code th = OpV s :: code.
Hypothesis Hs : s ∈ sems.
Hypothesis Hv : vals c !! s = Some v.
Hypothesis Hl : heads c !! s = Some l.

Lemma V_acquiring : acquiring s th = false.
Proof. apply bool_decide_eq_false. rewrite Hfr. set_solver. Qed.

Lemma V_released : kinv (released c s v th code).
Proof.
  destruct HF as [HK _]. apply kinv_vals; [|done]. apply kinv_code; [done..|by exists (OpV s)].
Qed.

Lemma V_transit :
  cntm (transit s) (<[this_task c := set_code code th]> (tasks c)) = cntm (transit s) (tasks c).
Proof.
  pose proof (cntm_update (transit s) _ _ th (set_code code th) Ht) as H.
  change (transit s (set_code code th)) with (transit s th) in H. lia.
Qed.

(** Nobody to wake, or the counter is still not positive. *)
Lemma V_quiet : (l = [] ∨ s32 (v + 1) ≤ 0) → FI (released c s v th code).
Proof.
  intros Hq. split; [exact V_released|]. destruct HF as [[HK _] HS].
  apply (SM_sem s c); [done|done| | | |].
  - split.
    + intros v' l'. simpl. rewrite lookup_insert_eq Hl. intros [= <-] [= <-].
      split; [apply s32_range|]. intros Hne. destruct Hq as [?|?]; [done|lia].
    + intros Hm. eapply released_MI; [by apply HS|exact Ht|exact Hc|exact V_acquiring|exact Hv|
        by rewrite /= lookup_insert_eq| |done|done].
      intros t th' Hth'. exists th'. split; [|apply sv1_refl]. simpl in Hth'.
      apply lookup_insert_Some in Hth' as [[<- <-]|[Hne H]].
      * by rewrite decide_True.
      * rewrite decide_False; [congruence|done].
  - intros s' Hne. simpl. rewrite lookup_insert_ne; [congruence|done].
  - intros s' l' _ _ Hl' Hne. by exists l'.
  - intros s' t Hne. simpl. eapply opt_rel_insert; [apply sv1_refl|exact Ht|].
    eapply sv1_V; [exact Hc|done].
Qed.

(** The first waiter is woken. *)
Lemma V_wakes t l0 tht :
  l = t :: l0 → tasks c !! t = Some tht → t_state tht = TASK_SLEEPING → t ≠ this_task c →
  acquiring s tht = true → kinv (woken (released c s v th code) t tht) →
  FI (woken (released c s v th code) t tht).
Proof.
  intros El Htt Hts Hne Ha HK'. split; [done|]. destruct HF as [[HK _] HS].
  assert (this_task c ≠ t) as Hne' by congruence.
  destruct (HS s) as [HSI HMI]. destruct (HSI v l Hv Hl) as [Hrg Hle].
  specialize (Hle ltac:(by rewrite El)).
  assert (<[this_task c := set_code code th]> (tasks c) !! t = Some tht) as Htt'.
  { by rewrite lookup_insert_ne. }
  apply (SM_sem s c); [done|done| | | |].
  - split.
    + intros v' l'. simpl. rewrite lookup_insert_eq. intros [= <-] _.
      split; [apply s32_range|]. intros _.
      pose proof (cntm_update (transit s) _ _ tht (set_state TASK_READY tht) Htt') as Hcu.
      rewrite V_transit in Hcu.
      rewrite {2 4}/transit Ha Hts /= in Hcu.
      change (acquiring s (set_state TASK_READY tht)) with (acquiring s tht) in Hcu.
      rewrite Ha /= in Hcu. pose proof (s32_le (v + 1)). lia.
    + intros Hm. eapply released_MI; [by apply HS|exact Ht|exact Hc|exact V_acquiring|exact Hv|
        by rewrite /= lookup_insert_eq| | |done].
      * intros u th' Hth'. simpl in Hth'.
        apply lookup_insert_Some in Hth' as [[<- <-]|[Hu H]].
        -- exists tht. rewrite decide_False //. split; [done|]. by apply sv1_frames.
        -- exists th'. split; [|apply sv1_refl].
           apply lookup_insert_Some in H as [[<- <-]|[Hu' H]].
           ++ by rewrite decide_True.
           ++ rewrite decide_False; [congruence|done].
      * simpl. pose proof (cntm_update (holds s) _ _ tht (set_state TASK_READY tht) Htt') as Hcu.
        change (holds s (set_state TASK_READY tht)) with (holds s tht) in Hcu. lia.
  - intros s' Hs'. simpl. rewrite lookup_insert_ne; [congruence|done].
  - intros s' l' Hs' Hin Hl' Hn.
    destruct (moved_waiters (released c s v th code) t (set_state TASK_READY tht) runq
      (default [] (heads c !! runq)) s' l') as (l1 & ? & ?); [|done|done|by exists l1].
    intros ->. by apply runq_not_sem in Hin.
  - intros s' u Hs'. simpl. destruct (decide (u = t)) as [->|Hu].
    + rewrite lookup_insert_eq Htt. by apply sv1_frames.
    + rewrite lookup_insert_ne; [congruence|].
      eapply opt_rel_insert; [apply sv1_refl|exact Ht|]. eapply sv1_V; [exact Hc|done].
Qed.
End sem_V.

Lemma running_own c th :
  FI c → tasks c !! this_task c = Some th → t_frames th = [] → t_state th = TASK_RUNNING.
Proof.
  intros [[_ (th0 & Ht0 & Hr)] _] Ht Hf. rewrite Ht in Ht0. injection Ht0 as <-.
  destruct Hr as [[? _]|(_ & _ & E)]; [done|]. by rewrite Hf in E.
Qed.

Lemma wp_sem_V c s th code :
  FI c → tasks c !! this_task c = Some th → t_frames th = [] → t_code th = OpV s :: code →
  s ∈ sems →
  wp (sem_V s) (λ _ c', FI c') (upd_tasks (insert (this_task c) (set_code code th)) c).
Proof.
  intros HF Ht Hfr Hc Hs. pose proof (running_own c th HF Ht Hfr) as Hst.
  pose proof HF as [HK HS]. pose proof HK as [HK0 _].
  assert (∃ v, vals c !! s = Some v) as [v Hv].
  { apply elem_of_dom. by rewrite (ki_vals _ _ _ HK0). }
  assert (∃ l, heads c !! s = Some l) as [l Hl] by (apply (KI0_head _ _ c s HK0); set_solver).
  pose proof (V_released c s v th code HF Ht Hst Hc Hs) as HK1.
  apply wp_bind, wp_bind. rewrite /wp /= Hv.
  change (wp (do! st_val s (s32 (v + 1)) then when (0 <? s32 (v + 1)) (wake_one s))
    (λ _ c', FI c') (upd_tasks (insert (this_task c) (set_code code th)) c)).
  apply wp_bind, wp_modify. change (upd_vals _ (upd_tasks _ c)) with (released c s v th code).
  destruct (Z.ltb_spec 0 (s32 (v + 1))) as [Hpos|Hneg]; simpl.
  2: { apply wp_ret. eapply V_quiet; [exact HF|exact Ht|done..|exact Hv|exact Hl|by right]. }
  apply wp_bind. eapply wp_list_empty; [exact Hl|].
  destruct l as [|t l].
  { apply wp_ret. eapply V_quiet; [exact HF|exact Ht|done..|exact Hv|exact Hl|by left]. }
  assert (s ∈ queues) as Hsq by set_solver.
  destruct (on_waitq c s (t :: l) t HK Hsq Hl) as (tht & H1 & H2 & H3 & H4 & H5); [set_solver|].
  assert (acquiring s tht = true) as Ha.
  { destruct (woken_FI c s (t :: l) t HF Hsq Hl) as (th2 & Hth2 & _ & _ & _ & H & _); [set_solver|].
    rewrite H1 in Hth2. injection Hth2 as <-. by apply H. }
  assert (tasks (released c s v th code) !! t = Some tht) as H1'.
  { simpl. rewrite lookup_insert_ne; [congruence|done]. }
  apply wp_bind. eapply wp_list_first; [exact Hl|]. apply wp_bind.
  eapply wp_wake; [apply HK1|exact H1'|done|done| |].
  { rewrite /waiting. by destruct H5 as [->| ->]. }
  eapply (V_wakes c s v th code (t :: l)); [exact HF|exact Ht|done|done|done|done|exact Hv|exact Hl|
    done|done|done|done|done|].
  eapply (woken_kinv _ t tht s); [exact HK1|exact H1'|done|done|done|done].
Qed.

(** ** Exit *)

Definition dead code th : task :=
  set_frames (FExit :: t_frames th) (set_code [] (set_state TASK_ZOMBIE (set_exit_code code th))).

Lemma wp_do_exit c th code rest :
  FI c → tasks c !! this_task c = Some th → t_frames th = [] → t_code th = OpExit code :: rest →
  this_task c ≠ idle_task c →
  wp (do_exit code) (λ _ c', FI c') (upd_tasks (insert (this_task c) (set_code rest th)) c).
Proof.
  intros HF Ht Hfr Hc Hi. pose proof (running_own c th HF Ht Hfr) as Hst.
  destruct HF as [[HK Hcur] HS]. destruct (KI0_delq _ _ _ HK) as [l Hl].
  apply wp_bind, wp_gets, wp_bind, wp_bind, wp_list_del.
  { eapply qi_on_list; [apply HK|exact Ht|done]. }
  eapply wp_list_add_tail; [simpl; rewrite lookup_fmap Hl; done|].
  do 3 (apply wp_bind; eapply wp_st_task; [apply lookup_insert_eq|]).
  apply wp_bind, wp_gets. eapply wp_st_task; [apply lookup_insert_eq|].
  set (c1 := upd_tasks _ _).
  assert (c1 = moved c (this_task c) (dead code th) delq l) as ->.
  { rewrite /c1 !upd_tasks_twice !upd_tasks_heads upd_tasks_twice. done. }
  destruct (ki_code _ _ _ HK _ _ Ht) as [_ Hfo].
  split; [split|].
  - eapply KI0_moved; [done|exact Ht|done|done|done|constructor| |done|exact (ki_stack _ _ _ HK _ _ Ht)].
    rewrite /= Hfr. split; [repeat constructor|done].
  - exists (dead code th). simpl. rewrite lookup_insert_eq. split; [done|]. right.
    by rewrite /= Hfr.
  - eapply SM_moved; [done|exact Ht|exact delq_not_sem| |done].
    intros s. assert (acquiring s (dead code th) = acquiring s th) as Ha.
    { apply bool_decide_ext. rewrite /= elem_of_cons. naive_solver. }
    rewrite /sv1 /transit /holds /bracketed /holds Ha /= Hst Hc /=. split; [by right|done].
Qed.

(** ** Creating and freeing tasks *)

(** What a semaphore sees is only the tasks inside [sem_P] or holding it. *)
Definition sem_idle s th : Prop :=
  transit s th = false ∧ (s ∈ mutexes → holds s th = false).

Lemma SM_tasks c c' t th :
  sinv c → vals c' = vals c → (∀ s, s ∈ sems → heads c' !! s = heads c !! s) →
  dom (vals c) = sems → (∀ s, sem_idle s th) →
  (tasks c !! t = None ∧ tasks c' = <[t := th]> (tasks c) ∧ (∀ s, s ∈ mutexes → bracketed s th) ∨
   tasks c !! t = Some th ∧ tasks c' = delete t (tasks c)) → sinv c'.
Proof.
  intros HS Hv Hh Hd Hth Hor s. destruct (HS s) as [HSI HMI]. destruct (Hth s) as [Htr Hho].
  assert (cntm (transit s) (tasks c') = cntm (transit s) (tasks c)) as Ec.
  { destruct Hor as [(Hn & -> & _)|(Hsome & ->)].
    - by rewrite cntm_insert // Htr.
    - by rewrite (cntm_delete _ (tasks c) t th Hsome) Htr. }
  split.
  - intros v l. rewrite Hv Ec. intros Hs. rewrite Hh; [by rewrite -Hd; apply elem_of_dom; exists v|].
    by apply HSI.
  - intros Hm. destruct (HMI Hm) as [(v & H1 & H2 & H3) Hb]. specialize (Hho Hm). split.
    + exists v. rewrite Hv. split_and!; [done|done|].
      destruct Hor as [(Hn & -> & _)|(Hsome & ->)].
      * by rewrite cntm_insert // Hho.
      * by rewrite (cntm_delete _ (tasks c) t th Hsome) Hho in H3.
    + intros u thu. destruct Hor as [(Hn & -> & Hbr)|(Hsome & ->)].
      * rewrite lookup_insert_Some. intros [[<- <-]|[_ H]]; [by apply Hbr|exact (Hb _ _ H)].
      * rewrite lookup_delete_Some. intros [_ H]. exact (Hb _ _ H).
Qed.

Lemma kthread_stack t pid f :
  PAGE_OFFSET ≤ t ≤ 2 ^ 32 - PAGE_SIZE → stack_fits t (new_kthread text t pid f).
Proof.
  rewrite /PAGE_OFFSET /PAGE_SIZE. intros H. right. simpl.
  rewrite /sizeof_task !u32_id /PAGE_OFFSET /PAGE_SIZE; lia.
Qed.

Definition born c t pid p th l : kconf :=
  upd_heads (insert runq (l ++ [t])) (upd_tasks (insert t th) (set_next_pid pid (set_pages p c))).

Lemma born_FI c t pid p f l A :
  FI c → heads c !! runq = Some l → PAGE_OFFSET ≤ t ≤ 2 ^ 32 - PAGE_SIZE →
  dom (tasks c) ⊆ A → t ∉ A → pages_own p ({[ t ]} ∪ A) →
  FI (born c t pid p (set_state TASK_READY (new_kthread text t pid f)) l).
Proof.
  intros [[HK (thc & Hcur & Hr)] HS] Hl Hrg HA Hn Hp.
  assert (tasks c !! t = None) as Hnone by (apply not_elem_of_dom; set_solver).
  destruct (ki_idle _ _ _ HK) as (thi & Hidle & Hiok).
  assert (t ≠ idle_task c) by congruence. assert (t ≠ this_task c) by congruence.
  assert (∀ s, acquiring s (set_state TASK_READY (new_kthread text t pid f)) = false) as Ha.
  { intros s. apply bool_decide_eq_false. set_solver. }
  split; [split|].
  - split; simpl; try apply HK.
    + eapply qi_new; [apply HK|done|done|done|by apply loc_runq; left].
    + rewrite dom_insert_L (ki_heads _ _ _ HK). set_solver.
    + intros u thu [[<- <-]|[_ H']]%lookup_insert_Some; [|exact (ki_code _ _ _ HK _ _ H')].
      split; [apply Htext|by split; [constructor|]].
    + intros u thu [[<- <-]|[_ H']]%lookup_insert_Some; [|exact (ki_parked _ _ _ HK _ _ H')].
      intros _. left. split; [done|by left].
    + exists thi. by rewrite lookup_insert_ne.
    + intros u thu [[<- <-]|[_ H']]%lookup_insert_Some; [|exact (ki_stack _ _ _ HK _ _ H')].
      by apply (kthread_stack t pid f).
    + exists ({[ t ]} ∪ A). split; [done|]. rewrite dom_insert_L. set_solver.
    + rewrite lookup_insert_ne; [|apply HK]. rewrite /PAGE_OFFSET in Hrg. rewrite /NULL. lia.
  - exists thc. simpl. by rewrite lookup_insert_ne.
  - apply (SM_tasks c _ t (set_state TASK_READY (new_kthread text t pid f)));
      [done|done| |apply HK| |left; split_and!; [done|done|]].
    + intros s Hs. simpl. rewrite lookup_insert_ne; [|done].
      intros <-. by apply runq_not_sem in Hs.
    + intros s. split; [by rewrite /transit Ha|].
      intros Hm. rewrite /holds (brk_next s false); [exact (Hbrk s f Hm)|]. by rewrite andb_false_r.
    + intros s Hm. rewrite /bracketed /holds Ha (brk_next s false); exact (Hbrk s f Hm).
Qed.

Lemma wp_kernel_thread c f : FI c → wp (kernel_thread text f) (λ _ c', FI c') c.
Proof.
  intros HF. pose proof HF as [[HK Hcur] HS].
  destruct (ki_pages _ _ _ HK) as (A & HA & Hdom). destruct (KI0_runq _ _ _ HK) as [l Hl].
  apply wp_bind, wp_zoom. eapply wp_mono; [exact (pages_alloc _ _ HA)|].
  intros v p' [[-> Hp]|([Hrg _] & Hv & Hp)].
  - apply wp_ret. split; [split|by destruct c].
    + destruct HK. split; simpl; try done. by exists A.
    + done.
  - rewrite (proj2 (Z.eqb_neq v NULL)); [rewrite /PAGE_OFFSET in Hrg; rewrite /NULL; lia|].
    apply wp_bind, wp_bind, wp_gets, wp_bind, wp_modify, wp_ret.
    apply wp_bind, wp_modify, wp_bind. set (pid := u32 _).
    apply wp_bind. eapply wp_st_task; [apply lookup_insert_eq|].
    eapply wp_list_add_tail; [exact Hl|]. apply wp_ret.
    pose proof (born_FI c v pid p' f l A HF Hl Hrg Hdom Hv Hp) as H.
    rewrite /born /upd_heads /upd_tasks /= in H |- *. by rewrite insert_insert_eq.
Qed.

Lemma wp_flush_one c t l :
  FI c → heads c !! delq = Some (t :: l) → t ≠ this_task c →
  wp (flush_one t) (λ _ c', FI c' ∧ heads c' !! delq = Some l ∧ this_task c' = this_task c) c.
Proof.
  intros [[HK (thc & Hcur & Hr)] HS] Hl Hne.
  pose proof (qi_nodup _ _ _ (ki_q _ _ _ HK) _ _ Hl) as [Hnl _]%NoDup_cons.
  assert (t ∈ t :: l) as Hin by set_solver.
  apply (qi_mem _ _ _ (ki_q _ _ _ HK) _ _ _ Hl) in Hin as (th & Ht & Hi & Hloc).
  assert (t_state th = TASK_ZOMBIE ∧ t_code th = [] ∧ ∀ s, acquiring s th = false) as (Hz & Hco & Hac).
  { destruct (ki_parked _ _ _ HK _ _ Ht Hne) as [[E _]|[(E & q & Hf)|(E & Hc & Hf)]].
    - by rewrite /loc E in Hloc.
    - exfalso. rewrite /loc E /= in Hloc. destruct (ki_code _ _ _ HK _ _ Ht) as [_ Hfo].
      pose proof (sleeping_waiting sems queues th) as Hw. destruct Hqueues as [_ Hd]. apply Hd.
      rewrite -Hloc. apply Hw; [left; right; left; eauto|apply Hfo|done].
    - split_and!; [done|done|]. intros s. apply bool_decide_eq_false.
      destruct Hf as [->| ->]; set_solver. }
  destruct (ki_pages _ _ _ HK) as (A & HA & Hdom).
  assert (t ∈ A) as HtA by (apply Hdom, elem_of_dom; by exists th).
  assert (t ≠ NULL) as Htn by (intros ->; by rewrite (ki_null _ _ _ HK) in Ht).
  apply wp_bind. eapply wp_ld_task; [exact Ht|]. apply wp_bind, wp_bug_on; [by rewrite Hz|].
  apply wp_bind, wp_list_del; [eapply qi_on_list; [apply HK|exact Ht|done]|].
  apply wp_bind, wp_zoom.
  eapply wp_mono; [exact (pages_free (pages c) A t HA HtA Htn)|].
  intros [] p' Hp. apply wp_modify. split_and!; [split; [split|]|simpl; by rewrite lookup_fmap Hl /= filter_ne_head|done].
  - split; simpl; try apply HK.
    + by apply qi_drop; [apply HK|].
    + rewrite dom_fmap_L. apply HK.
    + intros u thu [_ H]%lookup_delete_Some. exact (ki_code _ _ _ HK _ _ H).
    + intros u thu [_ H]%lookup_delete_Some. exact (ki_parked _ _ _ HK _ _ H).
    + rewrite lookup_delete_ne //. apply HK.
    + intros u thu [_ H]%lookup_delete_Some. exact (ki_stack _ _ _ HK _ _ H).
    + exists (A ∖ {[ t ]}). split; [done|]. rewrite dom_delete_L. set_solver.
    + apply lookup_delete_None. right. apply HK.
  - exists thc. simpl. by rewrite lookup_delete_ne.
  - apply (SM_tasks c _ t th); [done|done| |apply HK| |by right].
    + intros s Hs. simpl. rewrite lookup_fmap. destruct (heads c !! s) as [ls|] eqn:Es; [|done].
      simpl. f_equal. eapply qi_filter_other; [apply HK|exact Ht|exact Es|].
      rewrite Hloc. intros ->. by apply delq_not_sem in Hs.
    + intros s. rewrite /sem_idle /transit /holds Hac Hco. done.
Qed.

Lemma wp_flush_each c l th :
  FI c → heads c !! delq = Some l → tasks c !! this_task c = Some th →
  t_state th = TASK_RUNNING → wp (flush_each l) (λ _ c', FI c') c.
Proof.
  revert c th. induction l as [|t l IH]; intros c th HF Hl Ht Hst; [by apply wp_ret|].
  assert (this_task c ∉ t :: l) as Hn.
  { destruct HF as [[HK _] _]. rewrite (qi_mem _ _ _ (ki_q _ _ _ HK) _ _ _ Hl).
    intros (th0 & Ht0 & _ & Hloc). rewrite Ht in Ht0. injection Ht0 as <-.
    by rewrite /loc Hst in Hloc. }
  apply wp_bind. eapply wp_mono; [eapply wp_flush_one; [exact HF|exact Hl|set_solver]|].
  intros _ c' (HF' & Hl' & Hthis). pose proof HF' as [[_ (th' & Ht' & Hr')] _].
  destruct Hr' as [[Hst' _]|(Hz & _)]; [eapply IH; [exact HF'|exact Hl'|exact Ht'|done]|].
  exfalso. assert (this_task c' ∈ l) as Hin.
  { destruct HF' as [[HK' _] _]. apply (qi_mem _ _ _ (ki_q _ _ _ HK') _ _ _ Hl').
    exists th'. split; [done|]. split; [|by rewrite /loc Hz].
    intros E. destruct (ki_idle _ _ _ HK') as (thi & Hi & [Hs|Hs] & _); rewrite -E Ht' in Hi;
      injection Hi as <-; by rewrite Hz in Hs. }
  rewrite Hthis in Hin. set_solver.
Qed.

Lemma wp_sched_resume c th :
  FI c → tasks c !! this_task c = Some th → t_state th = TASK_RUNNING →
  wp sched_resume (λ _ c', FI c') c.
Proof.
  intros HF Ht Hst. pose proof HF as [[HK _] _]. destruct (KI0_delq _ _ _ HK) as [l Hl].
  apply wp_bind. eapply wp_list_empty; [exact Hl|]. destruct l as [|t l]; [by apply wp_ret|].
  apply wp_bind. eapply wp_ld_head; [exact Hl|]. eapply wp_flush_each; [exact HF|exact Hl|exact Ht|done].
Qed.

(** ** One step of the current task *)

(** The current task returns from one call. *)
Lemma FI_frames c th fs :
  FI c → tasks c !! this_task c = Some th → t_state th = TASK_RUNNING →
  base fs = true → Forall (frame_ok sems queues) fs → (∀ q, fs = [FSleep q] → q ∉ sems) →
  (∀ s, FSemP s ∈ fs ↔ FSemP s ∈ t_frames th) →
  (t_frames th = [] ∨ t_frames th = [FSched] → fs = []) →
  FI (upd_tasks (insert (this_task c) (set_frames fs th)) c).
Proof.
  intros [[HK Hcur] HS] Ht Hst Hb Hok Hq Hsem Hsc. split; [split|].
  - eapply KI0_task; [done|exact Ht| |apply (ki_code _ _ _ HK _ _ Ht)| |done| |exact (ki_stack _ _ _ HK _ _ Ht)].
    + intros _. by rewrite /loc /= Hst.
    + split; [done|]. intros q E. apply Hq. by destruct fs as [|[] ?].
    + intros E. destruct (ki_idle _ _ _ HK) as (thi & Hi & H1 & H2 & H3).
      rewrite -E Ht in Hi. injection Hi as <-. split_and!; [done| |done]. left. simpl.
      by apply Hsc.
  - exists (set_frames fs th). simpl. rewrite lookup_insert_eq. split; [done|]. left.
    split; [done|]. simpl. by destruct fs as [|[] ?].
  - eapply SM_task; [done|exact Ht| |done]. apply sv_le_frames; [|done|done]. done.
Qed.

(** An operation that is not one on a semaphore leaves the code. *)
Lemma FI_code c th o code :
  FI c → tasks c !! this_task c = Some th → t_frames th = [] → t_code th = o :: code →
  (match o with OpP _ | OpV _ | OpExit _ => False | _ => True end) →
  FI (upd_tasks (insert (this_task c) (set_code code th)) c).
Proof.
  intros HF Ht Hf Hc Ho. pose proof (running_own c th HF Ht Hf) as Hst. destruct HF as [HK HS].
  split; [apply kinv_code; [done..|by exists o]|].
  destruct HK as [HK _]. eapply SM_task; [done|exact Ht| |done].
  intros s. rewrite /sv1 /transit /holds /bracketed /holds Hc. 
  change (acquiring s (set_code code th)) with (acquiring s th).
  split; [by right|]. intros _. by destruct o.
Qed.

(** Entering [sem_P]. *)
Lemma FI_sem_P c th s code :
  FI c → tasks c !! this_task c = Some th → t_frames th = [] → t_code th = OpP s :: code →
  s ∈ sems → this_task c ≠ idle_task c →
  FI (upd_tasks (insert (this_task c) (set_frames [FSemP s] (set_code code th))) c).
Proof.
  intros HF Ht Hf Hc Hs Hi. pose proof (running_own c th HF Ht Hf) as Hst.
  destruct HF as [HK HS]. pose proof (kinv_code c th code HK Ht Hst) as [HK1 _]; [by exists (OpP s)|].
  destruct HK as [HK _]. split; [split|].
  - rewrite -(upd_tasks_twice c _ _ (set_code code th)).
    eapply KI0_task; [done|apply lookup_insert_eq|intros _; by rewrite /loc /= Hst| | |done|done|exact (ki_stack _ _ _ HK _ _ Ht)].
    + apply (ki_code _ _ _ HK1 (this_task c) (set_code code th)). apply lookup_insert_eq.
    + split; [by constructor|done].
  - eexists. simpl. rewrite lookup_insert_eq. split; [done|by left].
  - eapply SM_task; [done|exact Ht| |done]. intros s'.
    assert (acquiring s' th = false) as Ha by (apply bool_decide_eq_false; rewrite Hf; set_solver).
    set (th' := set_frames [FSemP s] _).
    assert (acquiring s' th' = (s =? s')) as Ha'.
    { rewrite /acquiring. destruct (Z.eqb_spec s s') as [->|Hne].
      - apply bool_decide_eq_true. set_solver.
      - apply bool_decide_eq_false. simpl. rewrite list_elem_of_singleton. congruence. }
    rewrite /sv1 /transit /holds /bracketed /holds Ha Ha' Hc /=. split; [by right|]. intros Hm.
    destruct (s =? s'); [done|]. done.
Qed.

Lemma not_idle c th o code :
  FI c → tasks c !! this_task c = Some th → t_code th = o :: code → nonblocking o = false →
  this_task c ≠ idle_task c.
Proof.
  intros [[HK _] _] Ht Hc Ho E. destruct (ki_idle _ _ _ HK) as (thi & Hi & _ & _ & H3).
  rewrite -E Ht in Hi. injection Hi as <-. rewrite Hc in H3.
  apply Forall_cons in H3 as [H3 _]. by rewrite Ho in H3.
Qed.

Lemma FI_FY c th :
  FI c → tasks c !! this_task c = Some th → t_frames th = [] ∨ t_frames th = [FExit] → FY c.
Proof.
  intros [[HK (th0 & Ht0 & Hr)] HS] Ht Hf. rewrite Ht in Ht0. injection Ht0 as <-.
  split; [|done]. split; [done|]. exists th. split; [done|]. destruct Hr as [[H1 H2]|(H1 & H2 & H3)].
  - left. split; [done|]. destruct Hf as [E|E]; rewrite E in H2 |- *; done.
  - right; right. auto.
Qed.

Lemma wp_start c th o code :
  FI c → tasks c !! this_task c = Some th → t_frames th = [] → t_code th = o :: code →
  wp (start text o) (λ _ c', FI c') (upd_tasks (insert (this_task c) (set_code code th)) c).
Proof.
  intros HF Ht Hf Hc. pose proof (FI_code c th o code HF Ht Hf Hc) as HF1.
  assert (op_ok sems queues o) as Hok.
  { destruct HF as [[HK _] _]. destruct (ki_code _ _ _ HK _ _ Ht) as [H _]. rewrite Hc in H.
    by apply Forall_cons in H as [? _]. }
  set (c1 := upd_tasks _ c) in *.
  assert (tasks c1 !! this_task c1 = Some (set_code code th)) as Ht1 by apply lookup_insert_eq.
  destruct o; simpl in Hok |- *.
  - pose proof (not_idle c th _ _ HF Ht Hc eq_refl) as Hi.
    apply wp_bind, wp_bind, wp_gets. eapply wp_st_task; [exact Ht1|]. rewrite /c1 upd_tasks_twice.
    rewrite /= Hf. pose proof (FI_sem_P c th sem code HF Ht Hf Hc Hok Hi) as HF2.
    eapply wp_sem_P_loop; [exact HF2|apply lookup_insert_eq|done|done|done].
  - by apply wp_sem_V.
  - destruct Hok as [Hq Hns]. specialize (HF1 I). destruct HF1 as [[HK1 _] HS1].
    eapply wp_sleep_on; [done|exact Ht1| |done|left; done|done].
    exact (not_idle c th _ _ HF Ht Hc eq_refl).
  - eapply wp_mono; [apply wp_wake_up; [by apply HF1|done]|]. by intros v c' [? _].
  - apply wp_bind. eapply wp_mono; [apply wp_kernel_thread; by apply HF1|]. intros v c' H. by apply wp_ret.
  - apply wp_sched_FI. eapply FI_FY; [by apply HF1|exact Ht1|by left].
  - eapply wp_do_exit; [done|done|done|exact Hc|exact (not_idle c th _ _ HF Ht Hc eq_refl)].
Qed.

(** The zombie has run to its last call of [sched]. *)
Lemma FY_exit c th :
  FI c → tasks c !! this_task c = Some th → t_frames th = [FExit] →
  FY (upd_tasks (insert (this_task c) (set_frames [FPanic] th)) c).
Proof.
  intros [[HK (th0 & Ht0 & Hr)] HS] Ht Hf. rewrite Ht in Ht0. injection Ht0 as <-.
  destruct Hr as [[_ H]|(Hz & Hc & _)]; [by rewrite Hf in H|].
  split; [split|].
  - eapply KI0_task; [done|exact Ht|intros _; by rewrite /loc /= Hz|rewrite /= Hc; constructor| |done| |
      exact (ki_stack _ _ _ HK _ _ Ht)].
    + split; [repeat constructor|done].
    + intros E. destruct (ki_idle _ _ _ HK) as (thi & Hi & [H|H] & _); rewrite -E Ht in Hi;
        injection Hi as <-; by rewrite Hz in H.
  - eexists. simpl. rewrite lookup_insert_eq. split; [done|]. right; right. auto.
  - eapply SM_task; [done|exact Ht| |done]. apply sv_le_frames; [|done|done].
    intros s. rewrite Hf /=. set_solver.
Qed.

(** [exec_current] returns and keeps every invariant: no [BUG_ON] of the
    scheduler fires, no [panic] is reached, no list operation faults. *)
Lemma wp_exec_current c : FI c → wp (exec_current text) (λ _ c', FI c') c.
Proof.
  intros HF. pose proof HF as [[HK (th & Ht & Hr)] _].
  destruct (ki_code _ _ _ HK _ _ Ht) as [_ [Hfo Hfo2]].
  apply wp_bind, wp_gets, wp_bind. eapply wp_ld_task; [exact Ht|].
  destruct (t_frames th) as [|f fs] eqn:Ef.
  { destruct (t_code th) as [|o code] eqn:Eo; [by apply wp_ret|].
    apply wp_bind. eapply wp_st_task; [exact Ht|]. by apply wp_start. }
  apply Forall_cons in Hfo as [Hf1 Hfo].
  assert (∀ (Q : unit → kconf → Prop),
    Q tt (upd_tasks (insert (this_task c) (set_frames fs th)) c) → wp pop_frame Q c) as Hpop.
  { intros Q HQ. apply wp_bind, wp_gets. eapply wp_st_task; [exact Ht|]. by rewrite Ef. }
  destruct Hr as [[Hst Hb]|(Hz & Hc & Hfe)].
  - rewrite Ef in Hb.
    assert (f = FSched ∨ (∃ q, f = FSleep q) → FI (upd_tasks (insert (this_task c) (set_frames fs th)) c)) as Hret.
    { intros Hor. eapply FI_frames; [done|done|done| |done| | |].
      - destruct Hor as [->|(q & ->)]; [done|]. by destruct fs as [|[] [|]].
      - destruct Hor as [->|(q & ->)]; [exact Hfo2|]. by destruct fs as [|[] [|]].
      - intros s. rewrite Ef elem_of_cons. destruct Hor as [->|(q & ->)]; naive_solver.
      - rewrite Ef. by intros [?|[= -> ->]]. }
    destruct f; simpl in Hb |- *; try done.
    + apply wp_bind, Hpop. eapply wp_sched_resume; [apply Hret; by left|apply lookup_insert_eq|done].
    + apply Hpop, Hret. eauto.
    + destruct fs; [|done]. eapply wp_sem_P_loop; [done|exact Ht|done|done|].
      intros E. destruct (ki_idle _ _ _ HK) as (thi & Hi & _ & Hfi & _).
      rewrite -E Ht in Hi. injection Hi as <-. rewrite Ef in Hfi. by destruct Hfi.
  - rewrite Ef in Hfe. injection Hfe as -> ->. simpl.
    apply wp_bind, Hpop. cbv beta. apply wp_bind. apply wp_bind, wp_gets.
    eapply wp_st_task; [apply lookup_insert_eq|]. rewrite upd_tasks_twice.
    apply wp_sched_FI. exact (FY_exit c th HF Ht Ef).
Qed.

(** ** Steps of the machine *)

Lemma set_esp_FI c th esp :
  FI c → tasks c !! this_task c = Some th → stack_fits (this_task c) (set_esp esp th) →
  FI (upd_tasks (insert (this_task c) (set_esp esp th)) c).
Proof.
  intros [[HK (th0 & Ht0 & Hr)] HS] Ht Hfit. rewrite Ht in Ht0. injection Ht0 as <-.
  destruct (ki_code _ _ _ HK _ _ Ht) as [Hc Hf]. split; [split|].
  - eapply KI0_task; [done|exact Ht|done|done|done|done| |done].
    intros E. destruct (ki_idle _ _ _ HK) as (thi & Hi & H). rewrite -E Ht in Hi.
    by injection Hi as <-.
  - exists (set_esp esp th). simpl. by rewrite lookup_insert_eq.
  - eapply SM_task; [done|exact Ht| |done]. by apply sv_le_frames.
Qed.

Lemma wp_irq_handler c th qs :
  FI c → tasks c !! this_task c = Some th → irqs_enabled (t_frames th) = true →
  Forall (λ q, q ∈ queues) qs → wp (irq_handler qs) (λ _ c', FI c') c.
Proof.
  intros HF Ht Hirq Hqs. apply wp_bind.
  assert (∀ c, FI c → wp (foldr (λ q m, do! wake_up q then m) (ret tt) qs)
    (λ _ c', FI c' ∧ same_cur c c') c) as Hw.
  { induction Hqs as [|q qs Hq _ IH]; intros c0 HF0; simpl; [by apply wp_ret|].
    apply wp_bind. eapply wp_mono; [by apply wp_wake_up|]. intros v c1 [HF1 [E1 E2]].
    eapply wp_mono; [by apply IH|]. intros v' c2 [HF2 [E3 E4]]. split; [done|].
    rewrite /same_cur. rewrite E1 in E3, E4. by rewrite E3 E4 E2. }
  eapply wp_mono; [by apply Hw|]. intros v c1 [HF1 [E1 E2]]. apply wp_sched_FI.
  eapply FI_FY; [done|rewrite E1 E2; exact Ht|].
  destruct HF as [[_ (th0 & Ht0 & Hr)] _]. rewrite Ht in Ht0. injection Ht0 as <-.
  destruct (t_frames th) as [|[] fs] eqn:Ef; try done; [by left|right].
  destruct Hr as [[_ Hb]|(_ & _ & Hfe)]; [by rewrite Ef in Hb|congruence].
Qed.

Lemma kstep_FI c c' : FI c → kstep text queues c c' → FI c'.
Proof.
  intros HF Hs. destruct Hs as [c c' esp th Ht Hfit Hrun|c c' qs th Ht Hirq Hqs Hrun].
  - pose proof (wp_exec_current _ (set_esp_FI _ _ _ HF Ht Hfit)) as Hw.
    by rewrite /wp Hrun in Hw.
  - pose proof (wp_irq_handler _ th qs HF Ht Hirq Hqs) as Hw. by rewrite /wp Hrun in Hw.
Qed.

Lemma reachable_FI c c' : FI c → rtc (kstep text queues) c c' → FI c'.
Proof. intros HF. induction 1; [done|]. eauto using kstep_FI. Qed.
End ops.
