(* ===== verification/SchedProps.v ===== *)
(** * Scheduler and semaphores: what holds of every reachable state

    The machine is started in the state of the idle task after [sched_init];
    the theorems hold of every state it reaches, whatever the tasks do between
    their calls and whenever interrupts come. *)
From S2P Require Import Prelude Regs PageAlloc Sched SchedInv SchedOps.

(** The idle task with the code it has left to run, empty queues, the initial
    values of the semaphores. *)
Definition boot {P} (queues : gset Z) (idle : Z) (code : list op) (vs : gmap Z Z) (p : P) : kconf :=
  mk_kconf {[ idle := mk_task TASK_RUNNING __KERNEL_CS (u32 (idle + PAGE_SIZE)) 0 0 [] code ]}
    (gset_to_gmap [] (queues ∪ {[ runq; delq ]})) vs idle idle 0 p.

Section props.
Context {P : Type} `{!PageOps P, !PageSpec P} (text : Z → list op)
  (queues mutexes : gset Z) (vs : gmap Z Z) (idle : Z) (code : list op) (p : P).

(** What the source guarantees of the code it runs: only initialised
    semaphores and wait queues are used; the idle task does not sleep; the mutexes
    are initialised to one and every thread function uses them in brackets. *)
Record code_ok : Prop := {
  co_text f : Forall (op_ok (dom vs) queues) (text f);
  co_sems : dom vs ⊆ queues;
  co_queues : runq ∉ queues ∧ delq ∉ queues;
  co_vals s v : vs !! s = Some v → - 2 ^ 31 ≤ v < 2 ^ 31;
  co_mutexes s : s ∈ mutexes → vs !! s = Some 1;
  co_brk s f : s ∈ mutexes → brk s false (text f) = true;
  co_idle : Forall (λ o, nonblocking o = true) code ∧ Forall (op_ok (dom vs) queues) code;
  co_idle_brk s : s ∈ mutexes → brk s false code = true;
  co_page : PAGE_OFFSET ≤ idle < 2 ^ 32 - PAGE_SIZE;
  co_own : ∃ A, pages_own p A ∧ idle ∈ A
}.

Hypothesis Hok : code_ok.

Lemma boot_QI :
  QI (tasks (boot queues idle code vs p)) (heads (boot queues idle code vs p)) idle.
Proof.
  split; simpl.
  - intros h l [_ <-]%lookup_gset_to_gmap_Some. constructor.
  - intros h l t [_ <-]%lookup_gset_to_gmap_Some. rewrite elem_of_nil.
    split; [done|]. intros (th & [<- _]%lookup_singleton_Some & ? & _). done.
  - intros t th [<- _]%lookup_singleton_Some ?. done.
Qed.

Lemma boot_FI : FI (dom vs) queues mutexes (boot queues idle code vs p).
Proof.
  destruct Hok as [Ht Hs Hq Hv Hm Hb [Hi1 Hi2] Hi3 Hp (A & HA & HiA)]. split; [split|].
  - split; simpl.
    + apply boot_QI.
    + done.
    + by rewrite dom_gset_to_gmap.
    + intros t th [<- <-]%lookup_singleton_Some. split; [done|]. by split; [constructor|].
    + intros t th [<- <-]%lookup_singleton_Some. done.
    + eexists. rewrite lookup_singleton_eq. split; [done|]. split_and!; [by right|by left|done].
    + intros t th [<- <-]%lookup_singleton_Some. right. simpl.
      rewrite /PAGE_OFFSET /PAGE_SIZE in Hp |- *. rewrite /sizeof_task !u32_id; lia.
    + exists A. split; [done|]. rewrite dom_singleton_L. clear -HiA. set_solver.
    + apply lookup_singleton_None. rewrite /PAGE_OFFSET in Hp. rewrite /NULL. lia.
  - eexists. simpl. rewrite lookup_singleton_eq. split; [done|by left].
  - intros s. split.
    + intros v l Hsv [_ <-]%lookup_gset_to_gmap_Some. split; [exact (Hv s v Hsv)|done].
    + intros Hsm. rewrite /MI /=.
      assert (∀ th0 : task, t_frames th0 = [] → acquiring s th0 = false) as Ha.
      { intros th0 E. apply bool_decide_eq_false. rewrite E. clear. set_solver. }
      pose proof (brk_next _ _ _ (Hi3 s Hsm)) as Hn. split.
      * exists 1. split_and!; [by apply Hm|done|]. rewrite -insert_empty cntm_insert //.
        by rewrite /holds Ha //= Hn.
      * intros t th [<- <-]%lookup_singleton_Some. rewrite /bracketed /holds Ha //= Hn. by apply Hi3.
Qed.

Lemma run_FI c :
  rtc (kstep text queues) (boot queues idle code vs p) c → FI (dom vs) queues mutexes c.
Proof.
  pose proof boot_FI as HF. destruct Hok.
  assert (mutexes ⊆ dom vs) as Hms.
  { intros s Hs. apply elem_of_dom. exists 1. by apply co_mutexes0. }
  intros Hr. eapply (reachable_FI text (dom vs) queues mutexes); [done..|exact HF|exact Hr].
Qed.

(** C3: Safety of the kernel's synchronisation core. In every state reached
    from boot the current task's next call, on any stack that has not
    overflowed, runs to its return or to a task switch; and where interrupts are
    enabled the handling of one, whichever wait queues it wakes, does too. The
    BUG_ON checks of the scheduler, the panic after [do_exit] and every
    list operation on a task's links are never hit. *)
Theorem kernel_never_stops c :
  rtc (kstep text queues) (boot queues idle code vs p) c →
  ∃ th, tasks c !! this_task c = Some th ∧
    (∀ esp, stack_fits (this_task c) (set_esp esp th) →
       ∃ c', exec_current text (upd_tasks (insert (this_task c) (set_esp esp th)) c) = Ret (tt, c')) ∧
    (irqs_enabled (t_frames th) = true → ∀ qs, Forall (λ q, q ∈ queues) qs →
       ∃ c', irq_handler qs c = Ret (tt, c')).
Proof.
  intros Hr. pose proof (run_FI c Hr) as HF. pose proof HF as [[_ (th & Ht & _)] _]. destruct Hok.
  assert (mutexes ⊆ dom vs) as Hms.
  { intros s Hs. apply elem_of_dom. exists 1. by apply co_mutexes0. }
  exists th. split; [done|]. split.
  - intros esp Hfit. pose proof (set_esp_FI text (dom vs) queues mutexes co_text0 co_sems0 co_queues0 Hms co_brk0 c th esp HF Ht Hfit) as HF1.
    destruct (wp_elim _ _ _ (wp_exec_current text (dom vs) queues mutexes co_text0 co_sems0
      co_queues0 Hms co_brk0 _ HF1)) as ([] & c' & E & _). by exists c'.
  - intros Hirq qs Hqs.
    destruct (wp_elim _ _ _ (wp_irq_handler text (dom vs) queues mutexes co_text0 co_sems0 co_queues0 Hms co_brk0 c th qs HF Ht Hirq Hqs)) as ([] & c' & E & _). by exists c'.
Qed.

(** C4: No wake-up is lost. In every state reached from boot, if tasks wait
    on a semaphore whose counter is positive, then some task is inside
    [sem_P] on it, awake and on the run queue, so it will test the counter. *)
Theorem no_lost_wakeup c s v l rl :
  rtc (kstep text queues) (boot queues idle code vs p) c →
  vals c !! s = Some v → heads c !! s = Some l → heads c !! runq = Some rl →
  l ≠ [] → 0 < v →
  ∃ t th, tasks c !! t = Some th ∧ t ∈ rl ∧ FSemP s ∈ t_frames th ∧
    t_state th ≠ TASK_SLEEPING.
Proof.
  intros Hr Hv Hl Hrl Hne Hpos. destruct (run_FI c Hr) as [[HK Hcur] HS].
  destruct (HS s) as [HSI _]. destruct (HSI v l Hv Hl) as [_ Hle]. specialize (Hle Hne).
  destruct (cntm_pos (transit s) (tasks c)) as (t & th & Ht & Htr); [lia|].
  apply andb_true_iff in Htr as [Hin%bool_decide_eq_true Hst%negb_true_iff%Z.eqb_neq].
  exists t, th. split_and!; [done| |done|done].
  apply (qi_mem _ _ _ (ki_q _ _ _ HK) _ _ _ Hrl). exists th. split; [done|]. split.
  - intros ->. destruct (ki_idle _ _ _ HK) as (thi & Hi & _ & Hf & _). rewrite Ht in Hi.
    injection Hi as <-. destruct Hf as [Hf|Hf]; rewrite Hf in Hin; clear -Hin; set_solver.
  - rewrite /loc. destruct (Z.eqb_spec (t_state th) TASK_ZOMBIE) as [Hz|].
    2: by destruct (Z.eqb_spec (t_state th) TASK_SLEEPING).
    exfalso. assert (t_frames th = [FExit] ∨ t_frames th = [FSched; FExit] ∨
      t_frames th = [FSched; FPanic]) as Hf.
    { destruct (decide (t = this_task c)) as [->|Hn].
      - destruct Hcur as (th0 & Ht0 & [[E _]|(_ & _ & E)]); rewrite Ht in Ht0;
          injection Ht0 as <-; [by rewrite Hz in E|by left].
      - right. destruct (ki_parked _ _ _ HK _ _ Ht Hn) as [[E _]|[[E _]|(_ & _ & E)]]; [..|done];
          by rewrite Hz in E. }
    destruct Hf as [Hf|[Hf|Hf]]; rewrite Hf in Hin; clear -Hin; set_solver.
Qed.

(** C5: Mutual exclusion. A semaphore that is initialised to one and that
    all code uses in brackets (the memory, page, inode, superblock and device
    semaphores) is held by at most one task in every state reached from
    boot, its counter being one exactly when no task holds it. *)
Theorem mutual_exclusion c s t t' th th' :
  rtc (kstep text queues) (boot queues idle code vs p) c → s ∈ mutexes →
  tasks c !! t = Some th → tasks c !! t' = Some th' →
  holds s th = true → holds s th' = true → t = t' ∧ vals c !! s = Some 0.
Proof.
  intros Hr Hs Ht Ht' Hh Hh'. destruct (run_FI c Hr) as [_ HS].
  destruct (HS s) as [_ HM]. destruct (HM Hs) as [(v & Hv & H0 & H1) _].
  pose proof (cntm_delete (holds s) _ _ _ Ht) as Hd. rewrite Hh /= in Hd.
  destruct (decide (t = t')) as [<-|Hne].
  - split; [done|]. rewrite Hv. f_equal. lia.
  - pose proof (cntm_two (holds s) _ _ _ _ _ Ht Ht' Hne Hh Hh'). lia.
Qed.

(** Round robin. A call of [sched] by a task that does not block puts it
    behind every other ready task and hands the processor to the task that has waited longest:
    with the current task at the front of the run queue, the queue is rotated
    by one and its new first element becomes current; with nothing ready the
    idle task does. *)
Theorem sched_round_robin c l :
  KY (dom vs) queues c → heads c !! runq = Some l →
  ∃ c', sched c = Ret (tt, c') ∧
    heads c' !! runq = Some (rotated (this_task c) l) ∧
    this_task c' = default (idle_task c) (head (rotated (this_task c) l)) ∧
    (∀ t i, t ≠ this_task c → head l = Some (this_task c) → l !! S i = Some t →
       rotated (this_task c) l !! i = Some t).
Proof.
  intros HY Hl. destruct Hok.
  destruct (wp_elim _ _ _ (wp_sched (dom vs) queues co_sems0 co_queues0 c HY))
    as ([] & c' & E & _ & _ & H). destruct (H l Hl) as [H1 H2].
  exists c'. split_and!; [done|done|done|]. intros t i _ Hh Hi. rewrite /rotated decide_True //.
  destruct l as [|x l]; [done|]. simpl in *. by apply lookup_app_l_Some.
Qed.
End props.

(** ** Concrete runs *)

(** Running the current task [n] times, its stack pointer where it was. *)
Fixpoint run_steps {P} `{!PageOps P} (text : Z → list op) (n : nat) (c : @kconf P) : option kconf :=
  match n with
  | O => Some c
  | S n =>
    match tasks c !! this_task c with
    | Some th =>
      if bool_decide (stack_fits (this_task c) th) then
        match exec_current text (upd_tasks (insert (this_task c) (set_esp (t_esp th) th)) c) with
        | Ret (_, c') => run_steps text n c'
        | _ => None
        end
      else None
    | None => None
    end
  end.

Lemma run_steps_rtc {P} `{!PageOps P} text queues n (c c' : @kconf P) :
  run_steps text n c = Some c' → rtc (kstep text queues) c c'.
Proof.
  revert c. induction n as [|n IH]; simpl; intros c H; [by injection H as ->; apply rtc_refl|].
  destruct (tasks c !! this_task c) as [th|] eqn:Et; [|done].
  destruct (bool_decide_reflect (stack_fits (this_task c) th)) as [Hfit|]; [|done].
  destruct (exec_current _ _) as [[[] c1]| | | |] eqn:Ex; try done.
  eapply rtc_l; [|exact (IH c1 H)]. eapply ks_run; [exact Et| |exact Ex]. exact Hfit.
Qed.

(** Three threads and one mutex: the first takes it, the two others wait, the
    first gives it back. *)
Definition ex_sem : Z := 0xc0110000.
Definition ex_text (f : Z) : list op :=
  if f =? 1 then [OpP ex_sem; OpSched; OpV ex_sem; OpExit 0]
  else [OpP ex_sem; OpV ex_sem; OpExit 0].
Definition ex_vs : gmap Z Z := {[ ex_sem := 1 ]}.
Definition ex_idle : Z := 0xc0200000.
Definition ex_code : list op := [OpKthread 1; OpKthread 2; OpKthread 2; OpSched].
Definition ex_pool : pool := [0xc0300000; 0xc0301000; 0xc0302000].
Definition ex_boot : kconf := boot {[ ex_sem ]} ex_idle ex_code ex_vs ex_pool.
Definition ex_run (n : nat) : kconf := default ex_boot (run_steps ex_text n ex_boot).

Lemma ex_ok : code_ok ex_text {[ ex_sem ]} {[ ex_sem ]} ex_vs ex_idle ex_code ex_pool.
Proof.
  split.
  - intros f. rewrite /ex_text. destruct (f =? 1); repeat constructor; decide_closed.
  - decide_closed.
  - split; decide_closed.
  - intros s v. rewrite /ex_vs. intros [<- <-]%lookup_singleton_Some. lia.
  - intros s ->%elem_of_singleton. decide_closed.
  - intros s f ->%elem_of_singleton. rewrite /ex_text. by destruct (f =? 1).
  - split; repeat constructor.
  - intros s ->%elem_of_singleton. done.
  - rewrite /PAGE_OFFSET /ex_idle /PAGE_SIZE. lia.
  - exists {[ ex_idle ]}. split; [|by apply elem_of_singleton]. split_and!; [decide_closed| |].
    + intros v Hv. rewrite /ex_pool !elem_of_cons elem_of_nil in Hv.
      destruct Hv as [->|[->|[->|[]]]]; (split; [by vm_compute|
        decide_closed]).
    + intros v ->%elem_of_singleton. by vm_compute.
Qed.

Lemma ex_reach n :
  match run_steps ex_text n ex_boot with Some _ => true | None => false end = true →
  rtc (kstep ex_text {[ ex_sem ]}) ex_boot (ex_run n).
Proof.
  rewrite /ex_run. destruct (run_steps ex_text n ex_boot) as [c|] eqn:E; [|done].
  intros _. eapply run_steps_rtc. exact E.
Qed.

(** The third thread, before its first call: it may run, or be interrupted by
    a handler that wakes the queue of the semaphore. *)
Lemma kernel_never_stops_witness :
  (∃ c', exec_current ex_text (ex_run 7) = Ret (tt, c')) ∧ ∃ c', irq_handler [ex_sem] (ex_run 7) = Ret (tt, c').
Proof.
  destruct (kernel_never_stops ex_text {[ ex_sem ]} {[ ex_sem ]} ex_vs ex_idle ex_code ex_pool ex_ok (ex_run 7))
    as (th & Ht & Hrun & Hirq).
  - apply (ex_reach 7). vm_compute. reflexivity.
  - vm_compute in Ht. injection Ht as <-. split.
    + destruct (Hrun 3224383476) as [c' E]; [decide_closed|]. exists c'. rewrite -E. vm_compute. reflexivity.
    + apply Hirq; [vm_compute; reflexivity|]. constructor; [by apply elem_of_singleton|constructor].
Defined.

Lemma no_lost_wakeup_witness : ∃ t th, tasks (ex_run 10) !! t = Some th ∧
  t ∈ [0xc0300000; 0xc0301000] ∧ FSemP ex_sem ∈ t_frames th ∧ t_state th ≠ TASK_SLEEPING.
Proof.
  apply (no_lost_wakeup ex_text {[ ex_sem ]} {[ ex_sem ]} ex_vs ex_idle ex_code ex_pool ex_ok
    (ex_run 10) ex_sem 1 [0xc0302000] [0xc0300000; 0xc0301000]).
  - apply (ex_reach 10). vm_compute. reflexivity.
  - vm_compute. reflexivity.
  - vm_compute. reflexivity.
  - vm_compute. reflexivity.
  - done.
  - lia.
Defined.

Definition ex_task (n : nat) (t : Z) : task :=
  default (mk_task 0 0 0 0 0 [] []) (tasks (ex_run n) !! t).

Lemma mutual_exclusion_witness :
  0xc0300000 = 0xc0300000 ∧ vals (ex_run 8) !! ex_sem = Some 0.
Proof.
  apply (mutual_exclusion ex_text {[ ex_sem ]} {[ ex_sem ]} ex_vs ex_idle ex_code ex_pool ex_ok
    (ex_run 8) ex_sem 0xc0300000 0xc0300000 (ex_task 8 0xc0300000) (ex_task 8 0xc0300000)).
  - apply (ex_reach 8). vm_compute. reflexivity.
  - by apply elem_of_singleton.
  - vm_compute. reflexivity.
  - vm_compute. reflexivity.
  - vm_compute. reflexivity.
  - vm_compute. reflexivity.
Defined.

Lemma ex_KY : KY (dom ex_vs) {[ ex_sem ]} (ex_run 5).
Proof.
  eapply (FI_FY (dom ex_vs) {[ ex_sem ]} {[ ex_sem ]} (ex_run 5) (ex_task 5 0xc0300000)).
  - eapply (run_FI ex_text); [exact ex_ok|]. apply (ex_reach 5). vm_compute. reflexivity.
  - vm_compute. reflexivity.
  - left. vm_compute. reflexivity.
Qed.

Lemma sched_round_robin_witness : ∃ c', sched (ex_run 5) = Ret (tt, c') ∧
  heads c' !! runq = Some (rotated 0xc0300000 [0xc0300000; 0xc0301000; 0xc0302000]) ∧
  this_task c' = 0xc0301000.
Proof.
  destruct (sched_round_robin ex_text {[ ex_sem ]} {[ ex_sem ]} ex_vs ex_idle ex_code ex_pool ex_ok
    (ex_run 5) [0xc0300000; 0xc0301000; 0xc0302000] ex_KY) as (c' & H1 & H2 & H3 & _).
  - vm_compute. reflexivity.
  - exists c'. split; [exact H1|]. split; [exact H2|]. rewrite H3. vm_compute. reflexivity.
Defined.
