(* ===== verification/Kmem.v ===== *)
(** * Kernel memory and the string library ([kernel/string.c])

    Memory is a store of bytes indexed by address; an access outside the store
    is a fault.  The routines are the loops of the source; each is related to a
    function on byte sequences. *)
From S2P Require Import Prelude.

Abbreviation mem := (gmap Z Z).
Abbreviation Mem := (M mem).

Definition ld8 (a : Z) : Mem Z := let! m := get in deref (m !! a).
Definition st8 (a v : Z) : Mem unit :=
  let! m := get in
  match m !! a with Some _ => modify (insert a (u8 v)) | None => fault end.

(** A byte read as a [char], which is signed on this target. *)
Definition ldc (a : Z) : Mem Z := let! v := ld8 a in ret (s8 v).

(** 32-bit words, least significant byte first. *)
Definition ld32 (a : Z) : Mem Z :=
  let! b0 := ld8 a in let! b1 := ld8 (a + 1) in
  let! b2 := ld8 (a + 2) in let! b3 := ld8 (a + 3) in
  ret (b0 + 2 ^ 8 * b1 + 2 ^ 16 * b2 + 2 ^ 24 * b3).
Definition st32 (a v : Z) : Mem unit :=
  do! st8 a v then do! st8 (a + 1) (Z.shiftr v 8) then
  do! st8 (a + 2) (Z.shiftr v 16) then st8 (a + 3) (Z.shiftr v 24).

(** ** The loops *)

Fixpoint memset (dst c : Z) (n : nat) : Mem unit :=
  match n with
  | O => ret tt
  | S n => do! st8 dst c then memset (dst + 1) c n
  end.

Fixpoint memcpy (dst src : Z) (n : nat) : Mem unit :=
  match n with
  | O => ret tt
  | S n => let! v := ld8 src in do! st8 dst v then memcpy (dst + 1) (src + 1) n
  end.

Fixpoint memcmp (s1 s2 : Z) (n : nat) : Mem Z :=
  match n with
  | O => ret 0
  | S n =>
    let! a := ld8 s1 in let! b := ld8 s2 in
    if negb (a - b =? 0) then ret (a - b) else memcmp (s1 + 1) (s2 + 1) n
  end.

Fixpoint strlen_from (fuel : nat) (s r : Z) : Mem Z :=
  match fuel with
  | O => nofuel
  | S fuel => let! v := ld8 s in if v =? 0 then ret r else strlen_from fuel (s + 1) (u32 (r + 1))
  end.
Definition strlen (fuel : nat) (s : Z) : Mem Z := strlen_from fuel s 0.

(** [for (sc = s; count-- && *sc != 0; ++sc)] *)
Fixpoint strnlen_from (fuel : nat) (s sc count : Z) : Mem Z :=
  match fuel with
  | O => nofuel
  | S fuel =>
    if count =? 0 then ret (u32 (sc - s)) else
    let! v := ld8 sc in
    if v =? 0 then ret (u32 (sc - s)) else strnlen_from fuel s (sc + 1) (count - 1)
  end.
Definition strnlen (fuel : nat) (s count : Z) : Mem Z := strnlen_from fuel s s count.

Fixpoint strcmp (fuel : nat) (cs ct : Z) : Mem Z :=
  match fuel with
  | O => nofuel
  | S fuel =>
    let! a := ldc cs in let! b := ldc ct in
    let res := s8 (a - b) in
    if negb (res =? 0) then ret res
    else if a =? 0 then ret res
    else strcmp fuel (cs + 1) (ct + 1)
  end.

(** [c] is an [int]. *)
Fixpoint strchr (fuel : nat) (str c : Z) : Mem Z :=
  match fuel with
  | O => nofuel
  | S fuel =>
    let! v := ldc str in
    if v =? 0 then ret NULL
    else if c =? v then ret str
    else strchr fuel (str + 1) c
  end.

(** [itoa]: the digits, least significant first, then the reversal. *)
Fixpoint itoa_digits (fuel : nat) (p ud divisor : Z) : Mem Z :=
  match fuel with
  | O => nofuel
  | S fuel =>
    let r := ud mod divisor in
    do! st8 p (if r <? 10 then r + 48 else r + 97 - 10) then
    if ud / divisor =? 0 then ret (p + 1) else itoa_digits fuel (p + 1) (ud / divisor) divisor
  end.
Fixpoint itoa_reverse (fuel : nat) (p1 p2 : Z) : Mem unit :=
  match fuel with
  | O => nofuel
  | S fuel =>
    if p1 <? p2 then
      let! tmp := ld8 p1 in
      let! b := ld8 p2 in
      do! st8 p1 b then
      do! st8 p2 tmp then
      itoa_reverse fuel (p1 + 1) (p2 - 1)
    else ret tt
  end.
(** The digits of a 32-bit number: at most 32. *)
Definition itoa (buf base d : Z) : Mem unit :=
  let neg := (base =? 100) && (d <? 0) in
  let divisor := if negb neg && (base =? 120) then 16 else 10 in
  let ud := if neg then u32 (- d) else u32 d in
  do! when neg (st8 buf 45) then
  let buf := if neg then buf + 1 else buf in
  let! p := itoa_digits 33 buf ud divisor in
  do! st8 p 0 then
  itoa_reverse 33 buf (p - 1).

(** ** Byte sequences in memory *)

Fixpoint bytes (m : mem) (a : Z) (l : list Z) : Prop :=
  match l with
  | [] => True
  | b :: l => m !! a = Some b ∧ bytes m (a + 1) l
  end.

(** [n] bytes from [a] are in the store. *)
Definition owned (m : mem) (a : Z) (n : nat) : Prop :=
  ∀ b, a ≤ b < a + Z.of_nat n → is_Some (m !! b).

(** A NUL-terminated string. *)
Definition cstr (m : mem) (a : Z) (l : list Z) : Prop :=
  bytes m a (l ++ [0]) ∧ Forall (λ b, 0 < b < 256) l.

Definition fill (a c : Z) (n : nat) (m : mem) : mem :=
  list_to_map ((λ i, (a + i, u8 c)) <$> seqZ 0 (Z.of_nat n)) ∪ m.

Section lemmas.
Implicit Types (m : mem) (a b v : Z) (l : list Z) (n : nat).

Lemma wp_ld8 a v (Q : Z → mem → Prop) m : m !! a = Some v → Q v m → wp (ld8 a) Q m.
Proof. intros H HQ. apply wp_bind. rewrite /wp /= H. done. Qed.
Lemma wp_st8 a v (Q : unit → mem → Prop) m :
  is_Some (m !! a) → Q tt (<[a := u8 v]> m) → wp (st8 a v) Q m.
Proof. intros [x H] HQ. apply wp_bind. rewrite /wp /= H. done. Qed.
Lemma wp_ldc a v (Q : Z → mem → Prop) m : m !! a = Some v → Q (s8 v) m → wp (ldc a) Q m.
Proof. intros H HQ. apply wp_bind. eapply wp_ld8; [exact H|]. by apply wp_ret. Qed.

Lemma owned_cons m a n : owned m a (S n) ↔ is_Some (m !! a) ∧ owned m (a + 1) n.
Proof.
  split.
  - intros H. split; [apply H; lia|]. intros b Hb. apply H. lia.
  - intros [H1 H2] b Hb. destruct (decide (b = a)) as [->|]; [done|]. apply H2. lia.
Qed.
Lemma owned_insert m a n b v : owned m a n → owned (<[b := v]> m) a n.
Proof.
  intros H c Hc. destruct (decide (c = b)) as [->|].
  - rewrite lookup_insert_eq. by eexists.
  - rewrite lookup_insert_ne; [congruence|]. by apply H.
Qed.

Lemma lookup_fill a c n m b :
  fill a c n m !! b = if decide (a ≤ b < a + Z.of_nat n) then Some (u8 c) else m !! b.
Proof.
  rewrite /fill lookup_union. case_decide as H.
  - assert (list_to_map (M := gmap Z Z) ((λ i, (a + i, u8 c)) <$> seqZ 0 (Z.of_nat n)) !! b
      = Some (u8 c)) as ->.
    { apply elem_of_list_to_map.
      - rewrite -list_fmap_compose /=. apply NoDup_fmap; [intros x y ?; simpl in *; lia|apply NoDup_seqZ].
      - apply list_elem_of_fmap. exists (b - a). split; [f_equal; lia|]. apply elem_of_seqZ. lia. }
    by destruct (m !! b).
  - rewrite not_elem_of_list_to_map_1; [|by destruct (m !! b)].
    rewrite -list_fmap_compose. intros (i & -> & Hi%elem_of_seqZ)%list_elem_of_fmap. simpl in H. lia.
Qed.

Lemma fill_S a c n m : fill a c (S n) m = fill (a + 1) c n (<[a := u8 c]> m).
Proof.
  apply map_eq. intros b. rewrite !lookup_fill lookup_insert.
  repeat case_decide; try done; try lia; subst; try lia.
Qed.

(** [memset] fills the range and touches nothing else. *)
Lemma wp_memset n a c m (Q : unit → mem → Prop) :
  owned m a n → Q tt (fill a c n m) → wp (memset a c n) Q m.
Proof.
  revert a m. induction n as [|n IH]; intros a m Ho HQ; simpl.
  - apply wp_ret. by rewrite /fill /= left_id_L in HQ.
  - apply owned_cons in Ho as [H1 H2]. apply wp_bind, wp_st8; [done|].
    apply IH; [by apply owned_insert|]. by rewrite -fill_S.
Qed.

Lemma memset_fill n a c m : owned m a n → memset a c n m = Ret (tt, fill a c n m).
Proof.
  intros H. destruct (wp_elim (memset a c n) (λ _ m', m' = fill a c n m) m) as ([] & m' & E & ->); [by apply wp_memset|done].
Qed.
Lemma owned_fill a c k m b n : owned m b n → owned (fill a c k m) b n.
Proof. intros H x Hx. rewrite lookup_fill. case_decide; [by eexists|by apply H]. Qed.
Lemma owned_sub m a n b k : owned m a n → a ≤ b → b + Z.of_nat k ≤ a + Z.of_nat n → owned m b k.
Proof. intros H H1 H2 x Hx. apply H. lia. Qed.
Lemma fill_owned a c n m b k : a ≤ b → b + Z.of_nat k ≤ a + Z.of_nat n → owned (fill a c n m) b k.
Proof. intros H1 H2 x Hx. rewrite lookup_fill. rewrite decide_True; [lia|]. by eexists. Qed.

(** ** Byte sequences *)

Lemma bytes_app m a l1 l2 :
  bytes m a (l1 ++ l2) ↔ bytes m a l1 ∧ bytes m (a + Z.of_nat (length l1)) l2.
Proof.
  revert a. induction l1 as [|b l1 IH]; intros a; simpl; [rewrite Z.add_0_r; naive_solver|].
  rewrite IH. replace (a + 1 + Z.of_nat (length l1)) with (a + Z.of_nat (S (length l1))) by lia.
  naive_solver.
Qed.

Lemma bytes_cong m m' a l :
  (∀ b, a ≤ b < a + Z.of_nat (length l) → m' !! b = m !! b) → bytes m a l → bytes m' a l.
Proof.
  revert a. induction l as [|x l IH]; intros a H; simpl; [done|]. intros [H1 H2]. split.
  - rewrite H //=. lia.
  - apply IH; [|done]. intros b Hb. apply H. simpl. lia.
Qed.

Lemma bytes_lookup m a l i : (bytes m a l → m !! (a + Z.of_nat i) = l !! i ∨ l !! i = None).
Proof.
  revert a i. induction l as [|x l IH]; intros a i; simpl; [by right|]. intros [H1 H2].
  destruct i as [|i]; simpl; [left; rewrite Z.add_0_r; done|].
  replace (a + Z.of_nat (S i)) with (a + 1 + Z.of_nat i) by lia. by apply IH.
Qed.

Lemma bytes_owned m a l : bytes m a l → owned m a (length l).
Proof.
  revert a. induction l as [|x l IH]; intros a; simpl; [intros _ b; lia|].
  intros [H1 H2]. apply owned_cons. split; [by exists x|by apply IH].
Qed.

Lemma bytes_update m a l1 x y l2 :
  bytes m a (l1 ++ x :: l2) → bytes (<[a + Z.of_nat (length l1) := y]> m) a (l1 ++ y :: l2).
Proof.
  rewrite !bytes_app. intros (H1 & H2 & H3). split; [|split].
  - eapply bytes_cong; [|exact H1]. intros b Hb. rewrite lookup_insert_ne //. lia.
  - by rewrite lookup_insert_eq.
  - eapply bytes_cong; [|exact H3]. intros b Hb. rewrite lookup_insert_ne //. lia.
Qed.

(** [memcpy] between ranges that do not overlap. *)
Lemma wp_memcpy l d s m (Q : unit → mem → Prop) :
  bytes m s l → Forall (λ b, 0 ≤ b < 256) l → owned m d (length l) →
  (d + Z.of_nat (length l) ≤ s ∨ s + Z.of_nat (length l) ≤ d) →
  (∀ m', bytes m' d l → (∀ b, ¬ d ≤ b < d + Z.of_nat (length l) → m' !! b = m !! b) → Q tt m') →
  wp (memcpy d s (length l)) Q m.
Proof.
  revert d s m Q. induction l as [|x l IH]; intros d s m Q Hs Hb Ho Hd HQ; simpl in *.
  { apply wp_ret. by apply HQ. }
  destruct Hs as [H1 H2]. apply Forall_cons in Hb as [Hx Hb]. apply owned_cons in Ho as [Hd0 Ho].
  apply wp_bind. eapply wp_ld8; [exact H1|]. apply wp_bind, wp_st8; [done|].
  rewrite /u8 Z.mod_small; [lia|].
  apply IH; [|done|by apply owned_insert|lia|].
  - eapply bytes_cong; [|exact H2]. intros b Hr. rewrite lookup_insert_ne //. lia.
  - intros m' Hm' Hout. apply HQ.
    + split; [|done]. rewrite Hout; [lia|]. by rewrite lookup_insert_eq.
    + intros b Hr. rewrite Hout; [lia|]. rewrite lookup_insert_ne //. lia.
Qed.

Lemma wp_memcmp l1 l2 a b m :
  bytes m a l1 → bytes m b l2 → length l1 = length l2 →
  wp (memcmp a b (length l1)) (λ r m', m' = m ∧ (r = 0 ↔ l1 = l2)) m.
Proof.
  revert l2 a b. induction l1 as [|x l1 IH]; intros [|y l2] a b H1 H2 Hl; simplify_eq/=.
  { by apply wp_ret. }
  destruct H1 as [Hx H1], H2 as [Hy H2].
  apply wp_bind. eapply wp_ld8; [exact Hx|]. apply wp_bind. eapply wp_ld8; [exact Hy|].
  destruct (Z.eqb_spec (x - y) 0) as [E|E]; simpl.
  - eapply wp_mono; [by apply (IH l2)|]. intros r m' [-> Hr]. split; [done|].
    assert (x = y) as -> by lia. rewrite Hr. naive_solver.
  - apply wp_ret. split; [done|]. split; [done|]. intros [= -> _]. lia.
Qed.

Lemma cstr_cons m a x l : cstr m a (x :: l) ↔ m !! a = Some x ∧ 0 < x < 256 ∧ cstr m (a + 1) l.
Proof. rewrite /cstr /= Forall_cons. naive_solver. Qed.
Lemma cstr_nil m a : cstr m a [] ↔ m !! a = Some 0.
Proof. rewrite /cstr /=. naive_solver. Qed.

Lemma wp_strlen_from l a r fuel m :
  cstr m a l → (length l < fuel)%nat → 0 ≤ r → r + Z.of_nat (length l) < 2 ^ 32 →
  wp (strlen_from fuel a r) (λ v m', m' = m ∧ v = r + Z.of_nat (length l)) m.
Proof.
  revert a r fuel. induction l as [|x l IH]; intros a r [|fuel] Hl Hf Hr Hm; simpl in *; try lia.
  - apply cstr_nil in Hl. apply wp_bind. eapply wp_ld8; [exact Hl|]. apply wp_ret. split; [done|lia].
  - apply cstr_cons in Hl as (Hx & Hx0 & Hl). apply wp_bind. eapply wp_ld8; [exact Hx|].
    rewrite (proj2 (Z.eqb_neq x 0)); [lia|]. rewrite u32_id; [lia|].
    eapply wp_mono; [apply IH; [done|lia|lia|lia]|]. intros v m' [-> ->]. split; [done|lia].
Qed.

Lemma wp_strnlen_from l s a count fuel m :
  cstr m a l → (length l < fuel)%nat → 0 ≤ count → 0 ≤ a - s → a - s + Z.of_nat (length l) < 2 ^ 32 →
  wp (strnlen_from fuel s a count) (λ v m', m' = m ∧ v = a - s + Z.min count (Z.of_nat (length l))) m.
Proof.
  revert a count fuel. induction l as [|x l IH]; intros a count [|fuel] Hl Hf Hc Ha Hm; cbn [strnlen_from length] in *; try lia.
  - apply cstr_nil in Hl. destruct (Z.eqb_spec count 0) as [->|Hn].
    { apply wp_ret. split; [done|]. rewrite u32_id; lia. }
    apply wp_bind. eapply wp_ld8; [exact Hl|]. apply wp_ret. split; [done|]. rewrite u32_id; lia.
  - apply cstr_cons in Hl as (Hx & Hx0 & Hl). destruct (Z.eqb_spec count 0) as [->|Hn].
    { apply wp_ret. split; [done|]. rewrite u32_id; lia. }
    apply wp_bind. eapply wp_ld8; [exact Hx|]. rewrite (proj2 (Z.eqb_neq x 0)); [lia|].
    eapply wp_mono; [apply IH; [done|lia|lia|lia|lia]|]. intros v m' [-> ->]. split; [done|lia].
Qed.

Lemma s8_inj x y : 0 ≤ x < 256 → 0 ≤ y < 256 → s8 x = s8 y → x = y.
Proof.
  intros Hx Hy. rewrite /s8 /sign !Z.mod_small; [lia|lia|].
  destruct (Z.ltb_spec x (2 ^ (8 - 1))), (Z.ltb_spec y (2 ^ (8 - 1))); lia.
Qed.
Lemma s8_zero x : 0 ≤ x < 256 → s8 x = 0 → x = 0.
Proof. intros Hx H. apply s8_inj; [done|lia|by rewrite H]. Qed.
Lemma s8_range x : -128 ≤ s8 x < 128.
Proof.
  rewrite /s8 /sign. pose proof (Z.mod_pos_bound x (2 ^ 8)).
  destruct (Z.ltb_spec (x mod 2 ^ 8) (2 ^ (8 - 1))); lia.
Qed.
(** The truncation of the difference to eight bits does not lose equality. *)
Lemma s8_sub_zero x y : -128 ≤ x < 128 → -128 ≤ y < 128 → (s8 (x - y) = 0 ↔ x = y).
Proof.
  intros Hx Hy. split; [|intros ->; by rewrite Z.sub_diag]. rewrite /s8 /sign.
  pose proof (Z.div_mod (x - y) (2 ^ 8)) as Hd. pose proof (Z.mod_pos_bound (x - y) (2 ^ 8)) as Hb.
  destruct (Z.ltb_spec ((x - y) mod 2 ^ 8) (2 ^ (8 - 1))); lia.
Qed.

(** [strcmp] gives zero exactly on equal strings. *)
Lemma wp_strcmp l1 l2 a b fuel m :
  cstr m a l1 → cstr m b l2 → (length l1 < fuel)%nat →
  wp (strcmp fuel a b) (λ r m', m' = m ∧ (r = 0 ↔ l1 = l2)) m.
Proof.
  revert l2 a b fuel. induction l1 as [|x l1 IH]; intros l2 a b [|fuel] H1 H2 Hf; simpl in *; try lia.
  - apply cstr_nil in H1. apply wp_bind. eapply wp_ldc; [exact H1|].
    destruct l2 as [|y l2].
    + apply cstr_nil in H2. apply wp_bind. eapply wp_ldc; [exact H2|]. by apply wp_ret.
    + apply cstr_cons in H2 as (Hy & Hy0 & _). apply wp_bind. eapply wp_ldc; [exact Hy|].
      assert (s8 (s8 0 - s8 y) ≠ 0) as Hne.
      { rewrite s8_sub_zero; [apply s8_range|apply s8_range|]. intros E%s8_inj; lia. }
      rewrite (proj2 (Z.eqb_neq _ _) Hne) /=. apply wp_ret. by split.
  - apply cstr_cons in H1 as (Hx & Hx0 & H1). apply wp_bind. eapply wp_ldc; [exact Hx|].
    assert (s8 x ≠ 0) as Hxn by (intros E%s8_zero; lia).
    destruct l2 as [|y l2].
    + apply cstr_nil in H2. apply wp_bind. eapply wp_ldc; [exact H2|].
      assert (s8 (s8 x - s8 0) ≠ 0) as Hne.
      { rewrite s8_sub_zero; [apply s8_range|apply s8_range|]. intros E%s8_inj; lia. }
      rewrite (proj2 (Z.eqb_neq _ _) Hne) /=. apply wp_ret. by split.
    + apply cstr_cons in H2 as (Hy & Hy0 & H2). apply wp_bind. eapply wp_ldc; [exact Hy|].
      destruct (Z.eqb_spec (s8 (s8 x - s8 y)) 0) as [E|E]; simpl.
      * apply (proj1 (s8_sub_zero _ _ (s8_range x) (s8_range y))) in E. apply s8_inj in E; [|lia|lia]. subst y.
        rewrite (proj2 (Z.eqb_neq _ _) Hxn).
        eapply wp_mono; [apply (IH l2); [done|done|lia]|]. intros r m' [-> Hr]. split; [done|].
        rewrite Hr. naive_solver.
      * apply wp_ret. split; [done|]. split; [done|]. intros [= -> _]. by rewrite Z.sub_diag in E.
Qed.

(** ** [itoa] *)

(** The digits of [n], least significant first, and the number they denote. *)
Fixpoint digits (fuel : nat) (n b : Z) : list Z :=
  match fuel with
  | O => []
  | S fuel => n mod b :: (if n / b =? 0 then [] else digits fuel (n / b) b)
  end.
Fixpoint undigits (b : Z) (l : list Z) : Z :=
  match l with [] => 0 | d :: l => d + b * undigits b l end.
Definition chr (d : Z) : Z := if d <? 10 then d + 48 else d + 97 - 10.

Lemma digit_step fuel (n b : Z) :
  2 ≤ b → 0 ≤ n < b ^ Z.of_nat (S fuel) → 0 ≤ n / b < b ^ Z.of_nat fuel.
Proof.
  intros Hb Hn. rewrite Nat2Z.inj_succ Z.pow_succ_r in Hn; [lia|].
  split; [by apply Z.div_pos; lia|]. by apply Z.div_lt_upper_bound; lia.
Qed.

Lemma digits_value fuel (n b : Z) : 2 ≤ b → 0 ≤ n < b ^ Z.of_nat fuel → undigits b (digits fuel n b) = n.
Proof.
  intros Hb. revert n. induction fuel as [|fuel IH]; intros n Hn; [simpl in *; lia|].
  pose proof (digit_step _ _ _ Hb Hn) as Hq. cbn [digits].
  pose proof (Z.div_mod n b) as Hdm.
  destruct (Z.eqb_spec (n / b) 0) as [E|E]; simpl; [lia|]. rewrite IH //. lia.
Qed.
Lemma digits_range fuel (n b : Z) : 2 ≤ b → Forall (λ d, 0 ≤ d < b) (digits fuel n b).
Proof.
  intros Hb. revert n. induction fuel as [|fuel IH]; intros n; simpl; [constructor|].
  constructor; [apply Z.mod_pos_bound; lia|]. destruct (_ =? _); [constructor|apply IH].
Qed.
Lemma digits_length fuel k (n b : Z) :
  2 ≤ b → 0 ≤ n < b ^ Z.of_nat k → (0 < k)%nat → (length (digits fuel n b) ≤ k)%nat.
Proof.
  intros Hb. revert k n. induction fuel as [|fuel IH]; intros [|k] n Hn Hk; simpl; [lia..|].
  destruct (Z.eqb_spec (n / b) 0) as [E|E]; simpl; [lia|].
  pose proof (digit_step _ _ _ Hb Hn) as Hq.
  specialize (IH k (n / b) Hq). destruct k; [simpl in Hq; lia|]. lia.
Qed.
Lemma chr_range d : 0 ≤ d < 16 → 0 < chr d < 256.
Proof. rewrite /chr. destruct (Z.ltb_spec d 10); lia. Qed.

Lemma wp_itoa_digits fuel p (n b : Z) m (Q : Z → mem → Prop) :
  2 ≤ b ≤ 16 → (0 < fuel)%nat → 0 ≤ n < b ^ Z.of_nat fuel →
  let ds := chr <$> digits fuel n b in
  owned m p (length ds) →
  (∀ m', bytes m' p ds →
     (∀ a, ¬ p ≤ a < p + Z.of_nat (length ds) → m' !! a = m !! a) →
     Q (p + Z.of_nat (length ds)) m') →
  wp (itoa_digits fuel p n b) Q m.
Proof.
  intros Hb. revert p n m Q. induction fuel as [|fuel IH]; intros p n m Q Hf Hn ds Ho HQ; [lia|].
  assert (0 ≤ n / b < b ^ Z.of_nat fuel) as Hq by (apply digit_step; lia).
  subst ds. simpl in *. rewrite length_fmap in Ho, HQ.
  apply owned_cons in Ho as [Hp Ho].
  assert (u8 (chr (n mod b)) = chr (n mod b)) as Hc.
  { apply Z.mod_small. pose proof (chr_range (n mod b)). pose proof (Z.mod_pos_bound n b). lia. }
  apply wp_bind, wp_st8; [done|]. change (if n mod b <? 10 then _ else _) with (chr (n mod b)).
  rewrite Hc.
  destruct (Z.eqb_spec (n / b) 0) as [E|E]; simpl in *.
  - apply wp_ret. apply HQ; [split; [by rewrite lookup_insert_eq|done]|].
    intros a Ha. rewrite lookup_insert_ne //. lia.
  - apply IH; [|done| |].
    + destruct fuel; [|lia]. simpl in Hq. lia.
    + rewrite length_fmap. by apply owned_insert.
    + intros m' Hm' Hout. rewrite length_fmap in Hout |- *.
      replace (p + 1 + Z.of_nat (length (digits fuel (n / b) b)))
        with (p + Z.of_nat (S (length (digits fuel (n / b) b)))) in Hout |- * by lia.
      apply HQ.
      * split; [|done]. rewrite Hout; [lia|]. by rewrite lookup_insert_eq.
      * intros a Ha. rewrite Hout; [lia|]. rewrite lookup_insert_ne //. lia.
Qed.

Lemma wp_itoa_reverse fuel p l m (Q : unit → mem → Prop) :
  bytes m p l → Forall (λ b, 0 ≤ b < 256) l → (length l < 2 * fuel)%nat →
  (∀ m', bytes m' p (rev l) →
     (∀ a, ¬ p ≤ a < p + Z.of_nat (length l) → m' !! a = m !! a) → Q tt m') →
  wp (itoa_reverse fuel p (p + Z.of_nat (length l) - 1)) Q m.
Proof.
  revert p l m Q. induction fuel as [|fuel IH]; intros p l m Q Hl Hr Hf HQ; [lia|]. simpl.
  destruct (Z.ltb_spec p (p + Z.of_nat (length l) - 1)) as [Hlt|Hge].
  2: { apply wp_ret. apply HQ; [|done]. destruct l as [|x [|y l]]; [done|done|simpl in Hge; lia]. }
  destruct l as [|x l]; [simpl in Hlt; lia|].
  destruct (exists_last (l := l)) as (mid & y & ->); [by intros ->; simpl in Hlt; lia|].
  cbn [length] in Hlt, Hf |- *. rewrite length_app in Hlt, Hf |- *. cbn [length] in Hlt, Hf |- *.
  pose proof Hl as Hl0. apply (bytes_app _ _ (x :: mid) [y]) in Hl0 as [[Hx Hmid] [Hy _]].
  apply Forall_cons in Hr as [Hx256 Hr]. apply Forall_app in Hr as [Hm256 [Hy256 _]%Forall_cons].
  simpl in Hy.
  replace (p + Z.of_nat (S (length mid + 1)) - 1) with (p + Z.of_nat (S (length mid))) by lia.
  apply wp_bind. eapply wp_ld8; [exact Hx|]. apply wp_bind. eapply wp_ld8; [exact Hy|].
  apply wp_bind, wp_st8; [by exists x|]. apply wp_bind, wp_st8.
  { rewrite lookup_insert_ne; [lia|]. by exists y. }
  rewrite /u8 !Z.mod_small; [lia..|].
  set (m1 := <[_ := x]> _).
  assert (bytes m1 p (y :: mid ++ [x])) as Hb1.
  { apply (bytes_update _ p (y :: mid) y x []). pose proof (bytes_update _ p [] x y (mid ++ [y]) Hl) as Hu. simpl length in Hu.
    by rewrite Z.add_0_r in Hu. }
  assert (∀ a, ¬ p ≤ a < p + Z.of_nat (S (length mid + 1)) → m1 !! a = m !! a) as Hout1.
  { intros a Ha. rewrite /m1 !lookup_insert_ne //; lia. }
  pose proof Hb1 as [Hy1 [Hmid1 [Hx1 _]]%bytes_app].
  replace (p + Z.of_nat (S (length mid)) - 1) with (p + 1 + Z.of_nat (length mid) - 1) by lia.
  apply IH; [done|done|lia|].
  intros m' Hm' Hout. apply HQ.
  - rewrite /= rev_app_distr /=. split; [rewrite Hout; [lia|done]|].
    apply bytes_app. split; [done|]. rewrite length_rev. split; [|done].
    rewrite Hout; [lia|]. done.
  - intros a Ha. rewrite Hout; [simpl in Ha; rewrite length_app /= in Ha; lia|].
    apply Hout1. simpl in Ha. rewrite length_app /= in Ha. lia.
Qed.

Lemma owned_mono m a n b n' :
  owned m a n → a ≤ b → b + Z.of_nat n' ≤ a + Z.of_nat n → owned m b n'.
Proof. intros H ? ? c ?. apply H. lia. Qed.
Lemma owned_cong m m' a n :
  (∀ b, is_Some (m !! b) → is_Some (m' !! b)) → owned m a n → owned m' a n.
Proof. intros H Ho b Hb. by apply H, Ho. Qed.

(** The unsigned part of [itoa]: digits, terminator, reversal. *)
Lemma wp_itoa_body buf (n b : Z) m (Q : unit → mem → Prop) :
  2 ≤ b ≤ 16 → 0 ≤ n < b ^ 10 → owned m buf 11 →
  (∀ m', cstr m' buf (chr <$> rev (digits 33 n b)) →
     (∀ a, ¬ buf ≤ a < buf + 11 → m' !! a = m !! a) → Q tt m') →
  wp (let! p := itoa_digits 33 buf n b in do! st8 p 0 then itoa_reverse 33 buf (p - 1)) Q m.
Proof.
  intros Hb Hn Ho HQ. set (ds := digits 33 n b) in *.
  assert (length ds ≤ 10)%nat as Hlen by (apply digits_length; lia).
  assert (Forall (λ d, 0 ≤ d < b) ds) as Hr by (apply digits_range; lia).
  assert (Forall (λ c, 0 < c < 256) (chr <$> ds)) as Hc.
  { apply Forall_fmap. eapply Forall_impl; [exact Hr|]. intros d Hd. simpl in Hd. apply chr_range. lia. }
  apply wp_bind. apply wp_itoa_digits; [done|lia| | |].
  { split; [lia|]. eapply Z.lt_le_trans; [apply Hn|]. apply Z.pow_le_mono_r; [lia|]. lia. }
  { rewrite length_fmap. fold ds. eapply owned_mono; [exact Ho|lia|lia]. }
  rewrite length_fmap. fold ds. intros m1 H1 Hout1.
  apply wp_bind, wp_st8.
  { rewrite Hout1; [lia|]. apply Ho. lia. }
  set (m2 := <[_ := u8 0]> m1).
  assert (bytes m2 buf (chr <$> ds)) as H2.
  { eapply bytes_cong; [|exact H1]. rewrite length_fmap. intros a Ha.
    rewrite lookup_insert_ne //. lia. }
  replace (buf + Z.of_nat (length ds) - 1) with (buf + Z.of_nat (length (chr <$> ds)) - 1)
    by (rewrite length_fmap; done).
  apply wp_itoa_reverse; [done| |rewrite length_fmap; lia|].
  { eapply Forall_impl; [exact Hc|]. simpl. lia. }
  rewrite length_fmap. intros m3 H3 Hout3. apply HQ.
  - rewrite (map_rev chr ds : chr <$> rev ds = rev (chr <$> ds)).
    split; [|by apply Forall_rev].
    apply bytes_app. split; [done|]. rewrite length_rev length_fmap. split; [|done].
    rewrite Hout3; [lia|]. by rewrite lookup_insert_eq.
  - intros a Ha. rewrite Hout3; [lia|]. rewrite lookup_insert_ne; [lia|]. apply Hout1. lia.
Qed.
End lemmas.

(** ** The string library *)

(** [itoa] is total on every [int] and exact: it writes a NUL-terminated
    string made of a minus sign for a negative number in base 'd' and of the
    digits, most significant first, of the absolute value (base 'd') or of the
    unsigned value (other bases); it needs a buffer of 12 bytes at most and writes
    nothing outside it. *)
Theorem itoa_correct m buf base d :
  - 2 ^ 31 ≤ d < 2 ^ 31 → owned m buf 12 →
  let neg := (base =? 100) && (d <? 0) in
  let b := if negb neg && (base =? 120) then 16 else 10 in
  ∃ m' ds, itoa buf base d m = Ret (tt, m') ∧
    cstr m' buf ((if neg then [45] else []) ++ (chr <$> rev ds)) ∧
    Forall (λ x, 0 ≤ x < b) ds ∧
    undigits b ds = (if neg then - d else u32 d) ∧
    (∀ a, ¬ buf ≤ a < buf + 12 → m' !! a = m !! a).
Proof.
  intros Hd Ho neg b. set (n := if neg then - d else u32 d).
  assert (10 ≤ b ≤ 16) as Hb by (rewrite /b; destruct (negb neg && (base =? 120)); lia).
  assert (0 ≤ n < 2 ^ 32) as Hn.
  { rewrite /n. destruct neg eqn:E; [|apply u32_range].
    apply andb_true_iff in E as [_ E%Z.ltb_lt]. lia. }
  assert (0 ≤ n < b ^ 10) as Hn10.
  { split; [lia|]. eapply Z.lt_le_trans; [apply Hn|]. etrans; [|apply (Z.pow_le_mono_l 10); lia].
    vm_compute. done. }
  assert ((if neg then u32 (- d) else u32 d) = n) as En.
  { rewrite /n. destruct neg eqn:E; [|done]. apply u32_id. rewrite /n in Hn. lia. }
  enough (wp (itoa buf base d) (λ _ m', 
    cstr m' buf ((if neg then [45] else []) ++ (chr <$> rev (digits 33 n b))) ∧
    (∀ a, ¬ buf ≤ a < buf + 12 → m' !! a = m !! a)) m) as Hw.
  { destruct (wp_elim _ _ _ Hw) as ([] & m' & H1 & H2 & H3). exists m', (digits 33 n b).
    split_and!; [done|done|apply digits_range; lia| |done].
    apply digits_value; [lia|]. split; [lia|].
    eapply Z.lt_le_trans; [apply Hn10|]. apply Z.pow_le_mono_r; [lia|]. lia. }
  rewrite /itoa. fold neg. rewrite En. fold b. clearbody n b. destruct neg; cbn [when app].
  - apply wp_bind, wp_st8; [apply Ho; lia|].
    apply wp_itoa_body; [lia|done|apply owned_insert; eapply owned_mono; [exact Ho|lia|lia]|].
    intros m' Hm' Hout. split.
    + apply cstr_cons. split_and!; [|lia|lia|done]. rewrite Hout; [lia|]. by rewrite lookup_insert_eq.
    + intros a Ha. rewrite Hout; [lia|]. rewrite lookup_insert_ne //. lia.
  - apply wp_bind, wp_ret. apply wp_itoa_body; [lia|done|eapply owned_mono; [exact Ho|lia|lia]|].
    intros m' Hm' Hout. split; [done|]. intros a Ha. apply Hout. lia.
Qed.

(** The comparison routines decide equality: [strcmp] (which compares
    signed characters and truncates the difference to eight bits) is zero
    exactly on equal strings, and [memcmp] exactly on equal blocks; neither
    writes to memory. *)
Theorem compare_equal m a b l1 l2 :
  (∀ fuel, cstr m a l1 → cstr m b l2 → (length l1 < fuel)%nat →
     ∃ r, strcmp fuel a b m = Ret (r, m) ∧ (r = 0 ↔ l1 = l2)) ∧
  (bytes m a l1 → bytes m b l2 → length l1 = length l2 →
     ∃ r, memcmp a b (length l1) m = Ret (r, m) ∧ (r = 0 ↔ l1 = l2)).
Proof.
  split.
  - intros fuel H1 H2 Hf. destruct (wp_elim _ _ _ (wp_strcmp _ _ _ _ _ _ H1 H2 Hf)) as (r & ? & E & -> & H).
    by exists r.
  - intros H1 H2 Hl. destruct (wp_elim _ _ _ (wp_memcmp _ _ _ _ _ H1 H2 Hl)) as (r & ? & E & -> & H).
    by exists r.
Qed.

(** Twelve bytes at 100, the strings "ab" at 0 and 3. *)
Definition ex_mem : mem :=
  list_to_map ((λ i, (100 + i, 7)) <$> seqZ 0 12) ∪
  list_to_map (zip [0; 1; 2; 3; 4; 5] [97; 98; 0; 97; 98; 0]).

Lemma ownedb m a n :
  forallb (λ b, bool_decide (is_Some (m !! b))) (seqZ a (Z.of_nat n)) = true → owned m a n.
Proof.
  rewrite forallb_forall. intros H b Hb. eapply bool_decide_unpack.
  specialize (H b). rewrite H; [|done]. apply list_elem_of_In, elem_of_seqZ. lia.
Qed.

Lemma itoa_witness : ∃ m' ds, itoa 100 100 (-407) ex_mem = Ret (tt, m') ∧
  cstr m' 100 ([45] ++ (chr <$> rev ds)) ∧ Forall (λ x, 0 ≤ x < 10) ds ∧ undigits 10 ds = - -407 ∧
  (∀ a, ¬ 100 ≤ a < 100 + 12 → m' !! a = ex_mem !! a).
Proof.
  apply (itoa_correct ex_mem 100 100 (-407)); [lia|]. apply ownedb. vm_compute. reflexivity.
Defined.

Lemma compare_equal_witness :
  ∃ r, strcmp 3 0 3 ex_mem = Ret (r, ex_mem) ∧ (r = 0 ↔ [97; 98] = [97; 98]).
Proof.
  apply (compare_equal ex_mem 0 3 [97; 98] [97; 98]).
  - split; [vm_compute; done|]. repeat constructor.
  - split; [vm_compute; done|]. repeat constructor.
  - simpl. lia.
Defined.
