(* ===== verification/Buddy.v ===== *)
(** * The page allocator ([kernel/buddy.c], [struct page] of [include/scaraOS/mm.h])

    Page frames are designated by their index in [pfa]; a free list is the
    sequence of the frames linked through [u.list].  The allocator is shown to
    implement the interface its clients are verified against ([PageAlloc]). *)
From S2P Require Import Prelude PageAlloc Kmem.

Definition PAGE_SHIFT : Z := 12.
Definition PG_free : Z := 0.
Definition PG_reserved : Z := 1.
Definition PG_slab : Z := 2.
Definition PG_pagecache : Z := 3.
Definition MAX_ORDER : Z := 10.
Definition PAGE_POISON_PATTERN : Z := 0x5a.

(** [struct page]; what its union holds belongs to the owner of the frame. *)
Record page := mk_page { pg_count : Z; pg_type : Z; pg_flags : Z }.

#[export] Instance page_eq_dec : EqDecision page.
Proof. solve_decision. Defined.

Record buddy := mk_buddy {
  pfa : gmap Z page;
  free_list : gmap Z (list Z);
  pagesem : Z;
  nr_freepages : Z;
  bmem : mem
}.

Definition upd_pfa (f : gmap Z page → gmap Z page) (b : buddy) : buddy :=
  mk_buddy (f (pfa b)) (free_list b) (pagesem b) (nr_freepages b) (bmem b).
Definition upd_free (f : gmap Z (list Z) → gmap Z (list Z)) (b : buddy) : buddy :=
  mk_buddy (pfa b) (f (free_list b)) (pagesem b) (nr_freepages b) (bmem b).
Definition set_pagesem (v : Z) (b : buddy) : buddy :=
  mk_buddy (pfa b) (free_list b) v (nr_freepages b) (bmem b).
Definition set_nr_freepages (v : Z) (b : buddy) : buddy :=
  mk_buddy (pfa b) (free_list b) (pagesem b) v (bmem b).
Definition set_bmem (v : mem) (b : buddy) : buddy :=
  mk_buddy (pfa b) (free_list b) (pagesem b) (nr_freepages b) v.

Abbreviation B := (M buddy).

(** Address arithmetic of [mm.h] and [page.h]. *)
Definition __pa (x : Z) : Z := u32 (x - PAGE_OFFSET).
Definition __va (x : Z) : Z := u32 (x + PAGE_OFFSET).
Definition page_address (pfn : Z) : Z := __va (u32 (Z.shiftl pfn PAGE_SHIFT)).
Definition virt_to_page (va : Z) : Z := Z.shiftr (__pa va) PAGE_SHIFT.

Definition ld_page (pfn : Z) : B page := let! b := get in deref (pfa b !! pfn).
Definition st_page (pfn : Z) (f : page → page) : B unit :=
  let! p := ld_page pfn in modify (upd_pfa (insert pfn (f p))).
Definition set_type (v : Z) (p : page) : page := mk_page (pg_count p) v (pg_flags p).
Definition set_count (v : Z) (p : page) : page := mk_page v (pg_type p) (pg_flags p).

Definition get_page (pfn : Z) : B Z :=
  do! st_page pfn (λ p, set_count (u32 (pg_count p + 1)) p) then ret pfn.
Definition put_page (pfn : Z) : B unit :=
  let! p := ld_page pfn in
  do! bug_on (pg_count p =? 0) then
  st_page pfn (λ p, set_count (u32 (pg_count p - 1)) p).

Definition ld_free (order : Z) : B (list Z) := let! b := get in deref (free_list b !! order).

Definition buddy_init : B unit :=
  modify (upd_free (λ _, list_to_map ((λ i, (i, [])) <$> seqZ 0 MAX_ORDER))).

Definition free_pages (ptr order : Z) : B unit :=
  if ptr =? NULL then ret tt else
  do! bug_on (negb (order =? 1)) then
  do! zoom bmem set_bmem
        (memset ptr PAGE_POISON_PATTERN (Z.to_nat (Z.shiftl order PAGE_SHIFT))) then
  let pg := virt_to_page ptr in
  do! st_page pg (set_type PG_free) then
  do! put_page pg then
  let! p := ld_page pg in
  do! bug_on (negb (pg_count p =? 0)) then
  do! zoom pagesem set_pagesem down then
  let! l := ld_free order in
  do! modify (upd_free (insert order (l ++ [pg]))) then
  do! zoom pagesem set_pagesem sem_up then
  modify (λ b, set_nr_freepages (u32 (nr_freepages b + 1)) b).

Definition alloc_pages (order : Z) : B Z :=
  do! bug_on (negb (order =? 1)) then
  do! zoom pagesem set_pagesem down then
  let! l := ld_free order in
  match l with
  | [] => do! zoom pagesem set_pagesem sem_up then ret NULL
  | pg :: rest =>
    let! p := ld_page pg in
    do! bug_on (negb (pg_count p =? 0)) then
    do! modify (upd_free (insert order (filter (λ x, x ≠ pg) l))) then
    do! zoom pagesem set_pagesem sem_up then
    do! modify (λ b, set_nr_freepages (u32 (nr_freepages b - 1)) b) then
    do! get_page pg then
    ret (page_address pg)
  end.

(** The macros [alloc_page] and [free_page]. *)
#[export] Instance buddy_ops : PageOps buddy := {|
  alloc_page := alloc_pages 1;
  free_page ptr := free_pages ptr 1
|}.

(** ** Addresses and frames *)

(** Frames of the kernel's linear mapping. *)
Definition frame_ok (pfn : Z) : Prop := 0 ≤ pfn < 0x40000.

Lemma page_address_eq pfn : frame_ok pfn → page_address pfn = PAGE_OFFSET + 4096 * pfn.
Proof.
  rewrite /frame_ok /page_address /__va /PAGE_SHIFT /PAGE_OFFSET. intros H.
  rewrite Z.shiftl_mul_pow2 // !u32_id; lia.
Qed.

Lemma virt_to_page_address pfn o :
  frame_ok pfn → 0 ≤ o < 4096 → virt_to_page (page_address pfn + o) = pfn.
Proof.
  intros H Ho. rewrite page_address_eq // /virt_to_page /__pa /PAGE_SHIFT /PAGE_OFFSET.
  rewrite /frame_ok in H. rewrite u32_id; [lia|].
  rewrite Z.shiftr_div_pow2 //. symmetry. apply (Z.div_unique_pos _ _ _ o); lia.
Qed.

Lemma page_address_inj p q : frame_ok p → frame_ok q → page_address p = page_address q → p = q.
Proof. intros Hp Hq. rewrite !page_address_eq //. lia. Qed.

(** ** Invariant *)

(** The frames of the free list are distinct and unreferenced, the counter of
    free pages is their number, and the linear mapping covers every frame. *)
Record buddy_inv (b : buddy) (l : list Z) : Prop := {
  bi_sem : pagesem b = 1;
  bi_list : free_list b !! 1 = Some l;
  bi_nodup : NoDup l;
  bi_free pfn : pfn ∈ l → ∃ p, pfa b !! pfn = Some p ∧ pg_count p = 0;
  bi_count : nr_freepages b = Z.of_nat (length l);
  bi_frame pfn p : pfa b !! pfn = Some p → frame_ok pfn;
  bi_mapped pfn p : pfa b !! pfn = Some p → owned (bmem b) (page_address pfn) 4096
}.

Definition buddy_own (b : buddy) (A : gset Z) : Prop :=
  (∃ l, buddy_inv b l) ∧
  ∀ v, v ∈ A → ∃ pfn p, v = page_address pfn ∧ pfa b !! pfn = Some p ∧ pg_count p = 1.

(** A duplicate-free list of frames is short enough for the counter. *)
Lemma frames_length l : NoDup l → Forall frame_ok l → Z.of_nat (length l) ≤ 0x40000.
Proof.
  intros Hnd Hl. assert (l ⊆+ seqZ 0 0x40000) as Hs.
  { apply NoDup_submseteq; [done|]. intros x Hx. rewrite Forall_forall in Hl.
    apply elem_of_seqZ, Hl, Hx. }
  apply submseteq_length in Hs. rewrite length_seqZ in Hs. lia.
Qed.

Lemma wp_ld_page b pfn p (Q : page → buddy → Prop) :
  pfa b !! pfn = Some p → Q p b → wp (ld_page pfn) Q b.
Proof. intros H HQ. apply wp_bind. rewrite /wp /= H. done. Qed.
Lemma wp_st_page b pfn p f (Q : unit → buddy → Prop) :
  pfa b !! pfn = Some p → Q tt (upd_pfa (insert pfn (f p)) b) → wp (st_page pfn f) Q b.
Proof. intros H HQ. apply wp_bind. eapply wp_ld_page; [exact H|done]. Qed.
Lemma wp_ld_free b o l (Q : list Z → buddy → Prop) :
  free_list b !! o = Some l → Q l b → wp (ld_free o) Q b.
Proof. intros H HQ. apply wp_bind. rewrite /wp /= H. done. Qed.
Lemma wp_sem_up b (Q : unit → buddy → Prop) :
  Q tt (set_pagesem (pagesem b + 1) b) → wp (zoom pagesem set_pagesem sem_up) Q b.
Proof. done. Qed.

Section buddy.
Context (b : buddy) (l : list Z).
Hypothesis Hb : buddy_inv b l.

Lemma buddy_len : Z.of_nat (length l) ≤ 0x40000.
Proof.
  apply frames_length; [apply Hb|]. apply Forall_forall. intros x Hx.
  destruct (bi_free _ _ Hb x Hx) as (p & Hp & _). exact (bi_frame _ _ Hb _ _ Hp).
Qed.

Lemma wp_down_page (Q : unit → buddy → Prop) :
  Q tt (set_pagesem 0 b) → wp (zoom pagesem set_pagesem down) Q b.
Proof. intros HQ. apply wp_zoom. rewrite (bi_sem _ _ Hb). by apply wp_down. Qed.

(** The state after taking the first frame. *)
Definition taken (pfn : Z) (p : page) (rest : list Z) : buddy :=
  mk_buddy (<[pfn := set_count 1 p]> (pfa b)) (<[1 := rest]> (free_list b)) 1
    (u32 (nr_freepages b - 1)) (bmem b).

Lemma wp_alloc_pages (Q : Z → buddy → Prop) :
  (l = [] → Q NULL b) →
  (∀ pfn p rest, l = pfn :: rest → pfa b !! pfn = Some p → pg_count p = 0 →
     Q (page_address pfn) (taken pfn p rest)) →
  wp (alloc_pages 1) Q b.
Proof.
  intros H0 H1. apply wp_bind, wp_bug_on; [done|]. apply wp_bind, wp_down_page.
  apply wp_bind. eapply wp_ld_free; [exact (bi_list _ _ Hb)|].
  destruct l as [|pfn rest] eqn:El.
  - apply wp_bind, wp_sem_up, wp_ret.
    assert (set_pagesem (pagesem (set_pagesem 0 b) + 1) (set_pagesem 0 b) = b) as ->; [|by apply H0].
    pose proof (bi_sem _ _ Hb) as Hs. destruct b; simpl in *. by subst.
  - destruct (bi_free _ _ Hb pfn) as (p & Hp & Hc); [set_solver|].
    pose proof (bi_nodup _ _ Hb) as [Hn Hnd]%NoDup_cons.
    apply wp_bind. eapply wp_ld_page; [exact Hp|]. apply wp_bind, wp_bug_on; [by rewrite Hc|].
    apply wp_bind, wp_modify, wp_bind, wp_sem_up, wp_bind, wp_modify, wp_bind, wp_bind.
    eapply wp_st_page; [exact Hp|]. apply wp_ret, wp_ret. rewrite Hc filter_ne_head //.
    by apply H1.
Qed.

Lemma taken_inv pfn p rest :
  l = pfn :: rest → pfa b !! pfn = Some p → buddy_inv (taken pfn p rest) rest.
Proof.
  intros El Hp. pose proof buddy_len as Hlen. pose proof (bi_nodup _ _ Hb) as Hnd.
  pose proof (bi_count _ _ Hb) as Hc. rewrite El in Hnd, Hc, Hlen. apply NoDup_cons in Hnd as [Hn Hnd].
  split; simpl.
  - done.
  - by rewrite lookup_insert_eq.
  - done.
  - intros q Hq. rewrite lookup_insert_ne; [by intros ->|]. apply (bi_free _ _ Hb). set_solver.
  - rewrite Hc. simpl length in *. rewrite u32_id; lia.
  - intros q pq [[<- _]|[_ H]]%lookup_insert_Some; eapply (bi_frame _ _ Hb); eassumption.
  - intros q pq [[<- _]|[_ H]]%lookup_insert_Some; eapply (bi_mapped _ _ Hb); eassumption.
Qed.

(** The state after giving a frame back. *)
Definition given (pfn : Z) (p : page) : buddy :=
  mk_buddy (<[pfn := set_count 0 (set_type PG_free p)]> (pfa b)) (<[1 := l ++ [pfn]]> (free_list b)) 1
    (u32 (nr_freepages b + 1)) (fill (page_address pfn) PAGE_POISON_PATTERN 4096 (bmem b)).

Lemma wp_free_pages pfn p (Q : unit → buddy → Prop) :
  pfa b !! pfn = Some p → pg_count p = 1 → Q tt (given pfn p) →
  wp (free_pages (page_address pfn) 1) Q b.
Proof.
  intros Hp Hc HQ. pose proof (bi_frame _ _ Hb _ _ Hp) as Hf.
  rewrite /free_pages (proj2 (Z.eqb_neq (page_address pfn) NULL)).
  { rewrite page_address_eq // /PAGE_OFFSET /NULL. rewrite /frame_ok in Hf. lia. }
  apply wp_bind, wp_bug_on; [done|]. apply wp_bind, wp_zoom.
  apply wp_memset; [exact (bi_mapped _ _ Hb _ _ Hp)|].
  rewrite -{1 2 3 4}(Z.add_0_r (page_address pfn)) virt_to_page_address //.
  apply wp_bind. eapply wp_st_page; [exact Hp|]. apply wp_bind, wp_bind.
  eapply wp_ld_page; [apply lookup_insert_eq|]. apply wp_bind, wp_bug_on; [by rewrite /= Hc|].
  eapply wp_st_page; [apply lookup_insert_eq|]. apply wp_bind.
  eapply wp_ld_page; [apply lookup_insert_eq|]. apply wp_bind, wp_bug_on; [by rewrite /= Hc|].
  apply wp_bind, wp_zoom. rewrite /= (bi_sem _ _ Hb). apply wp_down; [done|].
  apply wp_bind. eapply wp_ld_free; [exact (bi_list _ _ Hb)|].
  apply wp_bind, wp_modify, wp_bind, wp_sem_up, wp_modify.
  rewrite /upd_pfa /upd_free /set_pagesem /set_nr_freepages /= Hc insert_insert_eq. exact HQ.
Qed.

Lemma given_inv pfn p :
  pfa b !! pfn = Some p → pg_count p = 1 → buddy_inv (given pfn p) (l ++ [pfn]).
Proof.
  intros Hp Hc. pose proof buddy_len as Hlen.
  assert (pfn ∉ l) as Hn.
  { intros Hin. destruct (bi_free _ _ Hb _ Hin) as (q & Hq & Hq0). congruence. }
  split; simpl.
  - done.
  - by rewrite lookup_insert_eq.
  - apply NoDup_app. split_and!; [apply Hb|set_solver|apply NoDup_singleton].
  - intros q [Hq| ->%list_elem_of_singleton]%elem_of_app.
    + rewrite lookup_insert_ne; [by intros ->|]. by apply (bi_free _ _ Hb).
    + rewrite lookup_insert_eq. by eexists.
  - rewrite (bi_count _ _ Hb) length_app /= u32_id; lia.
  - intros q pq [[<- _]|[_ H]]%lookup_insert_Some; eapply (bi_frame _ _ Hb); eassumption.
  - intros q pq [[<- _]|[_ H]]%lookup_insert_Some x Hx; rewrite lookup_fill;
      (case_decide; [by eexists|]); eapply (bi_mapped _ _ Hb); eassumption.
Qed.
End buddy.

Lemma buddy_own_alloc b A :
  buddy_own b A →
  wp (alloc_pages 1) (λ v b', (v = NULL ∧ buddy_own b' A) ∨
    (page_ok v ∧ v ∉ A ∧ buddy_own b' ({[ v ]} ∪ A))) b.
Proof.
  intros [[l Hb] HA]. eapply wp_alloc_pages; [exact Hb|..].
  - intros _. left. split; [done|]. split; [by exists l|done].
  - intros pfn p rest El Hp Hc. right. pose proof (bi_frame _ _ Hb _ _ Hp) as Hf.
    assert (page_address pfn ∉ A) as Hn.
    { intros Hin. destruct (HA _ Hin) as (pfn' & p' & E & Hp' & Hc').
      apply page_address_inj in E; [|done|exact (bi_frame _ _ Hb _ _ Hp')]. congruence. }
    split; [|split; [done|split]].
    + rewrite /page_ok page_address_eq // /PAGE_OFFSET /PAGE_SIZE. rewrite /frame_ok in Hf. split; [lia|].
      rewrite Z.add_comm (Z.mul_comm 4096) Z.add_mod // Z.mod_mul //.
    + exists rest. eapply taken_inv; [exact Hb|exact El|exact Hp].
    + intros v [->%elem_of_singleton|Hv]%elem_of_union.
      * exists pfn, (set_count 1 p). simpl. by rewrite lookup_insert_eq.
      * destruct (HA v Hv) as (q & pq & -> & Hq & Hcq). exists q, pq. simpl.
        rewrite lookup_insert_ne //. congruence.
Qed.

Lemma buddy_own_free b A v :
  buddy_own b A → v ∈ A → wp (free_pages v 1) (λ _ b', buddy_own b' (A ∖ {[ v ]})) b.
Proof.
  intros [[l Hb] HA] Hv. destruct (HA v Hv) as (pfn & p & -> & Hp & Hc).
  eapply wp_free_pages; [exact Hb|exact Hp|done|]. split; [exists (l ++ [pfn]); by apply given_inv|].
  intros w [Hw Hne]%elem_of_difference. destruct (HA w Hw) as (q & pq & -> & Hq & Hcq).
  exists q, pq. simpl. rewrite lookup_insert_ne //. intros ->. set_solver.
Qed.

(** The buddy allocator provides what the scheduler, the object caches and the
    page tables rely on. *)
#[export] Program Instance buddy_spec : PageSpec buddy := {| pages_own := buddy_own |}.
Next Obligation. exact buddy_own_alloc. Qed.
Next Obligation. intros b A v H1 H2 _. by apply buddy_own_free. Qed.

(** C8: [alloc_page] hands out the frame that has been free longest: with a
    non-empty free list it returns the linear address of its first frame, which
    nobody held, with a reference count of one, off the free list, and counts one free page less;
    with an empty list it returns NULL and changes nothing. The list never
    loses its consistency. *)
Theorem alloc_page_correct b l :
  buddy_inv b l →
  match l with
  | [] => alloc_pages 1 b = Ret (NULL, b)
  | pfn :: rest => ∃ b' p, alloc_pages 1 b = Ret (page_address pfn, b') ∧
      buddy_inv b' rest ∧ pfa b !! pfn = Some p ∧ pg_count p = 0 ∧
      pfa b' = <[pfn := set_count 1 p]> (pfa b) ∧ nr_freepages b' = nr_freepages b - 1 ∧
      bmem b' = bmem b
  end.
Proof.
  intros Hb. destruct l as [|pfn rest].
  - assert (wp (alloc_pages 1) (λ v b', v = NULL ∧ b' = b) b) as (v & b' & E & -> & ->)%wp_elim; [|done].
    eapply wp_alloc_pages; [exact Hb|done|by intros ? ? ? [=]].
  - destruct (bi_free _ _ Hb pfn) as (p & Hp & Hc); [set_solver|].
    assert (wp (alloc_pages 1) (λ v b', v = page_address pfn ∧ b' = taken b pfn p rest) b)
      as (v & b' & E & -> & ->)%wp_elim.
    { eapply wp_alloc_pages; [exact Hb|done|]. intros ? ? ? [= <- <-] Hp' _.
      by rewrite Hp in Hp'; injection Hp' as <-. }
    exists (taken b pfn p rest), p. split_and!; [done|eapply taken_inv; [exact Hb|done|exact Hp]|done|done|done| |done].
    pose proof (bi_count _ _ Hb) as Hn. pose proof (buddy_len _ _ Hb). simpl length in *.
    simpl. rewrite Hn u32_id; lia.
Qed.

(** C9: [free_page] of a page that is referenced once puts its frame at the
    end of the free list with no reference, counts one free page more and
    fills exactly the bytes of that page with the poison pattern; the list
    stays consistent, so a later [alloc_page] finds the frame again. *)
Theorem free_page_correct b l pfn p :
  buddy_inv b l → pfa b !! pfn = Some p → pg_count p = 1 →
  ∃ b', free_pages (page_address pfn) 1 b = Ret (tt, b') ∧ buddy_inv b' (l ++ [pfn]) ∧
    nr_freepages b' = nr_freepages b + 1 ∧
    (∀ a, bmem b' !! a = if decide (page_address pfn ≤ a < page_address pfn + 4096)
                         then Some PAGE_POISON_PATTERN else bmem b !! a).
Proof.
  intros Hb Hp Hc.
  assert (wp (free_pages (page_address pfn) 1) (λ _ b', b' = given b l pfn p) b)
    as ([] & b' & E & ->)%wp_elim by (eapply wp_free_pages; [exact Hb|exact Hp|done|done]).
  exists (given b l pfn p). split_and!; [done|by apply given_inv| |].
  - simpl. pose proof (buddy_len _ _ Hb). rewrite (bi_count _ _ Hb) u32_id; lia.
  - intros a. simpl. by rewrite lookup_fill.
Qed.

(** ** A machine with three frames *)

Definition ex_buddy : buddy :=
  mk_buddy (list_to_map [(0, mk_page 0 0 0); (1, mk_page 1 0 0); (2, mk_page 0 0 0)])
    {[ 1 := [2; 0] ]} 1 2 (fill PAGE_OFFSET 0 (Z.to_nat (3 * 4096)) ∅).

Lemma ex_buddy_inv : buddy_inv ex_buddy [2; 0].
Proof.
  split.
  - done.
  - done.
  - decide_closed.
  - intros pfn H. rewrite !elem_of_cons elem_of_nil in H.
    destruct H as [->|[->|[]]]; (eexists; split; [vm_compute; reflexivity|done]).
  - done.
  - intros pfn p H. apply elem_of_list_to_map_2 in H.
    rewrite !elem_of_cons elem_of_nil in H. destruct H as [[= -> ->]|[[= -> ->]|[[= -> ->]|[]]]];
      rewrite /frame_ok; lia.
  - intros pfn p H. apply elem_of_list_to_map_2 in H.
    rewrite !elem_of_cons elem_of_nil in H. destruct H as [[= -> ->]|[[= -> ->]|[[= -> ->]|[]]]];
      (apply fill_owned; [done|apply Z.leb_le; reflexivity]).
Qed.

Lemma alloc_page_witness : ∃ b' p, alloc_pages 1 ex_buddy = Ret (page_address 2, b') ∧
  buddy_inv b' [0] ∧ pfa ex_buddy !! 2 = Some p ∧ pg_count p = 0 ∧
  pfa b' = <[2 := set_count 1 p]> (pfa ex_buddy) ∧ nr_freepages b' = nr_freepages ex_buddy - 1 ∧
  bmem b' = bmem ex_buddy.
Proof. apply (alloc_page_correct ex_buddy [2; 0]). exact ex_buddy_inv. Defined.

Lemma free_page_witness : ∃ b', free_pages (page_address 1) 1 ex_buddy = Ret (tt, b') ∧
  buddy_inv b' [2; 0; 1] ∧ nr_freepages b' = nr_freepages ex_buddy + 1 ∧
  (∀ a, bmem b' !! a = if decide (page_address 1 ≤ a < page_address 1 + 4096)
                       then Some PAGE_POISON_PATTERN else bmem ex_buddy !! a).
Proof.
  apply (free_page_correct ex_buddy [2; 0] 1 (mk_page 1 0 0)).
  - exact ex_buddy_inv.
  - reflexivity.
  - reflexivity.
Defined.
