(* ===== verification/Memchunk.v ===== *)
(** * Object caches and kmalloc ([kernel/memchunk.c], [kernel/kmalloc.c],
      [include/scaraOS/memchunk.h])

    Slabs are page frames of the buddy allocator; [struct slab_hdr] lives in
    the union of [struct page], so a slab is designated by its frame.  The free
    objects of a slab are linked through their first word, in memory. *)
From S2P Require Import Prelude PageAlloc Kmem Buddy.

Definition OBJCACHE_POISON_PATTERN : Z := 0xa5.

(** The [c_o] arm of [struct slab_hdr]; [c_o.list] is the slab's place in the
    lists of its cache. *)
Record slab_hdr := mk_slab { c_cache : Z; c_free_list : Z; c_inuse : Z }.

(** [struct _objcache]; slabs are designated by frame, a cache by its address. *)
Record objcache := mk_objcache {
  o_sz : Z;
  o_num : Z;
  o_ptr : Z;
  o_ptr_end : Z;
  o_cur : option Z;
  o_partials : list Z;
  o_full : list Z;
  o_pool : Z
}.

Definition set_o_ptr (v : Z) (o : objcache) : objcache :=
  mk_objcache (o_sz o) (o_num o) v (o_ptr_end o) (o_cur o) (o_partials o) (o_full o) (o_pool o).
Definition set_o_ptr_end (v : Z) (o : objcache) : objcache :=
  mk_objcache (o_sz o) (o_num o) (o_ptr o) v (o_cur o) (o_partials o) (o_full o) (o_pool o).
Definition set_o_cur (v : option Z) (o : objcache) : objcache :=
  mk_objcache (o_sz o) (o_num o) (o_ptr o) (o_ptr_end o) v (o_partials o) (o_full o) (o_pool o).
Definition set_o_lists (pa fu : list Z) (o : objcache) : objcache :=
  mk_objcache (o_sz o) (o_num o) (o_ptr o) (o_ptr_end o) (o_cur o) pa fu (o_pool o).

Definition set_free_list (v : Z) (c : slab_hdr) : slab_hdr := mk_slab (c_cache c) v (c_inuse c).
Definition set_inuse (v : Z) (c : slab_hdr) : slab_hdr := mk_slab (c_cache c) (c_free_list c) v.

(** [struct _memchunk mc], [memsem], and the allocator and memory below. *)
Record memchunk := mk_memchunk {
  bd : buddy;
  slabs : gmap Z slab_hdr;
  caches : gmap Z objcache;
  p_caches : list Z;
  memsem : Z
}.

Definition set_bd (v : buddy) (m : memchunk) : memchunk :=
  mk_memchunk v (slabs m) (caches m) (p_caches m) (memsem m).
Definition upd_slabs (f : gmap Z slab_hdr → gmap Z slab_hdr) (m : memchunk) : memchunk :=
  mk_memchunk (bd m) (f (slabs m)) (caches m) (p_caches m) (memsem m).
Definition upd_caches (f : gmap Z objcache → gmap Z objcache) (m : memchunk) : memchunk :=
  mk_memchunk (bd m) (slabs m) (f (caches m)) (p_caches m) (memsem m).
Definition set_p_caches (v : list Z) (m : memchunk) : memchunk :=
  mk_memchunk (bd m) (slabs m) (caches m) v (memsem m).
Definition set_memsem (v : Z) (m : memchunk) : memchunk :=
  mk_memchunk (bd m) (slabs m) (caches m) (p_caches m) v.

Abbreviation C := (M memchunk).

Definition ld_slab (s : Z) : C slab_hdr := let! m := get in deref (slabs m !! s).
Definition st_slab (s : Z) (f : slab_hdr → slab_hdr) : C unit :=
  let! c := ld_slab s in modify (upd_slabs (insert s (f c))).
Definition ld_cache (o : Z) : C objcache := let! m := get in deref (caches m !! o).
Definition st_cache (o : Z) (f : objcache → objcache) : C unit :=
  let! oc := ld_cache o in modify (upd_caches (insert o (f oc))).
Definition ld_mem (a : Z) : C Z := zoom (bmem ∘ bd) (λ v m, set_bd (set_bmem v (bd m)) m) (ld32 a).
Definition st_mem (a v : Z) : C unit :=
  zoom (bmem ∘ bd) (λ v m, set_bd (set_bmem v (bd m)) m) (st32 a v).
Definition O_POISON (a len : Z) : C unit :=
  zoom (bmem ∘ bd) (λ v m, set_bd (set_bmem v (bd m)) m)
    (memset a OBJCACHE_POISON_PATTERN (Z.to_nat len)).

(** [list_move] of the slab's link to the front of a list of its cache,
    [list_del] of it. *)
Definition unlist (s : Z) (o : objcache) : objcache :=
  set_o_lists (filter (λ x, x ≠ s) (o_partials o)) (filter (λ x, x ≠ s) (o_full o)) o.
Definition move_partials (s : Z) (o : objcache) : objcache :=
  let o := unlist s o in set_o_lists (s :: o_partials o) (o_full o) o.
Definition move_full (s : Z) (o : objcache) : objcache :=
  let o := unlist s o in set_o_lists (o_partials o) (s :: o_full o) o.

Definition is_cur (s : Z) (o : objcache) : bool := bool_decide (o_cur o = Some s).

(** ** The cache operations *)

(** The two static caches and the global pool, by their addresses. *)
Definition m_gpool : Z := 0xc0180000.
Definition m_self_cache : Z := 0xc0180020.
Definition m_pool_cache : Z := 0xc0180054.
Definition sizeof_objcache : Z := 52.
Definition sizeof_mempool : Z := 32.
Definition sizeof_ptr : Z := 4.

Definition do_cache_init (p o obj_sz : Z) : C unit :=
  do! modify (upd_caches (insert o
    (mk_objcache obj_sz (PAGE_SIZE / obj_sz) NULL NULL None [] [] p))) then
  modify (λ m, set_p_caches (p_caches m ++ [o]) m).

Definition _memchunk_init : C unit :=
  do! modify (set_p_caches []) then
  do! do_cache_init m_gpool m_self_cache sizeof_objcache then
  do_cache_init m_gpool m_pool_cache sizeof_mempool.

(** A fresh slab: its frame and the address of its page. *)
Definition memchunk_get : C (Z * Z) :=
  let! pptr := zoom bd set_bd (alloc_pages 1) in
  do! bug_on (pptr =? NULL) then
  let pg := virt_to_page pptr in
  let! p := zoom bd set_bd (ld_page pg) in
  do! bug_on (negb (pg_count p =? 1)) then
  do! zoom bd set_bd (st_page pg (set_type PG_slab)) then
  ret (pg, pptr).

Definition memchunk_put (s : Z) : C unit :=
  do! modify (upd_slabs (delete s)) then
  zoom bd set_bd (free_pages (page_address s) 1).

Definition alloc_from_partial (o s : Z) : C Z :=
  let! c := ld_slab s in
  let r := c_free_list c in
  let! nxt := ld_mem r in
  do! st_slab s (set_free_list nxt) then
  do! st_slab s (λ c, set_inuse (u32 (c_inuse c + 1)) c) then
  let! oc := ld_cache o in
  do! when ((nxt =? NULL) && negb (is_cur s oc)) (st_cache o (move_full s)) then
  do! O_POISON r (o_sz oc) then
  ret r.

Definition alloc_fast (o : Z) : C Z :=
  let! oc := ld_cache o in
  let r := o_ptr oc in
  do! st_cache o (set_o_ptr (u32 (r + o_sz oc))) then
  let! s := deref (o_cur oc) in
  do! st_slab s (λ c, set_inuse (u32 (c_inuse c + 1)) c) then
  let! c := ld_slab s in
  do! when ((c_inuse c =? o_num oc) && (c_free_list c =? NULL))
        (st_cache o (λ oc, set_o_cur None (move_full s oc))) then
  do! O_POISON r (o_sz oc) then
  ret r.

Definition alloc_slow (o : Z) : C Z :=
  let! x := memchunk_get in
  let! oc := ld_cache o in
  do! st_cache o (set_o_cur (Some (fst x))) then
  do! st_cache o (set_o_ptr (snd x)) then
  do! st_cache o (set_o_ptr_end (u32 (snd x + o_sz oc * o_num oc))) then
  do! modify (upd_slabs (insert (fst x) (mk_slab o NULL 0))) then
  alloc_fast o.

(** The free list of the first partial slab, if there is one. *)
Definition first_partial (o : Z) : C (option Z) :=
  let! oc := ld_cache o in ret (head (o_partials oc)).

Definition do_alloc (o : Z) : C Z :=
  if o =? NULL then ret NULL else
  do! zoom memsem set_memsem down then
  let! s := first_partial o in
  let! fl := (match s with Some s => let! c := ld_slab s in ret (c_free_list c) | None => ret NULL end) in
  let! oc := ld_cache o in
  let! r := (match s with
    | Some s =>
      if negb (fl =? NULL) then alloc_from_partial o s
      else if u32 (o_ptr oc + o_sz oc) <=? o_ptr_end oc then alloc_fast o else alloc_slow o
    | None => if u32 (o_ptr oc + o_sz oc) <=? o_ptr_end oc then alloc_fast o else alloc_slow o
    end) in
  do! zoom memsem set_memsem sem_up then
  ret r.

Definition objcache_alloc (o : Z) : C Z := do_alloc o.

Definition objcache_alloc0 (o : Z) : C Z :=
  let! r := do_alloc o in
  do! when (negb (r =? NULL))
    (let! oc := ld_cache o in
     zoom (bmem ∘ bd) (λ v m, set_bd (set_bmem v (bd m)) m) (memset r 0 (Z.to_nat (o_sz oc)))) then
  ret r.

(** [for(tmp = free_list; tmp; tmp = *tmp) BUG_ON(tmp == obj);] *)
Fixpoint check_free_list (fuel : nat) (tmp obj : Z) : C unit :=
  match fuel with
  | O => nofuel
  | S fuel =>
    if tmp =? NULL then ret tt else
    do! bug_on (tmp =? obj) then
    let! nxt := ld_mem tmp in
    check_free_list fuel nxt obj
  end.

(** A slab holds at most [PAGE_SIZE / 4] objects, so its free list is shorter. *)
Definition free_list_fuel : nat := 1025.

Definition do_cache_free (o s obj : Z) : C unit :=
  let! c := ld_slab s in
  let! oc := ld_cache o in
  do! bug_on (c_inuse c =? 0) then
  do! bug_on (o_num oc <? c_inuse c) then
  do! bug_on ((o_ptr oc <=? obj) && (obj <=? o_ptr_end oc)) then
  do! zoom memsem set_memsem down then
  do! check_free_list free_list_fuel (c_free_list c) obj then
  do! when (c_free_list c =? NULL)
    (do! bug_on (negb (is_cur s oc) && negb (c_inuse c =? o_num oc)) then
     st_cache o (move_partials s)) then
  do! O_POISON obj (o_sz oc) then
  do! st_mem obj (c_free_list c) then
  do! st_slab s (set_free_list obj) then
  do! st_slab s (set_inuse (u32 (c_inuse c - 1))) then
  do! when (u32 (c_inuse c - 1) =? 0)
    (do! st_cache o (unlist s) then
     do! when (is_cur s oc)
       (st_cache o (λ oc, set_o_cur None (set_o_ptr NULL (set_o_ptr_end NULL oc)))) then
     memchunk_put s) then
  zoom memsem set_memsem sem_up.

(** The checks both entry points share. *)
Definition free_checks (s : Z) : C unit :=
  let! p := zoom bd set_bd (ld_page s) in
  do! bug_on (negb (pg_type p =? PG_slab)) then
  bug_on (negb (pg_count p =? 1)).
Definition slab_is_on (s : Z) (l : list Z) : bool := bool_decide (s ∈ l).
Definition list_checks (s : Z) : C unit :=
  let! c := ld_slab s in
  let! oc := ld_cache (c_cache c) in
  bug_on (negb (is_cur s oc) && negb (slab_is_on s (o_partials oc)) &&
          negb (slab_is_on s (o_full oc))).

Definition objcache_free (obj : Z) : C unit :=
  if obj =? NULL then ret tt else
  let s := virt_to_page obj in
  do! free_checks s then
  do! list_checks s then
  let! c := ld_slab s in
  do_cache_free (c_cache c) s obj.

Definition objcache_free2 (o obj : Z) : C unit :=
  if obj =? NULL then ret tt else
  let s := virt_to_page obj in
  do! free_checks s then
  let! c := ld_slab s in
  do! bug_on (negb (c_cache c =? o)) then
  do! list_checks s then
  do_cache_free o s obj.

Definition objcache_init (pool obj_sz : Z) : C Z :=
  do! bug_on (PAGE_SIZE <? obj_sz) then
  if obj_sz =? 0 then ret NULL else
  let obj_sz := if obj_sz <? sizeof_ptr then sizeof_ptr else obj_sz in
  let! o := objcache_alloc m_self_cache in
  if o =? NULL then ret NULL else
  let pool := if pool =? NULL then m_gpool else pool in
  do! do_cache_init pool o obj_sz then
  ret o.

(** ** [kernel/kmalloc.c] *)

Definition NR_CACHE : nat := 11.

(** [for(sz = (1 << 2), i = 0; i < NR_CACHE; i++, sz <<= 1)]: the caches in
    order of size, 4 to 4096. *)
Fixpoint kmalloc_init_loop (n : nat) (sz : Z) : C (list Z) :=
  match n with
  | O => ret []
  | S n =>
    let! o := objcache_init NULL sz in
    do! bug_on (o =? NULL) then
    let! rest := kmalloc_init_loop n (Z.shiftl sz 1) in
    ret (o :: rest)
  end.
Definition _kmalloc_init : C (list Z) := kmalloc_init_loop NR_CACHE (Z.shiftl 1 2).

Fixpoint kmalloc_loop (alloc : Z → C Z) (general_cache : list Z) (sz alloc_sz : Z) : C Z :=
  match general_cache with
  | [] => ret NULL
  | o :: rest =>
    if alloc_sz <=? sz then alloc o else kmalloc_loop alloc rest (Z.shiftl sz 1) alloc_sz
  end.
Definition kmalloc (general_cache : list Z) (alloc_sz : Z) : C Z :=
  kmalloc_loop objcache_alloc general_cache (Z.shiftl 1 2) alloc_sz.
Definition kmalloc0 (general_cache : list Z) (alloc_sz : Z) : C Z :=
  kmalloc_loop objcache_alloc0 general_cache (Z.shiftl 1 2) alloc_sz.
Definition kfree (ptr : Z) : C unit := objcache_free ptr.

(** ** A false alarm of the debug check

    [do_cache_free] panics when the freed object lies between [o_ptr] and
    [o_ptr_end], both included.  But [o_ptr_end] is the first byte after the
    current slab: for object sizes that divide the page size it is the first
    object of the next page, which may be a live object of the same cache. *)

(** Four free frames, in the order 0, 2, 1, 3. *)
Definition ex_ram : mem := fill PAGE_OFFSET 0 (Z.to_nat (4 * 4096)) ∅.
Definition ex_bd : buddy :=
  mk_buddy (list_to_map ((λ i, (i, mk_page 0 0 0)) <$> seqZ 0 4)) {[ 1 := [0; 2; 1; 3] ]} 1 4 ex_ram.
Definition ex_mc : memchunk := mk_memchunk ex_bd ∅ ∅ [] 1.

(** A cache of half pages; two objects fill frame 2, the third opens frame 1.
    The first object is then freed. *)
Definition false_alarm : C unit :=
  do! _memchunk_init then
  let! o := objcache_init NULL 2048 in
  let! a := objcache_alloc o in
  let! b := objcache_alloc o in
  let! c := objcache_alloc o in
  objcache_free a.

(** Symbolic execution: everything but the poisoning is evaluated. *)
Lemma wp_eval {A} (c : C A) (Q : A → memchunk → Prop) m a m' : c m = Ret (a, m') → Q a m' → wp c Q m.
Proof. rewrite /wp. by intros ->. Qed.

Lemma bind_outcome {A B} (c : C A) (k : A → C B) m o : wp c (λ a m', k a m' = o) m → bind c k m = o.
Proof. rewrite /wp /bind. by destruct (c m) as [[]| | | |]. Qed.

Definition ram_of (m : memchunk) : mem := bmem (bd m).
Lemma wp_O_POISON a len m b n (Q : unit → memchunk → Prop) :
  owned (ram_of m) b (Z.to_nat n) → b ≤ a → 0 ≤ len → a + len ≤ b + n →
  (∀ ram, owned ram b (Z.to_nat n) → Q tt (set_bd (set_bmem ram (bd m)) m)) → wp (O_POISON a len) Q m.
Proof.
  intros Ho H1 H2 H3 HQ. apply wp_zoom. apply wp_memset; [eapply owned_sub; [exact Ho|lia..]|]. apply HQ. by apply owned_fill.
Qed.

Ltac ev_step :=
  cbv beta; cbn [fst snd];
  match goal with
  | |- bind _ _ _ = _ => apply bind_outcome
  | |- wp (O_POISON _ _) _ _ => eapply wp_O_POISON; [eassumption|apply Z.leb_le; reflexivity..|intros ? ?]
  | |- wp (bind _ _) _ _ => apply wp_bind
  | |- wp (if ?b then _ else _) _ _ => let v := eval vm_compute in b in change b with v; cbv iota
  | |- wp (match ?x with Some _ => _ | None => _ end) _ _ => cbn [head]
  | |- wp (objcache_init _ _) _ _ => unfold objcache_init
  | |- wp (objcache_alloc _) _ _ => unfold objcache_alloc
  | |- wp (do_alloc _) _ _ => unfold do_alloc
  | |- wp (alloc_slow _) _ _ => unfold alloc_slow
  | |- wp (alloc_fast _) _ _ => unfold alloc_fast
  | |- wp ?c _ ?m => let r := eval vm_compute in (c m) in
      match r with Ret (?a, ?m') => apply (wp_eval c _ m a m'); [vm_compute; reflexivity|] end
  end.

(** A live object that is the first of the page after the current slab
    cannot be freed: the check of [do_cache_free] stops the kernel. *)
Theorem objcache_free_false_alarm : false_alarm ex_mc = Bug.
Proof.
  assert (owned ex_ram 0xc0000000 (Z.to_nat (4 * 4096))) as Ho by (apply fill_owned; [done|apply Z.leb_le; reflexivity]).
  unfold ex_mc, ex_bd. generalize dependent ex_ram. intros ram Ho. unfold false_alarm.
  repeat ev_step. vm_compute. reflexivity.
Qed.
