(* ===== verification/MemchunkProps.v ===== *)
(** * What the object caches promise ([kernel/memchunk.c], [kernel/kmalloc.c])

    The invariant of the allocator relates the headers of the slabs, the lists
    of the caches and the free objects linked through memory to the list of
    free objects of every slab.  An allocation hands out an object nobody
    holds and touches no other; a free takes it back. *)
From S2P Require Import Prelude PageAlloc Kmem Buddy Memchunk.

(** ** Words and chains of free objects *)

Definition word (m : mem) (a v : Z) : Prop := ld32 a m = Ret (v, m).

Lemma word_cong m m' a v : (∀ b, a ≤ b < a + 4 → m' !! b = m !! b) → word m a v → word m' a v.
Proof.
  intros H. rewrite /word /ld32 /ld8 /bind /get.
  do 4 (rewrite H; [lia|]; match goal with |- context [deref (?x : option Z)] => destruct x; cbn; [|done] end).
  rewrite /ret. by intros [= <-].
Qed.

Lemma word_intro m a b0 b1 b2 b3 : m !! a = Some b0 → m !! (a + 1) = Some b1 → m !! (a + 2) = Some b2 →
  m !! (a + 3) = Some b3 → word m a (b0 + 2 ^ 8 * b1 + 2 ^ 16 * b2 + 2 ^ 24 * b3).
Proof. intros H0 H1 H2 H3. by rewrite /word /ld32 /ld8 /bind /get H0 /= H1 /= H2 /= H3. Qed.

Lemma wp_ld32 a v m (Q : Z → mem → Prop) : word m a v → Q v m → wp (ld32 a) Q m.
Proof. rewrite /word /wp. by intros ->. Qed.

Lemma shiftr_byte v i : 0 ≤ i → u8 (Z.shiftr v i) = v / 2 ^ i mod 256.
Proof. intros Hi. rewrite /u8 Z.shiftr_div_pow2 //. Qed.

Lemma word_split v : 0 ≤ v < 2 ^ 32 →
  v mod 256 + 2 ^ 8 * (v / 2 ^ 8 mod 256) + 2 ^ 16 * (v / 2 ^ 16 mod 256) + 2 ^ 24 * (v / 2 ^ 24 mod 256) = v.
Proof.
  intros Hv. change (2 ^ 16) with (2 ^ 8 * 2 ^ 8). change (2 ^ 24) with (2 ^ 8 * 2 ^ 8 * 2 ^ 8).
  change (2 ^ 8) with 256. rewrite -!Z.div_div //.
  assert (0 ≤ v / 256 / 256 / 256 < 256) as Hc.
  { rewrite !Z.div_div //. split; [apply Z.div_pos; lia|apply Z.div_lt_upper_bound; lia]. }
  rewrite (Z.mod_small (v / 256 / 256 / 256) 256) //.
  pose proof (Z.div_mod v 256 ltac:(lia)). pose proof (Z.div_mod (v / 256) 256 ltac:(lia)).
  pose proof (Z.div_mod (v / 256 / 256) 256 ltac:(lia)). lia.
Qed.

Lemma wp_st32 a v m (Q : unit → mem → Prop) : 0 ≤ v < 2 ^ 32 → owned m a 4 →
  (∀ m', word m' a v → (∀ b, ¬ a ≤ b < a + 4 → m' !! b = m !! b) → (∀ b, is_Some (m !! b) → is_Some (m' !! b)) → Q tt m') →
  wp (st32 a v) Q m.
Proof.
  intros Hv Ho HQ. rewrite /st32.
  do 3 (apply wp_bind, wp_st8; [repeat apply owned_insert; (apply Ho || apply (owned_insert _ _ _ _ _ Ho)
    || apply (owned_insert _ _ _ _ _ (owned_insert _ _ _ _ _ Ho))); lia|]).
  apply wp_st8; [apply (owned_insert _ _ _ _ _ (owned_insert _ _ _ _ _ (owned_insert _ _ _ _ _ Ho))); lia|].
  apply HQ.
  - match goal with |- word ?m4 a v =>
      pose proof (word_intro m4 a (v mod 256) (v / 2 ^ 8 mod 256) (v / 2 ^ 16 mod 256) (v / 2 ^ 24 mod 256)) as W end.
    rewrite (word_split v Hv) in W. apply W; repeat (rewrite lookup_insert_eq || (rewrite lookup_insert_ne; [lia|]));
      try (rewrite shiftr_byte; [lia|]); done.
  - intros b Hb. rewrite !lookup_insert_ne //; lia.
  - intros b Hb. repeat (apply lookup_insert_is_Some'; right). done.
Qed.

(** The free objects of a slab, from the head of its list on. *)
Fixpoint chain (m : mem) (p : Z) (F : list Z) : Prop :=
  match F with
  | [] => p = NULL
  | x :: F => p = x ∧ x ≠ NULL ∧ ∃ nxt, word m x nxt ∧ chain m nxt F
  end.

Lemma chain_cong m m' p F : (∀ x b, x ∈ F → x ≤ b < x + 4 → m' !! b = m !! b) → chain m p F → chain m' p F.
Proof.
  revert p. induction F as [|x F IH]; intros p H; [done|]. cbn. intros (-> & Hx & nxt & Hw & Hc).
  split_and!; [done|done|]. exists nxt. split.
  - apply (word_cong m); [|done]. intros b Hb. apply (H x); [set_solver|done].
  - apply IH; [|done]. intros y b Hy. apply H. set_solver.
Qed.

Lemma chain_null m p F : chain m p F → (p =? NULL) = bool_decide (F = []).
Proof. destruct F as [|x F]; cbn; [by intros ->|]. intros (-> & Hx & _). by apply Z.eqb_neq. Qed.

(** ** The invariant *)

Definition obj_at (s sz k : Z) : Z := page_address s + k * sz.

(** How many objects of slab [s] were ever handed out: those below [o_ptr] in
    the current slab, all in the others. *)
Definition used (oc : objcache) (s : Z) : Z :=
  if decide (o_cur oc = Some s) then (o_ptr oc - page_address s) / o_sz oc else o_num oc.

(** Slab [s] with header [c], whose free objects are [F]; [e] is a slab that
    may have no object in use. *)
Record slab_ok (e : Z) (m : memchunk) (s : Z) (c : slab_hdr) (oc : objcache) (F : list Z) : Prop := {
  so_chain : chain (bmem (bd m)) (c_free_list c) F;
  so_nodup : NoDup F;
  so_objs x : x ∈ F → ∃ k, 0 ≤ k < used oc s ∧ x = obj_at s (o_sz oc) k;
  so_inuse : c_inuse c = used oc s - Z.of_nat (length F);
  so_pos : s ≠ e → 0 < c_inuse c;
  so_list : F ≠ [] → s ∈ o_partials oc;
  so_page : ∃ p, pfa (bd m) !! s = Some p ∧ pg_type p = PG_slab ∧ pg_count p = 1
}.

(** [o_ptr] is between two objects of the current slab and [o_ptr_end] behind
    its last; without a current slab the two are the same. *)
Definition ptr_ok (oc : objcache) : Prop :=
  match o_cur oc with
  | Some s => (∃ b, 0 ≤ b ≤ o_num oc ∧ o_ptr oc = obj_at s (o_sz oc) b) ∧ o_ptr_end oc = obj_at s (o_sz oc) (o_num oc)
  | None => o_ptr oc = o_ptr_end oc ∧ 0 ≤ o_ptr oc ≤ 2 ^ 32 - 8192
  end.

(** The slabs a cache knows. *)
Definition on (oc : objcache) (s : Z) : Prop := o_cur oc = Some s ∨ s ∈ o_partials oc ∨ s ∈ o_full oc.

Record cache_ok (m : memchunk) (o : Z) (oc : objcache) : Prop := {
  co_sz : 4 ≤ o_sz oc ≤ 4096;
  co_num : o_num oc = 4096 / o_sz oc;
  co_ptr : ptr_ok oc;
  co_full s : o_cur oc = Some s → o_ptr oc = o_ptr_end oc → s ∈ o_partials oc;
  co_on s : on oc s ↔ ∃ c, slabs m !! s = Some c ∧ c_cache c = o
}.

(** [l] are the free frames, [fl] the free objects of the slabs.  The last two
    frames of the address space hold no memory: addresses after a slab do not
    wrap around. *)
Record mc_inv (e : Z) (m : memchunk) (l : list Z) (fl : gmap Z (list Z)) : Prop := {
  mi_buddy : buddy_inv (bd m) l;
  mi_top s p : pfa (bd m) !! s = Some p → s < 0x3fffe;
  mi_cache o oc : caches m !! o = Some oc → cache_ok m o oc;
  mi_slab s c : slabs m !! s = Some c →
    ∃ oc F, caches m !! c_cache c = Some oc ∧ fl !! s = Some F ∧ slab_ok e m s c oc F;
  mi_dom s : is_Some (fl !! s) → is_Some (slabs m !! s)
}.

(** No slab may be empty: the states between operations. *)
Definition no_slab : Z := -1.

(** [x] is an object of slab [s] that is handed out; of a slab of cache [o];
    of such a slab other than [e]. *)
Definition slab_live (oc : objcache) (s : Z) (F : list Z) (x : Z) : Prop :=
  ∃ k, 0 ≤ k < used oc s ∧ x = obj_at s (o_sz oc) k ∧ x ∉ F.
Definition live_off (e : Z) (m : memchunk) (fl : gmap Z (list Z)) (o x : Z) : Prop :=
  ∃ s c oc F, s ≠ e ∧ slabs m !! s = Some c ∧ c_cache c = o ∧ caches m !! o = Some oc ∧ fl !! s = Some F ∧
    slab_live oc s F x.
Definition live (m : memchunk) (fl : gmap Z (list Z)) (o x : Z) : Prop :=
  ∃ s c oc F, slabs m !! s = Some c ∧ c_cache c = o ∧ caches m !! o = Some oc ∧ fl !! s = Some F ∧ slab_live oc s F x.

(** The bytes of an object. *)
Definition in_obj (x sz a : Z) : Prop := x ≤ a < x + sz.

Section facts.
Context (e : Z) (m : memchunk) (l : list Z) (fl : gmap Z (list Z)) (Hm : mc_inv e m l fl).

Lemma cache_num o oc : caches m !! o = Some oc → 1 ≤ o_num oc ≤ 1024 ∧ o_sz oc * o_num oc ≤ 4096.
Proof.
  intros Ho. destruct (mi_cache _ _ _ _ Hm _ _ Ho) as [Hsz Hn _ _ _]. rewrite Hn.
  pose proof (Z.div_mod 4096 (o_sz oc) ltac:(lia)). pose proof (Z.mod_pos_bound 4096 (o_sz oc) ltac:(lia)). nia.
Qed.

Lemma used_cur oc s b : o_cur oc = Some s → 0 < o_sz oc → o_ptr oc = obj_at s (o_sz oc) b → used oc s = b.
Proof.
  intros Hc Hs Hp. rewrite /used decide_True // Hp /obj_at (_ : _ + _ - _ = b * o_sz oc); [lia|]. apply Z.div_mul. lia.
Qed.

Lemma used_range o oc s c : caches m !! o = Some oc → slabs m !! s = Some c → 0 ≤ used oc s ≤ o_num oc.
Proof.
  intros Ho Hs. pose proof (cache_num o oc Ho) as [Hn _]. destruct (mi_cache _ _ _ _ Hm _ _ Ho) as [Hsz _ Hcur _ _].
  destruct (decide (o_cur oc = Some s)) as [E|E]; [|rewrite /used decide_False //; lia].
  rewrite /ptr_ok E in Hcur. destruct Hcur as ((b & Hb & Hp) & _). rewrite (used_cur oc s b) //. lia.
Qed.

(** Frames of slabs are in the linear mapping, below its last two. *)
Lemma slab_frame s c : slabs m !! s = Some c → 0 ≤ s < 0x3fffe ∧ page_address s = PAGE_OFFSET + 4096 * s.
Proof.
  intros Hs. destruct (mi_slab _ _ _ _ Hm _ _ Hs) as (oc & F & _ & _ & [_ _ _ _ _ _ (p & Hp & _)]).
  pose proof (bi_frame _ _ (mi_buddy _ _ _ _ Hm) _ _ Hp) as Hf. pose proof (mi_top _ _ _ _ Hm _ _ Hp).
  split; [rewrite /frame_ok in Hf; lia|by apply page_address_eq].
Qed.

Lemma obj_bounds o oc s c k : caches m !! o = Some oc → slabs m !! s = Some c → 0 ≤ k < o_num oc →
  page_address s ≤ obj_at s (o_sz oc) k ∧ obj_at s (o_sz oc) k + o_sz oc ≤ page_address s + 4096.
Proof.
  intros Ho Hs Hk. pose proof (cache_num o oc Ho) as [_ Hn]. destruct (mi_cache _ _ _ _ Hm _ _ Ho) as [Hsz _ _ _ _].
  rewrite /obj_at. nia.
Qed.

Lemma obj_owned o oc s c k : caches m !! o = Some oc → slabs m !! s = Some c → 0 ≤ k < o_num oc →
  owned (bmem (bd m)) (obj_at s (o_sz oc) k) (Z.to_nat (o_sz oc)).
Proof.
  intros Ho Hs Hk. destruct (obj_bounds o oc s c k Ho Hs Hk) as [H1 H2].
  destruct (mi_slab _ _ _ _ Hm _ _ Hs) as (oc' & F & _ & _ & [_ _ _ _ _ _ (p & Hp & _)]).
  destruct (mi_cache _ _ _ _ Hm _ _ Ho) as [Hsz _ _ _ _].
  apply (owned_sub _ (page_address s) 4096); [apply (bi_mapped _ _ (mi_buddy _ _ _ _ Hm) _ _ Hp)|lia|lia].
Qed.

(** Objects of slabs never overlap. *)
Lemma objs_apart s c oc k s' c' oc' k' a :
  slabs m !! s = Some c → caches m !! c_cache c = Some oc → 0 ≤ k < o_num oc →
  slabs m !! s' = Some c' → caches m !! c_cache c' = Some oc' → 0 ≤ k' < o_num oc' →
  in_obj (obj_at s (o_sz oc) k) (o_sz oc) a → in_obj (obj_at s' (o_sz oc') k') (o_sz oc') a →
  obj_at s (o_sz oc) k = obj_at s' (o_sz oc') k' ∧ s = s'.
Proof.
  intros Hs Ho Hk Hs' Ho' Hk' Ha Ha'. rewrite /in_obj in Ha, Ha'.
  pose proof (obj_bounds _ _ _ _ _ Ho Hs Hk). pose proof (obj_bounds _ _ _ _ _ Ho' Hs' Hk').
  destruct (slab_frame _ _ Hs) as [_ E], (slab_frame _ _ Hs') as [_ E'].
  assert (s = s') as <- by lia. rewrite Hs in Hs'. injection Hs' as <-. rewrite Ho in Ho'. injection Ho' as <-.
  split; [|done]. destruct (mi_cache _ _ _ _ Hm _ _ Ho) as [Hsz _ _ _ _]. rewrite /obj_at in Ha, Ha' |- *.
  assert (k = k') as -> by nia. done.
Qed.
End facts.

Lemma buddy_inv_bmem b l ram : (∀ a, is_Some (bmem b !! a) → is_Some (ram !! a)) → buddy_inv b l → buddy_inv (set_bmem ram b) l.
Proof.
  intros Hd [H1 H2 H3 H4 H5 H6 H7]. split; try done. intros pfn p Hp a Ha. apply Hd. by apply (H7 pfn p Hp).
Qed.

(** Keeping a slab through a change elsewhere. *)
Lemma slab_ok_keep e e' m m' s c oc oc' F :
  slab_ok e m s c oc F → (∀ x a, x ∈ F → in_obj x 4 a → bmem (bd m') !! a = bmem (bd m) !! a) →
  pfa (bd m') !! s = pfa (bd m) !! s → used oc' s = used oc s → o_sz oc' = o_sz oc → (s ≠ e' → s ≠ e) →
  (s ∈ o_partials oc → s ∈ o_partials oc') → slab_ok e' m' s c oc' F.
Proof.
  intros [H1 H2 H3 H4 H5 H6 H7] Hmem Hp Hu Hsz He Hpa. split; rewrite ?Hu ?Hsz ?Hp; auto.
  apply (chain_cong (bmem (bd m))); [|done]. intros x a Hx Ha. by apply (Hmem x).
Qed.

(** ** The steps of the operations

    A change of one slab, its cache, and the bytes of one of its objects. *)
Definition upd (m : memchunk) (ram : mem) (s : Z) (c : slab_hdr) (o : Z) (oc : objcache) : memchunk :=
  mk_memchunk (set_bmem ram (bd m)) (<[s := c]> (slabs m)) (<[o := oc]> (caches m)) (p_caches m) (memsem m).

Lemma upd_inv e e' m l fl s c c' o oc oc' F F' k ram :
  mc_inv e m l fl → slabs m !! s = Some c → c_cache c = o → caches m !! o = Some oc → fl !! s = Some F →
  (∀ s', is_Some (slabs m !! s') → s' ≠ s → s' ≠ e' → s' ≠ e) → c_cache c' = o → o_sz oc' = o_sz oc → o_num oc' = o_num oc → 0 ≤ k < o_num oc →
  (∀ a, ¬ in_obj (obj_at s (o_sz oc) k) (o_sz oc) a → ram !! a = bmem (bd m) !! a) →
  (∀ a, is_Some (bmem (bd m) !! a) → is_Some (ram !! a)) →
  (∀ s', s' ≠ s → used oc' s' = used oc s') → ptr_ok oc' → (∀ s', on oc' s' ↔ on oc s') →
  (∀ s', s' ≠ s → s' ∈ o_partials oc → s' ∈ o_partials oc') →
  (∀ s', o_cur oc' = Some s' → o_ptr oc' = o_ptr_end oc' → s' ∈ o_partials oc') →
  slab_ok e' (upd m ram s c' o oc') s c' oc' F' →
  mc_inv e' (upd m ram s c' o oc') l (<[s := F']> fl).
Proof.
  intros Hm Hs Hc Ho HF He Hc' Hsz Hn Hk Hram Hdom Hu Hp Hon Hpa Hfu Hok.
  pose proof (mi_cache _ _ _ _ Hm _ _ Ho) as [C1 C2 C3 C5 C4]. split; cbn.
  - apply buddy_inv_bmem; [done|apply Hm].
  - apply Hm.
  - intros o1 oc1 [[<- <-]|[Hne Ho1]]%lookup_insert_Some.
    + split; [by rewrite Hsz|by rewrite Hn Hsz|done|exact Hfu|]. intros s1. rewrite Hon C4 /=. split.
      * intros (c1 & Hs1 & Hc1). destruct (decide (s1 = s)) as [-> |]; [exists c'; by rewrite lookup_insert_eq|].
        exists c1. rewrite lookup_insert_ne; [congruence|done].
      * intros (c1 & [[<- <-]|[Hne Hs1]]%lookup_insert_Some & Hc1); [by exists c|by exists c1].
    + destruct (mi_cache _ _ _ _ Hm _ _ Ho1) as [D1 D2 D3 D5 D4]. split; [done..|]. intros s1. rewrite D4 /=. split.
      * intros (c1 & Hs1 & Hc1). exists c1. rewrite lookup_insert_ne //. intros <-. congruence.
      * intros (c1 & [[<- <-]|[Hne1 Hs1]]%lookup_insert_Some & Hc1); [congruence|by exists c1].
  - intros s1 c1 [[<- <-]|[Hne Hs1]]%lookup_insert_Some.
    + exists oc', F'. rewrite Hc' !lookup_insert_eq. done.
    + destruct (mi_slab _ _ _ _ Hm _ _ Hs1) as (oc1 & F1 & Ho1 & HF1 & Hok1).
      assert (Hap : ∀ x a, x ∈ F1 → in_obj x 4 a → ram !! a = bmem (bd m) !! a).
      { intros x a Hx Ha. apply Hram. intros Hin. destruct (so_objs _ _ _ _ _ _ Hok1 x Hx) as (k1 & Hk1 & ->).
        pose proof (used_range _ _ _ _ Hm _ _ _ _ Ho1 Hs1). pose proof (co_sz _ _ _ (mi_cache _ _ _ _ Hm _ _ Ho1)).
        apply Hne. apply (objs_apart _ _ _ _ Hm s c oc k s1 c1 oc1 k1 a); try done; [by rewrite Hc|lia|].
        rewrite /in_obj in Ha |- *. lia. }
      destruct (decide (c_cache c1 = o)) as [E|E].
      * assert (oc1 = oc) as -> by congruence. exists oc', F1. rewrite E lookup_insert_eq lookup_insert_ne //. split_and!; [done..|].
        apply (slab_ok_keep e e' m _ s1 c1 oc oc' F1 Hok1); [exact Hap|done|apply Hu; congruence|done|apply He; [rewrite Hs1; eauto|congruence]|apply Hpa; congruence].
      * exists oc1, F1. rewrite !lookup_insert_ne; [congruence..|]. split_and!; [done..|].
        apply (slab_ok_keep e e' m _ s1 c1 oc1 oc1 F1 Hok1); [exact Hap|done|done|done|apply He; [rewrite Hs1; eauto|congruence]|done].
  - intros s1. destruct (decide (s1 = s)) as [-> |]; [rewrite !lookup_insert_eq; eauto|].
    rewrite !lookup_insert_ne; [congruence..|]. apply Hm.
Qed.

Lemma live_split m fl s c oc F o x :
  slabs m !! s = Some c → caches m !! c_cache c = Some oc → fl !! s = Some F →
  live m fl o x ↔ (o = c_cache c ∧ slab_live oc s F x) ∨ live_off s m fl o x.
Proof.
  intros Hs Ho HF. split.
  - intros (s1 & c1 & oc1 & F1 & Hs1 & <- & Ho1 & HF1 & Hl). destruct (decide (s1 = s)) as [-> |Hne].
    + left. simplify_eq. done.
    + right. exists s1, c1, oc1, F1. done.
  - intros [[-> Hl]|(s1 & c1 & oc1 & F1 & _ & H)]; [by exists s, c, oc, F|by exists s1, c1, oc1, F1].
Qed.

Lemma slab_live_used oc oc' s F x : o_sz oc' = o_sz oc → used oc' s = used oc s → slab_live oc' s F x ↔ slab_live oc s F x.
Proof. intros Hs Hu. rewrite /slab_live Hs Hu. done. Qed.

Lemma live_off_upd m fl s c' o oc oc' F' ram o1 x :
  caches m !! o = Some oc → o_sz oc' = o_sz oc → (∀ s', s' ≠ s → used oc' s' = used oc s') →
  live_off s (upd m ram s c' o oc') (<[s := F']> fl) o1 x ↔ live_off s m fl o1 x.
Proof.
  intros Ho Hsz Hu. split; intros (s1 & c1 & oc1 & F1 & Hne & Hs1 & Hc1 & Ho1 & HF1 & Hl); cbn in *.
  - rewrite lookup_insert_ne in Hs1; [congruence|]. rewrite lookup_insert_ne in HF1; [congruence|].
    apply lookup_insert_Some in Ho1 as [[<- <-]|[_ Ho1]]; [|by exists s1, c1, oc1, F1].
    exists s1, c1, oc, F1. split_and!; [done..|]. apply (slab_live_used oc oc'); auto.
  - assert (Hl' : ∃ oc2, <[o := oc']> (caches m) !! o1 = Some oc2 ∧ slab_live oc2 s1 F1 x).
    { destruct (decide (o1 = o)) as [-> |]; [exists oc'; rewrite lookup_insert_eq|exists oc1; rewrite lookup_insert_ne; [congruence|done]].
      split; [done|]. rewrite Ho in Ho1. injection Ho1 as <-. apply (slab_live_used oc oc'); auto. }
    destruct Hl' as (oc2 & H2 & Hl2). exists s1, c1, oc2, F1. cbn.
    split_and!; [done|rewrite lookup_insert_ne; [congruence|done]|done|exact H2|rewrite lookup_insert_ne; [congruence|done]|exact Hl2].
Qed.

(** Objects that are handed out do not overlap, whichever cache they are of. *)
Lemma live_apart e m l fl o1 oc1 x1 o2 oc2 x2 a :
  mc_inv e m l fl → live m fl o1 x1 → caches m !! o1 = Some oc1 → live m fl o2 x2 → caches m !! o2 = Some oc2 →
  in_obj x1 (o_sz oc1) a → in_obj x2 (o_sz oc2) a → x1 = x2 ∧ o1 = o2.
Proof.
  intros Hm (s1 & c1 & ? & F1 & Hs1 & <- & E1 & _ & k1 & Hk1 & -> & _) Ho1 (s2 & c2 & ? & F2 & Hs2 & <- & E2 & _ & k2 & Hk2 & -> & _) Ho2 Ha1 Ha2.
  rewrite Ho1 in E1. injection E1 as <-. rewrite Ho2 in E2. injection E2 as <-.
  pose proof (used_range _ _ _ _ Hm _ _ _ _ Ho1 Hs1). pose proof (used_range _ _ _ _ Hm _ _ _ _ Ho2 Hs2).
  destruct (objs_apart _ _ _ _ Hm s1 c1 oc1 k1 s2 c2 oc2 k2 a) as [E <-]; [done|done|lia|done|done|lia|done|done|].
  simplify_eq. done.
Qed.

(** ** Lists of slabs *)

Lemma elem_filter_ne (s x : Z) (l : list Z) : x ∈ filter (λ y, y ≠ s) l ↔ x ≠ s ∧ x ∈ l.
Proof. by rewrite list_elem_of_filter. Qed.

Lemma on_move_full s oc s' : on oc s → on (move_full s oc) s' ↔ on oc s'.
Proof.
  intros Hs. rewrite /on /move_full /unlist /= elem_of_cons !elem_filter_ne.
  destruct (decide (s' = s)) as [-> |]; [by split; auto|]. naive_solver.
Qed.
Lemma on_move_partials s oc s' : on oc s → on (move_partials s oc) s' ↔ on oc s'.
Proof.
  intros Hs. rewrite /on /move_partials /unlist /= elem_of_cons !elem_filter_ne.
  destruct (decide (s' = s)) as [-> |]; [by split; auto|]. naive_solver.
Qed.

(** ** Allocation *)

(** What an allocation of an object [r] of cache [o] does. *)
Record allocated (m : memchunk) (fl : gmap Z (list Z)) (o r : Z) (oc : objcache) (m' : memchunk) (fl' : gmap Z (list Z)) : Prop := {
  al_new o1 : ¬ live m fl o1 r;
  al_live o1 x : live m' fl' o1 x ↔ live m fl o1 x ∨ o1 = o ∧ x = r;
  al_mem a : ¬ in_obj r (o_sz oc) a → bmem (bd m') !! a = bmem (bd m) !! a;
  al_poison a : in_obj r (o_sz oc) a → bmem (bd m') !! a = Some OBJCACHE_POISON_PATTERN;
  al_range : PAGE_OFFSET ≤ r ∧ r + o_sz oc ≤ 2 ^ 32 ∧ r / 4096 = (r + o_sz oc - 1) / 4096;
  al_sizes o1 : o_sz <$> caches m' !! o1 = o_sz <$> caches m !! o1;
  al_frame s p : pfa (bd m) !! s = Some p → pg_count p ≠ 0 → pfa (bd m') !! s = Some p;
  al_sem : memsem m' = memsem m
}.

Lemma al_size m fl o r oc m' fl' o1 oc1 : allocated m fl o r oc m' fl' → caches m !! o1 = Some oc1 →
  ∃ oc2, caches m' !! o1 = Some oc2 ∧ o_sz oc2 = o_sz oc1.
Proof.
  intros Ha Ho. pose proof (al_sizes _ _ _ _ _ _ _ Ha o1) as E. rewrite Ho in E. destruct (caches m' !! o1) as [oc2|]; [|done].
  exists oc2. split; [done|by injection E].
Qed.

Lemma fill_poison r sz m a : 0 ≤ sz →
  fill r OBJCACHE_POISON_PATTERN (Z.to_nat sz) m !! a =
    if decide (in_obj r sz a) then Some OBJCACHE_POISON_PATTERN else m !! a.
Proof. intros Hsz. rewrite lookup_fill /in_obj Z2Nat.id //. Qed.

(** A change of slab [s] that hands out its object [k]. *)
Lemma upd_allocated e m l fl s c c' o oc oc' F F' k :
  let r := obj_at s (o_sz oc) k in
  let ram := fill r OBJCACHE_POISON_PATTERN (Z.to_nat (o_sz oc)) (bmem (bd m)) in
  mc_inv e m l fl → slabs m !! s = Some c → c_cache c = o → c_cache c' = o → caches m !! o = Some oc → fl !! s = Some F →
  o_sz oc' = o_sz oc → 0 ≤ k < o_num oc → (∀ s', s' ≠ s → used oc' s' = used oc s') →
  ¬ slab_live oc s F r → (∀ x, slab_live oc' s F' x ↔ slab_live oc s F x ∨ x = r) →
  allocated m fl o r oc (upd m ram s c' o oc') (<[s := F']> fl).
Proof.
  intros r ram Hm Hs Hc Hc' Ho HF Hsz Hk Hu Hnew Hl.
  pose proof (mi_cache _ _ _ _ Hm _ _ Ho) as [C1 C2 C3 C5 C4].
  destruct (obj_bounds _ _ _ _ Hm _ _ _ _ _ Ho Hs Hk) as [B1 B2]. destruct (slab_frame _ _ _ _ Hm _ _ Hs) as [Fr Fa].
  split.
  - intros o1. rewrite (live_split m fl s c oc F o1 r Hs ltac:(by rewrite Hc) HF).
    intros [[_ H]|(s1 & c1 & oc1 & F1 & Hne & Hs1 & <- & Ho1 & _ & k1 & Hk1 & E1 & _)]; [done|].
    pose proof (used_range _ _ _ _ Hm _ _ _ _ Ho1 Hs1). pose proof (co_sz _ _ _ (mi_cache _ _ _ _ Hm _ _ Ho1)).
    apply Hne. symmetry. apply (objs_apart _ _ _ _ Hm s c oc k s1 c1 oc1 k1 r); try done; [by rewrite Hc|lia|rewrite /in_obj; lia|].
    rewrite E1 /in_obj; lia.
  - intros o1 x. rewrite (live_split (upd m ram s c' o oc') (<[s:=F']> fl) s c' oc' F' o1 x);
      [by rewrite lookup_insert_eq|by rewrite Hc' /= lookup_insert_eq|by rewrite lookup_insert_eq|].
    rewrite (live_off_upd m fl s c' o oc oc' F' ram o1 x Ho Hsz Hu) (live_split m fl s c oc F o1 x Hs ltac:(by rewrite Hc) HF).
    rewrite Hc Hc' Hl. naive_solver.
  - intros a Ha. cbn. rewrite /ram fill_poison; [lia|]. by rewrite decide_False.
  - intros a Ha. cbn. rewrite /ram fill_poison; [lia|]. by rewrite decide_True.
  - fold r in B1, B2. rewrite Fa /PAGE_OFFSET in B1, B2. split; [unfold PAGE_OFFSET; lia|]. split; [lia|].
    transitivity (786432 + s); [symmetry; apply (Z.div_unique_pos _ _ _ (r - (3221225472 + 4096 * s))); lia|].
    apply (Z.div_unique_pos _ _ _ (r + o_sz oc - 1 - (3221225472 + 4096 * s))); lia.
  - intros o1. cbn. destruct (decide (o1 = o)) as [-> |]; [rewrite lookup_insert_eq Ho /=; congruence|].
    rewrite lookup_insert_ne; [congruence|done].
  - done.
  - done.
Qed.

Section steps.
Implicit Types (m : memchunk).
Lemma wp_ld_slab s c (Q : slab_hdr → memchunk → Prop) m : slabs m !! s = Some c → Q c m → wp (ld_slab s) Q m.
Proof. intros H HQ. apply wp_bind. rewrite /wp /= H. done. Qed.
Lemma wp_st_slab s c f (Q : unit → memchunk → Prop) m :
  slabs m !! s = Some c → Q tt (upd_slabs (insert s (f c)) m) → wp (st_slab s f) Q m.
Proof. intros H HQ. apply wp_bind. eapply wp_ld_slab; [exact H|exact HQ]. Qed.
Lemma wp_ld_cache o oc (Q : objcache → memchunk → Prop) m : caches m !! o = Some oc → Q oc m → wp (ld_cache o) Q m.
Proof. intros H HQ. apply wp_bind. rewrite /wp /= H. done. Qed.
Lemma wp_st_cache o oc f (Q : unit → memchunk → Prop) m :
  caches m !! o = Some oc → Q tt (upd_caches (insert o (f oc)) m) → wp (st_cache o f) Q m.
Proof. intros H HQ. apply wp_bind. eapply wp_ld_cache; [exact H|exact HQ]. Qed.
Lemma wp_ld_mem a v (Q : Z → memchunk → Prop) m : word (bmem (bd m)) a v → Q v m → wp (ld_mem a) Q m.
Proof. intros H HQ. apply wp_zoom. eapply wp_ld32; [exact H|]. by destruct m as [[] ? ? ? ?]. Qed.
Lemma wp_poison a len (Q : unit → memchunk → Prop) m : owned (bmem (bd m)) a (Z.to_nat len) →
  Q tt (set_bd (set_bmem (fill a OBJCACHE_POISON_PATTERN (Z.to_nat len) (bmem (bd m))) (bd m)) m) → wp (O_POISON a len) Q m.
Proof. intros Ho HQ. apply wp_zoom. by apply wp_memset. Qed.
End steps.

Lemma used_num e m l fl s c o oc F x : mc_inv e m l fl → slabs m !! s = Some c → c_cache c = o → caches m !! o = Some oc →
  fl !! s = Some F → x ∈ F → ∃ k, 0 ≤ k < used oc s ∧ k < o_num oc ∧ x = obj_at s (o_sz oc) k.
Proof.
  intros Hm Hs <- Ho HF Hx. destruct (mi_slab _ _ _ _ Hm _ _ Hs) as (oc1 & F1 & Ho1 & HF1 & Hok). simplify_eq.
  destruct (so_objs _ _ _ _ _ _ Hok x Hx) as (k & Hk & ->). exists k.
  pose proof (used_range _ _ _ _ Hm _ _ _ _ Ho Hs). split_and!; [lia|lia|lia|done].
Qed.

(** Taking the first free object of a slab. *)
Lemma wp_alloc_from_partial m l fl s c o oc F (Q : Z → memchunk → Prop) :
  mc_inv no_slab m l fl → slabs m !! s = Some c → c_cache c = o → caches m !! o = Some oc → fl !! s = Some F → F ≠ [] →
  (∀ r m' fl', mc_inv no_slab m' l fl' → allocated m fl o r oc m' fl' → Q r m') →
  wp (alloc_from_partial o s) Q m.
Proof.
  intros Hm Hs Hc Ho HF HFne HQ. destruct F as [|r F]; [done|].
  destruct (mi_slab _ _ _ _ Hm _ _ Hs) as (oc1 & F1 & Ho1 & HF1 & Hok). rewrite Hc in Ho1. simplify_eq.
  destruct (used_num _ _ _ _ _ _ _ _ _ r Hm Hs eq_refl Ho HF ltac:(set_solver)) as (k & Hk & Hkn & ->).
  set (r := obj_at s (o_sz oc) k) in *. destruct Hok as [Hch Hnd Hobj Huse Hpos Hli Hpg].
  destruct Hch as (Hr & Hr0 & nxt & Hw & Hch). apply NoDup_cons in Hnd as [Hrn Hnd].
  pose proof (mi_cache _ _ _ _ Hm _ _ Ho) as [C1 C2 C3 C5 C4].
  pose proof (used_range _ _ _ _ Hm _ _ _ _ Ho Hs) as Hur. pose proof (cache_num _ _ _ _ Hm _ _ Ho) as [Hn1 Hn2].
  set (c' := mk_slab (c_cache c) nxt (u32 (c_inuse c + 1))).
  set (oc' := if (nxt =? NULL) && negb (is_cur s oc) then move_full s oc else oc).
  assert (Hon : on oc s) by (apply C4; by exists c).
  assert (Hoc : o_sz oc' = o_sz oc ∧ o_num oc' = o_num oc ∧ (∀ s', used oc' s' = used oc s') ∧ ptr_ok oc' ∧
    (∀ s', on oc' s' ↔ on oc s') ∧ (∀ s', s' ≠ s → s' ∈ o_partials oc → s' ∈ o_partials oc') ∧
    (∀ s', o_cur oc' = Some s' → o_ptr oc' = o_ptr_end oc' → s' ∈ o_partials oc') ∧ (F ≠ [] → s ∈ o_partials oc')).
  { subst oc'. rewrite (chain_null _ _ _ Hch). destruct (bool_decide (F = [])) eqn:EF; [destruct (is_cur s oc) eqn:Ec|]; cbn [andb negb].
    - split_and!; try done. intros _. by apply Hli.
    - apply bool_decide_eq_false in Ec. apply bool_decide_eq_true in EF.
      split_and!; try done; cbn; [intros s'; by apply on_move_full|intros s' Hne Hin; by apply elem_filter_ne| ].
      intros s' Hcur Hpp. apply elem_filter_ne. split; [congruence|by apply C5].
    - split_and!; try done. intros _. by apply Hli. }
  destruct Hoc as (Hsz & Hnum & Hu & Hp & Hons & Hpa & Hfu & Hli').
  rewrite /alloc_from_partial. wp_step. apply (wp_ld_slab s c _ _ Hs). rewrite Hr. wp_step. apply (wp_ld_mem r nxt); [exact Hw|].
  wp_step. apply (wp_st_slab s c _ _ _ Hs). wp_step. eapply wp_st_slab; [apply lookup_insert_eq|].
  wp_step. apply (wp_ld_cache (c_cache c) oc); [exact Ho|]. wp_step.
  eapply (wp_mono _ (λ _ m1, m1 = mk_memchunk (bd m) (<[s := c']> (slabs m)) (<[c_cache c := oc']> (caches m)) (p_caches m) (memsem m))).
  { subst oc'. destruct (_ && _); cbn [when].
    - eapply wp_st_cache; [exact Ho|]. rewrite /upd_caches /upd_slabs /= insert_insert_eq. done.
    - apply wp_ret. rewrite /upd_slabs /= insert_insert_eq (insert_id _ _ _ Ho) //. }
  intros _ m1 ->. wp_step. apply wp_poison; cbn [bd].
  { apply (obj_owned _ _ _ _ Hm _ _ _ _ k Ho Hs). lia. }
  apply wp_ret. set (ram := fill r _ _ _).
  assert (Hmem : ∀ a, ¬ in_obj r (o_sz oc) a → ram !! a = bmem (bd m) !! a).
  { intros a Ha. rewrite /ram fill_poison; [lia|]. by rewrite decide_False. }
  apply (HQ r (upd m ram s c' (c_cache c) oc') (<[s := F]> fl)).
  - apply (upd_inv no_slab no_slab m l fl s c c' _ oc oc' (r :: F) F k ram); try done; [lia| |].
    + intros a Ha. rewrite /ram fill_poison; [lia|]. destruct (decide _); [by eexists|done].
    + assert (Hlen : Z.of_nat (length F) < used oc s) by (cbn [length] in Huse; pose proof (Hpos ltac:(rewrite /no_slab; destruct (slab_frame _ _ _ _ Hm _ _ Hs); lia)); lia).
      cbn [length] in Huse. split; rewrite ?Hu ?Hsz; cbn.
      * apply (chain_cong (bmem (bd m))); [|exact Hch]. intros x a Hx Ha. apply Hmem. intros Hin.
        destruct (Hobj x ltac:(set_solver)) as (k1 & Hk1 & ->).
        destruct (objs_apart _ _ _ _ Hm s c oc k s c oc k1 a) as [E _]; try done; try lia; [rewrite /in_obj in Ha |- *; lia|].
        fold r in E. rewrite E in Hrn. done.
      * done.
      * intros x Hx. apply Hobj. set_solver.
      * rewrite u32_id; lia.
      * intros _. rewrite u32_id; lia.
      * exact Hli'.
      * exact Hpg.
  - apply (upd_allocated no_slab m l fl s c c' _ oc oc' (r :: F) F k); try done; [lia| |].
    + intros (k1 & _ & _ & Hx). set_solver.
    + intros x. rewrite /slab_live Hu Hsz. split.
      * intros (k1 & Hk1 & Ex & Hx). destruct (decide (x = r)) as [|Hne]; [by right|left]. exists k1. set_solver.
      * intros [(k1 & Hk1 & Ex & Hx)| ->]; [exists k1; set_solver|by exists k].
Qed.

Lemma obj_at_S s sz b : obj_at s sz b + sz = obj_at s sz (b + 1).
Proof. rewrite /obj_at. lia. Qed.

(** The cache after the next object of its current slab is taken. *)
Definition next_cache (s : Z) (c : slab_hdr) (oc : objcache) : objcache :=
  let oc1 := set_o_ptr (u32 (o_ptr oc + o_sz oc)) oc in
  if (u32 (c_inuse c + 1) =? o_num oc) && (c_free_list c =? NULL) then set_o_cur None (move_full s oc1) else oc1.

Lemma next_cache_ok e m l fl s c o oc F b :
  mc_inv e m l fl → slabs m !! s = Some c → c_cache c = o → caches m !! o = Some oc → fl !! s = Some F →
  o_cur oc = Some s → o_ptr oc = obj_at s (o_sz oc) b → b < o_num oc → 0 ≤ c_inuse c →
  let oc' := next_cache s c oc in
  o_sz oc' = o_sz oc ∧ o_num oc' = o_num oc ∧ used oc s = b ∧ used oc' s = b + 1 ∧
  (∀ s', s' ≠ s → used oc' s' = used oc s') ∧ ptr_ok oc' ∧ (∀ s', on oc' s' ↔ on oc s') ∧
  (∀ s', s' ≠ s → s' ∈ o_partials oc → s' ∈ o_partials oc') ∧
  (∀ s', o_cur oc' = Some s' → o_ptr oc' = o_ptr_end oc' → s' ∈ o_partials oc') ∧ (F ≠ [] → s ∈ o_partials oc').
Proof.
  intros Hm Hs Hc Ho HF Hcur Hptr Hb Hpos oc'. subst oc'.
  destruct (mi_slab _ _ _ _ Hm _ _ Hs) as (oc1 & F1 & Ho1 & HF1 & Hok). rewrite Hc in Ho1. simplify_eq.
  pose proof (mi_cache _ _ _ _ Hm _ _ Ho) as [C1 C2 C3 C5 C4].
  pose proof (used_cur oc s b Hcur ltac:(lia) Hptr) as Hub. pose proof (used_range _ _ _ _ Hm _ _ _ _ Ho Hs) as Hur.
  pose proof (cache_num _ _ _ _ Hm _ _ Ho) as [Hn1 Hn2]. destruct (slab_frame _ _ _ _ Hm _ _ Hs) as [Fr Fa].
  destruct (obj_bounds _ _ _ _ Hm _ _ _ _ b Ho Hs ltac:(lia)) as [B1 B2].
  assert (Hr : u32 (o_ptr oc + o_sz oc) = obj_at s (o_sz oc) (b + 1)).
  { rewrite Hptr obj_at_S u32_id // -obj_at_S. rewrite Fa /PAGE_OFFSET in B1 B2. lia. }
  destruct Hok as [Hch _ _ Huse _ Hli _]. rewrite Hub in Huse.
  rewrite /next_cache Hr (chain_null _ _ _ Hch) u32_id; [lia|].
  destruct (_ && _) eqn:Ec.
  - apply andb_true_iff in Ec as [En%Z.eqb_eq EF%bool_decide_eq_true]. subst F. cbn [length] in Huse. split_and!; [done|done|done| | | | |intros s' Hne Hin; by apply elem_filter_ne|done|done].
    + rewrite /used /=. try (case_decide; [done|]). lia.
    + intros s' Hne. rewrite /used /= Hcur. repeat case_decide; congruence.
    + rewrite /ptr_ok /=. unfold ptr_ok in C3. rewrite Hcur in C3. destruct C3 as [_ C3]. rewrite C3.
      split; [f_equal; lia|]. rewrite -obj_at_S. rewrite Fa /PAGE_OFFSET in B1 B2. lia.
    + intros s'. rewrite {1}/on /=. rewrite (_ : None = Some s' ↔ False); [done|]. rewrite elem_of_cons !elem_filter_ne /on Hcur.
      destruct (decide (s' = s)) as [-> |Hne]; [by split; auto|]. split; [naive_solver|]. intros [[= E]|?]; naive_solver.
  - split_and!; [done|done|done| | | |done|done| |done].
    + apply used_cur; [done|cbn; lia|done].
    + intros s' Hne. rewrite /used /= Hcur. repeat case_decide; congruence.
    + rewrite /ptr_ok /= Hcur. rewrite /ptr_ok Hcur in C3. destruct C3 as [_ C3]. split; [|done]. exists (b + 1). lia.
    + intros s' Es. cbn in *. assert (s' = s) as -> by congruence. rewrite /ptr_ok Hcur in C3. destruct C3 as [_ ->].
      intros E. rewrite /obj_at in E. assert (b + 1 = o_num oc) by nia. apply Hli. intros ->.
      apply andb_false_iff in Ec as [Ec%Z.eqb_neq|Ec%bool_decide_eq_false]; [cbn [length] in Huse; lia|done].
Qed.

(** Taking the next object of the current slab. *)
Lemma wp_alloc_fast e m l fl s c o oc F b (Q : Z → memchunk → Prop) :
  mc_inv e m l fl → slabs m !! s = Some c → c_cache c = o → caches m !! o = Some oc → fl !! s = Some F →
  o_cur oc = Some s → o_ptr oc = obj_at s (o_sz oc) b → b < o_num oc → 0 ≤ c_inuse c → (∀ s', s' ≠ s → s' ≠ no_slab → s' ≠ e) →
  (∀ r m' fl', mc_inv no_slab m' l fl' → allocated m fl o r oc m' fl' → Q r m') →
  wp (alloc_fast o) Q m.
Proof.
  intros Hm Hs <- Ho HF Hcur Hptr Hb Hpos He HQ.
  destruct (next_cache_ok e m l fl s c (c_cache c) oc F b) as (Hsz & Hnum & Hub & Hub' & Hu & Hp & Hons & Hpa & Hfu & Hli'); [done..|].
  set (oc' := next_cache s c oc) in *. set (r := obj_at s (o_sz oc) b) in *.
  destruct (mi_slab _ _ _ _ Hm _ _ Hs) as (oc1 & F1 & Ho1 & HF1 & Hok). rewrite Ho in Ho1. injection Ho1 as <-. rewrite HF in HF1. injection HF1 as <-.
  destruct Hok as [Hch Hnd Hobj Huse _ _ Hpg]. pose proof (cache_num _ _ _ _ Hm _ _ Ho) as [Hn1 Hn2].
  pose proof (used_range _ _ _ _ Hm _ _ _ _ Ho Hs) as Hur. pose proof (co_sz _ _ _ (mi_cache _ _ _ _ Hm _ _ Ho)) as C1.
  set (c' := mk_slab (c_cache c) (c_free_list c) (u32 (c_inuse c + 1))).
  rewrite /alloc_fast. wp_step. apply (wp_ld_cache _ oc _ _ Ho). wp_step. apply (wp_st_cache _ oc _ _ _ Ho).
  wp_step. apply (wp_deref _ s); [done|]. wp_step. apply (wp_st_slab s c); [exact Hs|]. wp_step.
  eapply wp_ld_slab; [apply lookup_insert_eq|]. wp_step.
  eapply (wp_mono _ (λ _ m1, m1 = mk_memchunk (bd m) (<[s := c']> (slabs m)) (<[c_cache c := oc']> (caches m)) (p_caches m) (memsem m))).
  { subst oc'. rewrite /next_cache. cbn [c_inuse set_inuse c_free_list]. destruct (_ && _); cbn [when].
    - eapply wp_st_cache; [apply lookup_insert_eq|]. rewrite /upd_caches /upd_slabs /= insert_insert_eq. done.
    - by apply wp_ret. }
  intros _ m1 ->. wp_step. rewrite Hptr. fold r. apply wp_poison; cbn [bd].
  { apply (obj_owned _ _ _ _ Hm _ _ _ _ b Ho Hs). lia. }
  apply wp_ret. set (ram := fill r _ _ _).
  assert (Hmem : ∀ a, ¬ in_obj r (o_sz oc) a → ram !! a = bmem (bd m) !! a).
  { intros a Ha. rewrite /ram fill_poison; [lia|]. by rewrite decide_False. }
  assert (HrF : r ∉ F).
  { intros Hin. destruct (Hobj r Hin) as (k1 & Hk1 & E). rewrite /r /obj_at in E. assert (b = k1) by nia. lia. }
  apply (HQ r (upd m ram s c' (c_cache c) oc') (<[s := F]> fl)).
  - apply (upd_inv e no_slab m l fl s c c' _ oc oc' F F b ram); try done; [intros s' _; apply He|lia| |].
    + intros a Ha. rewrite /ram fill_poison; [lia|]. destruct (decide _); [by eexists|done].
    + split; rewrite ?Hsz ?Hub'; cbn.
      * apply (chain_cong (bmem (bd m))); [|exact Hch]. intros x a Hx Ha. apply Hmem. intros Hin.
        destruct (Hobj x Hx) as (k1 & Hk1 & ->).
        destruct (objs_apart _ _ _ _ Hm s c oc b s c oc k1 a) as [E _]; try done; try lia; [rewrite /in_obj in Ha |- *; lia|].
        apply HrF. by rewrite /r E.
      * done.
      * intros x Hx. destruct (Hobj x Hx) as (k1 & Hk1 & ->). exists k1. split; [lia|done].
      * rewrite u32_id; lia.
      * intros _. rewrite u32_id; lia.
      * exact Hli'.
      * exact Hpg.
  - apply (upd_allocated e m l fl s c c' _ oc oc' F F b); try done; [lia| |].
    + intros (k1 & Hk1 & E & _). rewrite /obj_at in E. assert (b = k1) by nia. lia.
    + intros x. rewrite /slab_live Hub Hub' Hsz. split.
      * intros (k1 & Hk1 & Ex & Hx). destruct (decide (k1 = b)) as [-> |Hne]; [by right|left]. exists k1. split; [lia|done].
      * intros [(k1 & Hk1 & Ex & Hx)| ->]; [exists k1; split; [lia|done]|]. exists b. split; [lia|done].
Qed.

(** ** A new slab *)

(** The state when frame [s], the first that is free, has become the current
    slab of cache [o]. *)
Definition slab_page (p : page) : page := set_type PG_slab (set_count 1 p).
Definition new_cur (s : Z) (oc : objcache) : objcache :=
  set_o_ptr_end (obj_at s (o_sz oc) (o_num oc)) (set_o_ptr (page_address s) (set_o_cur (Some s) oc)).
Definition with_slab (m : memchunk) (s : Z) (p : page) (rest : list Z) (o : Z) (oc : objcache) : memchunk :=
  mk_memchunk (upd_pfa (insert s (slab_page p)) (taken (bd m) s p rest))
    (<[s := mk_slab o NULL 0]> (slabs m)) (<[o := new_cur s oc]> (caches m)) (p_caches m) (memsem m).

Section new_slab.
Context (m : memchunk) (s : Z) (p : page) (rest : list Z) (fl : gmap Z (list Z)) (o : Z) (oc : objcache).
Context (Hm : mc_inv no_slab m (s :: rest) fl) (Hp : pfa (bd m) !! s = Some p) (Hc : pg_count p = 0).
Context (Ho : caches m !! o = Some oc).
(** The current slab, if any, has no object left. *)
Context (Hend : o_ptr oc = o_ptr_end oc).

Lemma new_slab_fresh : slabs m !! s = None.
Proof.
  destruct (slabs m !! s) as [c|] eqn:Hs; [|done].
  destruct (mi_slab _ _ _ _ Hm _ _ Hs) as (oc1 & F & _ & _ & [_ _ _ _ _ _ (q & Hq & _ & Hq1)]). congruence.
Qed.

Lemma used_new_cur s1 c1 : s1 ≠ s → slabs m !! s1 = Some c1 → used (new_cur s oc) s1 = used oc s1.
Proof.
  intros Hne Hs1. pose proof (mi_cache _ _ _ _ Hm _ _ Ho) as [C1 C2 C3 C5 C4]. rewrite /used /=.
  case_decide as E; [congruence|]. case_decide as E1; [|done]. rewrite /ptr_ok E1 in C3. destruct C3 as [_ C3].
  rewrite Hend C3 /obj_at (_ : _ + _ - _ = o_num oc * o_sz oc); [lia|]. rewrite Z.div_mul; lia.
Qed.

Lemma with_slab_inv : mc_inv s (with_slab m s p rest o oc) rest (<[s := []]> fl).
Proof.
  pose proof new_slab_fresh as Hf. pose proof (mi_cache _ _ _ _ Hm _ _ Ho) as [C1 C2 C3 C5 C4].
  pose proof (cache_num _ _ _ _ Hm _ _ Ho) as [Hn1 Hn2].
  pose proof (taken_inv _ _ (mi_buddy _ _ _ _ Hm) s p rest eq_refl Hp) as Hb.
  assert (Hon : ∀ s1, on (new_cur s oc) s1 ↔ s1 = s ∨ on oc s1).
  { intros s1. rewrite /on /=. split; [intros [[= <-]|?]; auto|]. intros [-> |[E|?]]; [by left| |by right]. right. left. by apply C5. }
  assert (Hpfa : ∀ s1, s1 ≠ s → pfa (bd (with_slab m s p rest o oc)) !! s1 = pfa (bd m) !! s1).
  { intros s1 Hne. cbn. rewrite !lookup_insert_ne; [congruence..|done]. }
  split; cbn -[with_slab].
  - destruct Hb as [B1 B2 B3 B4 B5 B6 B7]. pose proof (bi_nodup _ _ (mi_buddy _ _ _ _ Hm)) as [Hn _]%NoDup_cons.
    split; [done|done|done| |done| |]; cbn.
    + intros q Hq. rewrite lookup_insert_ne; [by intros ->|]. apply (B4 q Hq).
    + intros q pq [[<- _]|[_ Hq]]%lookup_insert_Some; [apply (B6 s (set_count 1 p)); apply lookup_insert_eq|by apply (B6 q pq)].
    + intros q pq [[<- _]|[_ Hq]]%lookup_insert_Some; [apply (B7 s (set_count 1 p)); apply lookup_insert_eq|by apply (B7 q pq)].
  - intros q pq. destruct (decide (q = s)) as [-> |Hne]; [intros _; apply (mi_top _ _ _ _ Hm _ _ Hp)|].
    rewrite Hpfa //. apply Hm.
  - intros o1 oc1 Ho1. cbn in Ho1. apply lookup_insert_Some in Ho1 as [[<- <-]|[Hne Ho1]].
    + split; [done|done| | |].
      * rewrite /ptr_ok /=. split; [|done]. exists 0. split; [lia|]. rewrite /obj_at. lia.
      * cbn. intros s1 _ E. rewrite /obj_at in E. exfalso. nia.
      * intros s1. rewrite Hon C4 /=. split.
        -- intros [-> |(c1 & Hs1 & Hc1)]; [exists (mk_slab o NULL 0); by rewrite lookup_insert_eq|].
           exists c1. rewrite lookup_insert_ne; [congruence|done].
        -- intros (c1 & [[<- _]|[_ Hs1]]%lookup_insert_Some & Hc1); [by left|right; by exists c1].
    + destruct (mi_cache _ _ _ _ Hm _ _ Ho1) as [D1 D2 D3 D5 D4]. split; [done..|]. intros s1. rewrite D4 /=. split.
      * intros (c1 & Hs1 & Hc1). exists c1. rewrite lookup_insert_ne; [congruence|done].
      * intros (c1 & [[<- <-]|[_ Hs1]]%lookup_insert_Some & Hc1); [done|by exists c1].
  - intros s1 c1 Hs1. cbn in Hs1. apply lookup_insert_Some in Hs1 as [[<- <-]|[Hne Hs1]].
    + exists (new_cur s oc), []. cbn. rewrite !lookup_insert_eq. split_and!; [done|done|]. split; cbn; try done.
      * apply NoDup_nil_2.
      * intros x Hx. set_solver.
      * rewrite Z.sub_0_r (used_cur _ s 0) //=; [lia|]. rewrite /obj_at. lia.
      * exists (slab_page p). by rewrite lookup_insert_eq.
    + destruct (mi_slab _ _ _ _ Hm _ _ Hs1) as (oc1 & F1 & Ho1 & HF1 & Hok).
      assert (Hne' : s1 ≠ no_slab) by (destruct (slab_frame _ _ _ _ Hm _ _ Hs1); rewrite /no_slab; lia).
      destruct (decide (c_cache c1 = o)) as [E|E].
      * assert (oc1 = oc) as -> by congruence. exists (new_cur s oc), F1. split_and!; [cbn; by rewrite E lookup_insert_eq|by rewrite lookup_insert_ne|].
        apply (slab_ok_keep no_slab s m _ s1 c1 oc _ F1 Hok); try done; [apply Hpfa; congruence|].
        apply (used_new_cur s1 c1); [congruence|done].
      * exists oc1, F1. split_and!; [cbn; rewrite lookup_insert_ne; [congruence|done]|by rewrite lookup_insert_ne|].
        apply (slab_ok_keep no_slab s m _ s1 c1 oc1 _ F1 Hok); try done. apply Hpfa. congruence.
  - intros s1. cbn. destruct (decide (s1 = s)) as [-> |]; [rewrite !lookup_insert_eq; eauto|].
    rewrite !lookup_insert_ne; [congruence..|]. apply Hm.
Qed.

Lemma with_slab_live o1 x : live (with_slab m s p rest o oc) (<[s := []]> fl) o1 x ↔ live m fl o1 x.
Proof.
  pose proof new_slab_fresh as Hf. pose proof (mi_cache _ _ _ _ Hm _ _ Ho) as [C1 C2 C3 C5 C4]. split.
  - intros (s1 & c1 & oc1 & F1 & Hs1 & <- & Ho1 & HF1 & k & Hk & Ex & Hx). cbn in Hs1, Ho1.
    apply lookup_insert_Some in Hs1 as [[<- <-]|[Hne Hs1]].
    + cbn in Ho1. rewrite lookup_insert_eq in Ho1. injection Ho1 as <-. rewrite (used_cur _ s 0) //= in Hk; [lia| |lia].
      rewrite /obj_at. lia.
    + rewrite lookup_insert_ne in HF1; [done|]. destruct (mi_slab _ _ _ _ Hm _ _ Hs1) as (oc2 & F2 & Ho2 & HF2 & _).
      exists s1, c1, oc2, F1. split_and!; [done..|]. exists k.
      apply lookup_insert_Some in Ho1 as [[E <-]|[_ Ho1]]; [|by simplify_eq].
      assert (oc2 = oc) as -> by congruence. rewrite (used_new_cur s1 c1) // in Hk. congruence.
  - intros (s1 & c1 & oc1 & F1 & Hs1 & <- & Ho1 & HF1 & k & Hk & Ex & Hx). assert (s1 ≠ s) by congruence.
    assert (Hoc2 : ∃ oc2, caches (with_slab m s p rest o oc) !! c_cache c1 = Some oc2 ∧ o_sz oc2 = o_sz oc1 ∧ used oc2 s1 = used oc1 s1).
    { cbn. destruct (decide (c_cache c1 = o)) as [E|E].
      - assert (oc1 = oc) as -> by congruence. exists (new_cur s oc). rewrite E lookup_insert_eq. split_and!; [done..|]. by apply (used_new_cur s1 c1).
      - exists oc1. rewrite lookup_insert_ne; [congruence|done]. }
    destruct Hoc2 as (oc2 & H2 & Hsz & Hu). exists s1, c1, oc2, F1.
    split_and!; [cbn; rewrite lookup_insert_ne; [congruence|done]|done|done|rewrite lookup_insert_ne; [congruence|done]|].
    exists k. by rewrite Hu Hsz.
Qed.
End new_slab.

Lemma wp_memchunk_get m s rest fl (Q : Z * Z → memchunk → Prop) :
  mc_inv no_slab m (s :: rest) fl →
  (∀ p, pfa (bd m) !! s = Some p → pg_count p = 0 →
    Q (s, page_address s) (set_bd (upd_pfa (insert s (slab_page p)) (taken (bd m) s p rest)) m)) →
  wp memchunk_get Q m.
Proof.
  intros Hm HQ. pose proof (mi_buddy _ _ _ _ Hm) as Hb. rewrite /memchunk_get. wp_step. apply wp_zoom.
  eapply wp_alloc_pages; [exact Hb|done|]. intros s1 p rest1 [= <- <-] Hp Hc.
  pose proof (bi_frame _ _ Hb _ _ Hp) as Hf. pose proof (page_address_eq s Hf) as Ha.
  wp_step. apply wp_bug_on. { apply Z.eqb_neq. rewrite Ha /PAGE_OFFSET /NULL. rewrite /frame_ok in Hf. lia. }
  assert (Hv : virt_to_page (page_address s) = s) by (rewrite -(Z.add_0_r (page_address s)) virt_to_page_address //). rewrite !Hv.
  wp_step. apply wp_zoom. eapply wp_ld_page; [apply lookup_insert_eq|]. wp_step. apply wp_bug_on; [done|].
  wp_step. apply wp_zoom. eapply wp_st_page; [apply lookup_insert_eq|]. apply wp_ret. by apply HQ.
Qed.

Lemma wp_alloc_slow m s rest fl o oc (Q : Z → memchunk → Prop) :
  mc_inv no_slab m (s :: rest) fl → caches m !! o = Some oc → o_ptr oc = o_ptr_end oc →
  (∀ r m' fl', mc_inv no_slab m' rest fl' → allocated m fl o r oc m' fl' → Q r m') →
  wp (alloc_slow o) Q m.
Proof.
  intros Hm Ho Hend HQ. rewrite /alloc_slow. wp_step. apply (wp_memchunk_get m s rest fl); [exact Hm|]. intros p Hp Hc.
  pose proof (with_slab_inv m s p rest fl o oc Hm Hp Hc Ho Hend) as Hm1.
  pose proof (with_slab_live m s p rest fl o oc Hm Hp Hc Ho Hend) as Hl1.
  pose proof (cache_num _ _ _ _ Hm _ _ Ho) as [Hn1 Hn2]. pose proof (co_sz _ _ _ (mi_cache _ _ _ _ Hm _ _ Ho)) as C1.
  assert (Fa : page_address s = PAGE_OFFSET + 4096 * s ∧ 0 ≤ s < 0x3fffe).
  { pose proof (bi_frame _ _ (mi_buddy _ _ _ _ Hm) _ _ Hp) as Hf. pose proof (mi_top _ _ _ _ Hm _ _ Hp).
    split; [by apply page_address_eq|rewrite /frame_ok in Hf; lia]. }
  destruct Fa as [Fa Fr]. cbn [fst snd].
  wp_step. apply (wp_ld_cache o oc); [exact Ho|]. wp_step. apply (wp_st_cache o oc); [exact Ho|].
  wp_step. eapply wp_st_cache; [apply lookup_insert_eq|]. wp_step. eapply wp_st_cache; [apply lookup_insert_eq|].
  wp_step. apply wp_modify.
  rewrite u32_id; [rewrite Fa /PAGE_OFFSET; lia|].
  match goal with |- wp _ _ ?m1 => assert (E : m1 = with_slab m s p rest o oc) end.
  { rewrite /with_slab /new_cur /upd_slabs /upd_caches /set_bd /= !insert_insert_eq. do 3 f_equal. rewrite /set_o_ptr_end /=. f_equal.
    rewrite /obj_at. lia. }
  rewrite E. eapply (wp_alloc_fast s _ rest (<[s := []]> fl) s (mk_slab o NULL 0) o (new_cur s oc) [] 0); try done.
  - apply lookup_insert_eq.
  - apply lookup_insert_eq.
  - apply lookup_insert_eq.
  - cbn. rewrite /obj_at. lia.
  - cbn. lia.
  - intros r m' fl' Hm' [A1 A2 A3 A4 A5 A6 A7 A8]. apply (HQ r m' fl' Hm'). split; cbn in *; try done.
    + intros o1 Hl. by apply (A1 o1), Hl1.
    + intros o1 x. rewrite A2 Hl1. done.
    + intros o1. rewrite A6. destruct (decide (o1 = o)) as [-> |]; [by rewrite lookup_insert_eq Ho|].
      rewrite lookup_insert_ne; [congruence|done].
    + intros s1 q Hq Hq0. apply A7; [|done]. rewrite !lookup_insert_ne; [congruence..|done].
Qed.

Lemma mc_inv_sem e m l fl v : mc_inv e m l fl → mc_inv e (set_memsem v m) l fl.
Proof.
  intros [H1 H2 H3 H4 H5]. split; try done.
  - intros o oc Ho. by destruct (H3 o oc Ho).
  - intros s c Hs. destruct (H4 s c Hs) as (oc & F & Ho & HF & []). exists oc, F. done.
Qed.

(** The fast path is taken exactly when the current slab has an object left. *)
Lemma room_spec e m l fl o oc : mc_inv e m l fl → caches m !! o = Some oc →
  if u32 (o_ptr oc + o_sz oc) <=? o_ptr_end oc
  then ∃ s c b, o_cur oc = Some s ∧ slabs m !! s = Some c ∧ c_cache c = o ∧ o_ptr oc = obj_at s (o_sz oc) b ∧ b < o_num oc
  else o_ptr oc = o_ptr_end oc.
Proof.
  intros Hm Ho. pose proof (mi_cache _ _ _ _ Hm _ _ Ho) as [C1 C2 C3 C5 C4].
  pose proof (cache_num _ _ _ _ Hm _ _ Ho) as [Hn1 Hn2]. rewrite /ptr_ok in C3. destruct (o_cur oc) as [s|] eqn:Ec.
  - destruct C3 as [(b & Hb & Hp) Hpe]. destruct (proj1 (C4 s)) as (c & Hs & Hc); [by left|].
    destruct (slab_frame _ _ _ _ Hm _ _ Hs) as [Fr Fa].
    assert (Hr : 0 ≤ o_ptr oc + o_sz oc < 2 ^ 32). { rewrite Hp /obj_at Fa /PAGE_OFFSET. nia. }
    rewrite (u32_id _ Hr). destruct (Z.leb_spec (o_ptr oc + o_sz oc) (o_ptr_end oc)) as [Hle|Hlt].
    + exists s, c, b. split_and!; [done..|]. rewrite Hp Hpe /obj_at in Hle. nia.
    + rewrite Hp Hpe /obj_at in Hlt |- *. assert (b = o_num oc) as -> by nia. done.
  - destruct C3 as [-> Hr]. rewrite u32_id; [lia|]. destruct (Z.leb_spec (o_ptr_end oc + o_sz oc) (o_ptr_end oc)); [lia|done].
Qed.

Lemma allocated_sem m fl o r oc m' fl' v : allocated (set_memsem v m) fl o r oc m' fl' →
  allocated m fl o r oc (set_memsem (memsem m) m') fl'.
Proof. intros []. split; done. Qed.

(** An allocation from any cache, with a free frame at hand. *)
Lemma wp_do_alloc m l fl o oc (Q : Z → memchunk → Prop) :
  mc_inv no_slab m l fl → memsem m = 1 → caches m !! o = Some oc → o ≠ NULL → l ≠ [] →
  (∀ r m' l' fl', mc_inv no_slab m' l' fl' → l' = l ∨ l' = tail l → allocated m fl o r oc m' fl' → Q r m') →
  wp (do_alloc o) Q m.
Proof.
  intros Hm Hsem Ho Hn Hl HQ. rewrite /do_alloc (proj2 (Z.eqb_neq _ _) Hn). wp_step. apply wp_zoom. rewrite Hsem. apply wp_down; [done|].
  set (m0 := set_memsem (1 - 1) m). assert (Hm0 : mc_inv no_slab m0 l fl) by by apply mc_inv_sem.
  assert (HQ0 : ∀ r m' l' fl', mc_inv no_slab m' l' fl' → l' = l ∨ l' = tail l → allocated m0 fl o r oc m' fl' →
    wp (do! zoom memsem set_memsem sem_up then ret r) Q m').
  { intros r m' l' fl' Hm' Hl' Ha. wp_step. apply wp_zoom. rewrite /wp /sem_up (al_sem _ _ _ _ _ _ _ Ha) /=.
    apply (HQ r _ l' fl'); [by apply mc_inv_sem|done|]. apply allocated_sem in Ha. by rewrite Hsem in Ha. }
  assert (Hslow : wp (if u32 (o_ptr oc + o_sz oc) <=? o_ptr_end oc then alloc_fast o else alloc_slow o)
    (λ r m', wp (do! zoom memsem set_memsem sem_up then ret r) Q m') m0).
  { pose proof (room_spec _ _ _ _ _ _ Hm0 Ho) as Hroom. destruct (_ <=? _).
    - destruct Hroom as (s & c & b & Hcur & Hs & Hc & Hp & Hb). destruct (mi_slab _ _ _ _ Hm0 _ _ Hs) as (oc1 & F & Ho1 & HF & Hok).
      destruct (slab_frame _ _ _ _ Hm0 _ _ Hs). assert (s ≠ no_slab) by (rewrite /no_slab; lia).
      pose proof (so_pos _ _ _ _ _ _ Hok ltac:(done)).
      apply (wp_alloc_fast no_slab m0 l fl s c o oc F b); try done; [lia|].
      intros r m' fl' Hm' Ha. apply (HQ0 r m' l fl'); auto.
    - destruct l as [|s rest]; [done|]. apply (wp_alloc_slow m0 s rest fl o oc); [done..|].
      intros r m' fl' Hm' Ha. apply (HQ0 r m' rest fl'); auto. }
  wp_step. apply wp_bind, (wp_ld_cache o oc); [exact Ho|]. apply wp_ret.
  destruct (head (o_partials oc)) as [s|] eqn:Eh.
  - destruct (o_partials oc) as [|s' pa] eqn:Epa; [done|]. injection Eh as ->.
    destruct (proj1 (co_on _ _ _ (mi_cache _ _ _ _ Hm0 _ _ Ho) s)) as (c & Hs & Hc); [right; left; rewrite Epa; set_solver|].
    destruct (mi_slab _ _ _ _ Hm0 _ _ Hs) as (oc1 & F & Ho1 & HF & Hok). rewrite Hc in Ho1. change (caches m !! o = Some oc1) in Ho1. assert (oc1 = oc) as -> by congruence.
    wp_step. wp_step. apply (wp_ld_slab s c); [exact Hs|]. apply wp_ret. wp_step. apply (wp_ld_cache o oc); [exact Ho|]. wp_step.
    rewrite (chain_null _ _ _ (so_chain _ _ _ _ _ _ Hok)). case_bool_decide as EF; cbn [negb]; [exact Hslow|].
    apply (wp_alloc_from_partial m0 l fl s c o oc F); [done..|]. intros r m' fl' Hm' Ha. apply (HQ0 r m' l fl'); auto.
  - wp_step. apply wp_ret. wp_step. apply (wp_ld_cache o oc); [exact Ho|]. wp_step. exact Hslow.
Qed.

(** ** Freeing *)

(** What a free of [obj] does: the other objects are handed out as before, and
    their bytes are untouched. *)
Record freed (m : memchunk) (fl : gmap Z (list Z)) (obj : Z) (m' : memchunk) (fl' : gmap Z (list Z)) : Prop := {
  fr_live o x : live m' fl' o x ↔ live m fl o x ∧ x ≠ obj;
  fr_mem o oc x a : live m' fl' o x → caches m !! o = Some oc → in_obj x (o_sz oc) a → bmem (bd m') !! a = bmem (bd m) !! a;
  fr_sizes o oc : caches m !! o = Some oc → ∃ oc', caches m' !! o = Some oc' ∧ o_sz oc' = o_sz oc;
  fr_sem : memsem m' = memsem m
}.

(** A change of slab [s] that takes its object [k] back. *)
Lemma upd_freed e m l fl s c c' o oc oc' F F' k ram :
  let obj := obj_at s (o_sz oc) k in
  mc_inv e m l fl → slabs m !! s = Some c → c_cache c = o → c_cache c' = o → caches m !! o = Some oc → fl !! s = Some F →
  o_sz oc' = o_sz oc → 0 ≤ k < o_num oc → (∀ s', s' ≠ s → used oc' s' = used oc s') → slab_live oc s F obj →
  (∀ a, ¬ in_obj obj (o_sz oc) a → ram !! a = bmem (bd m) !! a) →
  (∀ x, slab_live oc' s F' x ↔ slab_live oc s F x ∧ x ≠ obj) →
  freed m fl obj (upd m ram s c' o oc') (<[s := F']> fl).
Proof.
  intros obj Hm Hs Hc Hc' Ho HF Hsz Hk Hu Hlive Hram Hl.
  pose proof (co_sz _ _ _ (mi_cache _ _ _ _ Hm _ _ Ho)) as C1.
  assert (Hfr : ∀ o1 x, live (upd m ram s c' o oc') (<[s:=F']> fl) o1 x ↔ live m fl o1 x ∧ x ≠ obj).
  { intros o1 x. rewrite (live_split (upd m ram s c' o oc') (<[s:=F']> fl) s c' oc' F' o1 x);
      [by rewrite lookup_insert_eq|by rewrite Hc' /= lookup_insert_eq|by rewrite lookup_insert_eq|].
    rewrite (live_off_upd m fl s c' o oc oc' F' ram o1 x Ho Hsz Hu) (live_split m fl s c oc F o1 x Hs ltac:(by rewrite Hc) HF).
    rewrite Hc Hc' Hl. assert (live_off s m fl o1 x → x ≠ obj); [|naive_solver].
    intros (s1 & c1 & oc1 & F1 & Hne & Hs1 & <- & Ho1 & _ & k1 & Hk1 & -> & _) E.
    pose proof (used_range _ _ _ _ Hm _ _ _ _ Ho1 Hs1). pose proof (co_sz _ _ _ (mi_cache _ _ _ _ Hm _ _ Ho1)).
    apply Hne. symmetry. apply (objs_apart _ _ _ _ Hm s c oc k s1 c1 oc1 k1 obj); try done; [by rewrite Hc|lia|rewrite /in_obj; lia|].
    rewrite E /in_obj; lia. }
  split; [exact Hfr| | |done].
  - intros o1 oc1 x a [Hx Hne]%Hfr Ho1 Ha. cbn. apply Hram. intros Hin. apply Hne.
    assert (live m fl o obj) as Hobj by (exists s, c, oc, F; done).
    apply (live_apart _ _ _ _ _ _ _ _ _ _ a Hm Hx Ho1 Hobj Ho Ha Hin).
  - intros o1 oc1 Ho1. cbn. destruct (decide (o1 = o)) as [-> |]; [exists oc'; rewrite lookup_insert_eq; split; congruence|].
    exists oc1. rewrite lookup_insert_ne; [congruence|done].
Qed.

(** The check that the object is not free already. *)
Lemma wp_check_free_list F fuel p obj m (Q : unit → memchunk → Prop) :
  chain (bmem (bd m)) p F → obj ∉ F → (length F < fuel)%nat → Q tt m → wp (check_free_list fuel p obj) Q m.
Proof.
  revert fuel p. induction F as [|x F IH]; intros fuel p Hch Hn Hf HQ; destruct fuel as [|fuel]; try (cbn in Hf; lia); cbn [check_free_list].
  - cbn in Hch. rewrite Hch Z.eqb_refl. by apply wp_ret.
  - destruct Hch as (-> & Hx & nxt & Hw & Hch). rewrite (proj2 (Z.eqb_neq _ _) Hx). apply not_elem_of_cons in Hn as [Hn1 Hn2].
    wp_step. apply wp_bug_on; [apply Z.eqb_neq; congruence|]. wp_step. apply (wp_ld_mem x nxt); [exact Hw|].
    apply IH; [done|done|cbn in Hf; lia|done].
Qed.

(** The state after the object is linked into the free list of its slab. *)
Definition linked (m : memchunk) (ram : mem) (s obj : Z) (c : slab_hdr) (oc : objcache) (F : list Z) : memchunk :=
  upd m ram s (mk_slab (c_cache c) obj (c_inuse c - 1)) (c_cache c) (if bool_decide (F = []) then move_partials s oc else oc).

Lemma linked_inv m l fl s c oc F k ram :
  let obj := obj_at s (o_sz oc) k in
  mc_inv no_slab m l fl → slabs m !! s = Some c → caches m !! c_cache c = Some oc → fl !! s = Some F →
  0 ≤ k < used oc s → obj ∉ F → (∀ a, ¬ in_obj obj (o_sz oc) a → ram !! a = bmem (bd m) !! a) →
  (∀ a, is_Some (bmem (bd m) !! a) → is_Some (ram !! a)) → word ram obj (c_free_list c) →
  mc_inv s (linked m ram s obj c oc F) l (<[s := obj :: F]> fl) ∧ freed m fl obj (linked m ram s obj c oc F) (<[s := obj :: F]> fl).
Proof.
  intros obj Hm Hs Ho HF Hk HkF Hram Hdom Hw.
  destruct (mi_slab _ _ _ _ Hm _ _ Hs) as (oc1 & F1 & Ho1 & HF1 & [Hch Hnd Hobj Huse Hpos Hli Hpg]).
  rewrite Ho in Ho1. injection Ho1 as <-. rewrite HF in HF1. injection HF1 as <-.
  pose proof (mi_cache _ _ _ _ Hm _ _ Ho) as [C1 C2 C3 C5 C4]. pose proof (used_range _ _ _ _ Hm _ _ _ _ Ho Hs) as Hur.
  destruct (slab_frame _ _ _ _ Hm _ _ Hs) as [Fr Fa]. destruct (obj_bounds _ _ _ _ Hm _ _ _ _ k Ho Hs ltac:(lia)) as [B1 B2]. fold obj in B1, B2.
  rewrite /linked. set (oc' := if bool_decide (F = []) then move_partials s oc else oc).
  assert (Hon : on oc s) by (apply C4; by exists c).
  assert (Hoc : o_sz oc' = o_sz oc ∧ o_num oc' = o_num oc ∧ (∀ s', used oc' s' = used oc s') ∧ ptr_ok oc' ∧
    (∀ s', on oc' s' ↔ on oc s') ∧ (∀ s', s' ∈ o_partials oc → s' ∈ o_partials oc') ∧
    (∀ s', o_cur oc' = Some s' → o_ptr oc' = o_ptr_end oc' → s' ∈ o_partials oc') ∧ s ∈ o_partials oc').
  { subst oc'. case_bool_decide as EF; [|split_and!; try done; by apply Hli].
    assert (Hin : ∀ s', s' ∈ o_partials oc → s' ∈ o_partials (move_partials s oc)).
    { intros s' Hs'. cbn. apply elem_of_cons. destruct (decide (s' = s)); [by left|right]. by apply elem_filter_ne. }
    split_and!; try done; [intros s'; by apply on_move_partials|intros s' E1 E2; by apply Hin, C5|cbn; set_solver]. }
  destruct Hoc as (Hsz & Hnum & Hu & Hp & Hons & Hpa & Hfu & Hli'). split.
  - apply (upd_inv no_slab s m l fl s c _ _ oc oc' F (obj :: F) k ram); try done; [|lia|auto|].
    { intros s' [c1 Hs'] _ _ ->. destruct (slab_frame _ _ _ _ Hm _ _ Hs') as [Fr' _]. rewrite /no_slab in Fr'. lia. }
    split; rewrite ?Hu ?Hsz; cbn.
    + split_and!; [done|unfold NULL; rewrite Fa /PAGE_OFFSET in B1; lia|]. exists (c_free_list c). split; [exact Hw|].
      apply (chain_cong (bmem (bd m))); [|exact Hch]. intros x a Hx Ha. apply Hram. intros Hin.
      destruct (Hobj x Hx) as (k1 & Hk1 & ->).
      destruct (objs_apart _ _ _ _ Hm s c oc k s c oc k1 a) as [E _]; try done; try lia; [rewrite /in_obj in Ha |- *; lia|].
      apply HkF. by rewrite /obj E.
    + by apply NoDup_cons.
    + intros x [-> |Hx]%elem_of_cons; [by exists k|by apply Hobj].
    + lia.
    + done.
    + done.
    + exact Hpg.
  - apply (upd_freed no_slab m l fl s c _ _ oc oc' F (obj :: F) k ram); try done; [lia|by exists k|].
    intros x. rewrite /slab_live Hu Hsz. split.
    + intros (k1 & Hk1 & Ex & Hx). apply not_elem_of_cons in Hx as [H1 H2]. split; [by exists k1|done].
    + intros [(k1 & Hk1 & Ex & Hx) Hne]. exists k1. split; [done|]. split; [done|]. by apply not_elem_of_cons.
Qed.

(** ** Giving a slab back *)

(** A slab none of whose objects is in use. *)
Lemma empty_slab_dead e m l fl s c oc F x :
  mc_inv e m l fl → slabs m !! s = Some c → caches m !! c_cache c = Some oc → fl !! s = Some F → c_inuse c = 0 → ¬ slab_live oc s F x.
Proof.
  intros Hm Hs Ho HF H0 (k & Hk & -> & Hx).
  destruct (mi_slab _ _ _ _ Hm _ _ Hs) as (oc1 & F1 & Ho1 & HF1 & [Hch Hnd Hobj Huse Hpos Hli Hpg]).
  rewrite Ho in Ho1. injection Ho1 as <-. rewrite HF in HF1. injection HF1 as <-.
  pose proof (co_sz _ _ _ (mi_cache _ _ _ _ Hm _ _ Ho)) as C1.
  set (all := obj_at s (o_sz oc) <$> seqZ 0 (used oc s)).
  assert (Hsub : F ⊆+ all).
  { apply NoDup_submseteq; [done|]. intros x Hin. destruct (Hobj x Hin) as (k1 & Hk1 & ->).
    apply list_elem_of_fmap. exists k1. split; [done|]. apply elem_of_seqZ. lia. }
  apply Hx. rewrite (submseteq_length_Permutation F all Hsub).
  - rewrite /all length_fmap length_seqZ. lia.
  - apply list_elem_of_fmap. exists k. split; [done|]. apply elem_of_seqZ. lia.
Qed.

Definition drop_cur (s : Z) (oc : objcache) : objcache :=
  let oc := unlist s oc in
  if is_cur s oc then set_o_cur None (set_o_ptr NULL (set_o_ptr_end NULL oc)) else oc.
Definition without_slab (m : memchunk) (l : list Z) (s o : Z) (oc : objcache) (p : page) : memchunk :=
  mk_memchunk (given (bd m) l s p) (delete s (slabs m)) (<[o := drop_cur s oc]> (caches m)) (p_caches m) (memsem m).

Section drop_slab.
Context (m : memchunk) (l : list Z) (fl : gmap Z (list Z)) (s : Z) (c : slab_hdr) (oc : objcache) (F : list Z) (p : page).
Context (Hm : mc_inv s m l fl) (Hs : slabs m !! s = Some c) (Ho : caches m !! c_cache c = Some oc) (HF : fl !! s = Some F).
Context (H0 : c_inuse c = 0) (Hp : pfa (bd m) !! s = Some p) (Hc1 : pg_count p = 1).
Abbreviation m' := (without_slab m l s (c_cache c) oc p).

Lemma drop_used s1 : s1 ≠ s → used (drop_cur s oc) s1 = used oc s1.
Proof.
  intros Hne. rewrite /drop_cur /is_cur /=. case_bool_decide as E; [|done]. rewrite /used /= E. repeat case_decide; congruence.
Qed.
Lemma drop_sz : o_sz (drop_cur s oc) = o_sz oc ∧ o_num (drop_cur s oc) = o_num oc.
Proof. rewrite /drop_cur. by destruct (is_cur _ _). Qed.
Lemma drop_partials s1 : s1 ≠ s → s1 ∈ o_partials oc → s1 ∈ o_partials (drop_cur s oc).
Proof. intros Hne Hin. rewrite /drop_cur. destruct (is_cur _ _); cbn; by apply elem_filter_ne. Qed.
Lemma drop_on s1 : on (drop_cur s oc) s1 ↔ on oc s1 ∧ s1 ≠ s.
Proof.
  rewrite /drop_cur /is_cur /=. case_bool_decide as E; rewrite /on /= !elem_filter_ne; [rewrite E|]; naive_solver.
Qed.

Lemma drop_mem a : ¬ in_obj (page_address s) 4096 a → bmem (bd m') !! a = bmem (bd m) !! a.
Proof. intros Ha. cbn. rewrite lookup_fill decide_False //. Qed.

Lemma without_slab_inv : mc_inv no_slab m' (l ++ [s]) (delete s fl).
Proof.
  pose proof (mi_cache _ _ _ _ Hm _ _ Ho) as [C1 C2 C3 C5 C4]. destruct drop_sz as [Hsz Hnum].
  destruct (slab_frame _ _ _ _ Hm _ _ Hs) as [Fr Fa].
  split; cbn -[without_slab].
  - by apply given_inv; [apply Hm|..].
  - intros q pq Hq. cbn in Hq. apply lookup_insert_Some in Hq as [[<- _]|[_ Hq]]; [lia|by apply (mi_top _ _ _ _ Hm _ _ Hq)].
  - intros o1 oc1 Ho1. cbn in Ho1. apply lookup_insert_Some in Ho1 as [[<- <-]|[Hne Ho1]].
    + split; [by rewrite Hsz|by rewrite Hnum Hsz| | |].
      * rewrite /drop_cur /is_cur /=. case_bool_decide as E; [|exact C3]. by rewrite /ptr_ok /NULL.
      * rewrite /drop_cur /is_cur /=. case_bool_decide as E; cbn; [done|]. intros s1 E1 E2. apply elem_filter_ne. split; [congruence|by apply C5].
      * intros s1. rewrite drop_on C4 /=. split.
        -- intros [(c1 & Hs1 & Hc) Hne]. exists c1. rewrite lookup_delete_ne; [congruence|done].
        -- intros (c1 & [Hne Hs1]%lookup_delete_Some & Hc). split; [by exists c1|congruence].
    + destruct (mi_cache _ _ _ _ Hm _ _ Ho1) as [D1 D2 D3 D5 D4]. split; [done..|]. intros s1. rewrite D4 /=. split.
      * intros (c1 & Hs1 & Hc). exists c1. rewrite lookup_delete_ne; [congruence|done].
      * intros (c1 & [_ Hs1]%lookup_delete_Some & Hc). by exists c1.
  - intros s1 c1 Hs1. cbn in Hs1. apply lookup_delete_Some in Hs1 as [Hne Hs1].
    destruct (mi_slab _ _ _ _ Hm _ _ Hs1) as (oc1 & F1 & Ho1 & HF1 & Hok).
    assert (Hap : ∀ x a, x ∈ F1 → in_obj x 4 a → bmem (bd m') !! a = bmem (bd m) !! a).
    { intros x a Hx Ha. apply drop_mem. intros Hin. destruct (so_objs _ _ _ _ _ _ Hok x Hx) as (k1 & Hk1 & ->).
      pose proof (used_range _ _ _ _ Hm _ _ _ _ Ho1 Hs1). pose proof (co_sz _ _ _ (mi_cache _ _ _ _ Hm _ _ Ho1)).
      destruct (obj_bounds _ _ _ _ Hm _ _ _ _ k1 Ho1 Hs1 ltac:(lia)). destruct (slab_frame _ _ _ _ Hm _ _ Hs1) as [_ Fa1].
      rewrite /in_obj in Ha, Hin. lia. }
    assert (Hpf : pfa (bd m') !! s1 = pfa (bd m) !! s1) by (cbn; rewrite lookup_insert_ne; [congruence|done]).
    destruct (decide (c_cache c1 = c_cache c)) as [E|E].
    + assert (oc1 = oc) as -> by congruence. exists (drop_cur s oc), F1.
      split_and!; [cbn; by rewrite E lookup_insert_eq|rewrite lookup_delete_ne; [congruence|done]|].
      apply (slab_ok_keep s no_slab m _ s1 c1 oc _ F1 Hok); try done; [apply drop_used; congruence|congruence|apply drop_partials; congruence].
    + exists oc1, F1. split_and!; [cbn; rewrite lookup_insert_ne; [congruence|done]|rewrite lookup_delete_ne; [congruence|done]|].
      apply (slab_ok_keep s no_slab m _ s1 c1 oc1 _ F1 Hok); try done. congruence.
  - intros s1 [F1 HF1]. apply lookup_delete_Some in HF1 as [Hne HF1]. cbn. rewrite lookup_delete_ne; [congruence|]. apply (mi_dom _ _ _ _ Hm). eauto.
Qed.

Lemma without_slab_live o1 x : live m' (delete s fl) o1 x ↔ live m fl o1 x.
Proof.
  rewrite (live_split m fl s c oc F o1 x Hs Ho HF). split.
  - intros (s1 & c1 & oc1 & F1 & Hs1 & <- & Ho1 & HF1 & Hl). right. cbn in Hs1, Ho1.
    apply lookup_delete_Some in Hs1 as [Hne Hs1]. apply lookup_delete_Some in HF1 as [_ HF1].
    destruct (mi_slab _ _ _ _ Hm _ _ Hs1) as (oc2 & F2 & Ho2 & HF2 & _). exists s1, c1, oc2, F1. split_and!; [congruence|done..|].
    apply lookup_insert_Some in Ho1 as [[E <-]|[_ Ho1]]; [|by simplify_eq]. assert (oc2 = oc) as -> by congruence.
    apply (slab_live_used oc (drop_cur s oc)); [apply drop_sz|apply drop_used; congruence|done].
  - intros [[_ Hl]|(s1 & c1 & oc1 & F1 & Hne & Hs1 & <- & Ho1 & HF1 & Hl)]; [by apply (empty_slab_dead _ _ _ _ _ _ _ _ x Hm Hs Ho HF) in Hl|].
    assert (Hoc2 : ∃ oc2, caches m' !! c_cache c1 = Some oc2 ∧ slab_live oc2 s1 F1 x).
    { cbn. destruct (decide (c_cache c1 = c_cache c)) as [E|E].
      - assert (oc1 = oc) as -> by congruence. exists (drop_cur s oc). rewrite E lookup_insert_eq. split; [done|].
        apply (slab_live_used oc (drop_cur s oc)); [apply drop_sz|by apply drop_used|done].
      - exists oc1. rewrite lookup_insert_ne; [congruence|done]. }
    destruct Hoc2 as (oc2 & H2 & Hl2). exists s1, c1, oc2, F1.
    split_and!; [cbn; rewrite lookup_delete_ne; [congruence|done]|done|done|rewrite lookup_delete_ne; [congruence|done]|done].
Qed.

(** A free that empties a slab gives the slab back as well. *)
Lemma without_slab_freed m0 fl0 obj : freed m0 fl0 obj m fl → freed m0 fl0 obj m' (delete s fl).
Proof.
  intros [H1 H2 H3 H4]. split.
  - intros o x. by rewrite without_slab_live.
  - intros o oc0 x a Hl Ho0 Ha. rewrite -(H2 o oc0 x a); [by apply without_slab_live|done..|]. apply drop_mem. intros Hin.
    destruct (H3 o oc0 Ho0) as (oc1 & Ho1 & Hsz).
    destruct Hl as (s1 & c1 & oc2 & F1 & Hs1 & <- & Ho2 & HF1 & k & Hk & -> & _). cbn in Hs1, Ho2.
    apply lookup_delete_Some in Hs1 as [Hne Hs1].
    assert (E : o_sz oc2 = o_sz oc1 ∧ used oc2 s1 = used oc1 s1).
    { apply lookup_insert_Some in Ho2 as [[E <-]|[_ Ho2]]; [|by simplify_eq]. assert (oc1 = oc) as -> by congruence.
      split; [apply drop_sz|apply drop_used; congruence]. }
    destruct E as [E1 E2]. rewrite E1 -Hsz in Ha. rewrite E2 in Hk. pose proof (used_range _ _ _ _ Hm _ _ _ _ Ho1 Hs1).
    destruct (obj_bounds _ _ _ _ Hm _ _ _ _ k Ho1 Hs1 ltac:(lia)). destruct (slab_frame _ _ _ _ Hm _ _ Hs1) as [_ Fa1].
    destruct (slab_frame _ _ _ _ Hm _ _ Hs) as [_ Fa]. rewrite /in_obj in Ha, Hin. lia.
  - intros o oc0 Ho0. destruct (H3 o oc0 Ho0) as (oc1 & Ho1 & Hsz). cbn. destruct (decide (o = c_cache c)) as [-> |].
    + exists (drop_cur s oc). rewrite lookup_insert_eq. split; [done|]. destruct drop_sz as [-> _]. congruence.
    + exists oc1. rewrite lookup_insert_ne; [congruence|done].
  - exact H4.
Qed.
End drop_slab.

Lemma wp_st_mem a v m (Q : unit → memchunk → Prop) : 0 ≤ v < 2 ^ 32 → owned (bmem (bd m)) a 4 →
  (∀ ram, word ram a v → (∀ b, ¬ a ≤ b < a + 4 → ram !! b = bmem (bd m) !! b) →
     (∀ b, is_Some (bmem (bd m) !! b) → is_Some (ram !! b)) → Q tt (set_bd (set_bmem ram (bd m)) m)) → wp (st_mem a v) Q m.
Proof. intros Hv Ho HQ. apply wp_zoom. by apply wp_st32. Qed.

Lemma mc_inv_full s m l fl c : mc_inv s m l fl → slabs m !! s = Some c → 0 < c_inuse c → mc_inv no_slab m l fl.
Proof.
  intros [H1 H2 H3 H4 H5] Hs Hc. split; try done. intros s1 c1 Hs1. destruct (H4 s1 c1 Hs1) as (oc & F & Ho & HF & []).
  exists oc, F. split_and!; [done..|]. split; try done. intros _. destruct (decide (s1 = s)) as [-> |]; [congruence|auto].
Qed.

(** The pointers the debug checks compare with are not those of an object that
    is handed out, unless it starts where the current slab ends. *)
Lemma ptr_check e m l fl s c oc k :
  let obj := obj_at s (o_sz oc) k in
  mc_inv e m l fl → slabs m !! s = Some c → caches m !! c_cache c = Some oc → 0 ≤ k < used oc s → obj ≠ o_ptr_end oc →
  (o_ptr oc <=? obj) && (obj <=? o_ptr_end oc) = false.
Proof.
  intros obj Hm Hs Ho Hk Hne. pose proof (used_range _ _ _ _ Hm _ _ _ _ Ho Hs) as Hur.
  pose proof (mi_cache _ _ _ _ Hm _ _ Ho) as [C1 C2 C3 C5 C4]. pose proof (cache_num _ _ _ _ Hm _ _ Ho) as [Hn1 Hn2].
  destruct (obj_bounds _ _ _ _ Hm _ _ _ _ k Ho Hs ltac:(lia)) as [B1 B2]. fold obj in B1, B2.
  destruct (slab_frame _ _ _ _ Hm _ _ Hs) as [Fr Fa]. apply andb_false_iff. rewrite !Z.leb_gt.
  rewrite /ptr_ok in C3. destruct (o_cur oc) as [s1|] eqn:Ec; [|destruct C3 as [C3 _]; lia].
  destruct C3 as [(b & Hb & Hp) Hpe]. destruct (decide (s1 = s)) as [-> |Hs1].
  - left. rewrite (used_cur oc s b Ec ltac:(lia) Hp) in Hk. rewrite Hp /obj /obj_at. nia.
  - destruct (proj1 (C4 s1)) as (c1 & Hs1' & _); [by left|]. destruct (slab_frame _ _ _ _ Hm _ _ Hs1') as [_ Fa1].
    rewrite Hpe /obj_at in Hne. rewrite Hp Hpe /obj_at. assert (s < s1 ∨ s1 < s) as [|] by lia; [left|right]; nia.
Qed.

Lemma freed_sem m fl obj m' fl' v w : freed (set_memsem v m) fl obj m' fl' → memsem m = w → freed m fl obj (set_memsem w m') fl'.
Proof. intros [] <-. split; done. Qed.

(** Taking an object back. *)
Lemma wp_do_cache_free m l fl s c oc F k (Q : unit → memchunk → Prop) :
  let obj := obj_at s (o_sz oc) k in
  mc_inv no_slab m l fl → memsem m = 1 → slabs m !! s = Some c → caches m !! c_cache c = Some oc → fl !! s = Some F →
  0 ≤ k < used oc s → obj ∉ F → obj ≠ o_ptr_end oc →
  (∀ m' l' fl', mc_inv no_slab m' l' fl' → l' = l ∨ l' = l ++ [s] → freed m fl obj m' fl' → Q tt m') →
  wp (do_cache_free (c_cache c) s obj) Q m.
Proof.
  intros obj Hm Hsem Hs Ho HF Hk HkF Hne HQ.
  destruct (mi_slab _ _ _ _ Hm _ _ Hs) as (oc1 & F1 & Ho1 & HF1 & [Hch Hnd Hobj Huse Hpos Hli (p & Hp & Hpt & Hpc)]).
  rewrite Ho in Ho1. injection Ho1 as <-. rewrite HF in HF1. injection HF1 as <-.
  destruct (slab_frame _ _ _ _ Hm _ _ Hs) as [Fr Fa]. specialize (Hpos ltac:(rewrite /no_slab; lia)).
  pose proof (used_range _ _ _ _ Hm _ _ _ _ Ho Hs) as Hur. pose proof (cache_num _ _ _ _ Hm _ _ Ho) as [Hn1 Hn2].
  pose proof (co_sz _ _ _ (mi_cache _ _ _ _ Hm _ _ Ho)) as C1.
  destruct (obj_bounds _ _ _ _ Hm _ _ _ _ k Ho Hs ltac:(lia)) as [B1 B2]. fold obj in B1, B2.
  assert (Hfl : 0 ≤ c_free_list c < 2 ^ 32).
  { destruct F as [|x F]; [cbn in Hch; rewrite Hch /NULL; lia|]. destruct Hch as (-> & _). destruct (Hobj x ltac:(set_solver)) as (k1 & Hk1 & ->).
    destruct (obj_bounds _ _ _ _ Hm _ _ _ _ k1 Ho Hs ltac:(lia)) as [D1 D2]. rewrite Fa /PAGE_OFFSET in D1, D2. lia. }
  rewrite /do_cache_free. wp_step. apply (wp_ld_slab s c _ _ Hs). wp_step. apply (wp_ld_cache _ oc _ _ Ho).
  wp_step. apply wp_bug_on; [apply Z.eqb_neq; lia|]. wp_step. apply wp_bug_on; [apply Z.ltb_ge; lia|].
  wp_step. apply wp_bug_on; [by apply (ptr_check _ _ _ _ _ _ _ _ Hm Hs Ho)|].
  wp_step. apply wp_zoom. rewrite Hsem. apply wp_down; [done|]. set (m0 := set_memsem (1 - 1) m).
  assert (Hm0 : mc_inv no_slab m0 l fl) by by apply mc_inv_sem.
  wp_step. apply (wp_check_free_list F); [exact Hch|exact HkF|rewrite /free_list_fuel; lia|].
  rewrite (chain_null _ _ _ Hch). wp_step. set (oc' := if bool_decide (F = []) then move_partials s oc else oc).
  eapply (wp_mono _ (λ _ m1, m1 = upd_caches (insert (c_cache c) oc') m0)).
  { subst oc'. case_bool_decide as EF; cbn [when].
    - wp_step. apply wp_bug_on; [|apply (wp_st_cache _ oc); [exact Ho|done]].
      rewrite /is_cur. case_bool_decide as Ec; [done|]. cbn [negb andb]. apply negb_false_iff, Z.eqb_eq.
      rewrite Huse EF /used decide_False //=. lia.
    - apply wp_ret. by rewrite /upd_caches (insert_id _ _ _ Ho). }
  intros _ m1 ->. wp_step. apply wp_poison; [apply (obj_owned _ _ _ _ Hm _ _ _ _ k Ho Hs); lia|].
  wp_step. apply wp_st_mem; [exact Hfl| |].
  { cbn. apply owned_fill. apply (owned_sub _ obj (Z.to_nat (o_sz oc))); [apply (obj_owned _ _ _ _ Hm _ _ _ _ k Ho Hs); lia|lia|lia]. }
  intros ram Hw Hram Hdom. cbn in Hram, Hdom.
  wp_step. apply (wp_st_slab s c); [exact Hs|]. wp_step. eapply wp_st_slab; [apply lookup_insert_eq|].
  assert (Hram' : ∀ a, ¬ in_obj obj (o_sz oc) a → ram !! a = bmem (bd m0) !! a).
  { intros a Ha. rewrite /in_obj in Ha. rewrite Hram; [lia|]. rewrite fill_poison; [lia|]. by rewrite decide_False. }
  assert (Hdom' : ∀ a, is_Some (bmem (bd m0) !! a) → is_Some (ram !! a)).
  { intros a Ha. apply Hdom. rewrite fill_poison; [lia|]. by case_decide. }
  destruct (linked_inv m0 l fl s c oc F k ram Hm0 Hs Ho HF Hk HkF Hram' Hdom' Hw) as [Hm1 Hf1]. fold obj in Hm1, Hf1.
  rewrite u32_id; [lia|].
  match goal with |- wp _ _ ?x => assert (x = linked m0 ram s obj c oc F) as -> end.
  { rewrite /linked /upd /upd_slabs /upd_caches /set_bd /= insert_insert_eq. done. }
  wp_step. set (m1 := linked m0 ram s obj c oc F) in *.
  assert (Hs1 : slabs m1 !! s = Some (mk_slab (c_cache c) obj (c_inuse c - 1))) by apply lookup_insert_eq.
  assert (Ho1 : caches m1 !! c_cache c = Some oc') by apply lookup_insert_eq.
  destruct (Z.eqb_spec (c_inuse c - 1) 0) as [E0|E0]; cbn [when].
  - assert (Hp1 : pfa (bd m1) !! s = Some p) by exact Hp.
    pose proof (without_slab_inv m1 l _ s _ oc' p Hm1 Hs1 Ho1 Hp1 Hpc) as Hm2.
    pose proof (without_slab_freed m1 l _ s _ oc' _ p Hm1 Hs1 Ho1 (lookup_insert_eq _ _ _) E0 m0 fl obj Hf1) as Hf2.
    set (m2 := without_slab m1 l s (c_cache c) oc' p) in *.
    eapply (wp_mono _ (λ _ m3, m3 = m2)).
    { wp_step. apply (wp_st_cache _ oc'); [exact Ho1|]. wp_step.
      eapply (wp_mono _ (λ _ m3, m3 = upd_caches (insert (c_cache c) (drop_cur s oc')) m1)).
      - rewrite /drop_cur (_ : is_cur s (unlist s oc') = is_cur s oc); [rewrite /oc'; by destruct (bool_decide _)|].
        destruct (is_cur s oc); cbn [when]; [|by apply wp_ret].
        eapply wp_st_cache; [apply lookup_insert_eq|]. rewrite /upd_caches /= insert_insert_eq. done.
      - intros _ m3 ->. rewrite /memchunk_put. wp_step. apply wp_modify, wp_zoom.
        eapply (wp_free_pages (bd m1) l (mi_buddy _ _ _ _ Hm1) s p); [exact Hp1|exact Hpc|]. done. }
    intros _ m3 ->. apply wp_zoom. rewrite /wp /sem_up.
    apply (HQ _ (l ++ [s]) (delete s (<[s := obj :: F]> fl))); [by apply mc_inv_sem|by right|].
    apply (freed_sem _ _ _ _ _ (1 - 1)); [exact Hf2|exact Hsem].
  - apply wp_ret, wp_zoom. rewrite /wp /sem_up.
    apply (HQ _ l (<[s := obj :: F]> fl)); [|by left|].
    + apply mc_inv_sem. apply (mc_inv_full s _ _ _ _ Hm1 Hs1). cbn. lia.
    + apply (freed_sem _ _ _ _ _ (1 - 1)); [exact Hf1|exact Hsem].
Qed.

(** ** The operations *)

Lemma allocated_apart m m' l' fl fl' o r oc o1 oc1 x a :
  mc_inv no_slab m' l' fl' → allocated m fl o r oc m' fl' → caches m !! o = Some oc → live m fl o1 x → caches m !! o1 = Some oc1 →
  in_obj x (o_sz oc1) a → ¬ in_obj r (o_sz oc) a.
Proof.
  intros Hm Ha Ho Hx Ho1 Hxa Hra. pose proof Ha as [A1 A2 _ _ _ _ _ _].
  destruct (al_size _ _ _ _ _ _ _ o oc Ha Ho) as (oc' & Ho' & E). destruct (al_size _ _ _ _ _ _ _ o1 oc1 Ha Ho1) as (oc1' & Ho1' & E1).
  destruct (live_apart _ _ _ _ o1 oc1' x o oc' r a Hm) as [-> ->]; [apply A2; by left|done|apply A2; by right|done|by rewrite E1|by rewrite E|].
  by apply (A1 o).
Qed.

(** C10: Allocation from an object cache: while there is a free page frame
    [objcache_alloc] returns an object of the cache that was not handed out,
    filled with the poison pattern, within one page and apart from every
    object that is handed out, of this or another cache; no other byte of
    memory changes, and the invariant of the allocator is kept. *)
Theorem objcache_alloc_correct m l fl o oc :
  mc_inv no_slab m l fl → memsem m = 1 → caches m !! o = Some oc → o ≠ NULL → l ≠ [] →
  ∃ r m' l' fl', objcache_alloc o m = Ret (r, m') ∧ mc_inv no_slab m' l' fl' ∧ allocated m fl o r oc m' fl' ∧
    ∀ o1 oc1 x a, live m fl o1 x → caches m !! o1 = Some oc1 → in_obj x (o_sz oc1) a → ¬ in_obj r (o_sz oc) a.
Proof.
  intros Hm Hsem Ho Hn Hl.
  assert (Hw : wp (objcache_alloc o) (λ r m', ∃ l' fl', mc_inv no_slab m' l' fl' ∧ allocated m fl o r oc m' fl') m).
  { apply (wp_do_alloc m l fl o oc); [done..|]. intros r m' l' fl' Hm' _ Ha. by exists l', fl'. }
  destruct (wp_elim _ _ _ Hw) as (r & m' & E & l' & fl' & Hm' & Ha). exists r, m', l', fl'. split_and!; [done..|].
  intros o1 oc1 x a Hx Ho1. by apply (allocated_apart m m' l' fl fl' o r oc o1 oc1 x a).
Qed.

Lemma wp_objcache_free m l fl o oc obj (Q : unit → memchunk → Prop) :
  mc_inv no_slab m l fl → memsem m = 1 → live m fl o obj → caches m !! o = Some oc → obj ≠ o_ptr_end oc →
  (∀ m' l' fl', mc_inv no_slab m' l' fl' → freed m fl obj m' fl' → Q tt m') → wp (objcache_free obj) Q m.
Proof.
  intros Hm Hsem (s & c & oc1 & F & Hs & <- & Ho1 & HF & k & Hk & -> & HkF) Ho Hne HQ. rewrite Ho in Ho1. injection Ho1 as <-.
  pose proof (used_range _ _ _ _ Hm _ _ _ _ Ho Hs) as Hur. destruct (slab_frame _ _ _ _ Hm _ _ Hs) as [Fr Fa].
  destruct (obj_bounds _ _ _ _ Hm _ _ _ _ k Ho Hs ltac:(lia)) as [B1 B2]. pose proof (mi_cache _ _ _ _ Hm _ _ Ho) as [C1 C2 C3 C5 C4].
  destruct (mi_slab _ _ _ _ Hm _ _ Hs) as (_ & _ & _ & _ & [_ _ _ _ _ _ (p & Hp & Hpt & Hpc)]).
  rewrite /objcache_free (proj2 (Z.eqb_neq _ _)). { rewrite Fa /PAGE_OFFSET in B1. unfold NULL. lia. }
  assert (Hv : virt_to_page (obj_at s (o_sz oc) k) = s).
  { etrans; [|apply (virt_to_page_address s (obj_at s (o_sz oc) k - page_address s)); [rewrite /frame_ok; lia|lia]]. f_equal. lia. }
  rewrite Hv. wp_step. rewrite /free_checks. wp_step. apply wp_zoom. apply (wp_ld_page _ _ p); [exact Hp|].
  assert (set_bd (bd m) m = m) as -> by by destruct m. wp_step. apply wp_bug_on; [by rewrite Hpt|]. apply wp_bug_on; [by rewrite Hpc|].
  wp_step. rewrite /list_checks. wp_step. apply (wp_ld_slab s c _ _ Hs). wp_step. apply (wp_ld_cache _ oc _ _ Ho).
  apply wp_bug_on.
  { rewrite /is_cur /slab_is_on. destruct (proj2 (C4 s)) as [H|[H|H]]; [by exists c|..]; by rewrite (bool_decide_eq_true_2 _ H) ?andb_false_r. }
  wp_step. apply (wp_ld_slab s c _ _ Hs). apply (wp_do_cache_free m l fl s c oc F k); [done..|].
  intros m' l' fl' Hm' _ Hf. by apply (HQ m' l' fl').
Qed.

(** C11: Freeing an object: [objcache_free] of an object that is handed out
    returns, unless the object starts where the current slab of its cache
    ends (see [objcache_free_false_alarm]); afterwards exactly that object is
    not handed out any more, the bytes of all the others are as they were, and
    the invariant is kept, the page of an emptied slab being given back. *)
Theorem objcache_free_correct m l fl o oc obj :
  mc_inv no_slab m l fl → memsem m = 1 → live m fl o obj → caches m !! o = Some oc → obj ≠ o_ptr_end oc →
  ∃ m' l' fl', objcache_free obj m = Ret (tt, m') ∧ mc_inv no_slab m' l' fl' ∧ freed m fl obj m' fl'.
Proof.
  intros Hm Hsem Hl Ho Hne.
  assert (Hw : wp (objcache_free obj) (λ _ m', ∃ l' fl', mc_inv no_slab m' l' fl' ∧ freed m fl obj m' fl') m).
  { apply (wp_objcache_free m l fl o oc obj); [done..|]. intros m' l' fl' Hm' Hf. by exists l', fl'. }
  destruct (wp_elim _ _ _ Hw) as ([] & m' & E & l' & fl' & Hm' & Hf). by exists m', l', fl'.
Qed.

(** ** kmalloc *)

(** The general caches: 4, 8, ... bytes. *)
Definition general_ok (m : memchunk) (gc : list Z) (sz : Z) : Prop :=
  ∀ i o, gc !! i = Some o → o ≠ NULL ∧ ∃ oc, caches m !! o = Some oc ∧ o_sz oc = sz * 2 ^ Z.of_nat i.

Lemma general_ok_tail m o gc sz : general_ok m (o :: gc) sz → general_ok m gc (Z.shiftl sz 1).
Proof.
  intros H i o1 Hi. destruct (H (S i) o1 Hi) as (Hn & oc & Ho & Hsz). split; [done|]. exists oc. split; [done|].
  rewrite Hsz Z.shiftl_mul_pow2 // Nat2Z.inj_succ Z.pow_succ_r; lia.
Qed.

(** The loop takes the first cache that is large enough. *)
Lemma wp_kmalloc_loop m l fl gc sz alloc_sz (Q : Z → memchunk → Prop) :
  mc_inv no_slab m l fl → memsem m = 1 → l ≠ [] → general_ok m gc sz → 0 < sz →
  (sz * 2 ^ Z.of_nat (length gc) < 2 * alloc_sz ∨ gc = [] → Q NULL m) →
  (∀ o oc r m' l' fl', mc_inv no_slab m' l' fl' → allocated m fl o r oc m' fl' → o ∈ gc → caches m !! o = Some oc →
     alloc_sz ≤ o_sz oc → o_sz oc = sz ∨ o_sz oc < 2 * alloc_sz → Q r m') →
  wp (kmalloc_loop objcache_alloc gc sz alloc_sz) Q m.
Proof.
  intros Hm Hsem Hl. revert sz. induction gc as [|o gc IH]; intros sz Hg Hsz H0 H1; cbn [kmalloc_loop]; [by apply wp_ret, H0; right|].
  destruct (Hg 0%nat o eq_refl) as (Hn & oc & Ho & Eo). rewrite Z.mul_1_r in Eo.
  destruct (Z.leb_spec alloc_sz sz) as [Hle|Hlt].
  - apply (wp_do_alloc m l fl o oc); [done..|]. intros r m' l' fl' Hm' _ Ha.
    apply (H1 o oc r m' l' fl'); [done|done|set_solver|done|lia|by left].
  - assert (Es : Z.shiftl sz 1 = 2 * sz) by (rewrite Z.shiftl_mul_pow2; lia).
    apply IH; [eapply general_ok_tail; exact Hg|lia| |].
    + intros [Hs| ->]; apply H0; left; [|cbn; lia]. rewrite Es in Hs. cbn [length]. rewrite Nat2Z.inj_succ Z.pow_succ_r; lia.
    + intros o1 oc1 r m' l' fl' Hm' Ha Hin Ho1 H2 H3. apply (H1 o1 oc1 r m' l' fl'); [done|done|set_solver|done|done|]. right. lia.
Qed.

(** C13: [kmalloc] gives memory of its own: for every size up to a page, while
    there is a free frame, it returns an object of the smallest general cache
    that is large enough, apart from all objects that are handed out; for a
    larger size it returns NULL and changes nothing. *)
Theorem kmalloc_correct m l fl gc sz :
  mc_inv no_slab m l fl → memsem m = 1 → l ≠ [] → general_ok m gc 4 → length gc = NR_CACHE → 0 ≤ sz →
  if 4096 <? sz then kmalloc gc sz m = Ret (NULL, m) else
  ∃ o oc r m' l' fl', kmalloc gc sz m = Ret (r, m') ∧ mc_inv no_slab m' l' fl' ∧ allocated m fl o r oc m' fl' ∧
    o ∈ gc ∧ caches m !! o = Some oc ∧ sz ≤ o_sz oc ∧ (o_sz oc = 4 ∨ o_sz oc < 2 * sz).
Proof.
  intros Hm Hsem Hl Hg Hlen Hsz. destruct (Z.ltb_spec 4096 sz) as [Hbig|Hle].
  - rewrite /kmalloc. assert (Hloop : ∀ gc s, 0 < s → general_ok m gc s → s * 2 ^ Z.of_nat (length gc) < 2 * sz →
      kmalloc_loop objcache_alloc gc s sz m = Ret (NULL, m)).
    { clear. induction gc as [|o gc IH]; intros s H0 Hg Hs; [done|]. cbn [kmalloc_loop length] in *.
      rewrite Nat2Z.inj_succ Z.pow_succ_r in Hs; [lia|]. pose proof (Z.pow_pos_nonneg 2 (Z.of_nat (length gc)) ltac:(lia) ltac:(lia)).
      destruct (Z.leb_spec sz s); [nia|]. rewrite Z.shiftl_mul_pow2; [lia|].
      apply IH; [lia| |lia]. rewrite -Z.shiftl_mul_pow2; [lia|]. eapply general_ok_tail; exact Hg. }
    apply Hloop; [done|done|]. rewrite Hlen. change (Z.shiftl 1 2 * 2 ^ Z.of_nat NR_CACHE) with 8192. lia.
  - assert (Hw : wp (kmalloc gc sz) (λ r m', ∃ o oc l' fl', mc_inv no_slab m' l' fl' ∧ allocated m fl o r oc m' fl' ∧
      o ∈ gc ∧ caches m !! o = Some oc ∧ sz ≤ o_sz oc ∧ (o_sz oc = 4 ∨ o_sz oc < 2 * sz)) m).
    { apply (wp_kmalloc_loop m l fl gc); [done..| |].
      - intros [H| ->]; [|done]. rewrite Hlen in H. change (Z.shiftl 1 2 * 2 ^ Z.of_nat NR_CACHE) with 8192 in H. lia.
      - intros o oc r m' l' fl' Hm' Ha Hin Ho H1 H2. by exists o, oc, l', fl'. }
    destruct (wp_elim _ _ _ Hw) as (r & m' & E & o & oc & l' & fl' & H). by exists o, oc, r, m', l', fl'.
Qed.

(** ** Start-up: the caches of [_memchunk_init] and [_kmalloc_init] *)

(** A cache as [do_cache_init] leaves it. *)
Definition fresh_cache (sz p : Z) : objcache := mk_objcache sz (PAGE_SIZE / sz) NULL NULL None [] [] p.

Lemma new_cache_inv e m l fl o sz p : mc_inv e m l fl → caches m !! o = None → 4 ≤ sz ≤ 4096 →
  mc_inv e (upd_caches (insert o (fresh_cache sz p)) m) l fl.
Proof.
  intros [H1 H2 H3 H4 H5] Ho Hsz. split; [done|done| | |done].
  - intros o1 oc1 Ho1. cbn in Ho1. apply lookup_insert_Some in Ho1 as [[<- <-]|[Hne Ho1]]; [|by destruct (H3 _ _ Ho1)].
    split; [done|done|done|done|]. intros s. split; [intros [?|[?|?]]; cbn in *; [done|set_solver..]|].
    intros (c & Hs & <-). destruct (H4 _ _ Hs) as (oc & F & Hc & _). cbn in *. congruence.
  - intros s c Hs. destruct (H4 _ _ Hs) as (oc & F & Hc & HF & []). exists oc, F. cbn.
    rewrite lookup_insert_ne; [congruence|]. done.
Qed.

Lemma new_cache_live m fl o sz p o1 x : live m fl o1 x → caches m !! o = None →
  live (upd_caches (insert o (fresh_cache sz p)) m) fl o1 x.
Proof.
  intros (s & c & oc & F & Hs & Hc & Ho1 & HF) Ho. exists s, c, oc, F. cbn. rewrite lookup_insert_ne; [congruence|]. done.
Qed.

Lemma mc_inv_p_caches e m l fl v : mc_inv e m l fl → mc_inv e (set_p_caches v m) l fl.
Proof.
  intros [H1 H2 H3 H4 H5]. split; try done.
  - intros o oc Ho. by destruct (H3 o oc Ho).
  - intros s c Hs. destruct (H4 s c Hs) as (oc & F & Ho & HF & []). by exists oc, F.
Qed.

(** An allocator without caches. *)
Lemma mc_inv_empty m l : buddy_inv (bd m) l → (∀ s p, pfa (bd m) !! s = Some p → s < 0x3fffe) →
  slabs m = ∅ → caches m = ∅ → mc_inv no_slab m l ∅.
Proof.
  intros Hb Ht Hs Hc. split; [done|done|..].
  - intros o oc. by rewrite Hc lookup_empty.
  - intros s c. by rewrite Hs lookup_empty.
  - intros s. rewrite lookup_empty. by intros [].
Qed.

(** The frame of the kernel's static data, where the two static caches are. *)
Definition static_frame : Z := 0x180.

(** The states of the start-up: the frame of the static data is in use and no
    slab; a cache is one of the two static ones or an object of the first. *)
Record booting (m : memchunk) (l : list Z) (fl : gmap Z (list Z)) : Prop := {
  bo_inv : mc_inv no_slab m l fl;
  bo_sem : memsem m = 1;
  bo_static : ∃ p, pfa (bd m) !! static_frame = Some p ∧ pg_count p ≠ 0 ∧ pg_type p ≠ PG_slab;
  bo_self : is_Some (caches m !! m_self_cache);
  bo_known o : is_Some (caches m !! o) → o = m_self_cache ∨ o = m_pool_cache ∨ live m fl m_self_cache o
}.

Lemma live_static m l fl o x : booting m l fl → live m fl o x → virt_to_page x ≠ static_frame.
Proof.
  intros [Hm _ (p & Hp & _ & Ht) _ _] (s & c & oc & F & Hs & <- & Ho & _ & k & Hk & -> & _) Ev.
  pose proof (used_range _ _ _ _ Hm _ _ _ _ Ho Hs) as Hur. destruct (slab_frame _ _ _ _ Hm _ _ Hs) as [Fr Fa].
  destruct (obj_bounds _ _ _ _ Hm _ _ _ _ k Ho Hs ltac:(lia)) as [B1 B2]. pose proof (co_sz _ _ _ (mi_cache _ _ _ _ Hm _ _ Ho)).
  assert (s = static_frame) as ->.
  { rewrite -Ev. symmetry. etrans; [|apply (virt_to_page_address s (obj_at s (o_sz oc) k - page_address s)); [rewrite /frame_ok; lia|lia]]. f_equal. lia. }
  destruct (mi_slab _ _ _ _ Hm _ _ Hs) as (_ & _ & _ & _ & [_ _ _ _ _ _ (q & Hq & Hqt & _)]). congruence.
Qed.

(** An allocation makes no cache, and leaves the start-up going. *)
Lemma al_dom m fl o r oc m' fl' o1 : allocated m fl o r oc m' fl' → is_Some (caches m' !! o1) → is_Some (caches m !! o1).
Proof.
  intros Ha [oc1 E]. pose proof (al_sizes _ _ _ _ _ _ _ Ha o1) as A6. rewrite E in A6. destruct (caches m !! o1); [by eexists|done].
Qed.

Lemma booting_alloc m l fl m' l' fl' o r oc : booting m l fl → mc_inv no_slab m' l' fl' →
  allocated m fl o r oc m' fl' → booting m' l' fl'.
Proof.
  intros [Hm Hsem (p & Hp & Hp0 & Hpt) [so Hso] Hk] Hm' Ha. pose proof Ha as [A1 A2 _ _ _ A6 A7 A8].
  split; [done|congruence|exists p; split; [by apply A7|done]| |].
  - destruct (al_size _ _ _ _ _ _ _ _ _ Ha Hso) as (oc2 & E & _). by exists oc2.
  - intros o1 Ho. destruct (Hk o1 (al_dom _ _ _ _ _ _ _ _ Ha Ho)) as [?|[?|?]]; [by auto..|]. right; right. apply A2. by left.
Qed.

(** A new object of the cache of caches is not the address of a cache. *)
Lemma booting_fresh m l fl m' l' fl' r oc : booting m l fl → mc_inv no_slab m' l' fl' →
  allocated m fl m_self_cache r oc m' fl' → caches m' !! r = None.
Proof.
  intros Hb Hm' Ha. pose proof (booting_alloc _ _ _ _ _ _ _ _ _ Hb Hm' Ha) as Hb'. pose proof Ha as [A1 A2 _ _ _ _ _ _].
  destruct (caches m' !! r) as [oc1|] eqn:E; [|done].
  assert (Hr : live m' fl' m_self_cache r) by (apply A2; by right). pose proof (live_static _ _ _ _ _ Hb' Hr) as Hv.
  destruct (bo_known _ _ _ Hb r (al_dom _ _ _ _ _ _ _ _ Ha (ex_intro _ _ E))) as [-> |[-> |H]]; [done|done|]. by destruct (A1 _ H).
Qed.

(** Caches keep their size. *)
Definition same_sizes (m m' : memchunk) : Prop :=
  ∀ o oc, caches m !! o = Some oc → ∃ oc', caches m' !! o = Some oc' ∧ o_sz oc' = o_sz oc.

(** A byte in use: of an object that is handed out, or of a frame that is
    neither free nor a slab. *)
Definition in_use (m : memchunk) (fl : gmap Z (list Z)) (a : Z) : Prop :=
  (∃ o oc x, live m fl o x ∧ caches m !! o = Some oc ∧ in_obj x (o_sz oc) a) ∨
  (∃ p, pfa (bd m) !! virt_to_page a = Some p ∧ pg_count p ≠ 0 ∧ pg_type p ≠ PG_slab).

Lemma live_frame e m l fl o x oc a : mc_inv e m l fl → live m fl o x → caches m !! o = Some oc → in_obj x (o_sz oc) a →
  ∃ p, pfa (bd m) !! virt_to_page a = Some p ∧ pg_type p = PG_slab.
Proof.
  intros Hm (s & c & oc0 & F & Hs & <- & Ho0 & HF & k & Hk & -> & HxF) Ho Ha. rewrite Ho in Ho0. injection Ho0 as <-.
  pose proof (used_range _ _ _ _ Hm _ _ _ _ Ho Hs) as Hur. destruct (slab_frame _ _ _ _ Hm _ _ Hs) as [Fr Fa].
  destruct (obj_bounds _ _ _ _ Hm _ _ _ _ k Ho Hs ltac:(lia)) as [B1 B2]. rewrite /in_obj in Ha.
  assert (virt_to_page a = s) as ->.
  { etrans; [|apply (virt_to_page_address s (a - page_address s)); [rewrite /frame_ok; lia|lia]]. f_equal. lia. }
  destruct (mi_slab _ _ _ _ Hm _ _ Hs) as (_ & _ & _ & _ & [_ _ _ _ _ _ (q & Hq & Hqt & _)]). by exists q.
Qed.

Lemma in_use_apart m fl o r oc m' l' fl' a : mc_inv no_slab m' l' fl' → allocated m fl o r oc m' fl' → caches m !! o = Some oc →
  in_use m fl a → ¬ in_obj r (o_sz oc) a.
Proof.
  intros Hm' Ha Ho [(o1 & oc1 & x & Hx & Ho1 & Hxa)|(p & Hp & Hp0 & Hpt)] Hra.
  - by apply (allocated_apart m m' l' fl fl' o r oc o1 oc1 x a Hm' Ha Ho Hx Ho1 Hxa).
  - destruct (al_size _ _ _ _ _ _ _ _ _ Ha Ho) as (oc' & Ho' & E).
    assert (Hr : live m' fl' o r) by (apply (al_live _ _ _ _ _ _ _ Ha); by right).
    destruct (live_frame _ _ _ _ _ _ oc' a Hm' Hr Ho') as (q & Hq & Hqt); [by rewrite E|].
    rewrite (al_frame _ _ _ _ _ _ _ Ha _ _ Hp Hp0) in Hq. congruence.
Qed.

(** What an operation leaves to the users of memory: their objects and frames,
    with their bytes. *)
Record keeps (m : memchunk) (fl : gmap Z (list Z)) (m' : memchunk) (fl' : gmap Z (list Z)) : Prop := {
  kp_sizes : same_sizes m m';
  kp_live o x : live m fl o x → live m' fl' o x;
  kp_frame s p : pfa (bd m) !! s = Some p → pg_count p ≠ 0 → pfa (bd m') !! s = Some p;
  kp_mem a : in_use m fl a → bmem (bd m') !! a = bmem (bd m) !! a
}.

Lemma keeps_in_use m fl m' fl' a : keeps m fl m' fl' → in_use m fl a → in_use m' fl' a.
Proof.
  intros [A1 A2 A3 A4] [(o & oc & x & Hx & Ho & Ha)|(p & Hp & H0 & Ht)]; [left|right].
  - destruct (A1 o oc Ho) as (oc' & Ho' & E). exists o, oc', x. split_and!; [by apply A2|done|by rewrite E].
  - exists p. split_and!; [by apply A3|done..].
Qed.


Lemma keeps_refl m fl : keeps m fl m fl.
Proof. split; [|done..]. intros o oc Ho. by exists oc. Qed.

Lemma keeps_trans m1 fl1 m2 fl2 m3 fl3 : keeps m1 fl1 m2 fl2 → keeps m2 fl2 m3 fl3 → keeps m1 fl1 m3 fl3.
Proof.
  intros HA HB. pose proof HA as [A1 A2 A3 A4]. pose proof HB as [B1 B2 B3 B4]. split; [|by auto..|].
  - intros o oc Ho. destruct (A1 o oc Ho) as (oc2 & Ho2 & E2). destruct (B1 o oc2 Ho2) as (oc3 & Ho3 & E3). exists oc3. split; [done|congruence].
  - intros a Ha. rewrite (B4 a); [by apply (keeps_in_use _ _ _ _ _ HA)|]. by apply A4.
Qed.

Lemma allocated_keeps m fl o r oc m' l' fl' : mc_inv no_slab m' l' fl' → allocated m fl o r oc m' fl' → caches m !! o = Some oc →
  keeps m fl m' fl'.
Proof.
  intros Hm' Ha Ho. split; [|..|apply Ha|].
  - intros o1 oc1. by apply (al_size _ _ _ _ _ _ _ _ _ Ha).
  - intros o1 x Hx. apply (al_live _ _ _ _ _ _ _ Ha). by left.
  - intros a Hin. apply (al_mem _ _ _ _ _ _ _ Ha). by apply (in_use_apart m fl o r oc m' l' fl' a).
Qed.

Lemma wp_do_cache_init p o sz (Q : unit → memchunk → Prop) m :
  Q tt (set_p_caches (p_caches m ++ [o]) (upd_caches (insert o (fresh_cache sz p)) m)) → wp (do_cache_init p o sz) Q m.
Proof. done. Qed.

(** A new cache: its descriptor is an object of the cache of caches. *)
Lemma wp_objcache_init m l fl pool sz (Q : Z → memchunk → Prop) : booting m l fl → l ≠ [] → 4 ≤ sz ≤ 4096 →
  (∀ o oc m' l' fl', booting m' l' fl' → l' = l ∨ l' = tail l → o ≠ NULL → caches m' !! o = Some oc → o_sz oc = sz →
     keeps m fl m' fl' → Q o m') →
  wp (objcache_init pool sz) Q m.
Proof.
  intros Hb Hl Hsz HQ. pose proof Hb as [Hm Hsem _ [so Hso] _]. rewrite /objcache_init. wp_step.
  apply wp_bug_on; [apply Z.ltb_ge; rewrite /PAGE_SIZE; lia|]. rewrite (proj2 (Z.eqb_neq sz 0)); [lia|].
  rewrite (proj2 (Z.ltb_ge sz sizeof_ptr)); [rewrite /sizeof_ptr; lia|].
  wp_step. apply (wp_do_alloc m l fl m_self_cache so); [done..|]. intros r m1 l1 fl1 Hm1 Hl1 Ha.
  pose proof (booting_alloc _ _ _ _ _ _ _ _ _ Hb Hm1 Ha) as Hb1. pose proof (booting_fresh _ _ _ _ _ _ _ _ Hb Hm1 Ha) as Hr. pose proof (al_range _ _ _ _ _ _ _ Ha) as [Hr1 _].
  assert (Hn : r ≠ NULL) by (rewrite /PAGE_OFFSET in Hr1; rewrite /NULL; lia).
  rewrite (proj2 (Z.eqb_neq _ _) Hn). wp_step. apply wp_do_cache_init, wp_ret.
  apply (HQ r (fresh_cache sz (if pool =? NULL then m_gpool else pool)) _ l1 fl1); [|done|done|apply lookup_insert_eq|done|].
  - destruct Hb1 as [_ Hs1 Hst1 [so1 Hso1] Hk1]. split; [by apply mc_inv_p_caches, new_cache_inv|exact Hs1|exact Hst1| |].
    + exists so1. cbn. rewrite lookup_insert_ne; [congruence|done].
    + intros o Ho. cbn in Ho. destruct (decide (o = r)) as [-> |Hne].
      * right; right. apply (new_cache_live m1); [|done]. apply (al_live _ _ _ _ _ _ _ Ha). by right.
      * rewrite lookup_insert_ne in Ho; [congruence|]. destruct (Hk1 o Ho) as [?|[?|?]]; [by auto..|].
        right; right. by apply (new_cache_live m1).
  - apply (keeps_trans m fl m1 fl1); [by apply (allocated_keeps _ _ _ _ _ _ _ _ Hm1 Ha)|]. split; [|by intros; apply (new_cache_live m1)|done|done].
    intros o oc Ho. exists oc. cbn. rewrite lookup_insert_ne; [congruence|done].
Qed.

Lemma general_ok_same m m' gc sz : general_ok m gc sz → same_sizes m m' → general_ok m' gc sz.
Proof.
  intros Hg Hs i o Hi. destruct (Hg i o Hi) as (Hn & oc & Ho & E). split; [done|]. destruct (Hs o oc Ho) as (oc' & Ho' & E').
  exists oc'. split; [done|congruence].
Qed.

(** The loop takes at most one frame for every cache. *)
Lemma wp_kmalloc_init_loop n m l fl sz (Q : list Z → memchunk → Prop) :
  booting m l fl → (n ≤ length l)%nat → 4 ≤ sz → sz * 2 ^ Z.of_nat n ≤ 8192 →
  (∀ gc m' l' fl', booting m' l' fl' → (length l ≤ length l' + n)%nat → length gc = n → general_ok m' gc sz →
     keeps m fl m' fl' → Q gc m') →
  wp (kmalloc_init_loop n sz) Q m.
Proof.
  revert m l fl sz Q. induction n as [|n IH]; intros m l fl sz Q Hb Hl Hsz Hmax HQ; cbn [kmalloc_init_loop].
  { apply wp_ret, (HQ [] m l fl); [done|lia|done|by intros ? ?|]. apply keeps_refl. }
  rewrite Nat2Z.inj_succ Z.pow_succ_r in Hmax; [lia|]. pose proof (Z.pow_pos_nonneg 2 (Z.of_nat n) ltac:(lia) ltac:(lia)).
  wp_step. apply (wp_objcache_init m l fl); [done|by destruct l; [cbn in Hl; lia|]|nia|].
  intros o oc m1 l1 fl1 Hb1 Hl1 Hn Ho Hosz Hs1. wp_step. apply wp_bug_on; [by apply Z.eqb_neq|].
  assert (Hlen : (length l ≤ length l1 + 1)%nat) by (destruct Hl1 as [-> | ->]; [lia|]; destruct l; cbn; lia).
  assert (Es : Z.shiftl sz 1 = 2 * sz) by (rewrite Z.shiftl_mul_pow2; lia).
  wp_step. apply (IH m1 l1 fl1); [done|lia|lia|rewrite Es; lia|].
  intros gc m2 l2 fl2 Hb2 Hl2 Hgc Hg Hs2. apply wp_ret, (HQ (o :: gc) m2 l2 fl2); [done|lia|cbn; lia| |].
  - intros [|i] o1 Hi; cbn in Hi.
    + injection Hi as <-. split; [done|]. destruct (kp_sizes _ _ _ _ Hs2 o oc Ho) as (oc2 & Ho2 & E2). exists oc2. split; [done|]. cbn. lia.
    + destruct (Hg i o1 Hi) as (Hn1 & oc1 & Ho1 & E1). split; [done|]. exists oc1. split; [done|].
      rewrite E1 Es Nat2Z.inj_succ Z.pow_succ_r; lia.
  - by apply (keeps_trans m fl m1 fl1).
Qed.

(** The state the memory of the machine is in when the caches are set up. *)
Record fresh_memchunk (m : memchunk) (l : list Z) : Prop := {
  fm_buddy : buddy_inv (bd m) l;
  fm_top s p : pfa (bd m) !! s = Some p → s < 0x3fffe;
  fm_slabs : slabs m = ∅;
  fm_caches : caches m = ∅;
  fm_sem : memsem m = 1;
  fm_static : ∃ p, pfa (bd m) !! static_frame = Some p ∧ pg_count p ≠ 0 ∧ pg_type p ≠ PG_slab
}.

Lemma wp_memchunk_init m l (Q : unit → memchunk → Prop) : fresh_memchunk m l →
  (∀ m', booting m' l ∅ → caches m' !! m_self_cache = Some (fresh_cache sizeof_objcache m_gpool) →
     caches m' !! m_pool_cache = Some (fresh_cache sizeof_mempool m_gpool) → keeps m ∅ m' ∅ → Q tt m') →
  wp _memchunk_init Q m.
Proof.
  intros [Hb Ht Hs Hc Hsem Hst] HQ. rewrite /_memchunk_init. wp_step. apply wp_modify. wp_step.
  apply wp_do_cache_init, wp_do_cache_init, HQ; [|cbn; by rewrite lookup_insert_ne ?lookup_insert_eq|cbn; by rewrite lookup_insert_eq|].
  2: { split; [intros o oc; by rewrite Hc lookup_empty| |done|done]. intros o x (s & c & _ & _ & Hs1 & _). by rewrite Hs lookup_empty in Hs1. }
  split; [|exact Hsem|exact Hst|cbn; rewrite lookup_insert_ne ?lookup_insert_eq; [done|by eexists]|].
  - apply mc_inv_p_caches, new_cache_inv; [|cbn; by rewrite Hc|rewrite /sizeof_mempool; lia].
    apply mc_inv_p_caches, new_cache_inv; [|cbn; by rewrite Hc|rewrite /sizeof_objcache; lia].
    by apply mc_inv_p_caches, mc_inv_empty.
  - intros o. cbn. rewrite Hc !lookup_insert_is_Some'. intros [<-|[<-|[? H]]]; auto. by rewrite lookup_empty in H.
Qed.

Lemma wp_caches_init m l (Q : list Z → memchunk → Prop) : fresh_memchunk m l → (NR_CACHE ≤ length l)%nat →
  (∀ gc m' l' fl', mc_inv no_slab m' l' fl' → memsem m' = 1 → (length l ≤ length l' + NR_CACHE)%nat →
     length gc = NR_CACHE → general_ok m' gc 4 → keeps m ∅ m' fl' → Q gc m') →
  wp (do! _memchunk_init then _kmalloc_init) Q m.
Proof.
  intros Hf Hl HQ. wp_step. apply (wp_memchunk_init m l); [done|]. intros m1 Hb1 _ _ Hk1.
  apply (wp_kmalloc_init_loop NR_CACHE m1 l ∅); [done|done|done|done|].
  intros gc m2 l2 fl2 [Hm2 Hs2 _ _ _] Hl2 Hgc Hg Hk2. apply (HQ gc m2 l2 fl2); [done..|]. by apply (keeps_trans m ∅ m1 ∅).
Qed.

(** Start-up of the kernel's heap: from free page frames alone,
    [_memchunk_init] and [_kmalloc_init] build the cache of caches and the
    eleven general caches of 4, 8, ..., 4096 bytes, whose descriptors are
    themselves objects of the first cache, and leave the allocator in a state
    that satisfies its invariant: what [kmalloc] needs to work. *)
Theorem kmalloc_init_correct m l :
  fresh_memchunk m l → (NR_CACHE ≤ length l)%nat →
  ∃ gc m' l' fl', (do! _memchunk_init then _kmalloc_init) m = Ret (gc, m') ∧ mc_inv no_slab m' l' fl' ∧ memsem m' = 1 ∧
    (length l ≤ length l' + NR_CACHE)%nat ∧ length gc = NR_CACHE ∧ general_ok m' gc 4.
Proof.
  intros Hf Hl. assert (Hw : wp (do! _memchunk_init then _kmalloc_init) (λ gc m', ∃ l' fl', mc_inv no_slab m' l' fl' ∧ memsem m' = 1 ∧
    (length l ≤ length l' + NR_CACHE)%nat ∧ length gc = NR_CACHE ∧ general_ok m' gc 4) m).
  { apply (wp_caches_init m l); [done..|]. intros gc m' l' fl' H1 H2 H3 H4 H5 _. by exists l', fl'. }
  destruct (wp_elim _ _ _ Hw) as (gc & m' & E & l' & fl' & H). by exists gc, m', l', fl'.
Qed.

(** ** A machine with 24 free frames, and a string in its static data *)

Definition heap_frames : list Z := seqZ 0 24.
Lemma heap_len : length heap_frames = 24%nat.
Proof. apply length_seqZ. Qed.
Definition heap_string : Z := page_address static_frame + 256.
Definition heap_mc : memchunk :=
  mk_memchunk
    (mk_buddy (<[static_frame := mk_page 1 PG_reserved 0]> (list_to_map ((λ i, (i, mk_page 0 0 0)) <$> heap_frames)))
       {[ 1 := heap_frames ]} 1 24
       (fill heap_string 65 3 (fill (page_address static_frame) 0 4096 (fill PAGE_OFFSET 0 (Z.to_nat (24 * 4096)) ∅))))
    ∅ ∅ [] 1.

Lemma heap_frame s p : pfa (bd heap_mc) !! s = Some p → s = static_frame ∨ 0 ≤ s < 24 ∧ pg_count p = 0.
Proof.
  rewrite /heap_mc. cbn [bd pfa]. intros [[<- _]|[_ H]]%lookup_insert_Some; [by left|right]. apply elem_of_list_to_map_2 in H.
  apply list_elem_of_fmap in H as (i & [= -> ->] & Hi). apply elem_of_seqZ in Hi. split; [lia|done].
Qed.

Lemma heap_fresh : fresh_memchunk heap_mc heap_frames.
Proof.
  split; [|..|done|done|done|by exists (mk_page 1 PG_reserved 0)].
  - split; [done|done|apply NoDup_seqZ|..].
    + intros s Hs. exists (mk_page 0 0 0). split; [|done]. apply elem_of_seqZ in Hs. rewrite /heap_mc. cbn [bd pfa].
      rewrite lookup_insert_ne; [unfold static_frame; lia|]. apply elem_of_list_to_map_1.
      * rewrite -list_fmap_compose. apply NoDup_fmap_2; [by intros ? ?|apply NoDup_seqZ].
      * apply list_elem_of_fmap. exists s. split; [done|]. apply elem_of_seqZ. lia.
    + done.
    + intros s p [-> |[? _]]%heap_frame; rewrite /frame_ok /static_frame; lia.
    + intros s p [-> |[? _]]%heap_frame; [apply owned_fill, fill_owned; apply Z.leb_le; reflexivity|].
      apply owned_fill, owned_fill, fill_owned; rewrite page_address_eq; [rewrite /frame_ok; lia|lia|rewrite /frame_ok; lia|].
      rewrite Z2Nat.id; [apply Z.leb_le; reflexivity|]. assert (Z.of_nat 4096 = 4096) as -> by reflexivity. lia.
  - intros s p [-> |[? _]]%heap_frame; rewrite /static_frame; lia.
Qed.

Lemma heap_init : ∃ gc m l fl, (do! _memchunk_init then _kmalloc_init) heap_mc = Ret (gc, m) ∧ mc_inv no_slab m l fl ∧
  memsem m = 1 ∧ l ≠ [] ∧ length gc = NR_CACHE ∧ general_ok m gc 4 ∧ keeps heap_mc ∅ m fl.
Proof.
  assert (Hw : wp (do! _memchunk_init then _kmalloc_init) (λ gc m, ∃ l fl, mc_inv no_slab m l fl ∧
    memsem m = 1 ∧ l ≠ [] ∧ length gc = NR_CACHE ∧ general_ok m gc 4 ∧ keeps heap_mc ∅ m fl) heap_mc).
  { apply (wp_caches_init heap_mc heap_frames); [exact heap_fresh|rewrite heap_len /NR_CACHE; lia|].
    intros gc m' l' fl' H1 H2 H3 H4 H5 H6. exists l', fl'. split_and!; [done|done| |done|done|exact H6].
    intros ->. rewrite heap_len /NR_CACHE in H3. cbn in H3. lia. }
  destruct (wp_elim _ _ _ Hw) as (gc & m' & E & l' & fl' & H). exists gc, m', l', fl'. split; [exact E|exact H].
Qed.

Lemma kmalloc_init_witness : ∃ gc m' l' fl', (do! _memchunk_init then _kmalloc_init) heap_mc = Ret (gc, m') ∧
  mc_inv no_slab m' l' fl' ∧ memsem m' = 1 ∧ (length heap_frames ≤ length l' + NR_CACHE)%nat ∧
  length gc = NR_CACHE ∧ general_ok m' gc 4.
Proof. apply (kmalloc_init_correct heap_mc heap_frames); [exact heap_fresh|rewrite heap_len /NR_CACHE; lia]. Defined.

(** A hundred bytes come from the general cache of 128 bytes. *)
Lemma kmalloc_witness : ∃ gc m fl, (do! _memchunk_init then _kmalloc_init) heap_mc = Ret (gc, m) ∧
  ∃ o oc r m' l' fl', kmalloc gc 100 m = Ret (r, m') ∧ mc_inv no_slab m' l' fl' ∧ allocated m fl o r oc m' fl' ∧
    o ∈ gc ∧ caches m !! o = Some oc ∧ 100 ≤ o_sz oc ∧ (o_sz oc = 4 ∨ o_sz oc < 2 * 100).
Proof.
  destruct heap_init as (gc & m & l & fl & E & Hm & Hsem & Hl & Hlen & Hg & _). exists gc, m, fl. split; [exact E|].
  apply (kmalloc_correct m l fl gc 100); [exact Hm|exact Hsem|exact Hl|exact Hg|exact Hlen|lia].
Defined.

(** An object of the general cache of four bytes. *)
Lemma objcache_alloc_witness : ∃ gc m fl oc, (do! _memchunk_init then _kmalloc_init) heap_mc = Ret (gc, m) ∧
  ∃ o r m' l' fl', gc !! 0%nat = Some o ∧ objcache_alloc o m = Ret (r, m') ∧ mc_inv no_slab m' l' fl' ∧ allocated m fl o r oc m' fl' ∧
    ∀ o1 oc1 x a, live m fl o1 x → caches m !! o1 = Some oc1 → in_obj x (o_sz oc1) a → ¬ in_obj r (o_sz oc) a.
Proof.
  destruct heap_init as (gc & m & l & fl & E & Hm & Hsem & Hl & Hlen & Hg & _). destruct gc as [|o gc]; [discriminate Hlen|].
  destruct (Hg 0%nat o eq_refl) as (Hn & oc & Ho & _). exists (o :: gc), m, fl, oc. split; [exact E|].
  exists o. destruct (objcache_alloc_correct m l fl o oc Hm Hsem Ho Hn Hl) as (r & m' & l' & fl' & H).
  exists r, m', l', fl'. split; [reflexivity|exact H].
Defined.

(** A cache of 2048 bytes with one object handed out, the first of frame 0. *)
Definition one_cache : objcache :=
  mk_objcache 2048 2 (page_address 0 + 2048) (page_address 0 + 4096) (Some 0) [] [] m_gpool.
Definition one_mc : memchunk :=
  mk_memchunk (mk_buddy {[ 0 := mk_page 1 PG_slab 0 ]} {[ 1 := [] ]} 1 0 (fill PAGE_OFFSET 0 4096 ∅))
    {[ 0 := mk_slab m_self_cache NULL 1 ]} {[ m_self_cache := one_cache ]} [m_self_cache] 1.

Lemma one_inv : mc_inv no_slab one_mc [] {[ 0 := [] ]}.
Proof.
  split; cbn [bd pfa caches slabs one_mc].
  - split; cbn [bd pfa bmem one_mc]; [done|done|by apply NoDup_nil_2|by intros ? ?%elem_of_nil|done|..]; intros s p [<- _]%lookup_singleton_Some.
    + rewrite /frame_ok. lia.
    + apply fill_owned; apply Z.leb_le; reflexivity.
  - intros s p [<- _]%lookup_singleton_Some. lia.
  - intros o oc [<- <-]%lookup_singleton_Some. split; [cbn; lia|done| |by intros ? _|].
    + split; [|done]. exists 1. split; [cbn; lia|done].
    + intros s. cbn [slabs one_mc]. split; [intros [[= <-]|[H|H]]|intros (c & [<- _]%lookup_singleton_Some & _); by left]; [|by apply elem_of_nil in H..].
      exists (mk_slab m_self_cache NULL 1). by rewrite lookup_singleton_eq.
  - intros s c [<- <-]%lookup_singleton_Some. exists one_cache, []. split_and!; [done|done|].
    split; [done|by apply NoDup_nil_2|by intros ? ?%elem_of_nil|done|done|done|by exists (mk_page 1 PG_slab 0)].
  - intros s [F [<- _]%lookup_singleton_Some]. rewrite lookup_singleton_eq. by eexists.
Qed.

Lemma objcache_free_witness : ∃ m' l' fl', objcache_free (page_address 0) one_mc = Ret (tt, m') ∧
  mc_inv no_slab m' l' fl' ∧ freed one_mc {[ 0 := [] ]} (page_address 0) m' fl'.
Proof.
  apply (objcache_free_correct one_mc [] {[ 0 := [] ]} m_self_cache one_cache); [exact one_inv|done| |done|done].
  exists 0, (mk_slab m_self_cache NULL 1), one_cache, []. split_and!; [done|done|done|done|].
  exists 0. split_and!; [done|done|done|by intros ?%elem_of_nil].
Defined.
