(* ===== verification/Heap.v ===== *)
(** * The heap in use: [strdup] and the caches of the subsystems
      ([kernel/string.c], [kernel/mm.c], [kernel/blk.c], [kernel/fdt.c],
      [kernel/file.c], [fs/inode.c], [fs/mount.c], [fs/vfs.c])

    What the clients of the object caches do with the memory they get: they
    may write to it without harm to the allocator, [strdup] copies a string
    into it, and the subsystems make the caches their objects come from. *)
From S2P Require Import Prelude PageAlloc Kmem Buddy Memchunk MemchunkProps.

(** ** [strdup] *)

Definition on_ram {A} (c : Mem A) : C A := zoom (bmem ∘ bd) (λ v m, set_bd (set_bmem v (bd m)) m) c.

Definition strdup (general_cache : list Z) (fuel : nat) (s : Z) : C Z :=
  if s =? NULL then ret NULL else
  let! len := on_ram (strlen fuel s) in
  let! r := kmalloc general_cache (u32 (len + 1)) in
  if r =? NULL then ret NULL else
  do! on_ram (memcpy r s (Z.to_nat len)) then
  do! on_ram (st8 (r + len) 0) then
  ret r.

(** ** The caches of the subsystems *)

(** The sizes of the structures: words of 32 bits, [block_t] of 64. *)
Definition sizeof_mem_ctx : Z := 12.
Definition sizeof_vma : Z := 32.
Definition sizeof_buffer : Z := 20.
Definition sizeof_super : Z := 84.
Definition sizeof_inode : Z := 136.
Definition sizeof_file : Z := 16.
Definition sizeof_fd_table : Z := 12.

(** [objcache_init] and the check that follows it everywhere. *)
Definition new_cache (sz : Z) : C Z :=
  let! o := objcache_init NULL sz in
  do! bug_on (o =? NULL) then
  ret o.

(** What [mm_init] leaves in static variables; [init_pgd_pa] is the physical
    address of the kernel's page directory ([setup_kthread_ctx]). *)
Record mm_statics := mk_statics { general_cache : list Z; memctx : Z; kthread_ctx : Z; vmas : Z }.

Definition mm_init (init_pgd_pa : Z) : C mm_statics :=
  do! _memchunk_init then
  let! gc := _kmalloc_init in
  let! memctx := new_cache sizeof_mem_ctx in
  let! k := objcache_alloc memctx in
  do! bug_on (k =? NULL) then
  do! st_mem (k + 8) 0 then
  do! st_mem k NULL then
  do! st_mem (k + 4) init_pgd_pa then
  let! vmas := new_cache sizeof_vma in
  ret (mk_statics gc memctx k vmas).

Definition blk_init : C Z := new_cache sizeof_buffer.
Definition _mounts_init : C Z := new_cache sizeof_super.
Definition _inode_cache_init : C Z := new_cache sizeof_inode.
Definition _dentry_cache_init : C unit := ret tt.
Definition vfs_init : C (Z * Z) :=
  let! supers := _mounts_init in
  let! inodes := _inode_cache_init in
  do! _dentry_cache_init then
  ret (supers, inodes).
Definition _file_init : C Z := new_cache sizeof_file.
Definition _fdt_init : C (Z * Z) :=
  let! fd_table_alloc := new_cache sizeof_fd_table in
  let! file_alloc := _file_init in
  ret (fd_table_alloc, file_alloc).

(** ** Writing to an object *)

Definition with_ram (ram : mem) (m : memchunk) : memchunk := set_bd (set_bmem ram (bd m)) m.

(** A holder may write anything to its object: the free objects are apart. *)
Lemma mc_inv_write m l fl o oc x ram : mc_inv no_slab m l fl → live m fl o x → caches m !! o = Some oc →
  (∀ a, ¬ in_obj x (o_sz oc) a → ram !! a = bmem (bd m) !! a) → (∀ a, is_Some (bmem (bd m) !! a) → is_Some (ram !! a)) →
  mc_inv no_slab (with_ram ram m) l fl.
Proof.
  intros Hm (s & c & oc0 & F & Hs & <- & Ho0 & HF & k & Hk & -> & HxF) Ho Hram Hdom. rewrite Ho in Ho0. injection Ho0 as <-.
  pose proof (used_range _ _ _ _ Hm _ _ _ _ Ho Hs) as Hur. split; cbn.
  - apply buddy_inv_bmem; [done|apply Hm].
  - apply Hm.
  - intros o1 oc1 Ho1. by destruct (mi_cache _ _ _ _ Hm _ _ Ho1).
  - intros s1 c1 Hs1. destruct (mi_slab _ _ _ _ Hm _ _ Hs1) as (oc1 & F1 & Ho1 & HF1 & Hok). exists oc1, F1. split_and!; [done..|].
    apply (slab_ok_keep no_slab no_slab m _ s1 c1 oc1 oc1 F1 Hok); try done. intros y a Hy Ha. apply Hram. intros Hxa.
    destruct (used_num _ _ _ _ _ _ _ _ _ y Hm Hs1 eq_refl Ho1 HF1 Hy) as (k1 & Hk1 & Hk1n & ->).
    pose proof (co_sz _ _ _ (mi_cache _ _ _ _ Hm _ _ Ho1)) as C1.
    destruct (objs_apart _ _ _ _ Hm s c oc k s1 c1 oc1 k1 a) as [E <-]; try done; [lia..|rewrite /in_obj in Ha |- *; lia|].
    rewrite HF in HF1. injection HF1 as <-. by rewrite E in HxF.
  - apply Hm.
Qed.

Lemma live_write m fl ram o x : live (with_ram ram m) fl o x ↔ live m fl o x.
Proof. done. Qed.

(** ** The theorem of [strdup] *)

(** The state [kmalloc] works in. *)
Record heap_ok (m : memchunk) (l : list Z) (fl : gmap Z (list Z)) (gc : list Z) : Prop := {
  ho_inv : mc_inv no_slab m l fl;
  ho_sem : memsem m = 1;
  ho_gc : general_ok m gc 4;
  ho_len : length gc = NR_CACHE
}.

Lemma wp_kmalloc m l fl gc sz (Q : Z → memchunk → Prop) : heap_ok m l fl gc → l ≠ [] → 0 ≤ sz ≤ 4096 →
  (∀ o oc r m' l' fl', heap_ok m' l' fl' gc → allocated m fl o r oc m' fl' → caches m !! o = Some oc → sz ≤ o_sz oc → Q r m') →
  wp (kmalloc gc sz) Q m.
Proof.
  intros [Hm Hsem Hg Hlen] Hl Hsz HQ. apply (wp_kmalloc_loop m l fl gc); [done..| |].
  - intros [H| ->]; [|done]. rewrite Hlen in H. change (Z.shiftl 1 2 * 2 ^ Z.of_nat NR_CACHE) with 8192 in H. lia.
  - intros o oc r m' l' fl' Hm' Ha _ Ho H1 _. apply (HQ o oc r m' l' fl'); [|done..]. split; [done| | |done].
    + rewrite (al_sem _ _ _ _ _ _ _ Ha). done.
    + apply (general_ok_same m); [done|]. intros o1 oc1. by apply (al_size _ _ _ _ _ _ _ _ _ Ha).
Qed.

Lemma heap_ok_write m l fl gc o oc x ram : heap_ok m l fl gc → live m fl o x → caches m !! o = Some oc →
  (∀ a, ¬ in_obj x (o_sz oc) a → ram !! a = bmem (bd m) !! a) → (∀ a, is_Some (bmem (bd m) !! a) → is_Some (ram !! a)) →
  heap_ok (with_ram ram m) l fl gc.
Proof. intros [H1 H2 H3 H4] ? ? ? ?. split; [eapply mc_inv_write; eassumption|done..]. Qed.

Lemma live_owned e m l fl o oc x : mc_inv e m l fl → live m fl o x → caches m !! o = Some oc →
  owned (bmem (bd m)) x (Z.to_nat (o_sz oc)).
Proof.
  intros Hm (s & c & oc0 & F & Hs & <- & Ho0 & HF & k & Hk & -> & HxF) Ho. rewrite Ho in Ho0. injection Ho0 as <-.
  pose proof (used_range _ _ _ _ Hm _ _ _ _ Ho Hs) as Hur. apply (obj_owned _ _ _ _ Hm _ _ _ _ k Ho Hs). lia.
Qed.

(** Copying a string into an object that holds it. *)
Lemma wp_copy_string m l fl gc o oc r s str k (Q : Z → memchunk → Prop) :
  heap_ok m l fl gc → live m fl o r → caches m !! o = Some oc → cstr (bmem (bd m)) s str → Z.of_nat (length str) < o_sz oc →
  (∀ a, s ≤ a ≤ s + Z.of_nat (length str) → ¬ in_obj r (o_sz oc) a) →
  (∀ ram, heap_ok (with_ram ram m) l fl gc → cstr ram r str → (∀ a, ¬ in_obj r (o_sz oc) a → ram !! a = bmem (bd m) !! a) →
     wp k Q (with_ram ram m)) →
  wp (do! on_ram (memcpy r s (length str)) then do! on_ram (st8 (r + Z.of_nat (length str)) 0) then k) Q m.
Proof.
  intros Hh Hr Ho [Hb Hpos] Hsz Hsrc HQ. apply bytes_app in Hb as [Hb _]. pose proof (live_owned _ _ _ _ _ _ _ (ho_inv _ _ _ _ Hh) Hr Ho) as Hown.
  wp_step. apply wp_zoom. apply (wp_memcpy str); [exact Hb|eapply Forall_impl; [exact Hpos|intros ? ?; cbv beta in *; lia]|..].
  - eapply owned_sub; [exact Hown|lia..].
  - destruct (decide (s < r)); [right|left].
    + destruct (decide (s + Z.of_nat (length str) ≤ r)); [lia|]. destruct (Hsrc r); [lia|]. rewrite /in_obj. lia.
    + destruct (decide (r + Z.of_nat (length str) ≤ s)); [lia|]. destruct (Hsrc s); [lia|]. rewrite /in_obj. lia.
  - intros ram1 Hcp Hout. wp_step. apply wp_zoom. cbn [compose set_bd set_bmem bd bmem] in *.
    apply wp_st8; [rewrite Hout; [lia|]; apply Hown; lia|]. set (ram2 := <[_ := _]> ram1).
    assert (Hram : ∀ a, ¬ in_obj r (o_sz oc) a → ram2 !! a = bmem (bd m) !! a).
    { intros a Hna. rewrite /in_obj in Hna. rewrite /ram2 lookup_insert_ne; [lia|]. apply Hout. lia. }
    change (set_bd _ _) with (with_ram ram2 m). apply HQ; [| |done].
    + apply (heap_ok_write _ _ _ _ o oc r); [done..|]. intros a Hsome. apply lookup_insert_is_Some'. right.
      destruct (decide (r ≤ a < r + Z.of_nat (length str))); [apply (bytes_owned _ _ _ Hcp a); lia|by rewrite Hout].
    + split; [|done]. apply bytes_app. split; [|split; [by rewrite /ram2 lookup_insert_eq|done]].
      eapply bytes_cong; [|exact Hcp]. intros b Hb1. rewrite /ram2 lookup_insert_ne; [lia|done].
Qed.

(** C14: [strdup] of a string in memory in use that fits a page: the result is a
    new object that holds a copy of the string; every other byte is as it was. *)
Theorem strdup_correct m l fl gc s str :
  heap_ok m l fl gc → l ≠ [] → cstr (bmem (bd m)) s str → s ≠ NULL →
  (∀ a, s ≤ a ≤ s + Z.of_nat (length str) → in_use m fl a) → (length str < 4096)%nat →
  ∃ o oc r m' l' fl', strdup gc (S (length str)) s m = Ret (r, m') ∧ heap_ok m' l' fl' gc ∧
    (∀ o1 x, live m' fl' o1 x ↔ live m fl o1 x ∨ o1 = o ∧ x = r) ∧ ¬ live m fl o r ∧
    caches m !! o = Some oc ∧ Z.of_nat (length str) < o_sz oc ∧ cstr (bmem (bd m')) r str ∧
    ∀ a, ¬ in_obj r (o_sz oc) a → bmem (bd m') !! a = bmem (bd m) !! a.
Proof.
  intros Hh Hl Hstr Hs Huse Hlen.
  assert (Hw : wp (strdup gc (S (length str)) s) (λ r m', ∃ o oc l' fl', heap_ok m' l' fl' gc ∧
    (∀ o1 x, live m' fl' o1 x ↔ live m fl o1 x ∨ o1 = o ∧ x = r) ∧ ¬ live m fl o r ∧
    caches m !! o = Some oc ∧ Z.of_nat (length str) < o_sz oc ∧ cstr (bmem (bd m')) r str ∧
    ∀ a, ¬ in_obj r (o_sz oc) a → bmem (bd m') !! a = bmem (bd m) !! a) m).
  2: { destruct (wp_elim _ _ _ Hw) as (r & m' & E & o & oc & l' & fl' & H). by exists o, oc, r, m', l', fl'. }
  rewrite /strdup (proj2 (Z.eqb_neq _ _) Hs). wp_step. apply wp_zoom.
  eapply wp_mono; [apply (wp_strlen_from str s 0); [exact Hstr|lia|lia|lia]|]. intros len ram [-> ->].
  match goal with |- wp _ _ ?x => assert (x = m) as -> by (by destruct m as [[] ? ? ? ?]) end.
  rewrite Z.add_0_l u32_id; [lia|]. wp_step. apply (wp_kmalloc m l fl); [done|done|lia|].
  intros o oc r m1 l1 fl1 Hh1 Ha Ho Hsz. pose proof (al_range _ _ _ _ _ _ _ Ha) as (Hr1 & _ & _).
  assert (Hn : r ≠ NULL) by (rewrite /PAGE_OFFSET in Hr1; rewrite /NULL; lia). rewrite (proj2 (Z.eqb_neq _ _) Hn) Nat2Z.id.
  destruct (al_size _ _ _ _ _ _ _ _ _ Ha Ho) as (oc1 & Ho1 & E1).
  assert (Hsrc : ∀ a, s ≤ a ≤ s + Z.of_nat (length str) → ¬ in_obj r (o_sz oc) a).
  { intros a Hsa. eapply in_use_apart; [apply Hh1|exact Ha|exact Ho|by apply Huse]. }
  apply (wp_copy_string _ l1 fl1 gc o oc1); [done|apply (al_live _ _ _ _ _ _ _ Ha); by right|done| |lia|by rewrite E1|].
  - destruct Hstr as [Hb Hpos]. split; [|done]. eapply bytes_cong; [|exact Hb]. intros b Hbr. rewrite length_app /= in Hbr.
    apply (al_mem _ _ _ _ _ _ _ Ha), Hsrc. lia.
  - intros ram Hh2 Hc2 Hram. wp_step. exists o, oc, l1, fl1. split_and!; [done| |apply (al_new _ _ _ _ _ _ _ Ha)|done|lia|done|].
    + intros o1 x. rewrite live_write. apply (al_live _ _ _ _ _ _ _ Ha).
    + intros a Hna. cbn. rewrite Hram; [by rewrite E1|]. by apply (al_mem _ _ _ _ _ _ _ Ha).
Qed.

(** ** The start-up of the memory management *)

Lemma booting_write m l fl o oc x ram : booting m l fl → live m fl o x → caches m !! o = Some oc →
  (∀ a, ¬ in_obj x (o_sz oc) a → ram !! a = bmem (bd m) !! a) → (∀ a, is_Some (bmem (bd m) !! a) → is_Some (ram !! a)) →
  booting (with_ram ram m) l fl.
Proof. intros [H1 H2 H3 H4 H5] ? ? ? ?. split; [eapply mc_inv_write; eassumption|done..]. Qed.

Lemma wp_new_cache m l fl sz (Q : Z → memchunk → Prop) : booting m l fl → (0 < length l)%nat → 4 ≤ sz ≤ 4096 →
  (∀ o oc m' l' fl', booting m' l' fl' → (length l ≤ length l' + 1)%nat → o ≠ NULL → caches m' !! o = Some oc → o_sz oc = sz →
     keeps m fl m' fl' → Q o m') →
  wp (new_cache sz) Q m.
Proof.
  intros Hb Hl Hsz HQ. rewrite /new_cache. wp_step. apply (wp_objcache_init m l fl); [done|by destruct l; [cbn in Hl; lia|]|done|].
  intros o oc m' l' fl' Hb' Hl' Hn Ho E Hk. wp_step. apply wp_bug_on; [by apply Z.eqb_neq|]. wp_step.
  apply (HQ o oc m' l' fl'); [done| |done..]. destruct Hl' as [-> | ->]; [lia|]. destruct l; cbn; lia.
Qed.

(** A cache of a given size. *)
Definition cache_sz (m : memchunk) (o sz : Z) : Prop := o ≠ NULL ∧ ∃ oc, caches m !! o = Some oc ∧ o_sz oc = sz.

Lemma cache_sz_keeps m fl m' fl' o sz : keeps m fl m' fl' → cache_sz m o sz → cache_sz m' o sz.
Proof.
  intros Hk [Hn (oc & Ho & E)]. split; [done|]. destruct (kp_sizes _ _ _ _ Hk o oc Ho) as (oc' & Ho' & E'). exists oc'. split; [done|congruence].
Qed.

(** The words of an object that is kept. *)
Lemma word_keeps m fl m' fl' o oc x i v : keeps m fl m' fl' → live m fl o x → caches m !! o = Some oc → 0 ≤ i → i + 4 ≤ o_sz oc →
  word (bmem (bd m)) (x + i) v → word (bmem (bd m')) (x + i) v.
Proof.
  intros Hk Hx Ho Hi Hsz. apply word_cong. intros b Hb. apply (kp_mem _ _ _ _ Hk). left. exists o, oc, x. split_and!; [done|done|rewrite /in_obj; lia].
Qed.

(** The stores to the context of the kernel threads. *)
Lemma wp_kthread_stores m l fl o oc x pgd k (Q : mm_statics → memchunk → Prop) :
  booting m l fl → live m fl o x → caches m !! o = Some oc → o_sz oc = sizeof_mem_ctx → 0 ≤ pgd < 2 ^ 32 →
  (∀ ram, booting (with_ram ram m) l fl → word ram (x + 0) 0 → word ram (x + 4) pgd → word ram (x + 8) 0 → wp k Q (with_ram ram m)) →
  wp (do! st_mem (x + 8) 0 then do! st_mem x NULL then do! st_mem (x + 4) pgd then k) Q m.
Proof.
  intros Hb Hx Ho Hsz Hpgd HQ. pose proof (live_owned _ _ _ _ _ _ _ (bo_inv _ _ _ Hb) Hx Ho) as Hown. rewrite Hsz /sizeof_mem_ctx in Hown.
  change (Z.to_nat 12) with 12%nat in Hown.
  wp_step. apply wp_st_mem; [done|apply (owned_sub _ x 12); [exact Hown|lia..]|]. intros r1 W1 O1 D1.
  wp_step. apply wp_st_mem; [done|intros a Ha; apply D1, Hown; cbn in Ha |- *; lia|]. intros r2 W2 O2 D2. cbn in O2, D2.
  wp_step. apply wp_st_mem; [done|intros a Ha; apply D2, D1, Hown; cbn in Ha |- *; lia|]. intros r3 W3 O3 D3. cbn in O3, D3.
  change (wp k Q (with_ram r3 m)). rewrite /NULL in W2. apply HQ.
  - apply (booting_write m l fl o oc x r3 Hb Hx Ho); [|by auto]. intros a Ha. rewrite /in_obj Hsz /sizeof_mem_ctx in Ha.
    rewrite O3; [lia|]. rewrite O2; [lia|]. rewrite O1; [lia|done].
  - rewrite Z.add_0_r. apply (word_cong r2); [intros b Hb1; apply O3; lia|done].
  - done.
  - apply (word_cong r2); [intros b Hb1; apply O3; lia|]. apply (word_cong r1); [intros b Hb1; apply O2; lia|done].
Qed.

(** What [mm_init] promises. *)
Record mm_ready (pgd : Z) (st : mm_statics) (m : memchunk) (l : list Z) (fl : gmap Z (list Z)) : Prop := {
  mr_boot : booting m l fl;
  mr_len : length (general_cache st) = NR_CACHE;
  mr_gc : general_ok m (general_cache st) 4;
  mr_memctx : cache_sz m (memctx st) sizeof_mem_ctx;
  mr_vmas : cache_sz m (vmas st) sizeof_vma;
  mr_live : live m fl (memctx st) (kthread_ctx st);
  mr_tree : word (bmem (bd m)) (kthread_ctx st + 0) NULL;
  mr_pgd : word (bmem (bd m)) (kthread_ctx st + 4) pgd;
  mr_count : word (bmem (bd m)) (kthread_ctx st + 8) 0
}.

Lemma mm_ready_keeps pgd st m l fl m' l' fl' : mm_ready pgd st m l fl → booting m' l' fl' → keeps m fl m' fl' →
  mm_ready pgd st m' l' fl'.
Proof.
  intros [H1 H2 H3 [Hn (oc & Ho & E)] H5 H6 H7 H8 H9] Hb Hk. unfold sizeof_mem_ctx in E.
  split; [done|done| | | |by apply (kp_live _ _ _ _ Hk)|..].
  - apply (general_ok_same m); [done|apply Hk].
  - apply (cache_sz_keeps _ _ _ _ _ _ Hk). split; [done|by exists oc].
  - by apply (cache_sz_keeps _ _ _ _ _ _ Hk).
  - apply (word_keeps _ _ _ _ _ oc _ _ _ Hk H6 Ho); [lia|lia|done].
  - apply (word_keeps _ _ _ _ _ oc _ _ _ Hk H6 Ho); [lia|lia|done].
  - apply (word_keeps _ _ _ _ _ oc _ _ _ Hk H6 Ho); [lia|lia|done].
Qed.

(** Eleven general caches, two caches and one context: at most 14 frames. *)
Lemma wp_mm_init m l pgd (Q : mm_statics → memchunk → Prop) : fresh_memchunk m l → (14 ≤ length l)%nat → 0 ≤ pgd < 2 ^ 32 →
  (∀ st m' l' fl', mm_ready pgd st m' l' fl' → (length l ≤ length l' + 14)%nat → Q st m') →
  wp (mm_init pgd) Q m.
Proof.
  intros Hf Hl Hpgd HQ. rewrite /mm_init. wp_step. apply (wp_memchunk_init m l); [done|].
  intros m0 Hb0 _ _ _. wp_step. apply (wp_kmalloc_init_loop NR_CACHE m0 l ∅); [done|rewrite /NR_CACHE; lia|done|done|].
  intros gc m1 l1 fl1 Hb1 Hl1 Hgc Hg1 _. unfold NR_CACHE in Hl1.
  wp_step. apply (wp_new_cache m1 l1 fl1); [done|lia|rewrite /sizeof_mem_ctx; lia|].
  intros o oc m2 l2 fl2 Hb2 Hl2 Hn Ho Eo Hk2. wp_step.
  apply (wp_do_alloc m2 l2 fl2 o oc); [apply Hb2|apply Hb2|done|done|by destruct l2; [cbn in Hl2; lia|]|].
  intros x m3 l3 fl3 Hm3 Hl3 Ha. pose proof (booting_alloc _ _ _ _ _ _ _ _ _ Hb2 Hm3 Ha) as Hb3.
  assert (Hl3' : (length l2 ≤ length l3 + 1)%nat) by (destruct Hl3 as [-> | ->]; [lia|]; destruct l2; cbn; lia).
  pose proof (allocated_keeps _ _ _ _ _ _ _ _ Hm3 Ha Ho) as Hk3. pose proof (al_range _ _ _ _ _ _ _ Ha) as (Hr & _ & _).
  wp_step. apply wp_bug_on; [apply Z.eqb_neq; rewrite /PAGE_OFFSET in Hr; rewrite /NULL; lia|].
  destruct (al_size _ _ _ _ _ _ _ _ _ Ha Ho) as (oc3 & Ho3 & E3). assert (Hx : live m3 fl3 o x) by (apply (al_live _ _ _ _ _ _ _ Ha); by right).
  apply (wp_kthread_stores m3 l3 fl3 o oc3 x pgd); [done|done|done|congruence|done|]. intros ram Hb4 W0 W4 W8.
  wp_step. apply (wp_new_cache _ l3 fl3); [done|lia|rewrite /sizeof_vma; lia|].
  intros v ov m5 l5 fl5 Hb5 Hl5 Hnv Hov Ev Hk5. wp_step. apply (HQ _ m5 l5 fl5); [|lia].
  assert (Hco : cache_sz (with_ram ram m3) o sizeof_mem_ctx) by (split; [done|]; exists oc3; split; [done|congruence]).
  assert (Hs3 : o_sz oc3 = 12) by (rewrite E3 Eo; done).
  assert (Hwk : ∀ i w, 0 ≤ i → i + 4 ≤ 12 → word ram (x + i) w → word (bmem (bd m5)) (x + i) w).
  { intros i w Hi Hi4. apply (word_keeps _ _ _ _ o oc3 x i w Hk5 Hx Ho3); [done|lia]. }
  split; cbn; [done|done| |by apply (cache_sz_keeps _ _ _ _ _ _ Hk5)|split; [done|by exists ov]|by apply (kp_live _ _ _ _ Hk5)|..];
    try (apply Hwk; [lia|lia|done]).
  apply (general_ok_same (with_ram ram m3)); [|apply Hk5]. apply (general_ok_same m2); [|apply Hk3]. apply (general_ok_same m1); [done|apply Hk2].
Qed.

(** [mm_init] on a machine with enough free frames sets up the heap, a cache
    of contexts and a cache of areas, and the context of the kernel threads
    with no area, the kernel's page directory and no reference. *)
Theorem mm_init_correct m l pgd : fresh_memchunk m l → (14 ≤ length l)%nat → 0 ≤ pgd < 2 ^ 32 →
  ∃ st m' l' fl', mm_init pgd m = Ret (st, m') ∧ mm_ready pgd st m' l' fl' ∧ (length l ≤ length l' + 14)%nat.
Proof.
  intros Hf Hl Hpgd. assert (Hw : wp (mm_init pgd) (λ st m', ∃ l' fl', mm_ready pgd st m' l' fl' ∧ (length l ≤ length l' + 14)%nat) m).
  { apply (wp_mm_init m l); [done..|]. intros st m' l' fl' H1 H2. by exists l', fl'. }
  destruct (wp_elim _ _ _ Hw) as (st & m' & E & l' & fl' & H). by exists st, m', l', fl'.
Qed.

(** The caches of all subsystems, in the order of the start-up: [mm_init],
    [_fdt_init] ([setup]), [blk_init], [vfs_init] ([init_task]). *)
Record kernel_caches := mk_kcaches {
  kc_mm : mm_statics; kc_fdt : Z * Z; kc_buffer : Z; kc_vfs : Z * Z
}.
Definition caches_init (init_pgd_pa : Z) : C kernel_caches :=
  let! mm := mm_init init_pgd_pa in
  let! fdt := _fdt_init in
  let! bh_cache := blk_init in
  let! vfs := vfs_init in
  ret (mk_kcaches mm fdt bh_cache vfs).

Definition all_caches (c : kernel_caches) : list (Z * Z) :=
  [(fst (kc_fdt c), sizeof_fd_table); (snd (kc_fdt c), sizeof_file); (kc_buffer c, sizeof_buffer);
   (fst (kc_vfs c), sizeof_super); (snd (kc_vfs c), sizeof_inode)].

(** One more cache, with the others kept. *)
Lemma wp_next_cache m l fl pgd st cs sz (Q : Z → memchunk → Prop) :
  mm_ready pgd st m l fl → Forall (λ c, cache_sz m (fst c) (snd c)) cs → (0 < length l)%nat → 4 ≤ sz ≤ 4096 →
  (∀ o m' l' fl', mm_ready pgd st m' l' fl' → Forall (λ c, cache_sz m' (fst c) (snd c)) (cs ++ [(o, sz)]) →
     (length l ≤ length l' + 1)%nat → Q o m') →
  wp (new_cache sz) Q m.
Proof.
  intros Hr Hcs Hl Hsz HQ. apply (wp_new_cache m l fl); [apply Hr|done|done|]. intros o oc m' l' fl' Hb' Hl' Hn Ho E Hk.
  apply (HQ o m' l' fl'); [by apply (mm_ready_keeps _ _ m l fl)| |done]. apply Forall_app. split.
  - eapply Forall_impl; [exact Hcs|]. intros c. by apply (cache_sz_keeps m fl m' fl').
  - apply Forall_singleton. split; [done|by exists oc].
Qed.

(** C12: The start-up of the caches never fails when 19 frames are free: every
    subsystem has a cache of its own object size, and [kmalloc] works. *)
Theorem caches_init_correct m l pgd : fresh_memchunk m l → (19 ≤ length l)%nat → 0 ≤ pgd < 2 ^ 32 →
  ∃ c m' l' fl', caches_init pgd m = Ret (c, m') ∧ mm_ready pgd (kc_mm c) m' l' fl' ∧
    Forall (λ oz, cache_sz m' (fst oz) (snd oz)) (all_caches c) ∧ (length l ≤ length l' + 19)%nat.
Proof.
  intros Hf Hl Hpgd. assert (Hw : wp (caches_init pgd) (λ c m', ∃ l' fl', mm_ready pgd (kc_mm c) m' l' fl' ∧
    Forall (λ oz, cache_sz m' (fst oz) (snd oz)) (all_caches c) ∧ (length l ≤ length l' + 19)%nat) m).
  2: { destruct (wp_elim _ _ _ Hw) as (c & m' & E & l' & fl' & H). by exists c, m', l', fl'. }
  rewrite /caches_init /_fdt_init /blk_init /vfs_init. wp_step. apply (wp_mm_init m l); [done|lia|done|]. intros st m1 l1 fl1 Hr1 Hl1.
  apply wp_bind, wp_bind. apply (wp_next_cache m1 l1 fl1 pgd st []); [done|done|lia|rewrite /sizeof_fd_table; lia|]. intros o2 m2 l2 fl2 Hr2 Hc2 Hl2.
  apply wp_bind. eapply (wp_next_cache m2 l2 fl2 pgd st); [done|exact Hc2|lia|rewrite /sizeof_file; lia|]. intros o3 m3 l3 fl3 Hr3 Hc3 Hl3.
  apply wp_ret, wp_bind. eapply (wp_next_cache m3 l3 fl3 pgd st); [done|exact Hc3|lia|rewrite /sizeof_buffer; lia|]. intros o4 m4 l4 fl4 Hr4 Hc4 Hl4.
  apply wp_bind, wp_bind. eapply (wp_next_cache m4 l4 fl4 pgd st); [done|exact Hc4|lia|rewrite /sizeof_super; lia|]. intros o5 m5 l5 fl5 Hr5 Hc5 Hl5.
  apply wp_bind. eapply (wp_next_cache m5 l5 fl5 pgd st); [done|exact Hc5|lia|rewrite /sizeof_inode; lia|]. intros o6 m6 l6 fl6 Hr6 Hc6 Hl6.
  apply wp_bind, wp_ret, wp_ret, wp_ret. exists l6, fl6. split_and!; [done|exact Hc6|lia].
Qed.

(** ** The example machine *)

Lemma caches_init_witness : ∃ c m' l' fl', caches_init 0x100000 heap_mc = Ret (c, m') ∧ mm_ready 0x100000 (kc_mm c) m' l' fl' ∧
  Forall (λ oz, cache_sz m' (fst oz) (snd oz)) (all_caches c) ∧ (length heap_frames ≤ length l' + 19)%nat.
Proof. apply (caches_init_correct heap_mc heap_frames); [exact heap_fresh|rewrite heap_len; lia|lia]. Defined.

Lemma heap_string_ok : cstr (bmem (bd heap_mc)) heap_string [65; 65; 65].
Proof.
  split; [|repeat constructor; lia]. cbn [app bytes]. rewrite /heap_mc. cbn [bd bmem].
  do 3 (split; [rewrite lookup_fill; case_decide; [done|lia]|]). split; [|done].
  rewrite lookup_fill. case_decide; [lia|]. rewrite lookup_fill. case_decide as Hc; [done|].
  destruct Hc. rewrite /heap_string. lia.
Qed.

Lemma heap_string_use a : heap_string ≤ a ≤ heap_string + 3 → in_use heap_mc ∅ a.
Proof.
  intros Ha. right. exists (mk_page 1 PG_reserved 0). split; [|done].
  replace a with (page_address static_frame + (a - page_address static_frame)) by lia.
  rewrite /heap_string in Ha. rewrite virt_to_page_address; [by rewrite /frame_ok /static_frame|lia|]. apply lookup_insert_eq.
Qed.

Lemma strdup_witness : ∃ gc m fl, (do! _memchunk_init then _kmalloc_init) heap_mc = Ret (gc, m) ∧
  ∃ o oc r m' l' fl', strdup gc 4 heap_string m = Ret (r, m') ∧ heap_ok m' l' fl' gc ∧
    (∀ o1 x, live m' fl' o1 x ↔ live m fl o1 x ∨ o1 = o ∧ x = r) ∧ ¬ live m fl o r ∧
    caches m !! o = Some oc ∧ 3 < o_sz oc ∧ cstr (bmem (bd m')) r [65; 65; 65] ∧
    ∀ a, ¬ in_obj r (o_sz oc) a → bmem (bd m') !! a = bmem (bd m) !! a.
Proof.
  destruct heap_init as (gc & m & l & fl & E & Hm & Hsem & Hl & Hlen & Hg & Hk). exists gc, m, fl. split; [exact E|].
  apply (strdup_correct m l fl gc heap_string [65; 65; 65]).
  - by split.
  - exact Hl.
  - destruct heap_string_ok as [Hb Hp]. split; [|exact Hp]. eapply bytes_cong; [|exact Hb]. intros b Hr.
    apply (kp_mem _ _ _ _ Hk), heap_string_use. cbn in Hr. lia.
  - done.
  - intros a Ha. apply (keeps_in_use _ _ _ _ _ Hk), heap_string_use. cbn in Ha. lia.
  - cbn. lia.
Defined.
