(* ===== verification/ObjAlloc.v ===== *)
(** * Object caches as their clients see them

    [objcache_alloc] and [objcache_free2] are called by the memory contexts, the
    file tables, the inode and dentry caches.  Their theorems are proved against this
    interface. *)
From S2P Require Import Prelude.

Class ObjOps (P : Type) := {
  obj_alloc : Z → M P Z;
  obj_free : Z → Z → M P unit
}.

(** [objs_live p A]: exactly the objects of [A] are handed out.  An allocation
    gives NULL, or a word-aligned address nobody holds.  [objs_avail p l]: there
    is memory for allocations from the caches of [l], in this order; an object
    given back is there for the next allocation from its cache. *)
Class ObjSpec (P : Type) `{!ObjOps P} := {
  objs_live : P → gset Z → Prop;
  objs_alloc p A o :
    objs_live p A →
    wp (obj_alloc o) (λ v p', (v = NULL ∧ objs_live p' A) ∨
      (0 < v < 2 ^ 32 ∧ v mod 4 = 0 ∧ v ∉ A ∧ objs_live p' ({[ v ]} ∪ A))) p;
  objs_free p A o v :
    objs_live p A → v ∈ A → wp (obj_free o v) (λ _ p', objs_live p' (A ∖ {[ v ]})) p;
  objs_avail : P → list Z → Prop;
  avail_alloc p A o l :
    objs_live p A → objs_avail p (o :: l) → wp (obj_alloc o) (λ v p', v ≠ NULL ∧ objs_avail p' l) p;
  avail_free p A o v l :
    objs_live p A → v ∈ A → objs_avail p l → wp (obj_free o v) (λ _ p', objs_avail p' (o :: l)) p
}.

Section spec.
Context {P : Type} `{!ObjOps P, !ObjSpec P}.
Implicit Types (p : P).

Lemma objs_alloc_avail p A o : objs_live p A →
  wp (obj_alloc o) (λ v p', ((v = NULL ∧ objs_live p' A) ∨ (0 < v < 2 ^ 32 ∧ v mod 4 = 0 ∧ v ∉ A ∧ objs_live p' ({[ v ]} ∪ A))) ∧
    ∀ l, objs_avail p (o :: l) → v ≠ NULL ∧ objs_avail p' l) p.
Proof.
  intros H. destruct (wp_elim _ _ _ (objs_alloc _ _ o H)) as (v & p' & E & Hp). rewrite /wp E. split; [done|].
  intros l Hl. pose proof (avail_alloc _ _ o l H Hl) as Hw. by rewrite /wp E in Hw.
Qed.
Lemma objs_free_avail p A o v : objs_live p A → v ∈ A →
  wp (obj_free o v) (λ _ p', objs_live p' (A ∖ {[ v ]}) ∧ ∀ l, objs_avail p l → objs_avail p' (o :: l)) p.
Proof.
  intros H Hv. destruct (wp_elim _ _ _ (objs_free _ _ o _ H Hv)) as ([] & p' & E & Hp). rewrite /wp E. split; [done|].
  intros l Hl. pose proof (avail_free _ _ o v l H Hv Hl) as Hw. by rewrite /wp E in Hw.
Qed.
End spec.

(** A pool of objects: the simplest allocator of this interface. *)
Definition opool := list Z.
Definition obj_ok (v : Z) : Prop := 0 < v < 2 ^ 32 ∧ v mod 4 = 0.

#[export] Instance opool_ops : ObjOps opool := {|
  obj_alloc _ := λ l, match l with [] => Ret (NULL, []) | v :: l => Ret (v, l) end;
  obj_free _ v := λ l, Ret (tt, v :: l)
|}.

#[export] Program Instance opool_spec : ObjSpec opool := {|
  objs_live l A := NoDup l ∧ (∀ v, v ∈ l → obj_ok v ∧ v ∉ A) ∧ ∀ v, v ∈ A → obj_ok v;
  objs_avail l os := (length os ≤ length l)%nat
|}.
Next Obligation.
  intros [|v l] A o (Hnd & Hl & HA); [by left|]. apply NoDup_cons in Hnd as [Hv Hnd]. right.
  destruct (Hl v) as [[Hr Hm] Hn]; [set_solver|]. split; [exact Hr|]. split; [exact Hm|].
  split; [done|]. split; [done|]. split.
  - intros u Hu. destruct (Hl u) as [? ?]; [set_solver|]. set_solver.
  - intros u [->%elem_of_singleton|Hu]%elem_of_union; [done|by apply HA].
Qed.
Next Obligation.
  intros l A o v (Hnd & Hl & HA) Hv. split_and!.
  - apply NoDup_cons. split; [|done]. intros Hin. by destruct (Hl v Hin).
  - intros u [->|Hu]%elem_of_cons; [split; [by apply HA|set_solver]|]. destruct (Hl u Hu). set_solver.
  - intros u [Hu _]%elem_of_difference. by apply HA.
Qed.
Next Obligation.
  intros [|v l] A o os (_ & Hl & _) Ha; cbn in Ha; [lia|]. split; [|cbn; lia].
  destruct (Hl v) as [[Hr _] _]; [set_solver|]. unfold NULL. lia.
Qed.
Next Obligation. intros l A o v os _ _ Ha. cbn in *. rewrite /wp /=. lia. Qed.
