(* ===== verification/Vma.v ===== *)
(** * Memory areas of a task ([kernel/mm.c], [struct vma] and [struct mem_ctx]
      of [include/scaraOS/mm.h])

    The areas of a memory context are the nodes of a red-black tree ([vma_rbt]
    is the first member, so an area and its node have the same address).  The inode of a
    mapped file, the page tables and the object caches are reached through
    their interfaces. *)
From S2P Require Import Prelude PageAlloc ObjAlloc Kmem Buddy Rbtree.

Definition va_round_up (va : Z) : Z := Z.land (u32 (va + PAGE_MASK)) (u32 (Z.lnot PAGE_MASK)).
Definition va_round_down (va : Z) : Z := Z.land va (u32 (Z.lnot PAGE_MASK)).

(** The fields of [struct vma] other than its node. *)
Record vma := mk_vma {
  vma_begin : Z;
  vma_end : Z;
  vma_prot : Z;
  vma_off : Z;
  vma_ino : Z
}.

(** [struct mem_ctx]; [pgd] is its [arch]. *)
Record mem_ctx := mk_mem_ctx { mc_vmas : Z; mc_pgd : Z; mc_count : Z }.

(** What the code calls outside of the memory manager: the reference counts of
    inodes, [readpage] of an inode (the frame of a page, nothing on failure),
    the page tables of the architecture. *)
Class MmuOps (E : Type) := {
  iref : Z → M E Z;
  readpage : Z → Z → M E (option Z);
  map_page_to_ctx : Z → Z → Z → Z → M E Z;
  clone_ctx : Z → M E (option Z);
  setup_new_ctx : M E (option Z);
  destroy_ctx : Z → M E unit
}.

(** The caches of the file, by name. *)
Definition memctx_cache : Z := 1.
Definition vmas_cache : Z := 2.

Section mm.
Context {P E : Type} `{!ObjOps P, !MmuOps E}.

Record mm := mk_mm {
  mm_nodes : gmap Z rb_node;
  mm_vmas : gmap Z vma;
  mm_ctxs : gmap Z mem_ctx;
  mm_objs : P;
  mm_env : E;
  mm_bd : buddy;
  kthread_ctx : Z
}.

Definition set_nodes (v : gmap Z rb_node) (m : mm) : mm :=
  mk_mm v (mm_vmas m) (mm_ctxs m) (mm_objs m) (mm_env m) (mm_bd m) (kthread_ctx m).
Definition upd_vmas (f : gmap Z vma → gmap Z vma) (m : mm) : mm :=
  mk_mm (mm_nodes m) (f (mm_vmas m)) (mm_ctxs m) (mm_objs m) (mm_env m) (mm_bd m) (kthread_ctx m).
Definition upd_ctxs (f : gmap Z mem_ctx → gmap Z mem_ctx) (m : mm) : mm :=
  mk_mm (mm_nodes m) (mm_vmas m) (f (mm_ctxs m)) (mm_objs m) (mm_env m) (mm_bd m) (kthread_ctx m).
Definition set_objs (v : P) (m : mm) : mm :=
  mk_mm (mm_nodes m) (mm_vmas m) (mm_ctxs m) v (mm_env m) (mm_bd m) (kthread_ctx m).
Definition set_env (v : E) (m : mm) : mm :=
  mk_mm (mm_nodes m) (mm_vmas m) (mm_ctxs m) (mm_objs m) v (mm_bd m) (kthread_ctx m).

Definition set_mm_bd (v : buddy) (m : mm) : mm :=
  mk_mm (mm_nodes m) (mm_vmas m) (mm_ctxs m) (mm_objs m) (mm_env m) v (kthread_ctx m).

Abbreviation MM := (M mm).

Definition ld_vma (v : Z) : MM vma := let! m := get in deref (mm_vmas m !! v).
Definition ld_ctx (c : Z) : MM mem_ctx := let! m := get in deref (mm_ctxs m !! c).
Definition ld_rb (n : Z) : MM rb_node := let! m := get in deref (mm_nodes m !! n).
Definition set_root (r : Z) (c : mem_ctx) : mem_ctx := mk_mem_ctx r (mc_pgd c) (mc_count c).
Definition set_ctx_count (v : Z) (c : mem_ctx) : mem_ctx := mk_mem_ctx (mc_vmas c) (mc_pgd c) v.
Definition st_ctx (c : Z) (f : mem_ctx → mem_ctx) : MM unit :=
  let! x := ld_ctx c in modify (upd_ctxs (insert c (f x))).

(** Running a tree routine on the tree of a context. *)
Definition on_tree {A} (c : Z) (m : M rb_store A) : MM A :=
  let! x := ld_ctx c in
  let! r := zoom (λ s, mk_rb_store (mm_nodes s) (mc_vmas x))
                 (λ t s, upd_ctxs (insert c (set_root (rb_root t) x)) (set_nodes (rb_nodes t) s)) m in
  ret r.

(** [for(n = ctx->vmas.rb_node; n; )] *)
Fixpoint lookup_loop (fuel : nat) (n va : Z) : MM Z :=
  match fuel with
  | O => nofuel
  | S fuel =>
    if n =? NULL then ret NULL else
    let! v := ld_vma n in
    let! nd := ld_rb n in
    if va <? vma_begin v then lookup_loop fuel (rb_child nd RB_LEFT) va
    else if vma_end v <? va then lookup_loop fuel (rb_child nd RB_RIGHT) va
    else ret n
  end.
Definition lookup_vma (fuel : nat) (ctx va : Z) : MM Z :=
  let! c := ld_ctx ctx in lookup_loop fuel (mc_vmas c) va.

(** The page of an anonymous mapping: a zeroed page of its own. *)
Definition anon_page : MM (option Z) :=
  let! ptr := zoom mm_bd set_mm_bd (alloc_pages 1) in
  if ptr =? NULL then ret None else
  do! zoom mm_bd set_mm_bd (zoom bmem set_bmem (memset ptr 0 (Z.to_nat PAGE_SIZE))) then
  ret (Some (virt_to_page ptr)).

(** [mm_pagefault]; [ctx] is [tsk->ctx]. *)
Definition mm_pagefault (fuel : nat) (ctx va prot : Z) : MM Z :=
  let! p := lookup_vma fuel ctx va in
  if p =? NULL then ret (-1) else
  let! v := ld_vma p in
  if negb (ctrue (Z.land (vma_prot v) prot)) then ret (-1) else
  let off := u32 (vma_off v + Z.land (u32 (va - vma_begin v)) (u32 (Z.lnot PAGE_MASK))) in
  let va := va_round_down va in
  let! pg := (if ctrue (vma_ino v) then zoom mm_env set_env (readpage (vma_ino v) off)
              else anon_page) in
  match pg with
  | None => ret (-1)
  | Some pg =>
    let! c := ld_ctx ctx in
    let! r := zoom mm_env set_env (map_page_to_ctx (mc_pgd c) pg va prot) in
    if ctrue r then ret (-1) else ret 0
  end.

(** The descent of [vma_insert]: the parent and the link to hang the area on. *)
Fixpoint insert_loop (fuel : nat) (p : rb_link) (at_ parent : Z) (b e : Z) : MM (rb_link * Z) :=
  match fuel with
  | O => nofuel
  | S fuel =>
    if at_ =? NULL then ret (p, parent) else
    let! area := ld_vma at_ in
    let! nd := ld_rb at_ in
    if e <=? vma_begin area then
      insert_loop fuel (LinkChild at_ RB_LEFT) (rb_child nd RB_LEFT) at_ b e
    else if vma_end area <=? b then
      insert_loop fuel (LinkChild at_ RB_RIGHT) (rb_child nd RB_RIGHT) at_ b e
    else panic
  end.
Definition vma_insert (fuel : nat) (ctx v : Z) : MM unit :=
  do! modify (λ m, set_nodes (<[v := mk_rb_node 0 0 0]> (mm_nodes m)) m) then
  let! c := ld_ctx ctx in
  let! a := ld_vma v in
  let! x := insert_loop fuel LinkRoot (mc_vmas c) NULL (vma_begin a) (vma_end a) in
  on_tree ctx (do! rb_link_node v (snd x) (fst x) then rb_insert_color fuel v).

Definition setup_vma (fuel : nat) (ctx va len prot ino off : Z) : MM Z :=
  let! v := zoom mm_objs set_objs (obj_alloc vmas_cache) in
  if v =? NULL then ret (-1) else
  let b := va_round_down va in
  let e := va_round_up (u32 (va + len)) in
  let! x := (if ctrue ino then
      let! i := zoom mm_env set_env (iref ino) in
      let o := u32 (off - (va - b)) in
      do! bug_on (ctrue (Z.land o PAGE_MASK)) then ret (i, o)
    else ret (NULL, 0)) in
  do! modify (upd_vmas (insert v (mk_vma b e prot (snd x) (fst x)))) then
  do! vma_insert fuel ctx v then
  ret 0.

(** [do_free_vma]: the two subtrees, then the area itself. *)
Fixpoint do_free_vma (fuel : nat) (v : Z) : MM unit :=
  match fuel with
  | O => nofuel
  | S fuel =>
    if v =? NULL then ret tt else
    let! nd := ld_rb v in
    do! do_free_vma fuel (rb_child nd RB_LEFT) then
    do! do_free_vma fuel (rb_child nd RB_RIGHT) then
    do! modify (λ m, upd_vmas (delete v) (set_nodes (delete v (mm_nodes m)) m)) then
    zoom mm_objs set_objs (obj_free vmas_cache v)
  end.

(** [do_clone_vma]: the second argument, the place the copy should be linked
    at, is not used by the body. *)
Fixpoint do_clone_vma (fuel : nat) (orig : Z) : MM bool :=
  match fuel with
  | O => nofuel
  | S fuel =>
    if orig =? NULL then ret true else
    let! new := zoom mm_objs set_objs (obj_alloc vmas_cache) in
    if new =? NULL then ret false else
    let! v := ld_vma orig in
    do! modify (λ m, upd_vmas (insert new v)
                  (set_nodes (<[new := mk_rb_node 0 0 0]> (mm_nodes m)) m)) then
    do! when (ctrue (vma_ino v))
      (let! i := zoom mm_env set_env (iref (vma_ino v)) in
       modify (upd_vmas (insert new (mk_vma (vma_begin v) (vma_end v) (vma_prot v) (vma_off v) i)))) then
    let! nd := ld_rb orig in
    let! l := do_clone_vma fuel (rb_child nd RB_LEFT) in
    if negb l then ret false else
    do_clone_vma fuel (rb_child nd RB_RIGHT)
  end.

Definition mem_ctx_clone (fuel : nat) (ctx : Z) : MM Z :=
  let! new := zoom mm_objs set_objs (obj_alloc memctx_cache) in
  if new =? NULL then ret NULL else
  let! c := ld_ctx ctx in
  let! pgd := zoom mm_env set_env (clone_ctx (mc_pgd c)) in
  match pgd with
  | None => do! zoom mm_objs set_objs (obj_free memctx_cache new) then ret NULL
  | Some pgd =>
    do! modify (upd_ctxs (insert new (mk_mem_ctx NULL pgd 0))) then
    let! ok := do_clone_vma fuel (mc_vmas c) in
    if negb ok then
      do! do_free_vma fuel (mc_vmas c) then
      do! modify (upd_ctxs (delete new)) then
      do! zoom mm_objs set_objs (obj_free memctx_cache new) then
      ret NULL
    else
      do! st_ctx new (set_ctx_count 1) then ret new
  end.

Definition mem_ctx_get (ctx : Z) : MM Z :=
  do! st_ctx ctx (λ c, set_ctx_count (u32 (mc_count c + 1)) c) then ret ctx.
Definition get_kthread_ctx : MM Z := let! k := gets kthread_ctx in mem_ctx_get k.

Definition mem_ctx_new : MM Z :=
  let! ctx := zoom mm_objs set_objs (obj_alloc memctx_cache) in
  if ctx =? NULL then ret NULL else
  let! pgd := zoom mm_env set_env setup_new_ctx in
  match pgd with
  | None => do! zoom mm_objs set_objs (obj_free memctx_cache ctx) then ret NULL
  | Some pgd => do! modify (upd_ctxs (insert ctx (mk_mem_ctx NULL pgd 1))) then ret ctx
  end.

Definition mem_ctx_free (fuel : nat) (ctx : Z) : MM unit :=
  let! c := ld_ctx ctx in
  do! do_free_vma fuel (mc_vmas c) then
  do! zoom mm_env set_env (destroy_ctx (mc_pgd c)) then
  do! modify (upd_ctxs (delete ctx)) then
  zoom mm_objs set_objs (obj_free memctx_cache ctx).

Definition mem_ctx_put (fuel : nat) (ctx : Z) : MM unit :=
  let! c := ld_ctx ctx in
  do! bug_on (mc_count c =? 0) then
  do! st_ctx ctx (set_ctx_count (u32 (mc_count c - 1))) then
  when (u32 (mc_count c - 1) =? 0) (mem_ctx_free fuel ctx).

End mm.
