(* ===== verification/VmaProps.v ===== *)
(** * Memory areas: the tree of a context is an ordered map of disjoint areas *)
From S2P Require Import Prelude PageAlloc ObjAlloc Kmem Buddy.
From S2P Require Import Rbtree RbtreeRep RbtreeInsert RbtreeErase RbtreeWalk Vma.

(** [a] ends before [b] begins. *)
Definition vbefore (vm : gmap Z vma) (a b : Z) : Prop :=
  ∃ x y, vm !! a = Some x ∧ vm !! b = Some y ∧ vma_end x ≤ vma_begin y.
Definition vgood (vm : gmap Z vma) (a : Z) : Prop :=
  ∃ x, vm !! a = Some x ∧ vma_begin x ≤ vma_end x.
(** Areas in address order, none overlapping another. *)
Definition vsorted (vm : gmap Z vma) (l : list Z) : Prop :=
  Forall (vgood vm) l ∧ StronglySorted (vbefore vm) l.

Section vma.
Context {P E : Type} `{!ObjOps P, !ObjSpec P, !MmuOps E}.
Implicit Types (m : @mm P E) (t : tree) (k : ctx).

Definition tree_store m (root : Z) : rb_store := mk_rb_store (mm_nodes m) root.

(** The areas of [cx] are the nodes of [t]. *)
Record areas m (cx : Z) (c : mem_ctx) t : Prop := {
  ar_ctx : mm_ctxs m !! cx = Some c;
  ar_rep : rep (tree_store m (mc_vmas c)) (tree_store m (mc_vmas c)) t;
  ar_rb : rbtree t;
  ar_sorted : vsorted (mm_vmas m) (inorder t)
}.

Lemma wp_ld_vma m v x (Q : vma → mm → Prop) :
  mm_vmas m !! v = Some x → Q x m → wp (ld_vma v) Q m.
Proof. intros H HQ. apply wp_bind. rewrite /wp /= H. done. Qed.
Lemma wp_ld_rb m v x (Q : rb_node → mm → Prop) :
  mm_nodes m !! v = Some x → Q x m → wp (ld_rb v) Q m.
Proof. intros H HQ. apply wp_bind. rewrite /wp /= H. done. Qed.
Lemma wp_ld_ctx m v x (Q : mem_ctx → mm → Prop) :
  mm_ctxs m !! v = Some x → Q x m → wp (ld_ctx v) Q m.
Proof. intros H HQ. apply wp_bind. rewrite /wp /= H. done. Qed.

(** The cell of the focus of a tree. *)
Lemma focus_cell s0 s k c l a r :
  rep s0 s (plug k (Node c l a r)) → ∃ n, rb_nodes s !! a = Some n ∧
    rb_child n RB_LEFT = ptr l ∧ rb_child n RB_RIGHT = ptr r.
Proof.
  intros Hr. pose proof (rep_agree _ _ _ Hr) as Ha. apply agree_plug in Ha as [(Hc & _) _].
  eexists. split; [exact Hc|]. done.
Qed.
Lemma inorder_before_after k t :
  inorder (plug k t) = before true k ++ inorder t ++ after true k.
Proof. exact (dir_plug true k t). Qed.
Lemma before_left k c a r l :
  before true (Fr false c a r :: k) = before true k ∧
  after true (Fr false c a r :: k) = a :: inorder r ++ after true k ∧
  before true (Fr true c a l :: k) = before true k ++ inorder l ++ [a] ∧
  after true (Fr true c a l :: k) = after true k.
Proof. done. Qed.

(** In an ordered tree, everything left of a node ends before it begins. *)
Lemma vsorted_node vm k c l a r :
  vsorted vm (inorder (plug k (Node c l a r))) → ∃ x, vm !! a = Some x ∧ vma_begin x ≤ vma_end x ∧
    (∀ b y, b ∈ inorder l → vm !! b = Some y → vma_end y ≤ vma_begin x) ∧
    (∀ b y, b ∈ inorder r → vm !! b = Some y → vma_end x ≤ vma_begin y ∧ vma_begin y ≤ vma_end y).
Proof.
  rewrite inorder_before_after /=. intros [Hg Hs].
  rewrite !Forall_app Forall_cons in Hg. destruct Hg as (_ & (Hgl & (x & Hx & Hx0) & Hgr) & _).
  rewrite !StronglySorted_app StronglySorted_cons in Hs.
  destruct Hs as (_ & _ & _ & (Hlr & _ & Hr & _) & _).
  exists x. split; [done|]. split; [done|]. split.
  - intros b y Hb Hy. destruct (Hlr b a Hb) as (x' & y' & H1 & H2 & H3); [set_solver|]. congruence.
  - intros b y Hb Hy. rewrite Forall_forall in Hr. rewrite Forall_forall in Hgr.
    destruct (Hr b Hb) as (x' & y' & H1 & H2 & H3), (Hgr b Hb) as (y2 & H4 & H5).
    split; congruence.
Qed.

(** An area whose closed interval contains [va]. *)
Definition covers (vm : gmap Z vma) (va a : Z) : Prop :=
  ∃ x, vm !! a = Some x ∧ vma_begin x ≤ va ≤ vma_end x.

Lemma wp_lookup_loop s0 fuel m c k t va :
  rep s0 (tree_store m (mc_vmas c)) (plug k t) → vsorted (mm_vmas m) (inorder (plug k t)) →
  (height t < fuel)%nat →
  (∀ a, a ∈ before true k ++ after true k → ¬ covers (mm_vmas m) va a) →
  wp (lookup_loop fuel (ptr t) va) (λ r m', m' = m ∧
    if r =? NULL then ∀ a, a ∈ inorder (plug k t) → ¬ covers (mm_vmas m) va a
    else r ∈ inorder (plug k t) ∧ covers (mm_vmas m) va r) m.
Proof.
  revert k t. induction fuel as [|fuel IH]; intros k t Hr Hs Hf Hout; [lia|].
  destruct t as [|cl l a r]; simpl.
  { apply wp_ret. split; [done|]. intros a. rewrite inorder_before_after. apply Hout. }
  assert (good_ptr a) as [_ Hn].
  { rewrite nd_false in Hr. eapply rep_focus_good. exact Hr. }
  rewrite (proj2 (Z.eqb_neq _ _) Hn).
  destruct (vsorted_node _ _ _ _ _ _ Hs) as (x & Hx & Hx0 & Hl & Hrt).
  destruct (focus_cell _ _ _ _ _ _ _ Hr) as (n & Hnode & El & Er).
  apply wp_bind. eapply wp_ld_vma; [exact Hx|]. apply wp_bind. eapply wp_ld_rb; [exact Hnode|].
  rewrite El Er. simpl in Hf.
  destruct (Z.ltb_spec va (vma_begin x)) as [Hlt|Hge].
  { apply (IH (Fr false cl a r :: k)); [done|done|lia|].
    destruct (before_left k cl a r Leaf) as (-> & -> & _). intros b Hb.
    assert (b ∈ before true k ++ after true k ∨ b = a ∨ b ∈ inorder r) as [H|[->|H]] by set_solver.
    - by apply Hout.
    - intros (y & Hy & ?). rewrite Hx in Hy. injection Hy as <-. lia.
    - intros (y & Hy & ?). destruct (Hrt b y H Hy). lia. }
  destruct (Z.ltb_spec (vma_end x) va) as [Hgt|Hle].
  { apply (IH (Fr true cl a l :: k)); [done|done|lia|].
    destruct (before_left k cl a Leaf l) as (_ & _ & -> & ->). intros b Hb.
    assert (b ∈ before true k ++ after true k ∨ b = a ∨ b ∈ inorder l) as [H|[->|H]] by set_solver.
    - by apply Hout.
    - intros (y & Hy & ?). rewrite Hx in Hy. injection Hy as <-. lia.
    - intros (y & Hy & ?). pose proof (Hl b y H Hy). lia. }
  apply wp_ret. split; [done|]. rewrite (proj2 (Z.eqb_neq _ _) Hn). split.
  - rewrite inorder_before_after /=. set_solver.
  - by exists x.
Qed.

(** [b .. e] does not overlap the area [a]. *)
Definition apart (vm : gmap Z vma) (b e a : Z) : Prop :=
  ∃ x, vm !! a = Some x ∧ (e ≤ vma_begin x ∨ vma_end x ≤ b).

Lemma wp_vma_descent s0 fuel m c k t b e :
  rep s0 (tree_store m (mc_vmas c)) (plug k t) → vsorted (mm_vmas m) (inorder (plug k t)) →
  (height t < fuel)%nat → b ≤ e →
  (∀ a, a ∈ inorder t → apart (mm_vmas m) b e a) →
  (∀ a x, a ∈ before true k → mm_vmas m !! a = Some x → vma_end x ≤ b) →
  (∀ a x, a ∈ after true k → mm_vmas m !! a = Some x → e ≤ vma_begin x) →
  wp (insert_loop fuel (link_of k) (ptr t) (up k) b e) (λ r m', m' = m ∧
    ∃ k', r = (link_of k', up k') ∧ plug k' Leaf = plug k t ∧
      (∀ a x, a ∈ before true k' → mm_vmas m !! a = Some x → vma_end x ≤ b) ∧
      (∀ a x, a ∈ after true k' → mm_vmas m !! a = Some x → e ≤ vma_begin x)) m.
Proof.
  revert k t. induction fuel as [|fuel IH]; intros k t Hr Hs Hf Hbe Hap Hb Ha; [lia|].
  destruct t as [|cl l a r]; simpl.
  { apply wp_ret. split; [done|]. by exists k. }
  assert (good_ptr a) as [_ Hn].
  { rewrite nd_false in Hr. eapply rep_focus_good. exact Hr. }
  rewrite (proj2 (Z.eqb_neq _ _) Hn).
  destruct (vsorted_node _ _ _ _ _ _ Hs) as (x & Hx & Hx0 & Hl & Hrt).
  destruct (focus_cell _ _ _ _ _ _ _ Hr) as (n & Hnode & El & Er).
  apply wp_bind. eapply wp_ld_vma; [exact Hx|]. apply wp_bind. eapply wp_ld_rb; [exact Hnode|].
  rewrite El Er. simpl in Hf, Hap.
  destruct (Z.leb_spec e (vma_begin x)) as [Hlt|Hge].
  { apply (IH (Fr false cl a r :: k)); [done|done|lia|done|set_solver|done|].
    destruct (before_left k cl a r Leaf) as (_ & -> & _). intros d y Hd Hy.
    apply elem_of_cons in Hd as [->|Hd]; [rewrite Hx in Hy; by injection Hy as <-|].
    apply elem_of_app in Hd as [Hd|Hd]; [destruct (Hrt d y Hd Hy); lia|exact (Ha d y Hd Hy)]. }
  destruct (Z.leb_spec (vma_end x) b) as [Hgt|Hle].
  { apply (IH (Fr true cl a l :: k)); [done|done|lia|done|set_solver| |done].
    destruct (before_left k cl a Leaf l) as (_ & _ & -> & _). intros d y Hd Hy.
    apply elem_of_app in Hd as [Hd|Hd]; [exact (Hb d y Hd Hy)|].
    apply elem_of_app in Hd as [Hd| ->%list_elem_of_singleton]; [pose proof (Hl d y Hd Hy); lia|].
    rewrite Hx in Hy. by injection Hy as <-. }
  destruct (Hap a) as (x' & Hx' & ?); [set_solver|]. rewrite Hx in Hx'. injection Hx' as <-. lia.
Qed.

(** The order survives the insertion of the new area at the hole. *)
Lemma vsorted_insert vm k v x :
  vsorted vm (before true k ++ after true k) → vm !! v = Some x → vma_begin x ≤ vma_end x →
  (∀ a y, a ∈ before true k → vm !! a = Some y → vma_end y ≤ vma_begin x) →
  (∀ a y, a ∈ after true k → vm !! a = Some y → vma_end x ≤ vma_begin y) →
  vsorted vm (before true k ++ v :: after true k).
Proof.
  intros [Hg Hs] Hv Hx Hb Ha. apply Forall_app in Hg as [Hg1 Hg2].
  rewrite Forall_forall in Hg1. rewrite Forall_forall in Hg2.
  apply StronglySorted_app in Hs as (H1 & H2 & H3). split.
  - rewrite Forall_app Forall_cons !Forall_forall. split_and!; [done|by exists x|done].
  - apply StronglySorted_app. split_and!; [|done|].
    + intros a b Hin [->|Hin']%elem_of_cons; [|by apply H1].
      destruct (Hg1 a Hin) as (y & Hy & _). exists y, x. split_and!; [done|done|exact (Hb a y Hin Hy)].
    + apply StronglySorted_cons. split; [|done]. apply Forall_forall. intros b Hin.
      destruct (Hg2 b Hin) as (y & Hy & _). exists x, y. split_and!; [done|done|exact (Ha b y Hin Hy)].
Qed.

(** A cell outside the tree may change. *)
Lemma rep_outside s0 s t v n :
  rep s0 s t → cnt v t = 0%nat →
  rep (mk_rb_store (<[v := n]> (rb_nodes s)) (rb_root s))
      (mk_rb_store (<[v := n]> (rb_nodes s)) (rb_root s)) t.
Proof.
  intros [] Hv. split; simpl; try done. by apply agree_insert.
Qed.

Lemma wp_vma_insert m cx c t v x fuel :
  areas m cx c t → mm_vmas m !! v = Some x → vma_begin x ≤ vma_end x →
  v ∉ inorder t → good_ptr v → (height t < fuel)%nat →
  (∀ a, a ∈ inorder t → apart (mm_vmas m) (vma_begin x) (vma_end x) a) →
  wp (vma_insert fuel cx v) (λ _ m', ∃ c' t' pre post,
    areas m' cx c' t' ∧ inorder t = pre ++ post ∧ inorder t' = pre ++ v :: post ∧
    mm_vmas m' = mm_vmas m ∧ mm_objs m' = mm_objs m ∧
    mm_ctxs m' = <[cx := c']> (mm_ctxs m) ∧ (∃ r, c' = set_root r c) ∧
    mm_env m' = mm_env m ∧ mm_bd m' = mm_bd m ∧
    ∀ a, a ∉ inorder t' → mm_nodes m' !! a = mm_nodes m !! a) m.
Proof.
  intros [Hcx Hr Hrb Hs] Hx Hx0 Hnv Hg Hf Hap. pose proof Hnv as Hnv'. apply cnt_inorder in Hnv.
  apply wp_bind, wp_modify. set (m1 := set_nodes _ _).
  pose proof (rep_outside _ _ _ v (mk_rb_node 0 0 0) Hr Hnv) as Hr1.
  apply wp_bind. eapply wp_ld_ctx; [exact Hcx|]. apply wp_bind. eapply wp_ld_vma; [exact Hx|].
  pose proof (rep_root _ _ _ Hr) as Hroot. simpl in Hroot. rewrite {1}Hroot.
  apply wp_bind. eapply wp_mono.
  { eapply (wp_vma_descent _ fuel m1 c [] t); [exact Hr1|exact Hs|done|exact Hx0|done|set_solver|set_solver]. }
  intros [l p] m2 (-> & k & [= -> ->] & Ek & Hbe & Haf). simpl in Ek.
  apply wp_bind. eapply wp_ld_ctx; [exact Hcx|]. apply wp_bind, wp_zoom.
  rewrite -Ek in Hr1, Hrb, Hf, Hs.
  eapply wp_mono; [eapply wp_link_insert; [exact Hr1|done|by rewrite Ek|done|done]|].
  intros [] s' (t' & Hr' & Hio & Hrb'). apply wp_ret.
  rewrite inorder_before_after /= in Hs. rewrite inorder_before_after /= in Hio.
  exists (set_root (rb_root s') c), t', (before true k), (after true k).
  split_and!; [|by rewrite -Ek inorder_before_after|done|done|done|done|by eexists|done|done|].
  2:{ intros a Ha. simpl. rewrite (rep_frame _ _ _ Hr' a); [by apply cnt_inorder|]. simpl.
      apply lookup_insert_ne. intros ->. apply Ha. rewrite Hio. set_solver. }
  split; simpl; [by rewrite lookup_insert_eq| |done|rewrite Hio; eapply vsorted_insert; [exact Hs|exact Hx|done..]].
  assert (tree_store (upd_ctxs <[cx:=set_root (rb_root s') c]> (set_nodes (rb_nodes s') m1))
    (rb_root s') = s') as -> by (by destruct s').
  destruct Hr'. by split.
Qed.

(** ** Rounding to pages *)

Lemma land_page_mask x : 0 ≤ x < 2 ^ 32 → Z.land x (u32 (Z.lnot PAGE_MASK)) = x - x mod 4096.
Proof.
  intros Hx. change (u32 (Z.lnot PAGE_MASK)) with (Z.shiftl (Z.ones 20) 12).
  trans (Z.shiftl (Z.shiftr x 12) 12).
  - apply Z.bits_inj'. intros i Hi. rewrite Z.land_spec !(Z.shiftl_spec _ 12 i) //.
    destruct (decide (i < 12)).
    { rewrite (Z.testbit_neg_r (Z.ones 20)); [lia|]. rewrite andb_false_r Z.testbit_neg_r //. lia. }
    rewrite Z.shiftr_spec; [lia|]. rewrite Z.sub_add.
    destruct (decide (i < 32)); [rewrite Z.ones_spec_low; [lia|]; by rewrite andb_true_r|].
    rewrite -(Z.mod_small x (2 ^ 32)) // Z.mod_pow2_bits_high; [lia|done].
  - rewrite Z.shiftl_mul_pow2 // Z.shiftr_div_pow2 //. change 4096 with (2 ^ 12).
    pose proof (Z.div_mod x (2 ^ 12)). lia.
Qed.
Lemma va_round_down_spec va : 0 ≤ va < 2 ^ 32 →
  va_round_down va = va - va mod 4096 ∧ va_round_down va mod 4096 = 0.
Proof.
  intros H. rewrite /va_round_down land_page_mask //. split; [done|].
  rewrite -Zminus_mod_idemp_l Z.sub_diag. done.
Qed.
(** Rounding up does not go past the next page, unless it wraps at the end of memory. *)
Lemma va_round_up_spec va : 0 ≤ va ≤ 2 ^ 32 - 4096 →
  va ≤ va_round_up va < va + 4096 ∧ va_round_up va mod 4096 = 0.
Proof.
  intros H. assert (0 ≤ va + PAGE_MASK < 2 ^ 32) as Hb by (change PAGE_MASK with 4095; lia).
  rewrite /va_round_up u32_id // land_page_mask //. change PAGE_MASK with 4095 in *. split; [|by rewrite -Zminus_mod_idemp_l Z.sub_diag].
  pose proof (Z.mod_pos_bound (va + 4095) 4096). lia.
Qed.

(** ** Setting up an area *)

(** The order of a list of areas only reads those areas. *)
Lemma vsorted_outside vm l v x : v ∉ l → vsorted vm l → vsorted (<[v := x]> vm) l.
Proof.
  intros Hv [Hg Hs]. rewrite Forall_forall in Hg. split.
  - apply Forall_forall. intros a Ha. destruct (Hg a Ha) as (y & Hy & ?). exists y.
    rewrite lookup_insert_ne; [set_solver|done].
  - clear Hg. induction Hs as [|a l Hs IH Hf]; constructor; [set_solver|].
    rewrite Forall_forall in Hf. apply Forall_forall. intros b Hb.
    destruct (Hf b Hb) as (y & z & Hy & Hz & ?). exists y, z.
    rewrite !lookup_insert_ne; [set_solver..|done].
Qed.

Lemma apart_outside vm v x b e a : v ≠ a → apart vm b e a → apart (<[v := x]> vm) b e a.
Proof. intros Hv (y & Hy & ?). exists y. by rewrite lookup_insert_ne. Qed.

(** The area a successful [setup_vma] describes: whole pages that contain the
    requested range. *)
Definition mapped (va len prot ino off : Z) (x : vma) : Prop :=
  vma_begin x = va - va mod 4096 ∧ va + len ≤ vma_end x < va + len + 4096 ∧
  vma_end x mod 4096 = 0 ∧ vma_prot x = prot ∧ vma_ino x = ino ∧
  (ino ≠ NULL → vma_off x = u32 (off - va mod 4096)) ∧ (ino = NULL → vma_off x = 0).

(** The reference to the inode of the mapping, and its offset. *)
Definition mapping_ok m (va ino off : Z) : Prop :=
  ino = NULL ∨ u32 (off - va mod 4096) mod 4096 = 0 ∧
    wp (iref ino) (λ r _, r = ino) (mm_env m).

Lemma land_page_offset x : Z.land x PAGE_MASK = x mod 4096.
Proof. change PAGE_MASK with (Z.ones 12). by rewrite Z.land_ones. Qed.

(** The other contexts and areas are left alone; a mapped file gets a
    reference more. *)
Definition setup_frame m cx c (ino : Z) c' t' m' : Prop :=
  (∃ r, c' = set_root r c) ∧ mm_ctxs m' = <[cx := c']> (mm_ctxs m) ∧ mm_bd m' = mm_bd m ∧
  (∀ a, a ∉ inorder t' → mm_nodes m' !! a = mm_nodes m !! a) ∧
  if ino =? NULL then mm_env m' = mm_env m else iref ino (mm_env m) = Ret (ino, mm_env m').

(** What [setup_vma] leaves: nothing new, or one area more. *)
Definition setup_post m cx c t A va len prot ino off (r : Z) m' : Prop :=
  (r = -1 ∧ (∃ p, obj_alloc vmas_cache (mm_objs m) = Ret (NULL, p) ∧ m' = set_objs p m) ∧ areas m' cx c t ∧ objs_live (mm_objs m') A) ∨
  (r = 0 ∧ ∃ v x c' t' pre post, v ∉ A ∧ objs_live (mm_objs m') ({[ v ]} ∪ A) ∧
    areas m' cx c' t' ∧ inorder t = pre ++ post ∧ inorder t' = pre ++ v :: post ∧
    mm_vmas m' = <[v := x]> (mm_vmas m) ∧ mapped va len prot ino off x ∧ setup_frame m cx c ino c' t' m').

(** The last part of [setup_vma], once the object is there. *)
Lemma wp_setup_insert m m1 cx c t A v va len prot ino off x fuel :
  areas m cx c t → (∀ a, a ∈ inorder t → a ∈ A) → (height t < fuel)%nat →
  v ∉ A → 0 < v < 2 ^ 32 → v mod 4 = 0 → objs_live (mm_objs m1) ({[ v ]} ∪ A) →
  mm_vmas m1 = mm_vmas m → mm_nodes m1 = mm_nodes m → mm_ctxs m1 = mm_ctxs m → mm_bd m1 = mm_bd m →
  (if ino =? NULL then mm_env m1 = mm_env m else iref ino (mm_env m) = Ret (ino, mm_env m1)) →
  mapped va len prot ino off x → vma_begin x ≤ vma_end x →
  (∀ a, a ∈ inorder t → apart (mm_vmas m) (vma_begin x) (vma_end x) a) →
  wp (do! modify (upd_vmas (insert v x)) then do! vma_insert fuel cx v then ret 0)
    (setup_post m cx c t A va len prot ino off) m1.
Proof.
  intros Har Hin Hf Hv Hr H4 Hl E1 E2 E3 E4 E5 Hx Hx0 Hap. apply wp_bind, wp_modify. apply wp_bind.
  assert (v ∉ inorder t) as Hvt by naive_solver.
  eapply wp_mono.
  - eapply (wp_vma_insert _ cx c t v x fuel); [|simpl; by rewrite lookup_insert_eq|done|done|
      split; [split; [lia|done]|unfold NULL; lia]|done|].
    + destruct Har as [Hc Hrp Hrb Hs]. split; simpl.
      * by rewrite E3.
      * rewrite /tree_store /= E2. exact Hrp.
      * done.
      * rewrite E1. by apply vsorted_outside.
    + intros a Ha. simpl. rewrite E1. apply apart_outside; [set_solver|]. by apply Hap.
  - simpl. intros [] m2 (c' & t' & pre & post & Ha' & Hp & Hp' & Evm & Eo & Ec & Er & Ee & Eb & Efr). apply wp_ret. right.
    split; [done|]. exists v, x, c', t', pre, post. simpl in *.
    rewrite Eo Evm E1. split; [done|]. split; [done|]. split; [done|]. split; [done|]. split; [done|]. split; [done|].
    split; [exact Hx|]. split; [done|]. rewrite Ec E3 Ee Eb E4. split; [done|]. split; [done|]. split; [|done].
    intros a Ha. by rewrite (Efr a Ha) E2.
Qed.

Lemma wp_setup_vma m cx c t A va len prot ino off fuel :
  areas m cx c t → objs_live (mm_objs m) A → (∀ a, a ∈ inorder t → a ∈ A) → (height t < fuel)%nat →
  0 ≤ va → 0 ≤ len → va + len ≤ 2 ^ 32 - 4096 → mapping_ok m va ino off →
  (∀ a, a ∈ inorder t →
     apart (mm_vmas m) (va_round_down va) (va_round_up (va + len)) a) →
  wp (setup_vma fuel cx va len prot ino off) (setup_post m cx c t A va len prot ino off) m.
Proof.
  intros Har Ho Hin Hf Hva Hlen Hend Hmap Hap.
  destruct (va_round_down_spec va) as [Hb _]; [lia|].
  destruct (va_round_up_spec (va + len)) as [He He']; [lia|].
  pose proof (Z.mod_pos_bound va 4096 ltac:(lia)) as Hm.
  destruct (wp_elim _ _ _ (objs_alloc _ _ vmas_cache Ho)) as (v & p' & Ew & Hpost). apply wp_bind, wp_zoom. rewrite {1}/wp Ew.
  destruct Hpost as [[-> Ho']|(Hr & H4 & Hv & Ho')].
  { apply wp_ret. left. split; [done|]. split; [by exists p'|]. split; [|done]. by destruct Har. }
  rewrite (proj2 (Z.eqb_neq v NULL)); [unfold NULL; lia|]. cbv zeta. rewrite (u32_id (va + len)); [lia|].
  destruct (decide (ino = NULL)) as [->|Hn].
  - apply wp_bind, wp_ret. eapply wp_setup_insert; try done; first [simpl; lia|split_and!; simpl; try done; lia].
  - destruct Hmap as [|[Hoff Hi]]; [done|].
    replace (va - va_round_down va) with (va mod 4096) by lia.
    rewrite /ctrue (proj2 (Z.eqb_neq _ _) Hn) /=. apply wp_bind.
    apply wp_bind, wp_zoom. destruct (wp_elim _ _ _ Hi) as (i & e' & Ei & ->). rewrite /wp Ei.
    apply wp_bind, wp_bug_on. { rewrite land_page_offset Hoff. done. }
    apply wp_ret. eapply wp_setup_insert; try done; first [simpl; lia|by rewrite (proj2 (Z.eqb_neq _ _) Hn)|split_and!; simpl; try done; lia].
Qed.

(** A range that overlaps an area is found by the descent. *)
Lemma insert_loop_overlap s0 fuel m c k t p u b e a x :
  rep s0 (tree_store m (mc_vmas c)) (plug k t) → vsorted (mm_vmas m) (inorder (plug k t)) →
  (height t < fuel)%nat → a ∈ inorder t → mm_vmas m !! a = Some x →
  vma_begin x < e → b < vma_end x →
  insert_loop fuel p (ptr t) u b e m = Bug.
Proof.
  revert k t p u. induction fuel as [|fuel IH]; intros k t p u Hr Hs Hf Ha Hx Hxe Hxb; [lia|].
  destruct t as [|cl l d r]; simpl in Ha; [set_solver|].
  assert (good_ptr d) as [_ Hn].
  { rewrite nd_false in Hr. eapply rep_focus_good. exact Hr. }
  destruct (vsorted_node _ _ _ _ _ _ Hs) as (y & Hy & Hy0 & Hl & Hrt).
  destruct (focus_cell _ _ _ _ _ _ _ Hr) as (n & Hnode & El & Er).
  cbn [insert_loop ptr]. rewrite (proj2 (Z.eqb_neq _ _) Hn).
  rewrite /ld_vma /ld_rb /bind /get Hy /= Hnode /= El Er. simpl in Hf.
  apply elem_of_app in Ha as [Ha|[->|Ha]%elem_of_cons].
  - pose proof (Hl a x Ha Hx). destruct (Z.leb_spec e (vma_begin y)).
    { apply (IH (Fr false cl d r :: k)); [done|done|lia|done..]. }
    destruct (Z.leb_spec (vma_end y) b); [lia|done].
  - rewrite Hx in Hy. injection Hy as <-.
    destruct (Z.leb_spec e (vma_begin x)); [lia|]. destruct (Z.leb_spec (vma_end x) b); [lia|done].
  - destruct (Hrt a x Ha Hx). destruct (Z.leb_spec e (vma_begin y)); [lia|].
    destruct (Z.leb_spec (vma_end y) b); [|done].
    apply (IH (Fr true cl d l :: k)); [done|done|lia|done..].
Qed.

Lemma setup_vma_bug m m1 cx c t fuel v x a y :
  areas m cx c t → mm_vmas m1 = mm_vmas m → mm_nodes m1 = mm_nodes m → mm_ctxs m1 = mm_ctxs m →
  (height t < fuel)%nat → v ∉ inorder t → a ∈ inorder t → mm_vmas m !! a = Some y →
  vma_begin y < vma_end x → vma_begin x < vma_end y →
  (do! modify (upd_vmas (insert v x)) then do! vma_insert fuel cx v then ret 0) m1 = Bug.
Proof.
  intros [Hcx Hr Hrb Hs] E1 E2 E3 Hf Hv Ha Hy H1 H2.
  rewrite /vma_insert /bind /modify /ld_ctx /ld_vma /bind /get /= E3 Hcx /= lookup_insert_eq /=.
  pose proof (rep_root _ _ _ Hr) as Hroot. simpl in Hroot. rewrite Hroot.
  set (m2 := set_nodes _ _).
  pose proof (rep_outside _ _ _ v (mk_rb_node 0 0 0) Hr (proj2 (cnt_inorder _ _) Hv)) as Hr1.
  assert (insert_loop fuel LinkRoot (ptr t) NULL (vma_begin x) (vma_end x) m2 = Bug) as ->; [|done].
  simpl in Hr1. rewrite -E2 in Hr1.
  eapply (insert_loop_overlap _ fuel m2 c [] t LinkRoot NULL _ _ a y); [exact Hr1| |done|done| |done|done].
  - simpl. rewrite E1. by apply vsorted_outside.
  - simpl. rewrite E1 lookup_insert_ne //. set_solver.
Qed.

(** Cloning the areas leaves the contexts alone. *)
Lemma do_clone_vma_ctxs fuel orig m b m' :
  do_clone_vma fuel orig m = Ret (b, m') → mm_ctxs m' = mm_ctxs m.
Proof.
  revert orig m b m'. induction fuel as [|fuel IH]; intros orig m b m'; [done|]. cbn [do_clone_vma].
  destruct (orig =? NULL); [by intros [= _ <-]|]. rewrite /bind /zoom /=.
  destruct (obj_alloc vmas_cache (mm_objs m)) as [[new p]| | | |]; [|done..].
  destruct (new =? NULL); [by intros [= _ <-]|].
  rewrite /ld_vma /bind /= . destruct (mm_vmas m !! orig) as [v|]; [simpl|done].
  destruct (ctrue (vma_ino v)); simpl.
  - rewrite /zoom /=. destruct (iref (vma_ino v) (mm_env m)) as [[i e]| | | |]; [|done..].
    rewrite /ld_rb /bind /=. destruct (_ !! orig) as [nd|]; [simpl|done].
    destruct (do_clone_vma fuel _ _) as [[[] m1]| | | |] eqn:E1; [|try done..].
    + intros E2. apply IH in E1, E2. simpl in *. congruence.
    + intros [= _ <-]. apply IH in E1. done.
  - rewrite /ld_rb /bind /=. destruct (_ !! orig) as [nd|]; [simpl|done].
    destruct (do_clone_vma fuel _ _) as [[[] m1]| | | |] eqn:E1; [|try done..].
    + intros E2. apply IH in E1, E2. simpl in *. congruence.
    + intros [= _ <-]. apply IH in E1. done.
Qed.

(** Of two areas of an ordered list, one ends before the other begins. *)
Lemma vsorted_order vm l a b :
  vsorted vm l → a ∈ l → b ∈ l → a ≠ b → vbefore vm a b ∨ vbefore vm b a.
Proof.
  intros [_ Hs]. induction Hs as [|d l Hs IH Hf]; [set_solver|]. rewrite Forall_forall in Hf.
  intros [->|Ha]%elem_of_cons [->|Hb]%elem_of_cons Hne; [done|left|right|]; auto.
Qed.

Lemma lookup_vma_spec m cx c t va fuel :
  areas m cx c t → (height t < fuel)%nat →
  ∃ r, lookup_vma fuel cx va m = Ret (r, m) ∧
    (r = NULL → ∀ a, a ∈ inorder t → ¬ covers (mm_vmas m) va a) ∧
    (r ≠ NULL → r ∈ inorder t ∧ covers (mm_vmas m) va r) ∧
    (∀ a x, a ∈ inorder t → mm_vmas m !! a = Some x → vma_begin x ≤ va < vma_end x →
      (∀ b y, b ∈ inorder t → mm_vmas m !! b = Some y → vma_end y ≠ va) → r = a).
Proof.
  intros [Hcx Hr _ Hs] Hf. pose proof (rep_root _ _ _ Hr) as Hroot. simpl in Hroot.
  assert (wp (lookup_loop fuel (ptr t) va) (λ r m', m' = m ∧
    if r =? NULL then ∀ a, a ∈ inorder t → ¬ covers (mm_vmas m) va a
    else r ∈ inorder t ∧ covers (mm_vmas m) va r) m) as Hw.
  { eapply (wp_lookup_loop _ fuel m c []); [exact Hr|exact Hs|done|set_solver]. }
  apply wp_elim in Hw as (r & m' & Ew & -> & HQ). exists r.
  split; [by rewrite /lookup_vma /ld_ctx /bind /get Hcx /= Hroot|].
  destruct (Z.eqb_spec r NULL) as [->|Hn].
  - split_and!; [done|done|]. intros a x Ha Hx Hva _. destruct (HQ a Ha). exists x. split; [done|lia].
  - split_and!; [done|done|]. destruct HQ as [Hin (y & Hy & Hyv)].
    intros a x Ha Hx Hva Hne. destruct (decide (r = a)) as [|Hra]; [done|]. exfalso.
    pose proof (Hne r y Hin Hy).
    destruct (vsorted_order _ _ a r Hs Ha Hin) as [(x' & y' & H1 & H2 & H3)|(y' & x' & H1 & H2 & H3)];
      [congruence|simplify_eq; lia|simplify_eq; lia].
Qed.

(** ** Properties *)

(** [lookup_vma] finds an area whose closed interval
    [vma_begin .. vma_end] holds the address if there is one, and gives NULL
    otherwise; it always ends within a number of steps above the height of the tree and changes
    nothing.  An address that lies properly inside an area gets that area,
    unless another area ends exactly there. *)
Theorem lookup_vma_correct m cx c t va fuel :
  areas m cx c t → (height t < fuel)%nat →
  ∃ r, lookup_vma fuel cx va m = Ret (r, m) ∧
    (r = NULL → ∀ a, a ∈ inorder t → ¬ covers (mm_vmas m) va a) ∧
    (r ≠ NULL → r ∈ inorder t ∧ covers (mm_vmas m) va r) ∧
    (∀ a x, a ∈ inorder t → mm_vmas m !! a = Some x → vma_begin x ≤ va < vma_end x →
      (∀ b y, b ∈ inorder t → mm_vmas m !! b = Some y → vma_end y ≠ va) → r = a).
Proof. apply lookup_vma_spec. Qed.

(** An area of the context and the range overlap. *)
Definition overlaps m t (b e : Z) : Prop :=
  ∃ a y, a ∈ inorder t ∧ mm_vmas m !! a = Some y ∧ vma_begin y < e ∧ b < vma_end y.

(** [setup_vma] of a range that overlaps an area of the
    context stops the kernel, unless the allocation fails. *)
Lemma setup_vma_overlap m cx c t A va len prot ino off fuel :
  areas m cx c t → objs_live (mm_objs m) A → (∀ a, a ∈ inorder t → a ∈ A) → (height t < fuel)%nat →
  0 ≤ va → 0 ≤ len → va + len ≤ 2 ^ 32 - 4096 → mapping_ok m va ino off →
  overlaps m t (va_round_down va) (va_round_up (va + len)) →
  setup_vma fuel cx va len prot ino off m = Bug ∨
  ∃ p, obj_alloc vmas_cache (mm_objs m) = Ret (NULL, p) ∧ setup_vma fuel cx va len prot ino off m = Ret (-1, set_objs p m).
Proof.
  intros Har Ho Hin Hf Hva Hlen Hend Hmap (a & y & Ha & Hy & H1 & H2).
  destruct (wp_elim _ _ _ (objs_alloc _ _ vmas_cache Ho)) as (v & p' & Ew & Hv).
  rewrite /setup_vma /bind /zoom Ew. destruct Hv as [[-> _]|(Hr & H4 & Hv & _)]; [by right; eexists|].
  left. rewrite (proj2 (Z.eqb_neq v NULL)); [unfold NULL; lia|]. cbv zeta.
  rewrite (u32_id (va + len)); [lia|]. destruct (decide (ino = NULL)) as [->|Hn].
  { eapply (setup_vma_bug m); [exact Har|done|done|done|exact Hf|naive_solver|exact Ha|exact Hy|done|done]. }
  destruct Hmap as [|[Hoff Hi]]; [done|]. destruct (va_round_down_spec va) as [Hb _]; [lia|].
  replace (va - va_round_down va) with (va mod 4096) by lia.
  destruct (wp_elim _ _ _ Hi) as (i & e' & Ei & ->). rewrite /ctrue (proj2 (Z.eqb_neq _ _) Hn) /= Ei land_page_offset Hoff /=.
  eapply (setup_vma_bug m); [exact Har|done|done|done|exact Hf|naive_solver|exact Ha|exact Hy|done|done].
Qed.

(** C15: [setup_vma] of a range that ends below the last page, with an offset
    into the file that is one of a page. Where the range, rounded to pages,
    meets no area of the context: it gives -1 and changes no area when there
    is no object for the area, and otherwise 0, having added exactly one area,
    which contains the range, at its place in the address order; the tree
    remains a red-black tree of disjoint areas. Where it overlaps an area, the
    kernel stops, unless there is no object for the area. *)
Theorem setup_vma_correct m cx c t A va len prot ino off fuel :
  areas m cx c t → objs_live (mm_objs m) A → (∀ a, a ∈ inorder t → a ∈ A) → (height t < fuel)%nat →
  0 ≤ va → 0 ≤ len → va + len ≤ 2 ^ 32 - 4096 → mapping_ok m va ino off →
  ((∀ a, a ∈ inorder t → apart (mm_vmas m) (va_round_down va) (va_round_up (va + len)) a) →
     ∃ r m', setup_vma fuel cx va len prot ino off m = Ret (r, m') ∧ setup_post m cx c t A va len prot ino off r m') ∧
  (overlaps m t (va_round_down va) (va_round_up (va + len)) →
     setup_vma fuel cx va len prot ino off m = Bug ∨
     ∃ p, obj_alloc vmas_cache (mm_objs m) = Ret (NULL, p) ∧ setup_vma fuel cx va len prot ino off m = Ret (-1, set_objs p m)).
Proof. intros. split; intros; [by apply wp_elim, wp_setup_vma|eapply setup_vma_overlap; eassumption]. Qed.

(** A context made by [mem_ctx_clone] has no areas, whatever the
    original has: [do_clone_vma] copies every area but never stores a copy
    through its second argument, so every lookup in the clone gives NULL. *)
Theorem mem_ctx_clone_empty m cx new m' fuel :
  mem_ctx_clone fuel cx m = Ret (new, m') → new ≠ NULL →
  ∀ va, lookup_vma 1 new va m' = Ret (NULL, m').
Proof.
  rewrite /mem_ctx_clone /bind /zoom. destruct (obj_alloc memctx_cache (mm_objs m)) as [[n p]| | | |]; [|done..].
  destruct (n =? NULL); [by intros [= <- _]|].
  rewrite /ld_ctx /bind /=. destruct (mm_ctxs m !! cx) as [c|]; [simpl|done].
  destruct (clone_ctx (mc_pgd c) (mm_env m)) as [[[pgd|] e]| | | |]; [|simpl|done..].
  2:{ destruct (obj_free memctx_cache n p) as [[? ?]| | | |]; [by intros [= <- _]|done..]. }
  simpl. destruct (do_clone_vma fuel _ _) as [[[] m1]| | | |] eqn:E1; [| |done..]; simpl.
  - apply do_clone_vma_ctxs in E1. simpl in E1. rewrite /st_ctx /ld_ctx /bind /= E1 lookup_insert_eq /=.
    intros [= <- <-] _ va. by rewrite /lookup_vma /ld_ctx /bind /= lookup_insert_eq.
  - destruct (do_free_vma fuel _ _) as [[? ?]| | | |]; [simpl|done..].
    destruct (obj_free memctx_cache n _) as [[? ?]| | | |]; [by intros [= <- _]|done..].
Qed.
End vma.

(** ** A concrete context *)

(** An environment that counts references to inodes, and whose page tables always succeed. *)
#[export] Instance demo_mmu : MmuOps (gmap Z Z) := {|
  iref i := λ e, match e !! i with Some c => Ret (i, <[i := u32 (c + 1)]> e) | None => Fault end;
  readpage _ _ := ret None;
  map_page_to_ctx _ _ _ _ := ret 0;
  clone_ctx p := ret (Some p);
  setup_new_ctx := ret (Some 7);
  destroy_ctx _ := ret tt
|}.

Definition demo_mm0 (l : opool) : @mm opool (gmap Z Z) :=
  mk_mm ∅ ∅ {[ 64 := mk_mem_ctx NULL 7 1 ]} l {[ 0x900 := 1 ]} (mk_buddy ∅ {[ 1 := [] ]} 1 0 ∅) NULL.
(** Two areas, set up by the code itself. *)
Definition demo_mm : @mm opool (gmap Z Z) :=
  match (do! setup_vma 8 64 0x8000 0x1800 PROT_READ 0x900 0x2000 then
         setup_vma 8 64 0x2100 0x100 PROT_WRITE NULL 0) (demo_mm0 [0x100; 0x200; 0x300; 0x400; 0x500; 0x600]) with
  | Ret (_, m) => m
  | _ => demo_mm0 []
  end.
Definition demo_areas : tree := Node true (Node false Leaf 0x200 Leaf) 0x100 Leaf.
Definition demo_ctx : mem_ctx := mk_mem_ctx 0x100 7 1.

Lemma demo_areas_ok : areas demo_mm 64 demo_ctx demo_areas.
Proof.
  split.
  - vm_compute. reflexivity.
  - apply repb_rep. vm_compute. reflexivity.
  - split; [done|]. exists 1%nat. repeat constructor.
  - split.
    + repeat constructor; (eexists; split; [vm_compute; reflexivity|simpl; lia]).
    + repeat constructor. do 2 eexists. split; [vm_compute; reflexivity|]. split; [vm_compute; reflexivity|]. simpl. lia.
Qed.

Lemma demo_live : objs_live (mm_objs demo_mm) {[ 0x100; 0x200 ]}.
Proof.
  split_and!.
  - decide_closed.
  - intros v Hv. split; [|revert v Hv; apply Forall_forall; decide_closed].
    assert (Forall obj_ok (mm_objs demo_mm)) as HF by (repeat constructor). exact (proj1 (Forall_forall _ _) HF v Hv).
  - intros v Hv. apply elem_of_union in Hv as [->%elem_of_singleton| ->%elem_of_singleton]; by vm_compute.
Qed.

Lemma lookup_vma_witness : lookup_vma 8 64 0x2400 demo_mm = Ret (0x200, demo_mm).
Proof.
  destruct (lookup_vma_correct demo_mm 64 demo_ctx demo_areas 0x2400 8 demo_areas_ok ltac:(simpl; lia))
    as (r & Er & _ & _ & H).
  rewrite Er. rewrite (H 0x200 (mk_vma 0x2000 0x3000 PROT_WRITE 0 NULL)); [| | | |done].
  - decide_closed.
  - vm_compute. reflexivity.
  - simpl. lia.
  - intros b y Hb Hy. simpl in Hb. repeat (apply elem_of_cons in Hb as [->|Hb]; [vm_compute in Hy; injection Hy as <-; done|]).
    by apply not_elem_of_nil in Hb.
Defined.

(** The address just after an area is answered with that area. *)
Lemma lookup_vma_end : lookup_vma 8 64 0x3000 demo_mm = Ret (0x200, demo_mm).
Proof. vm_compute. reflexivity. Qed.

(** A range between the areas is added; one inside the first stops the kernel. *)
Lemma setup_vma_witness :
  (∃ r m', setup_vma 8 64 0x5004 0x10 PROT_READ 0x900 0x1004 demo_mm = Ret (r, m') ∧
    setup_post demo_mm 64 demo_ctx demo_areas {[ 0x100; 0x200 ]} 0x5004 0x10 PROT_READ 0x900 0x1004 r m') ∧
  setup_vma 8 64 0x9000 0x10 PROT_READ NULL 0 demo_mm = Bug.
Proof.
  split.
  - apply (setup_vma_correct demo_mm 64 demo_ctx demo_areas {[ 0x100; 0x200 ]} 0x5004 0x10 PROT_READ 0x900 0x1004 8);
      [exact demo_areas_ok|exact demo_live|apply Forall_forall; decide_closed|simpl; lia|lia|lia|lia|right; by vm_compute|].
    intros a Ha. simpl in Ha.
    repeat (apply elem_of_cons in Ha as [->|Ha]; [eexists; split; [vm_compute; reflexivity|vm_compute; by (left + right)]|]).
    by apply not_elem_of_nil in Ha.
  - destruct (setup_vma_correct demo_mm 64 demo_ctx demo_areas {[ 0x100; 0x200 ]} 0x9000 0x10 PROT_READ NULL 0 8) as [_ H];
      [exact demo_areas_ok|exact demo_live|apply Forall_forall; decide_closed|simpl; lia|lia|lia|lia|by left|].
    destruct H as [H|(p & H & _)]; [|exact H|vm_compute in H; discriminate H].
    exists 0x100, (mk_vma 0x8000 0xa000 PROT_READ 0x2000 0x900). split; [decide_closed|]. by vm_compute.
Defined.

(** The original answers 0x8123 with its area; its clone has none. *)
Lemma mem_ctx_clone_witness : lookup_vma 8 64 0x8123 demo_mm = Ret (0x100, demo_mm) ∧
  ∃ m', mem_ctx_clone 8 64 demo_mm = Ret (0x300, m') ∧ lookup_vma 1 0x300 0x8123 m' = Ret (NULL, m').
Proof.
  split; [vm_compute; reflexivity|].
  destruct (mem_ctx_clone 8 64 demo_mm) as [[n m']| | | |] eqn:Ec.
  - assert (n = 0x300) as ->.
    { assert (match mem_ctx_clone 8 64 demo_mm with Ret (n, _) => n | _ => 0 end = 0x300) as Hc by (vm_compute; reflexivity).
      rewrite Ec in Hc. exact Hc. }
    exists m'. split; [reflexivity|].
    apply (mem_ctx_clone_empty demo_mm 64 0x300 m' 8 Ec). discriminate.
  - vm_compute in Ec. discriminate Ec.
  - vm_compute in Ec. discriminate Ec.
  - vm_compute in Ec. discriminate Ec.
  - vm_compute in Ec. discriminate Ec.
Defined.
