(* ===== verification/VmaFree.v ===== *)
(** * Memory areas: what is freed, and what is left alone

    The release of a whole context, its copy, and the fact that the areas of one context
    do not depend on those of another. *)
From S2P Require Import Prelude PageAlloc ObjAlloc Kmem Buddy.
From S2P Require Import Rbtree RbtreeRep RbtreeInsert RbtreeErase RbtreeWalk Vma VmaProps.

Lemma agree_same h h' p t : (∀ a, a ∈ inorder t → h' !! a = h !! a) → agree h p t → agree h' p t.
Proof.
  revert p. induction t as [|c l IHl a r IHr]; intros p Hs; [done|]. simpl in *. intros (H1 & H2 & H3).
  split_and!.
  - rewrite Hs //. set_solver.
  - apply IHl; [|done]. intros b Hb. apply Hs. set_solver.
  - apply IHr; [|done]. intros b Hb. apply Hs. set_solver.
Qed.

Section free.
Context {P E : Type} `{!ObjOps P, !ObjSpec P, !MmuOps E}.
Implicit Types (m : @mm P E) (t : tree).

(** The areas of a context depend on their own nodes only. *)
Lemma areas_frame m m' cx c t :
  mm_ctxs m' !! cx = mm_ctxs m !! cx →
  (∀ a, a ∈ inorder t → mm_nodes m' !! a = mm_nodes m !! a ∧ mm_vmas m' !! a = mm_vmas m !! a) →
  areas m cx c t → areas m' cx c t.
Proof.
  intros Hc Hs [H1 [R1 R2 R3 R4 R5] H3 [H4 H5]]. split; [by rewrite Hc| |done|].
  - split; try done. simpl. eapply agree_same; [|exact R2]. intros a Ha. by apply Hs.
  - split.
    + rewrite Forall_forall in H4. apply Forall_forall. intros a Ha. destruct (H4 a Ha) as (x & Hx & Hxx).
      exists x. by rewrite (proj2 (Hs a Ha)).
    + clear -H5 Hs. induction H5 as [|a l H5 IH Hf]; [constructor|]. constructor.
      * apply IH. intros b Hb. apply Hs. set_solver.
      * rewrite Forall_forall in Hf. apply Forall_forall. intros b Hb. destruct (Hf b Hb) as (x & y & Hx & Hy & Hlt).
        exists x, y. rewrite !(proj2 (Hs _ _)); set_solver.
Qed.

(** The state after the areas of [t] are freed. *)
Definition freed m t (A : gset Z) m' : Prop :=
  objs_live (mm_objs m') (A ∖ list_to_set (inorder t)) ∧
  mm_ctxs m' = mm_ctxs m ∧ mm_env m' = mm_env m ∧ mm_bd m' = mm_bd m ∧
  (∀ a, a ∈ inorder t → mm_nodes m' !! a = None ∧ mm_vmas m' !! a = None) ∧
  (∀ a, a ∉ inorder t → mm_nodes m' !! a = mm_nodes m !! a ∧ mm_vmas m' !! a = mm_vmas m !! a).

Lemma wp_do_free_vma fuel m t p A :
  agree (mm_nodes m) p t → (∀ a, (cnt a t ≤ 1)%nat) → (∀ a, (0 < cnt a t)%nat → good_ptr a) →
  objs_live (mm_objs m) A → (∀ a, a ∈ inorder t → a ∈ A) → (height t < fuel)%nat →
  wp (do_free_vma fuel (ptr t)) (λ _ m', freed m t A m') m.
Proof.
  revert m t p A. induction fuel as [|fuel IH]; intros m t p A Hag Hu Hg Ho HA Hf; [lia|].
  destruct t as [|c l a r]; cbn [do_free_vma ptr].
  { apply wp_ret. split; [simpl; by rewrite difference_empty_L|]. do 3 (split; [done|]). split; [|done].
    intros a Ha%not_elem_of_nil. done. }
  simpl in Hag, Hf, HA. destruct Hag as (Ha & Hl & Hr).
  destruct (Hg a) as [_ Hn]; [simpl; rewrite decide_True //; lia|].
  assert (∀ b, b ∈ inorder l → b ∉ inorder r ∧ b ≠ a) as Hdl.
  { intros b Hb%cnt_elem_of. specialize (Hu b). simpl in Hu. split; [intros Hbr%cnt_elem_of; lia|intros ->; rewrite decide_True // in Hu; lia]. }
  assert (a ∉ inorder r) as Har.
  { intros Hb%cnt_elem_of. specialize (Hu a). simpl in Hu. rewrite decide_True // in Hu. lia. }
  assert (∀ b, (cnt b l ≤ 1)%nat ∧ (cnt b r ≤ 1)%nat) as Hu' by (intros b; specialize (Hu b); simpl in Hu; lia).
  rewrite (proj2 (Z.eqb_neq _ _) Hn). apply wp_bind. eapply wp_ld_rb; [exact Ha|]. apply wp_bind. simpl.
  eapply wp_mono.
  { eapply (IH m l a A); [exact Hl|apply Hu'|intros b Hb; apply Hg; simpl; lia|exact Ho| |lia]. intros b Hb. apply HA. set_solver. }
  intros [] m1 (Ho1 & Ec1 & Ee1 & Eb1 & Hd1 & Hk1). apply wp_bind. eapply wp_mono.
  { eapply (IH m1 r a); [|apply Hu'|intros b Hb; apply Hg; simpl; lia|exact Ho1| |lia].
    - eapply agree_same; [|exact Hr]. intros b Hb. apply Hk1. intros Hbl. by destruct (Hdl b Hbl).
    - intros b Hb. apply elem_of_difference. split; [apply HA; set_solver|]. rewrite elem_of_list_to_set.
      intros Hbl. by destruct (Hdl b Hbl). }
  intros [] m2 (Ho2 & Ec2 & Ee2 & Eb2 & Hd2 & Hk2). apply wp_bind, wp_modify. apply wp_zoom. simpl.
  eapply wp_mono; [eapply (objs_free _ _ vmas_cache a Ho2)|].
  { apply elem_of_difference. split; [|rewrite elem_of_list_to_set; done]. apply elem_of_difference.
    split; [apply HA; set_solver|]. rewrite elem_of_list_to_set. intros Hal. by destruct (Hdl a Hal). }
  intros [] q Hq. split; [|split; [|split; [|split; [|split]]]]; simpl.
  - replace (A ∖ list_to_set (inorder l ++ a :: inorder r)) with (A ∖ list_to_set (inorder l) ∖ list_to_set (inorder r) ∖ {[ a ]}); [done|].
    rewrite list_to_set_app_L list_to_set_cons. clear. set_solver.
  - congruence.
  - congruence.
  - congruence.
  - intros b Hb. destruct (decide (b = a)) as [->|Hba]; [by rewrite !lookup_delete_eq|].
    rewrite !lookup_delete_ne; [congruence..|]. destruct (decide (b ∈ inorder r)) as [Hbr|Hbr]; [by apply Hd2|].
    assert (b ∈ inorder l) as Hbl by set_solver. destruct (Hk2 b Hbr) as [-> ->]. by apply Hd1.
  - intros b Hb. rewrite !lookup_delete_ne; [set_solver..|].
    destruct (Hk2 b) as [-> ->]; [set_solver|]. apply Hk1. set_solver.
Qed.
(** ** Contexts *)

(** What the memory manager needs of the page tables and the inodes: of a
    state with the inodes [I] in memory and the directories [D] in use. *)
Class MmuSpec := {
  env_ok : E → gset Z → gset Z → Prop;
  env_iref e I D i : env_ok e I D → i ∈ I → wp (iref i) (λ r e', r = i ∧ env_ok e' I D) e;
  env_new e I D : env_ok e I D →
    wp setup_new_ctx (λ r e', match r with
      | None => env_ok e' I D
      | Some d => d ∉ D ∧ env_ok e' I ({[ d ]} ∪ D)
      end) e;
  env_destroy e I D d : env_ok e I D → d ∈ D → wp (destroy_ctx d) (λ _ e', env_ok e' I (D ∖ {[ d ]})) e
}.
Context {spec : MmuSpec}.

(** The context [cx] and its areas, all of them live objects. *)
Record ctx_live m (cx : Z) (c : mem_ctx) t (A D : gset Z) : Prop := {
  cl_areas : areas m cx c t;
  cl_ctx : cx ∈ A;
  cl_objs a : a ∈ inorder t → a ∈ A ∧ a ≠ cx;
  cl_pgd : mc_pgd c ∈ D
}.

(** Everything but the context [cx] and its areas is as in [m]. *)
Definition others_same m m' (cx : Z) t : Prop :=
  (∀ d, d ≠ cx → mm_ctxs m' !! d = mm_ctxs m !! d) ∧
  (∀ a, a ∉ inorder t → mm_nodes m' !! a = mm_nodes m !! a ∧ mm_vmas m' !! a = mm_vmas m !! a).

Definition ctx_gone m (cx : Z) (c : mem_ctx) t (A I D : gset Z) m' : Prop :=
  objs_live (mm_objs m') (A ∖ list_to_set (inorder t) ∖ {[ cx ]}) ∧
  env_ok (mm_env m') I (D ∖ {[ mc_pgd c ]}) ∧ mm_ctxs m' !! cx = None ∧ others_same m m' cx t.

Lemma wp_mem_ctx_free fuel m cx c t A I D :
  ctx_live m cx c t A D → objs_live (mm_objs m) A → env_ok (mm_env m) I D → (height t < fuel)%nat →
  wp (mem_ctx_free fuel cx) (λ _ m', ctx_gone m cx c t A I D m') m.
Proof.
  intros [[Hc Hr Hrb Hs] Hcx Hobj Hd] Ho He Hf. apply wp_bind. eapply wp_ld_ctx; [exact Hc|].
  pose proof (rep_root _ _ _ Hr) as Hroot. simpl in Hroot. rewrite Hroot. apply wp_bind. eapply wp_mono.
  { apply (wp_do_free_vma fuel m t NULL A); [exact (rep_agree _ _ _ Hr)|exact (rep_uniq _ _ _ Hr)|exact (rep_good _ _ _ Hr)|done| |done].
    intros a Ha. by apply Hobj. }
  intros [] m1 (Ho1 & Ec & Ee & Eb & Hgone & Hkeep). apply wp_bind, wp_zoom. rewrite Ee.
  eapply wp_mono; [by apply (env_destroy _ I D)|]. intros [] e' He'. apply wp_bind, wp_modify, wp_zoom. simpl.
  eapply wp_mono; [eapply (objs_free _ _ memctx_cache cx Ho1)|].
  { apply elem_of_difference. split; [done|]. rewrite elem_of_list_to_set. intros Hin. by destruct (Hobj cx Hin). }
  intros [] q Hq. split; [done|]. split; [done|]. split; [apply lookup_delete_eq|]. split; simpl.
  - intros d Hdc. rewrite lookup_delete_ne; [congruence|]. by rewrite Ec.
  - exact Hkeep.
Qed.

(** [mem_ctx_put] drops a reference; the last one frees the context. *)
Definition put_post m (cx : Z) (c : mem_ctx) t (A I D : gset Z) m' : Prop :=
  if mc_count c =? 1 then ctx_gone m cx c t A I D m'
  else m' = upd_ctxs (insert cx (set_ctx_count (mc_count c - 1) c)) m.

Lemma wp_mem_ctx_put fuel m cx c t A I D :
  ctx_live m cx c t A D → objs_live (mm_objs m) A → env_ok (mm_env m) I D → (height t < fuel)%nat →
  0 < mc_count c < 2 ^ 32 →
  wp (mem_ctx_put fuel cx) (λ _ m', put_post m cx c t A I D m') m.
Proof.
  intros Hl Ho He Hf Hcnt. pose proof (ar_ctx _ _ _ _ (cl_areas _ _ _ _ _ _ Hl)) as Hc.
  apply wp_bind. eapply wp_ld_ctx; [exact Hc|]. apply wp_bind, wp_bug_on; [by apply Z.eqb_neq; lia|].
  apply wp_bind, wp_bind. eapply wp_ld_ctx; [exact Hc|]. apply wp_modify. rewrite u32_id; [lia|]. rewrite /put_post.
  destruct (Z.eqb_spec (mc_count c) 1) as [H1|H1].
  - rewrite H1. set (c1 := set_ctx_count (1 - 1) c). set (m1 := upd_ctxs _ m).
    assert (ctx_live m1 cx c1 t A D) as Hl1.
    { destruct Hl as [[_ Hr Hrb Hs] H2 H3 H4]. split; [|done..]. split; [apply lookup_insert_eq|done..]. }
    eapply wp_mono; [exact (wp_mem_ctx_free fuel m1 cx c1 t A I D Hl1 Ho He Hf)|].
    intros [] m' (Hg1 & Hg2 & Hg3 & Hg4 & Hg5). split; [done|]. split; [done|]. split; [done|]. split; [|done].
    intros d Hd. rewrite (Hg4 d Hd). apply lookup_insert_ne. congruence.
  - rewrite (proj2 (Z.eqb_neq (mc_count c - 1) 0)); [lia|]. by apply wp_ret.
Qed.
(** ** Copies of contexts *)

(** What is asked of the page tables besides: a copy of a directory in use is
    another directory. *)
Class CloneSpec := {
  env_clone e I D d : env_ok e I D → d ∈ D →
    wp (clone_ctx d) (λ r e', match r with
      | None => env_ok e' I D
      | Some d' => d' ∉ D ∧ env_ok e' I ({[ d' ]} ∪ D)
      end) e
}.
Context {cspec : CloneSpec}.

(** The areas [t] are areas with no file or a file in memory. *)
Definition files_in m t (I : gset Z) : Prop :=
  ∀ a, a ∈ inorder t → ∃ x, mm_vmas m !! a = Some x ∧ (vma_ino x = NULL ∨ vma_ino x ∈ I).

(** The contexts, the pages and the live objects [A] are as they were; there
    may be more objects. *)
Definition objs_kept m (A I D : gset Z) m' : Prop :=
  mm_ctxs m' = mm_ctxs m ∧ mm_bd m' = mm_bd m ∧ kthread_ctx m' = kthread_ctx m ∧
  (∀ a, a ∈ A → mm_nodes m' !! a = mm_nodes m !! a ∧ mm_vmas m' !! a = mm_vmas m !! a) ∧
  env_ok (mm_env m') I D ∧ ∃ A', A ⊆ A' ∧ objs_live (mm_objs m') A'.

Lemma objs_kept_trans m1 m2 m3 A I D :
  objs_kept m1 A I D m2 → (∃ B, A ⊆ B ∧ objs_kept m2 B I D m3) → objs_kept m1 A I D m3.
Proof.
  intros (H1 & H2 & H2' & H3 & H4 & _) (B & HB & K1 & K2 & K2' & K3 & K4 & A' & K5 & K6).
  split_and!; [congruence..| |done|].
  - intros a Ha. destruct (K3 a (HB a Ha)) as [-> ->]. by apply H3.
  - exists A'. split; [set_solver|done].
Qed.

Lemma objs_kept_live m A I D m' : objs_kept m A I D m' → ∃ A', A ⊆ A' ∧ objs_live (mm_objs m') A'.
Proof. intros (_ & _ & _ & _ & _ & H). exact H. Qed.

(** One area is copied. *)
Lemma wp_clone_area m a x A I D (Q : bool → mm → Prop) (k : M (@mm P E) bool) :
  objs_live (mm_objs m) A → env_ok (mm_env m) I D → a ∈ A → mm_vmas m !! a = Some x → (vma_ino x = NULL ∨ vma_ino x ∈ I) →
  (∀ m', objs_kept m A I D m' → Q false m') → (∀ m', objs_kept m A I D m' → wp k Q m') →
  wp (let! new := zoom mm_objs set_objs (obj_alloc vmas_cache) in
      if new =? NULL then ret false else
      let! v := ld_vma a in
      do! modify (λ m, upd_vmas (insert new v) (set_nodes (<[new := mk_rb_node 0 0 0]> (mm_nodes m)) m)) then
      do! when (ctrue (vma_ino v))
        (let! i := zoom mm_env set_env (iref (vma_ino v)) in
         modify (upd_vmas (insert new (mk_vma (vma_begin v) (vma_end v) (vma_prot v) (vma_off v) i)))) then k) Q m.
Proof.
  intros Ho He Ha Hx Hi HF HT. apply wp_bind, wp_zoom. eapply wp_mono; [exact (objs_alloc _ _ vmas_cache Ho)|].
  intros new p [[-> Hp]|(Hn & _ & HnA & Hp)].
  { apply wp_ret, HF. split_and!; try done. by exists A. }
  rewrite (proj2 (Z.eqb_neq new NULL)); [unfold NULL; lia|]. apply wp_bind. eapply wp_ld_vma; [exact Hx|].
  apply wp_bind, wp_modify.
  assert (∀ e' vs, (∀ b, b ≠ new → vs !! b = mm_vmas m !! b) → env_ok e' I D →
    objs_kept m A I D (mk_mm (<[new := mk_rb_node 0 0 0]> (mm_nodes m)) vs (mm_ctxs m) p e' (mm_bd m) (kthread_ctx m))) as Hk.
  { intros e' vs Hvs He'. do 3 (split; [done|]). split; [|split; [exact He'|exists ({[ new ]} ∪ A); split; [set_solver|exact Hp]]].
    intros b Hb. cbn. assert (b ≠ new) by (intros ->; done). rewrite lookup_insert_ne; [congruence|]. split; [done|by apply Hvs]. }
  destruct (ctrue (vma_ino x)) eqn:Ei; cbn [when].
  - assert (vma_ino x ∈ I) as Hin. { destruct Hi as [E0|]; [|done]. by rewrite E0 in Ei. }
    apply wp_bind, wp_bind, wp_zoom. eapply wp_mono; [exact (env_iref _ _ _ _ He Hin)|]. intros i e' [_ He'].
    apply wp_modify, HT, Hk; [|done]. intros b Hb. by rewrite !lookup_insert_ne; [congruence..|].
  - apply wp_bind, wp_ret, HT, Hk; [|done]. intros b Hb. by rewrite lookup_insert_ne; [congruence|].
Qed.

Lemma wp_do_clone_vma fuel m t p A I D :
  agree (mm_nodes m) p t → (∀ a, (0 < cnt a t)%nat → good_ptr a) → files_in m t I → (∀ a, a ∈ inorder t → a ∈ A) →
  objs_live (mm_objs m) A → env_ok (mm_env m) I D → (height t < fuel)%nat →
  wp (do_clone_vma fuel (ptr t)) (λ _ m', objs_kept m A I D m') m.
Proof.
  revert m t p A. induction fuel as [|fuel IH]; intros m t p A Hag Hg Hfi HA Ho He Hf; [lia|].
  destruct t as [|c l a r]; cbn [do_clone_vma ptr].
  { apply wp_ret. split_and!; try done. by exists A. }
  simpl in Hag, Hf, HA. destruct Hag as (Ha & Hl & Hr).
  destruct (Hg a) as [_ Hn]; [simpl; rewrite decide_True //; lia|]. rewrite (proj2 (Z.eqb_neq _ _) Hn).
  destruct (Hfi a) as (x & Hx & Hi); [simpl; set_solver|].
  eapply (wp_clone_area m a x A I D); [done|done|apply HA; set_solver|done|done|done|].
  intros m1 K1. pose proof K1 as (_ & _ & _ & Hs1 & He1 & A1 & HA1 & Ho1).
  assert (∀ b, b ∈ A → mm_nodes m1 !! b = mm_nodes m !! b) as Hn1 by (intros b Hb; by apply Hs1).
  apply wp_bind. eapply wp_ld_rb; [rewrite Hn1; [apply HA; set_solver|exact Ha]|]. apply wp_bind. simpl.
  assert (∀ m' k, objs_kept m A I D m' → (∀ b, b ∈ inorder k → b ∈ inorder (Node c l a r)) → files_in m' k I) as Hfk.
  { intros m' k (_ & _ & _ & Hs & _) Hk b Hb. destruct (Hfi b) as (y & Hy & Hyi); [by apply Hk|].
    exists y. destruct (Hs b) as [_ ->]; [apply HA, Hk, Hb|done]. }
  eapply wp_mono.
  { apply (IH m1 l a A1); [|intros b Hb; apply Hg; simpl; lia| | |done|done|lia].
    - eapply agree_same; [|exact Hl]. intros b Hb. apply Hn1, HA. set_solver.
    - apply (Hfk m1); [done|]. simpl. set_solver.
    - intros b Hb. apply HA1, HA. set_solver. }
  intros ok m2 K2. assert (objs_kept m A I D m2) as K2' by (eapply objs_kept_trans; [exact K1|by exists A1]).
  destruct ok; cbn [negb]; [|by apply wp_ret].
  pose proof K2' as (_ & _ & _ & Hs2 & He2 & A2 & HA2 & Ho2). eapply wp_mono.
  { apply (IH m2 r a A2); [|intros b Hb; apply Hg; simpl; lia| | |done|done|lia].
    - eapply agree_same; [|exact Hr]. intros b Hb. apply Hs2, HA. set_solver.
    - apply (Hfk m2); [done|]. simpl. set_solver.
    - intros b Hb. apply HA2, HA. set_solver. }
  intros ok m3 K3. eapply objs_kept_trans; [exact K2'|by exists A2].
Qed.

(** What [mem_ctx_clone] leaves: NULL and the contexts as they were, or a new
    context on a copy of the directory, and the original and its areas as they
    were. *)
Definition clone_post m (c : mem_ctx) (A I D : gset Z) (r : Z) m' : Prop :=
  mm_bd m' = mm_bd m ∧
  ((r = NULL ∧ mm_ctxs m' = mm_ctxs m ∧ ∃ D', env_ok (mm_env m') I D') ∨
   (r ≠ NULL ∧ r ∉ A ∧ ∃ d e, clone_ctx (mc_pgd c) (mm_env m) = Ret (Some d, e) ∧ d ∉ D ∧
      mm_ctxs m' = <[r := mk_mem_ctx NULL d 1]> (mm_ctxs m) ∧
      (∀ a, a ∈ A → mm_nodes m' !! a = mm_nodes m !! a ∧ mm_vmas m' !! a = mm_vmas m !! a) ∧
      env_ok (mm_env m') I ({[ d ]} ∪ D) ∧ ∃ A', {[ r ]} ∪ A ⊆ A' ∧ objs_live (mm_objs m') A')).

Lemma wp_mem_ctx_clone fuel m cx c t A I D :
  ctx_live m cx c t A D → files_in m t I → (∀ d, is_Some (mm_ctxs m !! d) → d ∈ A) →
  objs_live (mm_objs m) A → env_ok (mm_env m) I D → (height t < fuel)%nat →
  wp (mem_ctx_clone fuel cx) (λ r m', clone_post m c A I D r m') m.
Proof.
  intros [[Hc Hr Hrb Hs] Hcx Hobj Hd] Hfi Hcs Ho He Hf. apply wp_bind, wp_zoom.
  eapply wp_mono; [exact (objs_alloc _ _ memctx_cache Ho)|].
  intros new p [[-> Hp]|(Hn & _ & HnA & Hp)].
  { apply wp_ret. split; [done|]. left. split_and!; try done. by exists D. }
  assert (new ≠ NULL) as Hn0 by (unfold NULL; lia). rewrite (proj2 (Z.eqb_neq new NULL) Hn0).
  apply wp_bind. eapply wp_ld_ctx; [exact Hc|].
  destruct (wp_elim _ _ _ (env_clone _ _ _ _ He Hd)) as (o & e & Ee & Hoe).
  apply wp_bind, wp_zoom. cbn [mm_env set_objs]. rewrite {1}/wp Ee. destruct o as [d|].
  2:{ apply wp_bind, wp_zoom. eapply wp_mono; [apply (objs_free _ _ memctx_cache new Hp); set_solver|].
      intros [] q Hq. apply wp_ret. split; [done|]. left. split_and!; try done. by exists D. }
  destruct Hoe as [Hd' He']. apply wp_bind, wp_modify. apply wp_bind.
  pose proof (rep_root _ _ _ Hr) as Hroot. simpl in Hroot. rewrite Hroot.
  set (m1 := upd_ctxs _ _).
  assert (∀ a, a ∈ inorder t → a ∈ {[ new ]} ∪ A) as HtA. { intros a Ha. apply elem_of_union_r. by apply Hobj. }
  eapply wp_mono.
  { apply (wp_do_clone_vma fuel m1 t NULL ({[ new ]} ∪ A) I ({[ d ]} ∪ D));
      [exact (rep_agree _ _ _ Hr)|exact (rep_good _ _ _ Hr)|exact Hfi|exact HtA|exact Hp|exact He'|done]. }
  intros ok m2 (Ec & Eb & _ & Hk & He2 & A' & HA' & Ho2). destruct ok; cbn [negb].
  - apply wp_bind, wp_bind. eapply wp_ld_ctx; [rewrite Ec; apply lookup_insert_eq|]. apply wp_modify, wp_ret.
    split; [exact Eb|]. right. split; [done|]. split; [done|]. exists d, e. split; [done|]. split; [done|].
    cbn. rewrite Ec insert_insert_eq. split; [done|]. split; [|split; [done|by exists A']].
    intros a Ha. apply (Hk a). set_solver.
  - apply wp_bind. eapply wp_mono.
    { apply (wp_do_free_vma fuel m2 t NULL A'); [|exact (rep_uniq _ _ _ Hr)|exact (rep_good _ _ _ Hr)|done| |done].
      - eapply agree_same; [|exact (rep_agree _ _ _ Hr)]. intros a Ha. apply (Hk a), HtA, Ha.
      - intros a Ha. by apply HA', HtA. }
    intros [] m3 (Ho3 & Ec3 & Ee3 & Eb3 & _). apply wp_bind, wp_modify. apply wp_bind, wp_zoom. cbn [mm_objs upd_ctxs].
    eapply wp_mono; [eapply (objs_free _ _ memctx_cache new Ho3)|].
    { apply elem_of_difference. split; [apply HA'; set_solver|]. rewrite elem_of_list_to_set. intros Hin.
      by apply HnA, (Hobj new Hin). }
    intros [] q Hq. apply wp_ret. split; [cbn; rewrite Eb3; exact Eb|]. left. split; [done|].
    cbn. rewrite Ec3 Ec /= delete_insert_id; [|split; [done|]].
    + apply eq_None_not_Some. intros Hsome. by apply HnA, Hcs.
    + exists ({[ d ]} ∪ D). by rewrite Ee3.
Qed.
End free.
Arguments MmuSpec E {_}.
Arguments CloneSpec E {_ _}.
