(* ===== verification/Ctype.v ===== *)
(** * Character classes ([kernel/ctype.c], [include/scaraOS/ctype.h])

    The table of the source and the macros that read it. *)
From S2P Require Import Prelude.

Definition _U : Z := 0x01.
Definition _L : Z := 0x02.
Definition _D : Z := 0x04.
Definition _C : Z := 0x08.
Definition _P : Z := 0x10.
Definition _S : Z := 0x20.
Definition _X : Z := 0x40.
Definition _SP : Z := 0x80.

Local Infix "|:" := Z.lor (at level 50, left associativity).

Definition _ctype : list Z :=
  [_C; _C; _C; _C; _C; _C; _C; _C;
   _C; _C |: _S; _C |: _S; _C |: _S; _C |: _S; _C |: _S; _C; _C;
   _C; _C; _C; _C; _C; _C; _C; _C;
   _C; _C; _C; _C; _C; _C; _C; _C;
   _S |: _SP; _P; _P; _P; _P; _P; _P; _P;
   _P; _P; _P; _P; _P; _P; _P; _P;
   _D; _D; _D; _D; _D; _D; _D; _D;
   _D; _D; _P; _P; _P; _P; _P; _P;
   _P; _U |: _X; _U |: _X; _U |: _X; _U |: _X; _U |: _X; _U |: _X; _U;
   _U; _U; _U; _U; _U; _U; _U; _U;
   _U; _U; _U; _U; _U; _U; _U; _U;
   _U; _U; _U; _P; _P; _P; _P; _P;
   _P; _L |: _X; _L |: _X; _L |: _X; _L |: _X; _L |: _X; _L |: _X; _L;
   _L; _L; _L; _L; _L; _L; _L; _L;
   _L; _L; _L; _L; _L; _L; _L; _L;
   _L; _L; _L; _P; _P; _P; _P; _C;
   0; 0; 0; 0; 0; 0; 0; 0; 0; 0; 0; 0; 0; 0; 0; 0;
   0; 0; 0; 0; 0; 0; 0; 0; 0; 0; 0; 0; 0; 0; 0; 0;
   _S |: _SP; _P; _P; _P; _P; _P; _P; _P; _P; _P; _P; _P; _P; _P; _P; _P;
   _P; _P; _P; _P; _P; _P; _P; _P; _P; _P; _P; _P; _P; _P; _P; _P;
   _U; _U; _U; _U; _U; _U; _U; _U; _U; _U; _U; _U; _U; _U; _U; _U;
   _U; _U; _U; _U; _U; _U; _U; _P; _U; _U; _U; _U; _U; _U; _U; _L;
   _L; _L; _L; _L; _L; _L; _L; _L; _L; _L; _L; _L; _L; _L; _L; _L;
   _L; _L; _L; _L; _L; _L; _L; _P; _L; _L; _L; _L; _L; _L; _L; _L].

(** The index is converted to [unsigned char]. *)
Definition __ismask (x : Z) : Z := default 0 (_ctype !! Z.to_nat (u8 x)).
Definition has (mask c : Z) : bool := ctrue (Z.land (__ismask c) mask).

Definition isalnum (c : Z) : bool := has (_U |: _L |: _D) c.
Definition isalpha (c : Z) : bool := has (_U |: _L) c.
Definition iscntrl (c : Z) : bool := has _C c.
Definition isdigit (c : Z) : bool := has _D c.
Definition isgraph (c : Z) : bool := has (_P |: _U |: _L |: _D) c.
Definition islower (c : Z) : bool := has _L c.
Definition isprint (c : Z) : bool := has (_P |: _U |: _L |: _D |: _SP) c.
Definition ispunct (c : Z) : bool := has _P c.
Definition isspace (c : Z) : bool := has _S c.
Definition isupper (c : Z) : bool := has _U c.
Definition isxdigit (c : Z) : bool := has (_D |: _X) c.
Definition isascii (c : Z) : bool := u8 c <=? 0x7f.
Definition toascii (c : Z) : Z := Z.land (u8 c) 0x7f.

Definition __tolower (c : Z) : Z := if isupper c then u8 (c - (65 - 97)) else c.
Definition __toupper (c : Z) : Z := if islower c then u8 (c - (97 - 65)) else c.

(** ** The classes *)

(** A property of all 256 characters, by evaluation. *)
Definition all_chars (p : Z → bool) : bool := forallb p (seqZ 0 256).

Lemma all_chars_spec p : all_chars p = true → ∀ c, 0 ≤ c < 256 → p c = true.
Proof.
  intros H c Hc. rewrite /all_chars forallb_forall in H. apply H.
  apply list_elem_of_In, elem_of_seqZ. lia.
Qed.

(** The ASCII range tests the classes stand for. *)
Definition between (a b c : Z) : bool := (a <=? c) && (c <=? b).

Lemma isdigit_range c : 0 ≤ c < 256 → isdigit c = between 48 57 c.
Proof.
  intros H. apply eqb_prop. revert c H. apply all_chars_spec. vm_compute. reflexivity.
Qed.

(** Equality of two boolean functions on all characters, by evaluation. *)
Ltac by_chars c H := apply eqb_prop; revert c H; apply all_chars_spec; vm_compute; reflexivity.

(** The character table classifies every byte as ASCII does: digits,
    hexadecimal digits and control characters; on the first 128 characters
    letters and white space.  The derived classes are the unions of the basic
    ones, no character is both upper and lower case, and the two case
    conversions exchange upper and lower case ASCII letters and invert each
    other there. *)
Theorem ctype_table_correct c : 0 ≤ c < 256 →
  isdigit c = between 48 57 c ∧
  isxdigit c = (between 48 57 c || between 65 70 c || between 97 102 c) ∧
  iscntrl c = (between 0 31 c || (c =? 127)) ∧
  isupper c && (c <? 128) = between 65 90 c ∧
  islower c && (c <? 128) = between 97 122 c ∧
  isspace c && (c <? 128) = (between 9 13 c || (c =? 32)) ∧
  isalpha c = (isupper c || islower c) ∧ isalnum c = (isalpha c || isdigit c) ∧
  isgraph c = (ispunct c || isalnum c) ∧ isupper c && islower c = false ∧
  (between 65 90 c = true → islower (__tolower c) = true ∧ __toupper (__tolower c) = c) ∧
  (between 97 122 c = true → isupper (__toupper c) = true ∧ __tolower (__toupper c) = c).
Proof.
  intros H. split_and!; try (by_chars c H).
  - intros Hu. assert (implb (between 65 90 c) (islower (__tolower c) && (__toupper (__tolower c) =? c)) = true) as E
      by (clear Hu; by_chars c H).
    rewrite Hu /= in E. apply andb_true_iff in E as [E1 E2%Z.eqb_eq]. done.
  - intros Hu. assert (implb (between 97 122 c) (isupper (__toupper c) && (__tolower (__toupper c) =? c)) = true) as E
      by (clear Hu; by_chars c H).
    rewrite Hu /= in E. apply andb_true_iff in E as [E1 E2%Z.eqb_eq]. done.
Qed.

Lemma ctype_table_witness : isupper 65 && (65 <? 128) = between 65 90 65.
Proof. apply ctype_table_correct. lia. Defined.
