(* ===== verification/Vsprintf.v ===== *)
(** * Formatted output ([kernel/vsprintf.c], [include/arch-ia32/div64.h])

    The formatter writes through [str], a 32-bit pointer that runs on past the
    end of the buffer, storing only while it is at most [end].  The variable
    arguments are the words of the caller's stack. *)
From S2P Require Import Prelude Kmem Ctype.

Definition ZEROPAD : Z := 1.
Definition SIGN : Z := 2.
Definition PLUS : Z := 4.
Definition SPACE : Z := 8.
Definition LEFT : Z := 16.
Definition SPECIAL : Z := 32.
Definition LARGE : Z := 64.

(** [type & flag]. *)
Definition flag (type f : Z) : bool := ctrue (Z.land type f).

(** Memory and the words of the [va_list] not read yet. *)
Record vs := mk_vs { vs_mem : mem; vs_args : list Z }.
Definition set_vs_mem (v : mem) (s : vs) : vs := mk_vs v (vs_args s).
Definition set_vs_args (v : list Z) (s : vs) : vs := mk_vs (vs_mem s) v.

Abbreviation V := (M vs).

Definition on_mem {A} (m : Mem A) : V A := zoom vs_mem set_vs_mem m.

(** [va_arg] of a type of one word; of [long long], two words. *)
Definition va_arg : V Z :=
  let! s := get in
  match vs_args s with [] => fault | a :: l => do! modify (set_vs_args l) then ret a end.
Definition va_arg64 : V Z :=
  let! lo := va_arg in let! hi := va_arg in ret (lo + 2 ^ 32 * hi).

(** [do_div]: a 64-bit number divided by a 32-bit base with two 32-bit
    divisions, the second of a 64-bit dividend ([divl]).  The quotient, which replaces [n], and the remainder. *)
Definition do_div (n base : Z) : Z * Z :=
  let low := n mod 2 ^ 32 in
  let high := n / 2 ^ 32 in
  let upper := if ctrue high then high mod base else high in
  let high := if ctrue high then high / base else high in
  (2 ^ 32 * high + (2 ^ 32 * upper + low) / base, (2 ^ 32 * upper + low) mod base).

(** [digits[d]], for [small_digits] and [large_digits]. *)
Definition digit (large : bool) (d : Z) : Z :=
  if d <? 10 then 48 + d else (if large then 65 else 97) + (d - 10).

(** [if (str <= end) *str = c; ++str;] *)
Definition put (str end_ c : Z) : V Z :=
  do! when (str <=? end_) (on_mem (st8 str c)) then ret (u32 (str + 1)).
Fixpoint put_n (n : nat) (str end_ c : Z) : V Z :=
  match n with
  | O => ret str
  | S n => let! str := put str end_ c in put_n n str end_ c
  end.
Fixpoint put_all (l : list Z) (str end_ : Z) : V Z :=
  match l with
  | [] => ret str
  | c :: l => let! str := put str end_ c in put_all l str end_
  end.

(** [while (size-- > 0) put(c);]: the final [size] and [str]. *)
Definition pad (size str end_ c : Z) : V (Z * Z) :=
  let! str := put_n (Z.to_nat size) str end_ c in
  ret (if 0 <? size then -1 else size - 1, str).

(** [while (num != 0) tmp[i++] = digits[do_div(num,base)];] on [tmp[66]]. *)
Fixpoint number_digits (fuel : nat) (large : bool) (num base : Z) (tmp : list Z) : V (list Z) :=
  match fuel with
  | O => nofuel
  | S fuel =>
    if num =? 0 then ret tmp else
    if (66 <=? length tmp)%nat then fault else
    let x := do_div num base in
    number_digits fuel large (fst x) base (tmp ++ [digit large (snd x)])
  end.

(** The sign character, the magnitude and the width that is left. *)
Definition number_sign (num size type : Z) : Z * Z * Z :=
  if flag type SIGN then
    if num <? 0 then (45, s64 (- num), size - 1)
    else if flag type PLUS then (43, num, size - 1)
    else if flag type SPACE then (32, num, size - 1)
    else (0, num, size)
  else (0, num, size).

(** [number] from the comparison of [i] and [precision] on. *)
Definition number_out (buf end_ sign : Z) (tmp : list Z) (base size precision type c : Z) (large : bool) : V Z :=
  let i := Z.of_nat (length tmp) in
  let precision := if precision <? i then i else precision in
  let size := size - precision in
  let! x := (if negb (flag type (ZEROPAD + LEFT)) then pad size buf end_ 32 else ret (size, buf)) in
  let size := fst x in
  let! buf := (if negb (sign =? 0) then put (snd x) end_ sign else ret (snd x)) in
  let! buf := (if flag type SPECIAL then
      if base =? 8 then put buf end_ 48
      else if base =? 16 then let! buf := put buf end_ 48 in put buf end_ (digit large 33)
      else ret buf
    else ret buf) in
  let! x := (if negb (flag type LEFT) then pad size buf end_ c else ret (size, buf)) in
  let size := fst x in
  let! buf := put_n (Z.to_nat (precision - i)) (snd x) end_ 48 in
  let! buf := put_all (rev tmp) buf end_ in
  let! x := pad size buf end_ 32 in
  ret (snd x).

Definition number (buf end_ num base size precision type : Z) : V Z :=
  let large := flag type LARGE in
  let type := if flag type LEFT then Z.land type (Z.lnot ZEROPAD) else type in
  if (base <? 2) || (36 <? base) then ret NULL else
  let c := if flag type ZEROPAD then 48 else 32 in
  let x := number_sign num size type in
  let num := snd (fst x) in
  let size := (if flag type SPECIAL then
      if base =? 16 then snd x - 2 else if base =? 8 then snd x - 1 else snd x
    else snd x) in
  let! tmp := (if num =? 0 then ret [48] else number_digits 65 large (u64 num) base []) in
  number_out buf end_ (fst (fst x)) tmp base size precision type c large.

(** A character of the format. *)
Definition ldf (fmt : Z) : V Z := on_mem (ldc fmt).

Fixpoint skip_atoi (fuel : nat) (s i : Z) : V (Z * Z) :=
  match fuel with
  | O => nofuel
  | S fuel =>
    let! c := ldf s in
    if isdigit c then skip_atoi fuel (s + 1) (s32 (i * 10 + c - 48)) else ret (i, s)
  end.

(** The label [repeat]. *)
Fixpoint get_flags (fuel : nat) (fmt flags : Z) : V (Z * Z) :=
  match fuel with
  | O => nofuel
  | S fuel =>
    let fmt := fmt + 1 in
    let! c := ldf fmt in
    if c =? 45 then get_flags fuel fmt (Z.lor flags LEFT)
    else if c =? 43 then get_flags fuel fmt (Z.lor flags PLUS)
    else if c =? 32 then get_flags fuel fmt (Z.lor flags SPACE)
    else if c =? 35 then get_flags fuel fmt (Z.lor flags SPECIAL)
    else if c =? 48 then get_flags fuel fmt (Z.lor flags ZEROPAD)
    else ret (flags, fmt)
  end.

(** The field width: its value, the flags, the format. *)
Definition get_width (fuel : nat) (fmt flags : Z) : V (Z * Z * Z) :=
  let! c := ldf fmt in
  if isdigit c then let! x := skip_atoi fuel fmt 0 in ret (fst x, flags, snd x)
  else if c =? 42 then
    let! w := va_arg in
    let w := s32 w in
    if w <? 0 then ret (s32 (- w), Z.lor flags LEFT, fmt + 1) else ret (w, flags, fmt + 1)
  else ret (-1, flags, fmt).

Definition get_precision (fuel : nat) (fmt : Z) : V (Z * Z) :=
  let! c := ldf fmt in
  if c =? 46 then
    let fmt := fmt + 1 in
    let! c := ldf fmt in
    let! x := (if isdigit c then skip_atoi fuel fmt 0
               else if c =? 42 then let! p := va_arg in ret (s32 p, fmt + 1)
               else ret (-1, fmt)) in
    ret (if fst x <? 0 then 0 else fst x, snd x)
  else ret (-1, fmt).

Definition get_qualifier (fmt : Z) : V (Z * Z) :=
  let! c := ldf fmt in
  if (c =? 104) || (c =? 108) || (c =? 76) || (c =? 90) then
    let fmt := fmt + 1 in
    let! c' := ldf fmt in
    if (c =? 108) && (c' =? 108) then ret (76, fmt + 1) else ret (c, fmt)
  else ret (-1, fmt).

(** [case 'c'] *)
Definition conv_char (str end_ width flags : Z) : V Z :=
  let! x := (if negb (flag flags LEFT) then pad (width - 1) str end_ 32 else ret (width, str)) in
  let! c := va_arg in
  let! str := put (snd x) end_ (u8 c) in
  let! x := pad (if negb (flag flags LEFT) then fst x else width - 1) str end_ 32 in
  ret (snd x).

(** The characters of [s] are read one by one. *)
Fixpoint put_str (n : nat) (s str end_ : Z) : V Z :=
  match n with
  | O => ret str
  | S n => let! c := ldf s in let! str := put str end_ c in put_str n (s + 1) str end_
  end.

Section vsnprintf.
(** The address of the literal for a null string. *)
Context (null_str : Z).

(** [case 's'] *)
Definition conv_str (fuel : nat) (str end_ width precision flags : Z) : V Z :=
  let! s := va_arg in
  let s := if s =? NULL then null_str else s in
  let! len := on_mem (strnlen fuel s (u32 precision)) in
  let len := s32 len in
  let! x := (if negb (flag flags LEFT) then pad (width - len) str end_ 32 else ret (width - len, str)) in
  let! str := put_str (Z.to_nat len) s (snd x) end_ in
  let! x := pad (fst x) str end_ 32 in
  ret (snd x).

(** [case 'p'] *)
Definition conv_ptr (str end_ width precision flags : Z) : V Z :=
  let! str := (if str <? end_ then do! on_mem (st8 str 48) then ret (u32 (str + 1)) else ret str) in
  let! str := (if str <? end_ then do! on_mem (st8 str 120) then ret (u32 (str + 1)) else ret str) in
  let! p := va_arg in
  if width =? -1 then number str end_ p 16 8 precision (Z.lor flags ZEROPAD)
  else number str end_ p 16 width precision flags.

(** The argument of an integer conversion, converted to [long long]. *)
Definition int_arg (qualifier flags : Z) : V Z :=
  if qualifier =? 76 then let! n := va_arg64 in ret (s64 n)
  else if qualifier =? 108 then let! n := va_arg in ret (if flag flags SIGN then s32 n else n)
  else if qualifier =? 90 then va_arg
  else if qualifier =? 104 then let! n := va_arg in ret (if flag flags SIGN then s16 n else u16 n)
  else let! n := va_arg in ret (if flag flags SIGN then s32 n else n).

(** One directive, from the percent sign on: the last character read of the
    format, the new [str]. *)
Definition directive (fuel : nat) (fmt str buf end_ : Z) : V (Z * Z) :=
  let! x := get_flags fuel fmt 0 in
  let! x := get_width fuel (snd x) (fst x) in
  let width := fst (fst x) in
  let flags := snd (fst x) in
  let! x := get_precision fuel (snd x) in
  let precision := fst x in
  let! x := get_qualifier (snd x) in
  let qualifier := fst x in
  let fmt := snd x in
  let! c := ldf fmt in
  let int base flags := (let! n := int_arg qualifier flags in
                         let! str := number str end_ n base width precision flags in
                         ret (fmt, str)) in
  if c =? 99 then let! str := conv_char str end_ width flags in ret (fmt, str)
  else if c =? 115 then let! str := conv_str fuel str end_ width precision flags in ret (fmt, str)
  else if c =? 112 then let! str := conv_ptr str end_ width precision flags in ret (fmt, str)
  else if c =? 110 then
    let! ip := va_arg in
    do! on_mem (st32 ip (u32 (str - buf))) then ret (fmt, str)
  else if c =? 37 then let! str := put str end_ 37 in ret (fmt, str)
  else if c =? 111 then int 8 flags
  else if c =? 88 then int 16 (Z.lor flags LARGE)
  else if c =? 120 then int 16 flags
  else if (c =? 100) || (c =? 105) then int 10 (Z.lor flags SIGN)
  else if c =? 117 then int 10 flags
  else
    let! str := put str end_ 37 in
    if ctrue c then let! str := put str end_ c in ret (fmt, str)
    else ret (fmt - 1, str).

Fixpoint vs_loop (fuel : nat) (fmt str buf end_ : Z) : V Z :=
  match fuel with
  | O => nofuel
  | S fuel =>
    let! c := ldf fmt in
    if c =? 0 then ret str
    else if negb (c =? 37) then
      let! str := put str end_ c in vs_loop fuel (fmt + 1) str buf end_
    else
      let! x := directive fuel fmt str buf end_ in
      vs_loop fuel (fst x + 1) (snd x) buf end_
  end.

Definition vsnprintf (fuel : nat) (buf size fmt : Z) : V Z :=
  let e := u32 (buf + size - 1) in
  let wraps := e <? u32 (buf - 1) in
  let end_ := if wraps then 2 ^ 32 - 1 else e in
  let size := if wraps then u32 (end_ - buf + 1) else size in
  let! str := vs_loop fuel fmt buf buf end_ in
  do! (if str <=? end_ then on_mem (st8 str 0) else when (0 <? size) (on_mem (st8 end_ 0))) then
  ret (s32 (str - buf)).

(** [va_start], the call, [va_end]. *)
Definition snprintf (fuel : nat) (buf size fmt : Z) : V Z := vsnprintf fuel buf size fmt.
Definition vsprintf (fuel : nat) (buf fmt : Z) : V Z := vsnprintf fuel buf 0xFFFFFFFF fmt.
End vsnprintf.
