(* ===== verification/VsprintfProps.v ===== *)
(** * Formatted output: what is written, and where

    [num_text] and [render] say what text a directive and a whole format stand
    for, on sequences of characters.  The formatter is shown to write a prefix
    of that text, terminated, inside the buffer, and to return its full
    length. *)
From S2P Require Import Prelude Kmem Ctype Vsprintf.

(** ** The text of a number *)

Definition spaces (n : Z) : list Z := replicate (Z.to_nat n) 32.
Definition zeros (n : Z) : list Z := replicate (Z.to_nat n) 48.
Definition sign_text (num type : Z) : list Z :=
  if flag type SIGN then
    if num <? 0 then [45] else if flag type PLUS then [43] else if flag type SPACE then [32] else []
  else [].
Definition prefix_text (base type : Z) : list Z :=
  if flag type SPECIAL then
    if base =? 8 then [48] else if base =? 16 then [48; digit (flag type LARGE) 33] else []
  else [].
(** The digits of the magnitude, most significant first. *)
Definition magnitude (num type : Z) : Z := if flag type SIGN then Z.abs num else u64 num.
Definition digits_text (num base type : Z) : list Z :=
  digit (flag type LARGE) <$> rev (digits 64 (magnitude num type) base).

Definition len (l : list Z) : Z := Z.of_nat (length l).

(** Sign, prefix and at least [precision] digits, in a field of [size]
    characters: filled with spaces before, with zeros after the prefix, or
    with spaces after. *)
Definition num_text (num base size precision type : Z) : list Z :=
  let ds := digits_text num base type in
  let body := zeros (precision - len ds) ++ ds in
  let head := sign_text num type ++ prefix_text base type in
  let fill := size - len head - len body in
  if flag type LEFT then head ++ body ++ spaces fill
  else if flag type ZEROPAD then head ++ zeros fill ++ body
  else spaces fill ++ head ++ body.

(** ** The text of a format

    Formats are sequences of bytes, arguments sequences of words; [strs] gives
    the strings of memory. *)
Fixpoint take_flags (f : list Z) (flags : Z) : Z * list Z :=
  match f with
  | [] => (flags, [])
  | c :: f' =>
    if c =? 45 then take_flags f' (Z.lor flags LEFT)
    else if c =? 43 then take_flags f' (Z.lor flags PLUS)
    else if c =? 32 then take_flags f' (Z.lor flags SPACE)
    else if c =? 35 then take_flags f' (Z.lor flags SPECIAL)
    else if c =? 48 then take_flags f' (Z.lor flags ZEROPAD)
    else (flags, f)
  end.
Fixpoint take_num (f : list Z) (i : Z) : Z * list Z :=
  match f with
  | [] => (i, [])
  | c :: f' => if isdigit c then take_num f' (s32 (i * 10 + c - 48)) else (i, f)
  end.
Definition take_arg (args : list Z) : option (Z * list Z) :=
  match args with [] => None | a :: args => Some (a, args) end.

Record spec_state := mk_spec { sp_fmt : list Z; sp_args : list Z }.

(** Width, flags. *)
Definition take_width (f args : list Z) (flags : Z) : option (Z * Z * spec_state) :=
  match f with
  | [] => Some (-1, flags, mk_spec [] args)
  | c :: f' =>
    if isdigit c then Some (fst (take_num f 0), flags, mk_spec (snd (take_num f 0)) args)
    else if c =? 42 then
      x ← take_arg args;
      Some (if s32 (fst x) <? 0 then (s32 (- s32 (fst x)), Z.lor flags LEFT, mk_spec f' (snd x))
            else (s32 (fst x), flags, mk_spec f' (snd x)))
    else Some (-1, flags, mk_spec f args)
  end.
Definition take_precision (f args : list Z) : option (Z * spec_state) :=
  match f with
  | c :: f' =>
    if c =? 46 then
      match f' with
      | d :: f'' =>
        if isdigit d then Some (Z.max 0 (fst (take_num f' 0)), mk_spec (snd (take_num f' 0)) args)
        else if d =? 42 then x ← take_arg args; Some (Z.max 0 (s32 (fst x)), mk_spec f'' (snd x))
        else Some (0, mk_spec f' args)
      | [] => Some (0, mk_spec [] args)
      end
    else Some (-1, mk_spec f args)
  | [] => Some (-1, mk_spec [] args)
  end.
Definition take_qualifier (f : list Z) : Z * list Z :=
  match f with
  | c :: f' =>
    if (c =? 104) || (c =? 108) || (c =? 76) || (c =? 90) then
      match f' with
      | d :: f'' => if (c =? 108) && (d =? 108) then (76, f'') else (c, f')
      | [] => (c, [])
      end
    else (-1, f)
  | [] => (-1, [])
  end.

(** A text in a field. *)
Definition justify (flags width : Z) (l : list Z) : list Z :=
  if flag flags LEFT then l ++ spaces (width - len l) else spaces (width - len l) ++ l.

Definition take_int (qualifier flags : Z) (args : list Z) : option (Z * list Z) :=
  x ← take_arg args;
  if qualifier =? 76 then
    y ← take_arg (snd x); Some (s64 (fst x + 2 ^ 32 * fst y), snd y)
  else if (qualifier =? 90) then Some x
  else if (qualifier =? 104) then Some (if flag flags SIGN then s16 (fst x) else u16 (fst x), snd x)
  else Some (if flag flags SIGN then s32 (fst x) else fst x, snd x).

Section render.
(** [prefix out] is what [%p] puts behind the output [out], before the digits. *)
Context (strs : Z → option (list Z)) (prefix : list Z → list Z).

Definition int_text (width precision qualifier base flags : Z) (args : list Z) : option (list Z * list Z) :=
  x ← take_int qualifier flags args; Some (num_text (fst x) base width precision flags, snd x).

(** One conversion, [out] being the output so far; [%n] is not described. *)
Definition convert (c width precision qualifier flags : Z) (args out : list Z) : option (list Z * list Z) :=
  if c =? 99 then x ← take_arg args; Some (justify flags width [u8 (fst x)], snd x)
  else if c =? 115 then
    x ← take_arg args;
    l ← strs (fst x);
    Some (justify flags width (take (Z.to_nat (Z.min (u32 precision) (len l))) l), snd x)
  else if c =? 112 then
    x ← take_arg args;
    Some (prefix out ++
          (if width =? -1 then num_text (fst x) 16 8 precision (Z.lor flags ZEROPAD)
           else num_text (fst x) 16 width precision flags), snd x)
  else if c =? 110 then None
  else if c =? 37 then Some ([37], args)
  else if c =? 111 then int_text width precision qualifier 8 flags args
  else if c =? 88 then int_text width precision qualifier 16 (Z.lor flags LARGE) args
  else if c =? 120 then int_text width precision qualifier 16 flags args
  else if (c =? 100) || (c =? 105) then int_text width precision qualifier 10 (Z.lor flags SIGN) args
  else if c =? 117 then int_text width precision qualifier 10 flags args
  else Some ([37; c], args).

(** What follows a percent sign: the text, the rest of the format and of the
    arguments. *)
Definition render_directive (f args out : list Z) : option (list Z * spec_state) :=
  let x := take_flags f 0 in
  y ← take_width (snd x) args (fst x);
  let width := fst (fst y) in
  let flags := snd (fst y) in
  z ← take_precision (sp_fmt (snd y)) (sp_args (snd y));
  let q := take_qualifier (sp_fmt (snd z)) in
  match snd q with
  | [] => Some ([37], mk_spec [] (sp_args (snd z)))
  | c :: f' =>
    r ← convert c width (fst z) (fst q) flags (sp_args (snd z)) out;
    Some (fst r, mk_spec f' (snd r))
  end.

Fixpoint render (fuel : nat) (f args out : list Z) : option (list Z) :=
  match fuel with
  | O => None
  | S fuel =>
    match f with
    | [] => Some out
    | c :: f' =>
      if negb (c =? 37) then render fuel f' args (out ++ [c])
      else
        r ← render_directive f' args out;
        render fuel (sp_fmt (snd r)) (sp_args (snd r)) (out ++ fst r)
    end
  end.
End render.

(** The prefix is "0x"; the code leaves away the part of it that does not fit
    into a buffer of [size] bytes. *)
Definition whole_prefix (out : list Z) : list Z := [48; 120].
Definition cut_prefix (size : Z) (out : list Z) : list Z := take (Z.to_nat (size - 1 - len out)) [48; 120].

(** ** Division and digits *)

Lemma do_div_correct n base :
  0 < base → do_div n base = (n / base, n mod base).
Proof.
  intros Hb. rewrite /do_div /ctrue. pose proof (Z.div_mod n (2 ^ 32) ltac:(lia)) as Hn.
  destruct (Z.eqb_spec (n / 2 ^ 32) 0) as [E|E]; cbn [negb].
  - rewrite E in Hn |- *. rewrite !Z.mul_0_r !Z.add_0_l in Hn |- *. by rewrite -Hn.
  - revert Hn. generalize (n / 2 ^ 32), (n mod 2 ^ 32). intros h l Hn.
    pose proof (Z.div_mod h base ltac:(lia)) as Hd.
    assert (n = (2 ^ 32 * (h / base)) * base + (2 ^ 32 * (h mod base) + l)) as -> by lia.
    rewrite Z.div_add_l; [lia|]. f_equal. by rewrite (Z.add_comm (2 ^ 32 * (h / base) * base)) Z_mod_plus_full.
Qed.

Lemma digits_S fuel n b :
  digits (S fuel) n b = n mod b :: (if n / b =? 0 then [] else digits fuel (n / b) b).
Proof. done. Qed.

Lemma number_digits_S fuel large num base tmp :
  number_digits (S fuel) large num base tmp =
    if num =? 0 then ret tmp else
    if (66 <=? length tmp)%nat then fault else
    number_digits fuel large (fst (do_div num base)) base (tmp ++ [digit large (snd (do_div num base))]).
Proof. done. Qed.

Lemma wp_number_digits fuel large num base tmp s :
  2 ≤ base → 0 < num < base ^ Z.of_nat fuel → (length tmp + fuel ≤ 66)%nat →
  wp (number_digits (S fuel) large num base tmp)
    (λ r s', s' = s ∧ r = tmp ++ (digit large <$> digits fuel num base)) s.
Proof.
  intros Hb. revert num tmp. induction fuel as [|fuel IH]; intros num tmp Hn Hl.
  { change (base ^ Z.of_nat 0) with 1 in Hn. lia. }
  rewrite number_digits_S (proj2 (Z.eqb_neq num 0)); [lia|].
  destruct (Nat.leb_spec 66 (length tmp)); [lia|].
  rewrite do_div_correct; [lia|]. cbn [fst snd].
  pose proof (digit_step fuel num base Hb ltac:(lia)) as Hq. rewrite digits_S.
  destruct (Z.eqb_spec (num / base) 0) as [E|E].
  - rewrite E number_digits_S. by apply wp_ret.
  - eapply wp_mono; [apply IH; [lia|rewrite length_app /=; lia]|].
    intros r s' [-> ->]. split; [done|]. rewrite fmap_cons -app_assoc. done.
Qed.

(** ** Emitting characters *)

Section emit.
Context (m0 : mem) (buf end_ : Z).
Hypothesis Hbuf : 0 ≤ buf.
Hypothesis Hown : ∀ a, buf ≤ a ≤ end_ → is_Some (m0 !! a).

(** What memory is after [out] has been emitted from [buf] on. *)
Definition emitted (out : list Z) (m : mem) : Prop :=
  ∀ a, m !! a = if decide (buf ≤ a ≤ end_ ∧ a < buf + len out)
                then out !! Z.to_nat (a - buf) else m0 !! a.
Definition ok (out args : list Z) (s : vs) : Prop := emitted out (vs_mem s) ∧ vs_args s = args.

(** [p], run with [str] at the end of what has been emitted, emits [l]. *)
Definition sends (p : Z → V Z) (l : list Z) : Prop := ∀ s out args,
  ok out args s → buf + len (out ++ l) < 2 ^ 32 →
  wp (p (buf + len out)) (λ str s', str = buf + len (out ++ l) ∧ ok (out ++ l) args s') s.

Lemma len_app l k : len (l ++ k) = len l + len k.
Proof. rewrite /len length_app. lia. Qed.
Lemma len_nonneg l : 0 ≤ len l.
Proof. rewrite /len. lia. Qed.

Lemma emitted_nil : emitted [] m0.
Proof. intros a. rewrite decide_False //. rewrite /len /=. lia. Qed.

Lemma emitted_put out m c :
  emitted out m → emitted (out ++ [c]) (if buf + len out <=? end_ then <[buf + len out := c]> m else m).
Proof.
  intros He a. pose proof (len_nonneg out) as Hl. rewrite len_app. change (len [c]) with 1.
  destruct (Z.leb_spec (buf + len out) end_) as [Hle|Hgt].
  - destruct (decide (a = buf + len out)) as [->|Hne].
    + rewrite lookup_insert_eq decide_True; [lia|].
      rewrite lookup_app_r; [rewrite /len; lia|].
      replace (Z.to_nat (buf + len out - buf) - length out)%nat with 0%nat by (rewrite /len; lia). done.
    + rewrite lookup_insert_ne; [congruence|]. rewrite He. repeat case_decide; try lia; [|done].
      rewrite lookup_app_l //. rewrite /len in H. lia.
  - rewrite He. repeat case_decide; try lia; [|done].
    rewrite lookup_app_l //. rewrite /len in H. lia.
Qed.

Lemma sends_put c : sends (λ str, put str end_ c) [u8 c].
Proof.
  intros s out args [He Ha] Hlen. pose proof (len_nonneg out). rewrite len_app in Hlen |- *.
  change (len [_]) with 1 in *. apply wp_bind.
  pose proof (emitted_put _ _ (u8 c) He) as He'.
  destruct (Z.leb_spec (buf + len out) end_) as [Hle|Hgt]; cbn [when].
  - apply wp_zoom, wp_st8.
    { rewrite He decide_False; [lia|]. apply Hown. lia. }
    apply wp_ret. split; [rewrite u32_id; lia|]. done.
  - apply wp_ret, wp_ret. split; [rewrite u32_id; lia|]. done.
Qed.

Lemma sends_nil : sends ret [].
Proof. intros s out args Hok Hl. apply wp_ret. rewrite app_nil_r. done. Qed.

Lemma sends_bind p q l k : sends p l → sends q k → sends (λ str, let! str := p str in q str) (l ++ k).
Proof.
  intros Hp Hq s out args Hok Hlen. rewrite app_assoc in Hlen |- *. apply wp_bind.
  eapply wp_mono; [apply Hp; [exact Hok|]|].
  - rewrite len_app in Hlen. pose proof (len_nonneg k). lia.
  - intros str s' [-> Hok']. by apply Hq.
Qed.

Lemma sends_ext p q l : (∀ str s, p str s = q str s) → sends p l → sends q l.
Proof. intros He Hp s out args Hok Hl. rewrite /wp -He. by apply Hp. Qed.

Lemma sends_put_n n c : sends (λ str, put_n n str end_ c) (replicate n (u8 c)).
Proof.
  induction n as [|n IH]; [apply sends_nil|]. apply (sends_bind (λ str, put str end_ c) (λ str, put_n n str end_ c) [u8 c]);
    [apply sends_put|exact IH].
Qed.
Lemma sends_put_all l : sends (λ str, put_all l str end_) (u8 <$> l).
Proof.
  induction l as [|c l IH]; [apply sends_nil|].
  apply (sends_bind (λ str, put str end_ c) (λ str, put_all l str end_) [u8 c]); [apply sends_put|exact IH].
Qed.

(** Steps that carry the remaining width along. *)
Definition sends2 (p : Z → V (Z * Z)) (l : list Z) (v : Z) : Prop := ∀ s out args,
  ok out args s → buf + len (out ++ l) < 2 ^ 32 →
  wp (p (buf + len out)) (λ x s', x = (v, buf + len (out ++ l)) ∧ ok (out ++ l) args s') s.

Lemma sends2_bind p (q : Z * Z → V Z) l v k :
  sends2 p l v → sends (λ str, q (v, str)) k → sends (λ str, let! x := p str in q x) (l ++ k).
Proof.
  intros Hp Hq s out args Hok Hlen. rewrite app_assoc in Hlen |- *. apply wp_bind.
  eapply wp_mono; [apply Hp; [exact Hok|]|].
  - rewrite len_app in Hlen. pose proof (len_nonneg k). lia.
  - intros x s' [-> Hok']. by apply Hq.
Qed.
Lemma sends2_ret v : sends2 (λ str, ret (v, str)) [] v.
Proof. intros s out args Hok Hl. apply wp_ret. rewrite app_nil_r. done. Qed.
Lemma sends2_pad size c :
  sends2 (λ str, pad size str end_ c) (replicate (Z.to_nat size) (u8 c)) (if 0 <? size then -1 else size - 1).
Proof.
  intros s out args Hok Hl. apply wp_bind. eapply wp_mono; [exact (sends_put_n _ _ _ _ _ Hok Hl)|].
  intros str s' [-> Hok']. apply wp_ret. done.
Qed.

(** A computation that only reads. *)
Lemma sends_pure {A} (m : V A) (a : A) (q : A → Z → V Z) l :
  (∀ s, wp m (λ r s', r = a ∧ s' = s) s) → sends (q a) l → sends (λ str, let! r := m in q r str) l.
Proof.
  intros Hm Hq s out args Hok Hl. apply wp_bind. eapply wp_mono; [apply Hm|].
  intros r s' [-> ->]. by apply Hq.
Qed.

(** ** Numbers *)

Lemma flag_or t f g : flag t (Z.lor f g) = flag t f || flag t g.
Proof.
  rewrite /flag /ctrue Z.land_lor_distr_r.
  destruct (Z.eqb_spec (Z.land t f) 0) as [->|Hf]; [by rewrite Z.lor_0_l|].
  rewrite (proj2 (Z.eqb_neq _ 0)) //. intros [? _]%Z.lor_eq_0_iff. done.
Qed.
Lemma flag_clear t f : Z.land (Z.lnot ZEROPAD) f = f → flag (Z.land t (Z.lnot ZEROPAD)) f = flag t f.
Proof. intros H. by rewrite /flag -Z.land_assoc H. Qed.

Lemma u8_digit large d : 0 ≤ d < 36 → u8 (digit large d) = digit large d.
Proof. intros H. apply Z.mod_small. rewrite /digit. destruct (Z.ltb_spec d 10), large; lia. Qed.

Lemma digits_text_bytes num base type : 2 ≤ base ≤ 36 →
  u8 <$> digits_text num base type = digits_text num base type.
Proof.
  intros Hb. rewrite /digits_text -list_fmap_compose. apply Forall_fmap_ext.
  pose proof (digits_range 64 (magnitude num type) base ltac:(lia)) as Hr.
  apply Forall_rev. eapply Forall_impl; [exact Hr|]. intros d Hd. apply u8_digit. simpl in Hd. lia.
Qed.

(** The digit loop, with the special case of zero. *)
Lemma number_digits_text large n base s :
  2 ≤ base ≤ 36 → 0 ≤ n < 2 ^ 64 →
  wp (if n =? 0 then ret [48] else number_digits 65 large n base [])
    (λ r s', r = digit large <$> digits 64 n base ∧ s' = s) s.
Proof.
  intros Hb Hn. destruct (Z.eqb_spec n 0) as [->|Hz].
  - apply wp_ret. rewrite digits_S Z.mod_0_l; [lia|]. by rewrite Z.div_0_l; [lia|].
  - eapply wp_mono; [apply (wp_number_digits 64); [lia| |simpl; lia]|].
    + split; [lia|]. eapply Z.lt_le_trans; [apply Hn|]. apply Z.pow_le_mono_l. lia.
    + intros r s' [-> ->]. done.
Qed.

(** The head and the body of a number. *)
Definition sign_list (sign : Z) : list Z := if sign =? 0 then [] else [u8 sign].
Definition body_text (tmp : list Z) (precision : Z) : list Z := zeros (precision - len tmp) ++ (u8 <$> rev tmp).
Definition field (type fill : Z) (head body : list Z) : list Z :=
  if flag type LEFT then head ++ body ++ spaces fill
  else if flag type ZEROPAD then head ++ zeros fill ++ body
  else spaces fill ++ head ++ body.

Lemma sends_sign sign :
  sends (λ str, if negb (sign =? 0) then put str end_ sign else ret str) (sign_list sign).
Proof. rewrite /sign_list. destruct (sign =? 0); [apply sends_nil|apply sends_put]. Qed.
Lemma sends_prefix base type :
  sends (λ buf, if flag type SPECIAL then
      if base =? 8 then put buf end_ 48
      else if base =? 16 then let! buf := put buf end_ 48 in put buf end_ (digit (flag type LARGE) 33)
      else ret buf
    else ret buf) (prefix_text base type).
Proof.
  rewrite /prefix_text. destruct (flag type SPECIAL); [|apply sends_nil].
  destruct (base =? 8); [apply (sends_put 48)|]. destruct (base =? 16); [|apply sends_nil].
  rewrite (_ : [48; digit (flag type LARGE) 33] = [48] ++ [u8 (digit (flag type LARGE) 33)]); [by rewrite u8_digit|].
  apply (sends_bind (λ b, put b end_ 48)); [apply (sends_put 48)|apply sends_put].
Qed.

Lemma zeros_max p i : 0 ≤ i → zeros ((if p <? i then i else p) - i) = zeros (p - i).
Proof.
  intros Hi. rewrite /zeros. f_equal. destruct (Z.ltb_spec p i); lia.
Qed.

(** The digits of a number, with the zeros before and the spaces after. *)
Lemma sends_body tmp precision size :
  sends (λ str, let! buf := put_n (Z.to_nat ((if precision <? len tmp then len tmp else precision) - len tmp)) str end_ 48 in
     let! buf := put_all (rev tmp) buf end_ in
     let! x := pad size buf end_ 32 in ret (snd x)) (body_text tmp precision ++ spaces size).
Proof.
  rewrite /body_text -(zeros_max precision (len tmp)); [apply len_nonneg|]. rewrite -app_assoc.
  apply sends_bind; [apply (sends_put_n _ 48)|]. apply (sends_bind (λ b, put_all (rev tmp) b end_)); [apply sends_put_all|].
  rewrite -(app_nil_r (spaces size)). eapply (sends2_bind (λ b, pad size b end_ 32)); [apply sends2_pad|].
  apply sends_nil.
Qed.

Lemma spaces_neg n : n ≤ 0 → spaces n = [].
Proof. intros H. rewrite /spaces Z2Nat.nonpos //. Qed.
Lemma spaces_after size : spaces (if 0 <? size then -1 else size - 1) = [].
Proof. destruct (Z.ltb_spec 0 size); apply spaces_neg; lia. Qed.

Lemma sends_number_out sign tmp base size precision type :
  sends (λ str, number_out str end_ sign tmp base size precision type
           (if flag type ZEROPAD then 48 else 32) (flag type LARGE))
    (field (if flag type LEFT then LEFT else type) (size - (if precision <? len tmp then len tmp else precision))
       (sign_list sign ++ prefix_text base type) (body_text tmp precision)).
Proof.
  rewrite /number_out. change (ZEROPAD + LEFT) with (Z.lor ZEROPAD LEFT). rewrite flag_or.
  change (Z.of_nat (length tmp)) with (len tmp). cbv zeta.
  pose proof (sends_body tmp precision) as Hb. revert Hb. generalize (body_text tmp precision). intros bt Hb.
  set (w := size - _). rewrite /field.
  destruct (flag type LEFT) eqn:El; cbn [negb orb].
  - rewrite orb_true_r. cbn [negb]. change (flag LEFT LEFT) with true. cbv iota. rewrite -!app_assoc.
    apply (sends2_bind (λ b, ret (w, b)) _ [] w); [apply sends2_ret|]. cbn [fst snd].
    apply (sends_bind (λ str, if negb (sign =? 0) then put str end_ sign else ret str)); [apply sends_sign|].
    apply sends_bind; [apply sends_prefix|].
    apply (sends2_bind (λ b, ret (w, b)) _ [] w); [apply sends2_ret|]. cbn [fst snd]. apply Hb.
  - rewrite El orb_false_r. destruct (flag type ZEROPAD) eqn:Ez; cbn [negb].
    + rewrite -!app_assoc.
      apply (sends2_bind (λ b, ret (w, b)) _ [] w); [apply sends2_ret|]. cbn [fst snd].
      apply (sends_bind (λ str, if negb (sign =? 0) then put str end_ sign else ret str)); [apply sends_sign|].
      apply sends_bind; [apply sends_prefix|].
      rewrite -(app_nil_r bt) -(spaces_after w).
      eapply (sends2_bind (λ b, pad w b end_ 48)); [apply (sends2_pad w 48)|]. cbn [fst snd]. apply Hb.
    + rewrite -!app_assoc.
      eapply (sends2_bind (λ b, pad w b end_ 32)); [apply (sends2_pad w 32)|]. cbn [fst snd].
      apply (sends_bind (λ str, if negb (sign =? 0) then put str end_ sign else ret str)); [apply sends_sign|].
      apply sends_bind; [apply sends_prefix|].
      set (v := if 0 <? w then -1 else w - 1).
      assert (bt = replicate (Z.to_nat v) (u8 32) ++ bt ++ spaces (if 0 <? v then -1 else v - 1)) as ->.
      { rewrite spaces_after app_nil_r. rewrite /v (_ : Z.to_nat _ = 0%nat) //. destruct (Z.ltb_spec 0 w); lia. }
      eapply (sends2_bind (λ b, pad v b end_ 32)); [apply (sends2_pad v 32)|]. cbn [fst snd]. apply Hb.
Qed.

(** The sign character, the magnitude, and what the sign takes of the width. *)
Lemma number_sign_text num size type :
  - 2 ^ 63 ≤ num < 2 ^ 63 →
  let x := number_sign num size type in
  sign_list (fst (fst x)) = sign_text num type ∧ u64 (snd (fst x)) = magnitude num type ∧
  (snd (fst x) = 0 ↔ magnitude num type = 0) ∧ snd x = size - len (sign_text num type).
Proof.
  intros Hn. rewrite /number_sign /sign_text /magnitude /len.
  assert (num ≠ 0 → u64 num ≠ 0) as Hz.
  { intros H E. apply Z.mod_divide in E as [k Hk]; lia. }
  assert (0 ≤ num → u64 num = num) as Hp by (intros; apply u64_id; lia).
  assert (num < 0 → u64 (s64 (- num)) = - num) as Hneg.
  { intros H. rewrite /u64 /s64 /sign (Z.mod_small (- num)); [lia|].
    destruct (_ <? _); [by apply Z.mod_small; lia|]. rewrite -(Z_mod_plus_full _ 1).
    replace (- num - 2 ^ 64 + 1 * 2 ^ 64) with (- num) by lia. apply Z.mod_small. lia. }
  assert (num < 0 → s64 (- num) ≠ 0) as Hs.
  { intros H E. specialize (Hneg H). rewrite E in Hneg. change (u64 0) with 0 in Hneg. lia. }
  destruct (flag type SIGN); cbn [fst snd]; [|split_and!; simpl; [done|done|split; [by intros ->|]; destruct (decide (num = 0)); tauto|lia]].
  destruct (Z.ltb_spec num 0) as [Hlt|Hge]; cbn [fst snd].
  - rewrite Z.abs_neq; [lia|]. split_and!; [done|by apply Hneg| |done]. specialize (Hs Hlt). lia.
  - rewrite Z.abs_eq //. destruct (flag type PLUS); cbn [fst snd]; [split_and!; [done|by apply Hp|done|done]|].
    destruct (flag type SPACE); cbn [fst snd]; split_and!; try done; try by apply Hp. simpl. lia.
Qed.

Lemma prefix_width base type size :
  (if flag type SPECIAL then if base =? 16 then size - 2 else if base =? 8 then size - 1 else size else size) =
  size - len (prefix_text base type).
Proof.
  rewrite /prefix_text /len. destruct (flag type SPECIAL); simpl; [|lia].
  destruct (Z.eqb_spec base 16) as [->|]; [done|]. destruct (base =? 8); simpl; lia.
Qed.

Lemma len_zeros n : len (zeros n) = Z.max 0 n.
Proof. rewrite /len /zeros length_replicate. lia. Qed.
Lemma len_map (f : Z → Z) l : len (f <$> l) = len l.
Proof. by rewrite /len length_fmap. Qed.
Lemma len_rev l : len (rev l) = len l.
Proof. by rewrite /len length_rev. Qed.

(** [number] without the clearing of [ZEROPAD]. *)
Lemma sends_number_core num base size precision type :
  2 ≤ base ≤ 36 → - 2 ^ 63 ≤ num < 2 ^ 63 →
  let x := number_sign num size type in
  sends (λ str, let! tmp := (if snd (fst x) =? 0 then ret [48]
                  else number_digits 65 (flag type LARGE) (u64 (snd (fst x))) base []) in
     number_out str end_ (fst (fst x)) tmp base (snd x - len (prefix_text base type)) precision type
       (if flag type ZEROPAD then 48 else 32) (flag type LARGE)) (num_text num base size precision type).
Proof.
  intros Hb Hn x. destruct (number_sign_text num size type Hn) as (Hsg & Hm & Hz & Hw). fold x in Hsg, Hm, Hz, Hw.
  eapply (sends_pure _ (digit (flag type LARGE) <$> digits 64 (magnitude num type) base)).
  { intros s. rewrite Hm. pose proof (number_digits_text (flag type LARGE) (magnitude num type) base s Hb) as Hd.
    destruct (Z.eqb_spec (snd (fst x)) 0) as [E|E], (Z.eqb_spec (magnitude num type) 0) as [E'|E']; try tauto;
      apply Hd; rewrite -Hm; apply Z.mod_pos_bound; lia. }
  set (tmp := _ <$> _).
  assert (u8 <$> rev tmp = digits_text num base type) as Htmp.
  { rewrite -(digits_text_bytes _ _ _ Hb) /digits_text /tmp. set (ds := digits 64 _ base).
    by rewrite (map_rev (digit (flag type LARGE)) ds : digit _ <$> rev ds = rev (digit _ <$> ds)). }
  assert (len tmp = len (digits_text num base type)) as Hlt by (by rewrite -Htmp len_map len_rev).
  assert (num_text num base size precision type =
    field (if flag type LEFT then LEFT else type)
      (snd x - len (prefix_text base type) - (if precision <? len tmp then len tmp else precision))
      (sign_list (fst (fst x)) ++ prefix_text base type) (body_text tmp precision)) as ->; [|apply sends_number_out].
  rewrite /num_text /field /body_text Htmp Hsg Hw Hlt !len_app len_zeros.
  set (d := len (digits_text num base type)).
  replace (size - (len (sign_text num type) + len (prefix_text base type)) - (Z.max 0 (precision - d) + d))
    with (size - len (sign_text num type) - len (prefix_text base type) - (if precision <? d then d else precision))
    by (destruct (Z.ltb_spec precision d); lia).
  destruct (flag type LEFT) eqn:El; [done|]. by rewrite El.
Qed.

Lemma sends_number num base size precision type :
  2 ≤ base ≤ 36 → - 2 ^ 63 ≤ num < 2 ^ 63 →
  sends (λ str, number str end_ num base size precision type) (num_text num base size precision type).
Proof.
  intros Hb Hn. rewrite /number.
  rewrite (proj2 (Z.ltb_ge base 2)); [lia|]. rewrite (proj2 (Z.ltb_ge 36 base)); [lia|]. cbn [orb].
  set (t := if flag type LEFT then _ else _).
  assert (∀ f, Z.land (Z.lnot ZEROPAD) f = f → flag t f = flag type f) as Hf.
  { intros f Hf. rewrite /t. destruct (flag type LEFT); [by apply flag_clear|done]. }
  assert (num_text num base size precision type = num_text num base size precision t) as ->.
  { rewrite /num_text /digits_text /magnitude /sign_text /prefix_text.
    rewrite !(Hf LEFT) // !(Hf SIGN) // !(Hf PLUS) // !(Hf SPACE) // !(Hf SPECIAL) // !(Hf LARGE) //. cbv zeta.
    by destruct (flag type LEFT). }
  rewrite -(Hf LARGE) //. cbv zeta. rewrite prefix_width. by apply sends_number_core.
Qed.

(** ** Reading the format *)

(** [l] is a string outside of the buffer. *)
Definition fixed (a : Z) (l : list Z) : Prop :=
  cstr m0 a l ∧ (a + len l < buf ∨ end_ < a).
Definition headc (f : list Z) : Z := match f with [] => 0 | c :: _ => s8 c end.

Lemma fixed_tail a c l : fixed a (c :: l) → fixed (a + 1) l.
Proof.
  intros [(_ & _ & H)%cstr_cons Hd]. split; [done|]. rewrite /len /= in Hd |- *. lia.
Qed.

Lemma emitted_at out m a : emitted out m → (a < buf ∨ end_ < a) → m !! a = m0 !! a.
Proof. intros He Ha. rewrite He decide_False //. lia. Qed.

Lemma fixed_cstr out args s a l : ok out args s → fixed a l → cstr (vs_mem s) a l.
Proof.
  intros [He _] [[Hb Hc] Hd]. split; [|done]. eapply bytes_cong; [|exact Hb].
  intros x Hx. rewrite length_app /= in Hx. apply (emitted_at _ _ _ He). rewrite /len in Hd. lia.
Qed.

Lemma wp_ldf out args s a l (Q : Z → vs → Prop) :
  ok out args s → fixed a l → Q (headc l) s → wp (ldf a) Q s.
Proof.
  intros Hok Hf HQ. pose proof (fixed_cstr _ _ _ _ _ Hok Hf) as Hc. apply wp_zoom.
  destruct l as [|c l].
  - apply cstr_nil in Hc. eapply wp_ldc; [exact Hc|]. by destruct s.
  - apply cstr_cons in Hc as (Hc & _). eapply wp_ldc; [exact Hc|]. by destruct s.
Qed.

(** Bytes and signed characters. *)
Lemma s8_eqb c k : 0 ≤ c < 256 → 0 ≤ k < 128 → (s8 c =? k) = (c =? k).
Proof.
  intros Hc Hk. rewrite /s8 /sign Z.mod_small; [lia|].
  destruct (Z.ltb_spec c (2 ^ (8 - 1))); [done|]. 
  destruct (Z.eqb_spec c k), (Z.eqb_spec (c - 2 ^ 8) k); lia.
Qed.
Lemma u8_s8 c : 0 ≤ c < 256 → u8 (s8 c) = c.
Proof.
  intros Hc. rewrite /s8 /sign Z.mod_small; [lia|]. destruct (_ <? _); [by apply Z.mod_small|].
  rewrite /u8 -(Z_mod_plus_full _ 1). replace (c - 2 ^ 8 + 1 * 2 ^ 8) with c by lia. by apply Z.mod_small.
Qed.
Lemma isdigit_s8 c : 0 ≤ c < 256 → isdigit (s8 c) = isdigit c.
Proof. intros H. rewrite /isdigit /has /__ismask u8_s8 //. rewrite /u8 Z.mod_small //. Qed.
Lemma isdigit_value c : 0 ≤ c < 256 → isdigit c = true → s8 c = c.
Proof.
  intros H. rewrite isdigit_range //. intros [H1 H2]%andb_true_iff. apply Z.leb_le in H1, H2.
  rewrite /s8 /sign Z.mod_small; [lia|]. destruct (Z.ltb_spec c (2 ^ (8 - 1))); lia.
Qed.
Lemma fixed_head a c l : fixed a (c :: l) → 0 < c < 256.
Proof. intros [(_ & H & _)%cstr_cons _]. done. Qed.

Lemma wp_skip_atoi fuel out args s a f i :
  ok out args s → fixed a f → (length f < fuel)%nat →
  wp (skip_atoi fuel a i) (λ x s', s' = s ∧ fst x = fst (take_num f i) ∧
    fixed (snd x) (snd (take_num f i))) s.
Proof.
  intros Hok. revert a f i. induction fuel as [|fuel IH]; intros a f i Hf Hl; [lia|].
  apply wp_bind. eapply wp_ldf; [exact Hok|exact Hf|]. destruct f as [|c f]; [by apply wp_ret|].
  pose proof (fixed_head _ _ _ Hf) as Hc. cbn [headc take_num]. rewrite isdigit_s8; [lia|].
  destruct (isdigit c) eqn:Ed; [|by apply wp_ret].
  rewrite (isdigit_value c); [lia|done|]. apply IH; [exact (fixed_tail _ _ _ Hf)|simpl in Hl; lia].
Qed.

Lemma wp_get_flags fuel out args s a f0 f flags :
  ok out args s → fixed a f0 → tl f0 = f → f0 ≠ [] → (length f < fuel)%nat →
  wp (get_flags fuel a flags) (λ x s', s' = s ∧ fst x = fst (take_flags f flags) ∧
    fixed (snd x) (snd (take_flags f flags))) s.
Proof.
  intros Hok. revert a f0 f flags. induction fuel as [|fuel IH]; intros a f0 f flags Hf <- Hne Hl; [lia|].
  destruct f0 as [|c0 f]; [done|]. simpl in Hl. apply fixed_tail in Hf. cbn [tl].
  cbn [get_flags]. cbv zeta. apply wp_bind. eapply wp_ldf; [exact Hok|exact Hf|].
  destruct f as [|c f]; [by apply wp_ret|].
  pose proof (fixed_head _ _ _ Hf) as Hc. cbn [headc take_flags]. rewrite !s8_eqb; [lia..|].
  repeat match goal with |- context [c =? ?k] =>
    destruct (c =? k); [eapply IH; [exact Hf|done|done|simpl in Hl; lia]|] end.
  by apply wp_ret.
Qed.

Lemma wp_va_arg out args s :
  ok out args s → ∀ x, take_arg args = Some x → wp va_arg (λ a s', a = fst x ∧ ok out (snd x) s') s.
Proof.
  intros [He Ha] x Hx. apply wp_bind. rewrite /wp /= Ha. destruct args as [|a args]; [done|].
  injection Hx as <-. done.
Qed.

Definition at_spec (out : list Z) (x : spec_state) (fmt : Z) (s : vs) : Prop :=
  ok out (sp_args x) s ∧ fixed fmt (sp_fmt x).

Lemma wp_get_width fuel out args s a f flags y :
  ok out args s → fixed a f → (length f < fuel)%nat → take_width f args flags = Some y →
  wp (get_width fuel a flags) (λ x s', fst x = fst y ∧ at_spec out (snd y) (snd x) s') s.
Proof.
  intros Hok Hf Hl Hy. apply wp_bind. eapply wp_ldf; [exact Hok|exact Hf|].
  destruct f as [|c f]; [injection Hy as <-; by apply wp_ret|].
  pose proof (fixed_head _ _ _ Hf) as Hc. cbn [headc]. rewrite isdigit_s8; [lia|]. rewrite s8_eqb; [lia|lia|].
  cbn [take_width] in Hy. destruct (isdigit c).
  - injection Hy as <-. apply wp_bind. eapply wp_mono; [exact (wp_skip_atoi _ _ _ _ _ _ 0 Hok Hf Hl)|].
    intros x s' (-> & Hx & Hx'). apply wp_ret. simpl. by rewrite Hx.
  - destruct (c =? 42); [|injection Hy as <-; by apply wp_ret].
    destruct (take_arg args) as [x|] eqn:Ex; [|done]. injection Hy as <-.
    apply wp_bind. eapply wp_mono; [exact (wp_va_arg _ _ _ Hok _ Ex)|]. intros w s' [-> Hok'].
    apply fixed_tail in Hf. cbv zeta. destruct (s32 (fst x) <? 0); by apply wp_ret.
Qed.

Lemma wp_get_precision fuel out args s a f y :
  ok out args s → fixed a f → (length f < fuel)%nat → take_precision f args = Some y →
  wp (get_precision fuel a) (λ x s', fst x = fst y ∧ at_spec out (snd y) (snd x) s') s.
Proof.
  intros Hok Hf Hl Hy. apply wp_bind. eapply wp_ldf; [exact Hok|exact Hf|].
  destruct f as [|c f]; [injection Hy as <-; by apply wp_ret|].
  pose proof (fixed_head _ _ _ Hf) as Hc. cbn [headc]. rewrite s8_eqb; [lia|lia|].
  cbn [take_precision] in Hy. destruct (c =? 46); [|injection Hy as <-; by apply wp_ret].
  apply fixed_tail in Hf. cbv zeta. apply wp_bind. eapply wp_ldf; [exact Hok|exact Hf|].
  assert (∀ n : Z, (if n <? 0 then 0 else n) = Z.max 0 n) as Hmax by (intros n; destruct (Z.ltb_spec n 0); lia).
  destruct f as [|d f].
  { injection Hy as <-. apply wp_bind, wp_ret. by apply wp_ret. }
  pose proof (fixed_head _ _ _ Hf) as Hd. cbn [headc]. rewrite isdigit_s8; [lia|]. rewrite s8_eqb; [lia|lia|].
  destruct (isdigit d).
  - injection Hy as <-. apply wp_bind. eapply wp_mono;
      [exact (wp_skip_atoi fuel _ _ _ _ _ 0 Hok Hf ltac:(simpl in Hl |- *; lia))|].
    intros x s' (-> & Hx & Hx'). apply wp_ret. cbn [fst snd]. by rewrite Hmax Hx.
  - destruct (d =? 42).
    + destruct (take_arg args) as [x|] eqn:Ex; [|done]. injection Hy as <-. apply wp_bind.
      apply wp_bind. eapply wp_mono; [exact (wp_va_arg _ _ _ Hok _ Ex)|]. intros p s' [-> Hok'].
      apply wp_ret, wp_ret. cbn [fst snd]. rewrite Hmax. split; [done|]. split; [done|]. exact (fixed_tail _ _ _ Hf).
    + injection Hy as <-. apply wp_bind, wp_ret. by apply wp_ret.
Qed.

Lemma wp_get_qualifier out args s a f :
  ok out args s → fixed a f →
  wp (get_qualifier a) (λ x s', s' = s ∧ fst x = fst (take_qualifier f) ∧
    fixed (snd x) (snd (take_qualifier f))) s.
Proof.
  intros Hok Hf. apply wp_bind. eapply wp_ldf; [exact Hok|exact Hf|].
  destruct f as [|c f]; [by apply wp_ret|].
  pose proof (fixed_head _ _ _ Hf) as Hc. cbn [headc take_qualifier]. rewrite !s8_eqb; [lia..|].
  destruct ((c =? 104) || (c =? 108) || (c =? 76) || (c =? 90)) eqn:Eq; [|by apply wp_ret].
  assert (s8 c = c) as Ec.
  { rewrite !orb_true_iff !Z.eqb_eq in Eq.
    rewrite /s8 /sign Z.mod_small; [lia|]. destruct (Z.ltb_spec c (2 ^ (8 - 1))); lia. }
  apply fixed_tail in Hf. cbv zeta. apply wp_bind. eapply wp_ldf; [exact Hok|exact Hf|].
  destruct f as [|d f]; cbn [headc].
  - change (0 =? 108) with false. rewrite andb_false_r Ec. by apply wp_ret.
  - pose proof (fixed_head _ _ _ Hf) as Hd. rewrite s8_eqb; [lia|lia|].
    destruct ((c =? 108) && (d =? 108)); [|rewrite Ec; by apply wp_ret].
    apply wp_ret. split; [done|]. split; [done|]. exact (fixed_tail _ _ _ Hf).
Qed.

(** ** The conversions *)

(** A step that emits [txt] and leaves [args']. *)
Definition done_with (out args' : list Z) (str : Z) (s : vs) : Prop :=
  str = buf + len out ∧ ok out args' s.

Lemma wp_sends p l out args s :
  sends p l → ok out args s → buf + len (out ++ l) < 2 ^ 32 →
  wp (p (buf + len out)) (done_with (out ++ l) args) s.
Proof. intros Hp Hok Hl. exact (Hp s out args Hok Hl). Qed.

Lemma u8_u8 c : u8 (u8 c) = u8 c.
Proof. apply Z.mod_small, u8_range. Qed.

Lemma wp_pad size c out args s :
  ok out args s → buf + len (out ++ replicate (Z.to_nat size) (u8 c)) < 2 ^ 32 →
  wp (pad size (buf + len out) end_ c) (λ x s', fst x = (if 0 <? size then -1 else size - 1) ∧
    done_with (out ++ replicate (Z.to_nat size) (u8 c)) args (snd x) s') s.
Proof.
  intros Hok Hl. eapply wp_mono; [exact (sends2_pad size c _ _ _ Hok Hl)|]. intros x s' [-> Hok']. done.
Qed.

Lemma wp_put c out args s :
  ok out args s → buf + len (out ++ [u8 c]) < 2 ^ 32 →
  wp (put (buf + len out) end_ c) (done_with (out ++ [u8 c]) args) s.
Proof. intros Hok Hl. exact (sends_put c _ _ _ Hok Hl). Qed.

Lemma wp_conv_char width flags x out args s :
  ok out args s → take_arg args = Some x →
  buf + len (out ++ justify flags width [u8 (fst x)]) < 2 ^ 32 →
  wp (conv_char (buf + len out) end_ width flags)
    (done_with (out ++ justify flags width [u8 (fst x)]) (snd x)) s.
Proof.
  intros Hok Hx. rewrite /justify. change (len [_]) with 1. rewrite /conv_char.
  destruct (flag flags LEFT); cbn [negb]; rewrite app_assoc; intros Hl;
    pose proof (len_app (out ++ [u8 (fst x)]) (spaces (width - 1))); pose proof (len_nonneg (spaces (width - 1)));
    pose proof (len_app (out ++ spaces (width - 1)) [u8 (fst x)]); pose proof (len_nonneg [u8 (fst x)]).
  - apply wp_bind, wp_ret, wp_bind. eapply wp_mono; [exact (wp_va_arg _ _ _ Hok _ Hx)|]. intros c s' [-> Hok'].
    cbn [fst snd]. apply wp_bind. eapply wp_mono; [apply (wp_put _ _ _ _ Hok'); rewrite u8_u8; lia|].
    rewrite u8_u8. intros str s2 [-> Hok2]. apply wp_bind.
    eapply wp_mono; [exact (wp_pad (width - 1) 32 _ _ _ Hok2 Hl)|]. intros y s3 [_ Hy]. by apply wp_ret.
  - apply wp_bind. eapply wp_mono; [apply (wp_pad (width - 1) 32 _ _ _ Hok); change (replicate _ _) with (spaces (width - 1)); lia|].
    intros y s1 (Hy & Hs & Hok1). apply wp_bind. eapply wp_mono; [exact (wp_va_arg _ _ _ Hok1 _ Hx)|].
    intros c s' [-> Hok']. apply wp_bind. rewrite Hs.
    eapply wp_mono; [apply (wp_put _ _ _ _ Hok'); rewrite u8_u8; exact Hl|].
    rewrite u8_u8. intros str s2 [-> Hok2]. apply wp_bind. rewrite Hy.
    assert (replicate (Z.to_nat (if 0 <? width - 1 then -1 else width - 1 - 1)) (u8 32) = []) as E0
      by exact (spaces_after (width - 1)).
    eapply wp_mono; [apply (wp_pad _ 32 _ _ _ Hok2); by rewrite E0 app_nil_r|].
    rewrite E0 app_nil_r. intros z s3 [_ Hz]. by apply wp_ret.
Qed.

(** Characters copied from a string. *)
Lemma wp_put_str n a l out args s :
  fixed a l → (n ≤ length l)%nat → ok out args s → buf + len (out ++ take n l) < 2 ^ 32 →
  wp (put_str n a (buf + len out) end_) (done_with (out ++ take n l) args) s.
Proof.
  revert a l out s. induction n as [|n IH]; intros a l out s Hf Hn Hok Hl; cbn [put_str].
  { apply wp_ret. by rewrite app_nil_r. }
  destruct l as [|c l]; [simpl in Hn; lia|]. pose proof (fixed_head _ _ _ Hf) as Hc.
  apply wp_bind. eapply wp_ldf; [exact Hok|exact Hf|]. cbn [headc take] in *.
  rewrite cons_middle app_assoc in Hl |- *.
  apply wp_bind. eapply wp_mono.
  { apply (wp_put (s8 c) _ _ _ Hok). rewrite u8_s8; [lia|]. rewrite len_app in Hl. pose proof (len_nonneg (take n l)). lia. }
  rewrite u8_s8; [lia|]. intros str s' [-> Hok']. apply IH; [exact (fixed_tail _ _ _ Hf)|simpl in Hn; lia|done|done].
Qed.

Section strings.
Context (null_str : Z) (strs : Z → option (list Z)) (K : nat).
Hypothesis Hstrs : ∀ a l, strs a = Some l →
  fixed (if a =? NULL then null_str else a) l ∧ (length l ≤ K)%nat ∧ len l < 2 ^ 31.

Lemma wp_strnlen fuel a l count out args s :
  ok out args s → fixed a l → (length l < fuel)%nat → 0 ≤ count → len l < 2 ^ 31 →
  wp (on_mem (strnlen fuel a count)) (λ v s', s' = s ∧ v = Z.min count (len l)) s.
Proof.
  intros Hok Hf Hl Hc H31. apply wp_zoom. eapply wp_mono.
  - apply (wp_strnlen_from l a a count fuel); [exact (fixed_cstr _ _ _ _ _ Hok Hf)|done|done|lia|].
    rewrite /len in H31. lia.
  - intros v m [-> ->]. split; [by destruct s|]. rewrite /len. lia.
Qed.

Lemma wp_conv_str fuel width precision flags x l out args s :
  ok out args s → take_arg args = Some x → strs (fst x) = Some l → (K < fuel)%nat →
  let txt := justify flags width (take (Z.to_nat (Z.min (u32 precision) (len l))) l) in
  buf + len (out ++ txt) < 2 ^ 32 →
  wp (conv_str null_str fuel (buf + len out) end_ width precision flags) (done_with (out ++ txt) (snd x)) s.
Proof.
  intros Hok Hx Hl Hf txt Hlen. destruct (Hstrs _ _ Hl) as (Hfx & HK & H31).
  rewrite /conv_str. apply wp_bind. eapply wp_mono; [exact (wp_va_arg _ _ _ Hok _ Hx)|]. intros a s1 [-> Hok1]. cbv zeta.
  set (a := if fst x =? NULL then null_str else fst x) in *.
  pose proof (u32_range precision) as Hp.
  apply wp_bind. eapply wp_mono; [apply (wp_strnlen _ _ l _ _ _ _ Hok1 Hfx); [lia|lia|done]|]. intros v s' [-> ->].
  set (t := take (Z.to_nat (Z.min (u32 precision) (len l))) l) in *.
  assert (s32 (Z.min (u32 precision) (len l)) = len t) as ->.
  { rewrite /t /len length_take. rewrite /len in H31. rewrite /s32 /sign Z.mod_small; [lia|].
    destruct (Z.ltb_spec (Z.min (u32 precision) (Z.of_nat (length l))) (2 ^ (32 - 1))); lia. }
  assert (t = take (Z.to_nat (len t)) l) as Ht.
  { rewrite /t /len Nat2Z.id length_take Nat.min_l //. lia. }
  assert (Z.to_nat (len t) ≤ length l)%nat as Htl by (rewrite {1}/t /len Nat2Z.id length_take; lia).
  subst txt. rewrite /justify in Hlen |- *.
  destruct (flag flags LEFT); cbn [negb]; rewrite app_assoc in Hlen |- *; rewrite len_app in Hlen.
  - pose proof (len_nonneg (spaces (width - len t))). apply wp_bind, wp_ret. cbn [fst snd].
    apply wp_bind. eapply wp_mono; [apply (wp_put_str _ _ l _ _ _ Hfx Htl Hok1); rewrite -Ht; lia|]. rewrite -Ht.
    intros str s2 [-> Hok2]. apply wp_bind. eapply wp_mono; [apply (wp_pad _ 32 _ _ _ Hok2); rewrite len_app; exact Hlen|].
    intros y s3 [_ Hy]. by apply wp_ret.
  - pose proof (len_nonneg t). apply wp_bind.
    eapply wp_mono; [apply (wp_pad _ 32 _ _ _ Hok1); change (replicate _ _) with (spaces (width - len t)); lia|].
    intros y s2 (Hy & -> & Hok2). apply wp_bind.
    eapply wp_mono; [apply (wp_put_str _ _ l _ _ _ Hfx Htl Hok2); rewrite -Ht len_app; exact Hlen|]. rewrite -Ht.
    intros str s3 [-> Hok3]. apply wp_bind. rewrite Hy.
    assert (replicate (Z.to_nat (if 0 <? width - len t then -1 else width - len t - 1)) (u8 32) = []) as E0
      by exact (spaces_after (width - len t)).
    eapply wp_mono; [apply (wp_pad _ 32 _ _ _ Hok3); rewrite E0 app_nil_r len_app; exact Hlen|].
    rewrite E0 app_nil_r. intros z s4 [_ Hz]. by apply wp_ret.
Qed.

Context (size : Z).
Hypothesis Hend : end_ = buf + size - 1.

Lemma wp_put_lt c out args s :
  ok out args s → buf + len out + 1 < 2 ^ 32 →
  wp (if buf + len out <? end_ then do! on_mem (st8 (buf + len out) c) then ret (u32 (buf + len out + 1))
      else ret (buf + len out))
    (done_with (out ++ (if len out <? size - 1 then [u8 c] else [])) args) s.
Proof.
  intros Hok Hl. destruct (Z.ltb_spec (buf + len out) end_) as [Hlt|Hge].
  - rewrite (proj2 (Z.ltb_lt (len out) (size - 1))); [lia|].
    pose proof (wp_put c _ _ _ Hok) as Hp. rewrite /put (proj2 (Z.leb_le (buf + len out) end_)) in Hp; [lia|].
    apply Hp. rewrite len_app. change (len [u8 c]) with 1. lia.
  - rewrite (proj2 (Z.ltb_ge (len out) (size - 1))); [lia|]. apply wp_ret. by rewrite app_nil_r.
Qed.

Lemma pointer_prefix out :
  take (Z.to_nat (size - 1 - len out)) [48; 120] =
  (if len out <? size - 1 then [48] else []) ++
  (if len (out ++ (if len out <? size - 1 then [48] else [])) <? size - 1 then [120] else []).
Proof.
  destruct (Z.ltb_spec (len out) (size - 1)) as [H|H]; rewrite len_app.
  - change (len [48]) with 1. destruct (Z.ltb_spec (len out + 1) (size - 1)).
    + replace (Z.to_nat (size - 1 - len out)) with (S (S (Z.to_nat (size - 3 - len out)))) by lia. simpl. by rewrite firstn_nil.
    + replace (size - 1 - len out) with 1 by lia. done.
  - change (len []) with 0. rewrite Z.add_0_r (proj2 (Z.ltb_ge (len out) (size - 1))) //.
    rewrite Z2Nat.nonpos //. lia.
Qed.

Definition words (args : list Z) : Prop := Forall (λ a, 0 ≤ a < 2 ^ 32) args.
Lemma take_arg_words args x : words args → take_arg args = Some x → 0 ≤ fst x < 2 ^ 32 ∧ words (snd x).
Proof. intros Hw Hx. destruct args as [|a args]; [done|]. injection Hx as <-. by apply Forall_cons in Hw. Qed.

Lemma sign_range w n : 0 < w → - 2 ^ (w - 1) ≤ sign w n < 2 ^ (w - 1).
Proof.
  intros Hw. rewrite /sign. pose proof (Z.mod_pos_bound n (2 ^ w) ltac:(apply Z.pow_pos_nonneg; lia)) as Hb.
  assert (2 ^ w = 2 * 2 ^ (w - 1)) as E by (rewrite -Z.pow_succ_r; [lia|]; f_equal; lia).
  destruct (Z.ltb_spec (n mod 2 ^ w) (2 ^ (w - 1))); lia.
Qed.

Lemma wp_conv_ptr width precision flags x out args s :
  ok out args s → words args → take_arg args = Some x →
  let txt := take (Z.to_nat (size - 1 - len out)) [48; 120] ++
          (if width =? -1 then num_text (fst x) 16 8 precision (Z.lor flags ZEROPAD)
           else num_text (fst x) 16 width precision flags) in
  buf + len (out ++ txt) + 2 < 2 ^ 32 →
  wp (conv_ptr (buf + len out) end_ width precision flags) (done_with (out ++ txt) (snd x)) s.
Proof.
  intros Hok Hw Hx txt Hl. subst txt. rewrite pointer_prefix in Hl |- *.
  set (p1 := if len out <? size - 1 then [48] else []) in *.
  set (p2 := if len (out ++ p1) <? size - 1 then [120] else []) in *.
  rewrite -app_assoc !app_assoc in Hl |- *.
  pose proof (len_app (out ++ p1) p2). pose proof (len_app out p1). pose proof (len_nonneg p1). pose proof (len_nonneg p2).
  set (nt := if width =? -1 then _ else _) in *. rewrite len_app in Hl. pose proof (len_nonneg nt).
  apply wp_bind. eapply wp_mono; [apply (wp_put_lt 48 _ _ _ Hok); lia|]. change (if _ <? _ then [u8 48] else []) with p1.
  intros str s1 [-> Hok1]. apply wp_bind. eapply wp_mono; [apply (wp_put_lt 120 _ _ _ Hok1); lia|].
  change (if _ <? _ then [u8 120] else []) with p2. intros str s2 [-> Hok2].
  apply wp_bind. eapply wp_mono; [exact (wp_va_arg _ _ _ Hok2 _ Hx)|]. intros a s3 [-> Hok3].
  destruct (take_arg_words _ _ Hw Hx) as [Hr _].
  subst nt. destruct (width =? -1).
  - apply (wp_sends (λ b, number b end_ (fst x) 16 8 precision (Z.lor flags ZEROPAD))); [apply sends_number; lia|done|rewrite len_app; lia].
  - apply (wp_sends (λ b, number b end_ (fst x) 16 width precision flags)); [apply sends_number; lia|done|rewrite len_app; lia].
Qed.

Lemma wp_int_arg qualifier flags x out args s :
  ok out args s → words args → take_int qualifier flags args = Some x →
  wp (int_arg qualifier flags) (λ n s', n = fst x ∧ ok out (snd x) s') s ∧
  - 2 ^ 63 ≤ fst x < 2 ^ 63 ∧ words (snd x).
Proof.
  intros Hok Hw Hx. rewrite /take_int in Hx. destruct (take_arg args) as [y|] eqn:Ey; [|done]. simpl in Hx.
  destruct (take_arg_words _ _ Hw Ey) as [Hr Hw'].
  pose proof (wp_va_arg _ _ _ Hok _ Ey) as Hva. rewrite /int_arg.
  assert (∀ f : Z → Z, wp (let! n := va_arg in ret (f n)) (λ n s', n = f (fst y) ∧ ok out (snd y) s') s) as Hf.
  { intros f. apply wp_bind. eapply wp_mono; [exact Hva|]. intros n s' [-> Hok']. by apply wp_ret. }
  pose proof (sign_range 32 (fst y) ltac:(lia)) as H32. pose proof (sign_range 16 (fst y) ltac:(lia)) as H16.
  pose proof (Z.mod_pos_bound (fst y) (2 ^ 16) ltac:(lia)) as Hu16.
  fold (s32 (fst y)) in H32. fold (s16 (fst y)) in H16. fold (u16 (fst y)) in Hu16.
  destruct (Z.eqb_spec qualifier 76) as [->|N76].
  - destruct (take_arg (snd y)) as [z|] eqn:Ez; [|done]. simpl in Hx. injection Hx as <-. cbn [fst snd].
    destruct (take_arg_words _ _ Hw' Ez) as [Hr2 Hw2]. split_and!; [|apply (sign_range 64)..|done]; [|lia..].
    apply wp_bind, wp_bind. eapply wp_mono; [exact Hva|]. intros n s1 [-> Hok1].
    apply wp_bind. eapply wp_mono; [exact (wp_va_arg _ _ _ Hok1 _ Ez)|]. intros h s2 [-> Hok2]. by apply wp_ret.
  - destruct (Z.eqb_spec qualifier 108) as [->|N108].
    { change (108 =? 90) with false in Hx. change (108 =? 104) with false in Hx. cbv iota in Hx. injection Hx as <-. cbn [fst snd].
      split_and!; [exact (Hf (λ n, if flag flags SIGN then s32 n else n))|destruct (flag flags SIGN); lia..|done]. }
    destruct (qualifier =? 90); [injection Hx as <-; split_and!; [exact Hva|lia|lia|done]|].
    destruct (qualifier =? 104); injection Hx as <-; cbn [fst snd].
    + split_and!; [exact (Hf (λ n, if flag flags SIGN then s16 n else u16 n))|destruct (flag flags SIGN); lia..|done].
    + split_and!; [exact (Hf (λ n, if flag flags SIGN then s32 n else n))|destruct (flag flags SIGN); lia..|done].
Qed.

Lemma wp_int_text width precision qualifier base flags r (fmt : Z) out args s :
  ok out args s → words args → 2 ≤ base ≤ 36 →
  int_text width precision qualifier base flags args = Some r → buf + len (out ++ fst r) < 2 ^ 32 →
  wp (let! n := int_arg qualifier flags in
      let! str := number (buf + len out) end_ n base width precision flags in ret (fmt, str))
    (λ x s', fst x = fmt ∧ done_with (out ++ fst r) (snd r) (snd x) s' ∧ words (snd r)) s.
Proof.
  intros Hok Hw Hb Hr Hl. rewrite /int_text in Hr. destruct (take_int qualifier flags args) as [x|] eqn:Ex; [|done].
  injection Hr as <-. cbn [fst snd] in *. destruct (wp_int_arg _ _ _ _ _ _ Hok Hw Ex) as (Hi & Hrg & Hw').
  apply wp_bind. eapply wp_mono; [exact Hi|]. intros n s1 [-> Hok1]. apply wp_bind.
  eapply wp_mono; [apply (wp_sends (λ b, number b end_ (fst x) base width precision flags)); [by apply sends_number|exact Hok1|exact Hl]|].
  intros str s2 Hd. by apply wp_ret.
Qed.

(** ** A directive and the loop *)

Lemma take_num_length f i : (length (snd (take_num f i)) ≤ length f)%nat.
Proof.
  revert i. induction f as [|c f IH]; intros i; simpl; [lia|]. destruct (isdigit c); simpl; [|lia].
  etrans; [apply IH|]. lia.
Qed.
Lemma take_flags_length f flags : (length (snd (take_flags f flags)) ≤ length f)%nat.
Proof.
  revert flags. induction f as [|c f IH]; intros flags; cbn [take_flags length]; [done|].
  repeat (destruct (c =? _); [etrans; [apply IH|]; lia|]). done.
Qed.
Lemma take_width_length f args flags y :
  words args → take_width f args flags = Some y →
  (length (sp_fmt (snd y)) ≤ length f)%nat ∧ words (sp_args (snd y)).
Proof.
  intros Hw. destruct f as [|c f]; cbn [take_width]; [by intros [= <-]|].
  destruct (isdigit c); [intros [= <-]; split; [exact (take_num_length (c :: f) 0)|done]|].
  destruct (c =? 42); [|by intros [= <-]].
  destruct (take_arg args) as [x|] eqn:Ex; [|done]. destruct (take_arg_words _ _ Hw Ex).
  intros [= <-]. destruct (_ <? 0); simpl; split; try done; lia.
Qed.
Lemma take_precision_length f args y :
  words args → take_precision f args = Some y →
  (length (sp_fmt (snd y)) ≤ length f)%nat ∧ words (sp_args (snd y)).
Proof.
  intros Hw. destruct f as [|c f]; cbn [take_precision]; [by intros [= <-]|].
  destruct (c =? 46); [|by intros [= <-]]. destruct f as [|d f]; [intros [= <-]; simpl; split; [lia|done]|].
  destruct (isdigit d).
  { intros [= <-]. split; [|done]. etrans; [exact (take_num_length (d :: f) 0)|]. simpl. lia. }
  destruct (d =? 42); [|intros [= <-]; simpl; split; [lia|done]].
  destruct (take_arg args) as [x|] eqn:Ex; [|done]. destruct (take_arg_words _ _ Hw Ex).
  intros [= <-]. simpl. split; [lia|done].
Qed.
Lemma take_qualifier_length f : (length (snd (take_qualifier f)) ≤ length f)%nat.
Proof.
  destruct f as [|c f]; [done|]. cbn [take_qualifier]. destruct (_ || _); [|done].
  destruct f as [|d f]; [simpl; lia|]. destruct (_ && _); simpl; lia.
Qed.

(** A conversion that ends at the character it was read from. *)
Definition converted (fmt : Z) (out args' : list Z) (x : Z * Z) (s : vs) : Prop :=
  fst x = fmt ∧ done_with out args' (snd x) s ∧ words args'.

Lemma wp_converted (m : V Z) (fmt : Z) out args' s :
  words args' → wp m (done_with out args') s →
  wp (let! str := m in ret (fmt, str)) (converted fmt out args') s.
Proof. intros Hw Hm. apply wp_bind. eapply wp_mono; [exact Hm|]. intros str s' H. by apply wp_ret. Qed.

Lemma len_put2 out c d : len (out ++ [c; d]) = len out + 2 ∧ len (out ++ [c]) = len out + 1.
Proof. rewrite !len_app. done. Qed.

Definition conversion (fuel : nat) (fmt str c width precision qualifier flags : Z) : V (Z * Z) :=
  let int base flags := (let! n := int_arg qualifier flags in
                         let! str := number str end_ n base width precision flags in
                         ret (fmt, str)) in
  if c =? 99 then let! str := conv_char str end_ width flags in ret (fmt, str)
  else if c =? 115 then let! str := conv_str null_str fuel str end_ width precision flags in ret (fmt, str)
  else if c =? 112 then let! str := conv_ptr str end_ width precision flags in ret (fmt, str)
  else if c =? 110 then
    let! ip := va_arg in
    do! on_mem (st32 ip (u32 (str - buf))) then ret (fmt, str)
  else if c =? 37 then let! str := put str end_ 37 in ret (fmt, str)
  else if c =? 111 then int 8 flags
  else if c =? 88 then int 16 (Z.lor flags LARGE)
  else if c =? 120 then int 16 flags
  else if (c =? 100) || (c =? 105) then int 10 (Z.lor flags SIGN)
  else if c =? 117 then int 10 flags
  else
    let! str := put str end_ 37 in
    if ctrue c then let! str := put str end_ c in ret (fmt, str)
    else ret (fmt - 1, str).

Lemma wp_conversion fuel fmt b width precision qualifier flags args r out s :
  ok out args s → words args → 0 < b < 256 → (K < fuel)%nat →
  convert strs (cut_prefix size) b width precision qualifier flags args out = Some r →
  buf + len (out ++ fst r) + 2 < 2 ^ 32 →
  wp (conversion fuel fmt (buf + len out) (s8 b) width precision qualifier flags)
    (converted fmt (out ++ fst r) (snd r)) s.
Proof.
  intros Hok Hw Hb HK Hr Hl. rewrite /conversion. cbv zeta. rewrite !s8_eqb; [lia..|]. rewrite /convert in Hr.
  destruct (b =? 99).
  { destruct (take_arg args) as [x|] eqn:Ex; [|done]. injection Hr as <-. cbn [fst snd] in *.
    destruct (take_arg_words _ _ Hw Ex). apply wp_converted; [done|]. apply (wp_conv_char _ _ _ _ _ _ Hok Ex). lia. }
  destruct (b =? 115).
  { destruct (take_arg args) as [x|] eqn:Ex; [|done]. simpl in Hr. destruct (strs (fst x)) as [l|] eqn:El; [|done].
    injection Hr as <-. cbn [fst snd] in *. destruct (take_arg_words _ _ Hw Ex). apply wp_converted; [done|].
    apply (wp_conv_str _ _ _ _ _ _ _ _ _ Hok Ex El HK). lia. }
  destruct (b =? 112).
  { destruct (take_arg args) as [x|] eqn:Ex; [|done]. injection Hr as <-. cbn [fst snd] in *.
    destruct (take_arg_words _ _ Hw Ex). apply wp_converted; [done|]. by apply (wp_conv_ptr _ _ _ _ _ _ _ Hok Hw Ex). }
  destruct (b =? 110); [done|].
  destruct (b =? 37).
  { injection Hr as <-. cbn [fst snd] in *. apply wp_converted; [done|]. apply (wp_put 37 _ _ _ Hok). change (u8 37) with 37. lia. }
  assert (buf + len (out ++ fst r) < 2 ^ 32) as Hl' by lia.
  destruct (b =? 111); [eapply wp_int_text; [exact Hok|exact Hw|lia|exact Hr|exact Hl']|]. destruct (b =? 88); [eapply wp_int_text; [exact Hok|exact Hw|lia|exact Hr|exact Hl']|].
  destruct (b =? 120); [eapply wp_int_text; [exact Hok|exact Hw|lia|exact Hr|exact Hl']|]. destruct ((b =? 100) || (b =? 105)); [eapply wp_int_text; [exact Hok|exact Hw|lia|exact Hr|exact Hl']|].
  destruct (b =? 117); [eapply wp_int_text; [exact Hok|exact Hw|lia|exact Hr|exact Hl']|].
  injection Hr as <-. cbn [fst snd] in *. destruct (len_put2 out 37 b) as [H2 _], (len_put2 out 37 b) as [_ H1].
  apply wp_bind. eapply wp_mono; [apply (wp_put 37 _ _ _ Hok); change (u8 37) with 37; lia|]. intros str s1 [-> Hok1].
  change (u8 37) with 37 in *. rewrite /ctrue. assert (s8 b ≠ 0) as Hs by (intros E%s8_zero; lia). rewrite (proj2 (Z.eqb_neq _ _) Hs) /=.
  apply wp_bind. assert (out ++ [37; b] = (out ++ [37]) ++ [u8 (s8 b)]) as E by (rewrite u8_s8; [lia|]; by rewrite -app_assoc).
  eapply wp_mono; [apply (wp_put (s8 b) _ _ _ Hok1); rewrite -E; exact Hl'|]. intros str s2 Hd. apply wp_ret.
  rewrite /converted E. done.
Qed.

Lemma wp_directive fuel a f args r out s :
  ok out args s → words args → fixed a (37 :: f) → (length f < fuel)%nat → (K < fuel)%nat →
  render_directive strs (cut_prefix size) f args out = Some r → buf + len (out ++ fst r) + 2 < 2 ^ 32 →
  wp (directive null_str fuel a (buf + len out) buf end_)
    (λ x s', done_with (out ++ fst r) (sp_args (snd r)) (snd x) s' ∧
       fixed (fst x + 1) (sp_fmt (snd r)) ∧ words (sp_args (snd r)) ∧
       (length (sp_fmt (snd r)) ≤ length f)%nat) s.
Proof.
  intros Hok Hw Hf Hl HK Hr Hlen. rewrite /render_directive in Hr.
  pose proof (take_flags_length f 0) as L1.
  destruct (take_width (snd (take_flags f 0)) args (fst (take_flags f 0))) as [y|] eqn:Ey; [|done]. simpl in Hr.
  destruct (take_width_length _ _ _ _ Hw Ey) as [L2 Hw2].
  destruct (take_precision (sp_fmt (snd y)) (sp_args (snd y))) as [z|] eqn:Ez; [|done]. simpl in Hr.
  destruct (take_precision_length _ _ _ Hw2 Ez) as [L3 Hw3].
  pose proof (take_qualifier_length (sp_fmt (snd z))) as L4.
  rewrite /directive. apply wp_bind. eapply wp_mono; [apply (wp_get_flags _ _ _ _ _ _ f 0 Hok Hf); [done|done|lia]|].
  intros x1 s1 (-> & -> & Hf1). apply wp_bind.
  eapply wp_mono; [exact (wp_get_width fuel _ _ _ _ _ _ _ Hok Hf1 ltac:(lia) Ey)|].
  intros x2 s2 (-> & Hok2 & Hf2). apply wp_bind.
  eapply wp_mono; [exact (wp_get_precision fuel _ _ _ _ _ _ Hok2 Hf2 ltac:(lia) Ez)|].
  intros x3 s3 (-> & Hok3 & Hf3). apply wp_bind.
  eapply wp_mono; [exact (wp_get_qualifier _ _ _ _ _ Hok3 Hf3)|]. intros x4 s4 (-> & -> & Hf4).
  apply wp_bind. eapply wp_ldf; [exact Hok3|exact Hf4|].
  destruct (snd (take_qualifier (sp_fmt (snd z)))) as [|b f'] eqn:Eq.
  - injection Hr as <-. cbn [fst snd sp_fmt sp_args headc] in *.
    match goal with |- wp _ ?Q _ =>
      change (wp (let! str := put (buf + len out) end_ 37 in ret (snd x4 - 1, str)) Q s3) end.
    apply wp_bind. eapply wp_mono; [apply (wp_put 37 _ _ _ Hok3); change (u8 37) with 37; lia|]. intros str s5 Hd. apply wp_ret.
    cbn [fst snd]. rewrite Z.sub_add. split_and!; [done..|]. simpl. lia.
  - destruct (convert _ _ _ _ _ _ _ _ _) as [r'|] eqn:Er; [|done]. simpl in Hr. injection Hr as <-.
    cbn [fst snd sp_fmt sp_args headc length] in *. eapply wp_mono.
    { apply (wp_conversion fuel (snd x4) b _ _ _ _ _ r' out s3 Hok3 Hw3 (fixed_head _ _ _ Hf4) HK Er). lia. }
    intros x s5 (-> & Hd & Hw5). split; [exact Hd|]. split; [exact (fixed_tail _ _ _ Hf4)|]. split; [exact Hw5|lia].
Qed.

(** The output only grows. *)
Lemma render_grows n f args out res : render strs (cut_prefix size) n f args out = Some res → len out ≤ len res.
Proof.
  revert f args out. induction n as [|n IH]; intros f args out; [done|]. cbn [render].
  destruct f as [|c f]; [intros [= <-]; lia|]. destruct (negb (c =? 37)).
  - intros H%IH. rewrite len_app in H. change (len [c]) with 1 in H. lia.
  - destruct (render_directive _ _ _ _ _) as [r|]; [|done]. simpl. intros H%IH.
    rewrite len_app in H. pose proof (len_nonneg (fst r)). lia.
Qed.

Lemma wp_vs_loop n fuel a f args out res s :
  ok out args s → words args → fixed a f → (length f + K < fuel)%nat →
  render strs (cut_prefix size) n f args out = Some res → buf + len res + 2 < 2 ^ 32 →
  wp (vs_loop null_str fuel a (buf + len out) buf end_) (λ str s', str = buf + len res ∧ emitted res (vs_mem s')) s.
Proof.
  revert fuel a f args out s. induction n as [|n IH]; intros [|fuel] a f args out s Hok Hw Hf Hl Hr Hlen; [done|done|lia|].
  cbn [vs_loop render] in *. apply wp_bind. eapply wp_ldf; [exact Hok|exact Hf|].
  destruct f as [|c f]; cbn [headc].
  { injection Hr as <-. apply wp_ret. split; [done|]. by destruct Hok. }
  pose proof (fixed_head _ _ _ Hf) as Hc. simpl in Hl.
  assert (s8 c ≠ 0) as Hs by (intros E%s8_zero; lia). rewrite (proj2 (Z.eqb_neq _ _) Hs). rewrite s8_eqb; [lia|lia|].
  destruct (Z.eqb_spec c 37) as [->|Hn]; cbn [negb] in *.
  - destruct (render_directive strs (cut_prefix size) f args out) as [r|] eqn:Er; [|done]. simpl in Hr.
    pose proof (render_grows _ _ _ _ _ Hr) as Hg.
    apply wp_bind. eapply wp_mono; [apply (wp_directive fuel a f args r out s Hok Hw Hf ltac:(lia) ltac:(lia) Er); lia|].
    intros x s' ((-> & Hok') & Hf' & Hw' & Hl'). eapply IH; [exact Hok'|exact Hw'|exact Hf'|lia|exact Hr|done].
  - pose proof (render_grows _ _ _ _ _ Hr) as Hg. apply wp_bind.
    eapply wp_mono; [apply (wp_put (s8 c) _ _ _ Hok); rewrite u8_s8; lia|]. rewrite u8_s8; [lia|].
    intros str s' [-> Hok']. eapply IH; [exact Hok'|exact Hw|exact (fixed_tail _ _ _ Hf)|lia|exact Hr|done].
Qed.
End strings.
End emit.

(** ** Properties *)

(** [number] writes the text of the number, cut at the end of the buffer,
    and advances the output pointer by its full length: any 64-bit number, any base from 2
    to 36, any width, precision and flags. *)
Theorem number_correct m0 buf end_ num base size precision type s out args :
  0 ≤ buf → (∀ a, buf ≤ a ≤ end_ → is_Some (m0 !! a)) → 2 ≤ base ≤ 36 → - 2 ^ 63 ≤ num < 2 ^ 63 →
  ok m0 buf end_ out args s →
  let txt := num_text num base size precision type in
  buf + len (out ++ txt) < 2 ^ 32 →
  ∃ s', number (buf + len out) end_ num base size precision type s = Ret (buf + len (out ++ txt), s') ∧
    ok m0 buf end_ (out ++ txt) args s'.
Proof.
  intros Hb Ho Hbase Hn Hok txt Hl.
  destruct (wp_elim _ _ _ (sends_number m0 buf end_ Hb Ho num base size precision type Hbase Hn s out args Hok Hl))
    as (str & s' & E & -> & H). by exists s'.
Qed.

(** The digits [number] writes denote the magnitude of the number. *)
Theorem num_text_value num base type :
  2 ≤ base ≤ 36 → 0 ≤ magnitude num type < 2 ^ 64 →
  ∃ ds, digits_text num base type = digit (flag type LARGE) <$> rev ds ∧
    Forall (λ d, 0 ≤ d < base) ds ∧ undigits base ds = magnitude num type.
Proof.
  intros Hb Hm. exists (digits 64 (magnitude num type) base). split_and!; [done|apply digits_range; lia|].
  apply digits_value; [lia|]. split; [lia|]. eapply Z.lt_le_trans; [apply Hm|]. apply Z.pow_le_mono_l. lia.
Qed.

(** What the buffer holds when [res] has been emitted and terminated. *)
Definition buffer_holds (m0 m : mem) (buf size : Z) (res : list Z) : Prop :=
  (0 < size → bytes m buf (take (Z.to_nat (size - 1)) res ++ [0])) ∧
  (∀ a, ¬ buf ≤ a < buf + size → m !! a = m0 !! a).

Lemma bytes_emitted m0 m buf end_ res n :
  emitted m0 buf end_ res m → (n ≤ length res)%nat → buf + Z.of_nat n - 1 ≤ end_ → bytes m buf (take n res).
Proof.
  intros He Hn Hl. 
  assert (∀ k l i, res = k ++ l → i = length k → (i ≤ n)%nat → bytes m (buf + Z.of_nat i) (take (n - i) l)) as Hg.
  { intros k l. revert k. induction l as [|x l IH]; intros k i Hr -> Hi; [by rewrite firstn_nil|].
    destruct (n - length k)%nat as [|j] eqn:Ej; [done|]. cbn [take bytes]. split.
    - rewrite He decide_True; [rewrite /len Hr length_app /=; lia|].
      rewrite Hr (_ : Z.to_nat _ = length k); [lia|]. rewrite lookup_app_r // Nat.sub_diag //.
    - replace j with (n - S (length k))%nat by lia.
      replace (buf + Z.of_nat (length k) + 1) with (buf + Z.of_nat (S (length k))) by lia.
      apply (IH (k ++ [x])); [by rewrite Hr -app_assoc|rewrite length_app /=; lia|lia]. }
  specialize (Hg [] res 0%nat eq_refl eq_refl ltac:(lia)). rewrite Z.add_0_r Nat.sub_0_r in Hg. exact Hg.
Qed.

Lemma emitted_terminated m0 m buf size res :
  0 ≤ size → emitted m0 buf (buf + size - 1) res m →
  buffer_holds m0 (if buf + len res <=? buf + size - 1 then <[buf + len res := 0]> m
     else if 0 <? size then <[buf + size - 1 := 0]> m else m) buf size res.
Proof.
  intros Hs He. assert (∀ a, ¬ buf ≤ a < buf + size → m !! a = m0 !! a) as Hout.
  { intros a Ha. rewrite He decide_False //. lia. }
  pose proof (len_nonneg res). split.
  - intros Hp. apply bytes_app. rewrite length_take.
    destruct (Z.leb_spec (buf + len res) (buf + size - 1)) as [Hle|Hgt].
    + assert (take (Z.to_nat (size - 1)) res = res) as -> by (apply firstn_all2; rewrite /len in Hle; lia).
      rewrite Nat.min_r; [rewrite /len in Hle; lia|]. split; [|split; [by rewrite /len lookup_insert_eq|done]].
      eapply bytes_cong; [|rewrite -(firstn_all res); eapply bytes_emitted; [exact He|lia|rewrite /len in Hle; lia]].
      intros b Hb. rewrite lookup_insert_ne //. rewrite /len. lia.
    + rewrite (proj2 (Z.ltb_lt 0 size)) // Nat.min_l; [rewrite /len in Hgt; lia|].
      split; [|split; [by rewrite (_ : buf + Z.of_nat _ = buf + size - 1); [lia|rewrite lookup_insert_eq]|done]].
      eapply bytes_cong; [|eapply bytes_emitted; [exact He|rewrite /len in Hgt; lia|lia]].
      intros b Hb. rewrite length_take in Hb. rewrite lookup_insert_ne //. lia.
  - intros a Ha. rewrite -Hout //. destruct (Z.leb_spec (buf + len res) (buf + size - 1)).
    + rewrite lookup_insert_ne //. lia.
    + destruct (Z.ltb_spec 0 size); [|done]. rewrite lookup_insert_ne //. lia.
Qed.

Lemma wp_vsnprintf null_str strs K n fuel m0 buf size fmt f args res :
  0 < buf → 0 ≤ size → buf + size ≤ 2 ^ 32 → owned m0 buf (Z.to_nat size) → words args →
  fixed m0 buf (buf + size - 1) fmt f →
  (∀ a l, strs a = Some l → fixed m0 buf (buf + size - 1) (if a =? NULL then null_str else a) l ∧
     (length l ≤ K)%nat ∧ len l < 2 ^ 31) →
  (length f + K < fuel)%nat → render strs (cut_prefix size) n f args [] = Some res →
  buf + len res + 2 < 2 ^ 32 → len res < 2 ^ 31 →
  wp (vsnprintf null_str fuel buf size fmt)
    (λ r s', r = len res ∧ buffer_holds m0 (vs_mem s') buf size res) (mk_vs m0 args).
Proof.
  intros Hb Hs Hbs Ho Hw Hfx Hst Hf Hr Hl H31.
  rewrite /vsnprintf. cbv zeta.
  pose proof (len_nonneg res) as Hr0.
  rewrite (u32_id (buf - 1)); [lia|]. rewrite (u32_id (buf + size - 1)); [lia|].
  rewrite (proj2 (Z.ltb_ge (buf + size - 1) (buf - 1))); [lia|].
  assert (∀ a, buf ≤ a ≤ buf + size - 1 → is_Some (m0 !! a)) as Ho' by (intros a Ha; apply Ho; lia).
  apply wp_bind. eapply wp_mono.
  { pose proof (wp_vs_loop m0 buf (buf + size - 1) ltac:(lia) Ho' null_str strs K Hst size eq_refl n fuel fmt f args [] res (mk_vs m0 args)) as Hloop.
    change (len []) with 0 in Hloop. rewrite Z.add_0_r in Hloop. apply Hloop; try done. split; [apply emitted_nil|done]. }
  intros str s' [-> He]. pose proof (emitted_terminated m0 _ buf size res Hs He) as Hbh.
  assert (∀ a, buf ≤ a ≤ buf + size - 1 → is_Some (vs_mem s' !! a)) as Ho2.
  { intros a Ha. rewrite He. case_decide as Hd; [|by apply Ho'].
    apply lookup_lt_is_Some. rewrite /len in Hd. lia. }
  assert (s32 (buf + len res - buf) = len res) as Hret.
  { replace (buf + len res - buf) with (len res) by lia. rewrite /s32 /sign Z.mod_small; [lia|].
    destruct (Z.ltb_spec (len res) (2 ^ (32 - 1))); lia. }
  apply wp_bind. destruct (Z.leb_spec (buf + len res) (buf + size - 1)) as [Hle|Hgt].
  - apply wp_zoom, wp_st8; [apply Ho2; lia|]. apply wp_ret. by rewrite Hret.
  - destruct (Z.ltb_spec 0 size) as [Hp|Hz]; cbn [when].
    + apply wp_zoom, wp_st8; [apply Ho2; lia|]. apply wp_ret. by rewrite Hret.
    + apply wp_ret, wp_ret. by rewrite Hret.
Qed.

(** ** The text and its cut *)

(** [out] is as far as a buffer of [size] bytes shows the same as [out'], and
    it is the same, or not shorter than what fits. *)
Definition same_shown (size : Z) (out out' : list Z) : Prop :=
  take (Z.to_nat (size - 1)) out = take (Z.to_nat (size - 1)) out' ∧
  (out = out' ∨ (size - 1 ≤ len out ≤ len out')).

Lemma take_len_app size (l k : list Z) : size - 1 ≤ len l → take (Z.to_nat (size - 1)) (l ++ k) = take (Z.to_nat (size - 1)) l.
Proof. rewrite /len. intros H. rewrite take_app_le //. lia. Qed.
Lemma same_shown_app size out out' l : same_shown size out out' → same_shown size (out ++ l) (out' ++ l).
Proof.
  intros [Ht [->|Ho]]; [split; [done|by left]|]. pose proof (len_nonneg l). split; [|right; rewrite !len_app; lia].
  by rewrite !take_len_app; [lia..|].
Qed.
Lemma same_shown_prefix size out out' : same_shown size out out' →
  same_shown size (out ++ cut_prefix size out) (out' ++ whole_prefix out').
Proof.
  intros [Ht Ho]. rewrite /cut_prefix /whole_prefix. destruct (decide (size - 1 ≤ len out)) as [Hl|Hl].
  - rewrite Z2Nat.nonpos; [lia|]. rewrite app_nil_r. assert (size - 1 ≤ len out ≤ len out') by (destruct Ho as [->|]; lia).
    split; [by rewrite take_len_app; [lia|]|]. right. rewrite len_app. change (len [48; 120]) with 2. lia.
  - destruct Ho as [->|]; [|lia]. destruct (decide (size - 1 = len out' + 1)) as [E|E].
    + rewrite E. replace (Z.to_nat (len out' + 1 - len out')) with 1%nat by lia. split; [|right; rewrite !len_app; change (len (take 1 [48; 120])) with 1; change (len [48; 120]) with 2; lia].
      rewrite (_ : out' ++ [48; 120] = (out' ++ [48]) ++ [120]); [by rewrite -app_assoc|].
      rewrite (take_len_app _ (out' ++ [48]) [120]) //. rewrite len_app. change (len [48]) with 1. lia.
    + replace (Z.to_nat (size - 1 - len out')) with (S (S (Z.to_nat (size - 3 - len out')))) by lia.
      cbn [take]. rewrite firstn_nil. split; [done|by left].
Qed.

Section cut.
Context (strs : Z → option (list Z)) (size : Z).
Local Abbreviation shown := (same_shown size).

Lemma convert_cut c width precision qualifier flags args out out' r' :
  convert strs whole_prefix c width precision qualifier flags args out' = Some r' → shown out out' →
  ∃ r, convert strs (cut_prefix size) c width precision qualifier flags args out = Some r ∧ snd r = snd r' ∧
    shown (out ++ fst r) (out' ++ fst r').
Proof.
  intros Hc Hs. destruct (decide (c = 112)) as [->|Hn].
  - revert Hc. rewrite /convert. cbn [Z.eqb Pos.eqb]. destruct (take_arg args) as [x|]; [|done]. cbn [mbind option_bind]. intros E.
    apply (inj Some) in E. subst r'. eexists. split; [reflexivity|]. split; [done|]. cbn [fst].
    rewrite (app_assoc out) (app_assoc out'). apply same_shown_app. exact (same_shown_prefix _ _ _ Hs).
  - exists r'. split; [|split; [done|by apply same_shown_app]]. rewrite -Hc /convert. by rewrite (proj2 (Z.eqb_neq c 112) Hn).
Qed.

Lemma render_cut n f args out out' text : render strs whole_prefix n f args out' = Some text → shown out out' →
  ∃ res, render strs (cut_prefix size) n f args out = Some res ∧ shown res text.
Proof.
  revert f args out out'. induction n as [|n IH]; intros f args out out'; [done|]. cbn [render].
  destruct f as [|c f]; [intros [= <-] Hs; by exists out|]. destruct (negb (c =? 37)).
  { intros Hr Hs. eapply IH; [exact Hr|]. by apply same_shown_app. }
  destruct (render_directive strs whole_prefix f args out') as [r'|] eqn:E; [|done]. cbn [mbind option_bind]. intros Hr Hs.
  assert (∃ r, render_directive strs (cut_prefix size) f args out = Some r ∧ snd r = snd r' ∧ shown (out ++ fst r) (out' ++ fst r')) as (r & -> & Es & Hs').
  { revert E. rewrite /render_directive. destruct (take_width _ _ _) as [y|]; [|done]. cbn [mbind option_bind].
    destruct (take_precision _ _) as [z|]; [|done]. cbn [mbind option_bind]. destruct (snd (take_qualifier _)) as [|c' f'].
    { intros [= <-]. eexists. split; [reflexivity|]. split; [done|]. by apply same_shown_app. }
    destruct (convert _ _ _ _ _ _ _ _ out') as [x'|] eqn:Ec; [|done]. cbn [mbind option_bind]. intros [= <-].
    destruct (convert_cut _ _ _ _ _ _ _ _ _ Ec Hs) as (x & -> & Ex & Hx). cbn [mbind option_bind].
    eexists. split; [reflexivity|]. cbn [fst snd]. by rewrite Ex. }
  cbn [mbind option_bind]. rewrite Es. eapply IH; [exact Hr|exact Hs'].
Qed.
End cut.

(** A format without the letter p has no pointers to print. *)
Lemma take_num_in f i c : c ∈ snd (take_num f i) → c ∈ f.
Proof. revert i. induction f as [|d f IH]; intros i; cbn [take_num]; [done|]. destruct (isdigit d); [|done]. intros H%IH. by right. Qed.
Lemma take_flags_in f flags c : c ∈ snd (take_flags f flags) → c ∈ f.
Proof.
  revert flags. induction f as [|d f IH]; intros flags; cbn [take_flags]; [done|].
  repeat (destruct (d =? _); [intros H%IH; by right|]). done.
Qed.
Lemma take_width_in f args flags y c : take_width f args flags = Some y → c ∈ sp_fmt (snd y) → c ∈ f.
Proof.
  destruct f as [|d f]; cbn [take_width]; [by intros [= <-]|]. destruct (isdigit d); [intros [= <-]; exact (take_num_in (d :: f) 0 c)|].
  destruct (d =? 42); [|by intros [= <-]]. destruct (take_arg args) as [x|]; [|done]. cbn [mbind option_bind].
  destruct (_ <? 0); intros [= <-]; cbn; by right.
Qed.
Lemma take_precision_in f args y c : take_precision f args = Some y → c ∈ sp_fmt (snd y) → c ∈ f.
Proof.
  destruct f as [|d f]; cbn [take_precision]; [by intros [= <-]|]. destruct (d =? 46); [|by intros [= <-]].
  destruct f as [|e f]; [by intros [= <-] ?%not_elem_of_nil|]. destruct (isdigit e); [intros [= <-] H; right; exact (take_num_in (e :: f) 0 c H)|].
  destruct (e =? 42); [|intros [= <-]; cbn; by right]. destruct (take_arg args) as [x|]; [|done]. cbn [mbind option_bind].
  intros [= <-]. cbn. intros H. by right; right.
Qed.
Lemma take_qualifier_in f c : c ∈ snd (take_qualifier f) → c ∈ f.
Proof.
  destruct f as [|d f]; [done|]. cbn [take_qualifier]. destruct (_ || _); [|done]. destruct f as [|e f]; [by intros ?%not_elem_of_nil|].
  destruct (_ && _); cbn; intros H; [by right; right|by right].
Qed.
Lemma render_no_ptr strs p1 p2 n f args out : 112 ∉ f → render strs p1 n f args out = render strs p2 n f args out.
Proof.
  revert f args out. induction n as [|n IH]; intros f args out Hf; [done|]. cbn [render]. destruct f as [|c f]; [done|].
  destruct (negb (c =? 37)); [apply IH; set_solver|].
  assert (render_directive strs p1 f args out = render_directive strs p2 f args out ∧
    ∀ r, render_directive strs p2 f args out = Some r → 112 ∉ sp_fmt (snd r)) as [-> Hin].
  { rewrite /render_directive. destruct (take_width _ _ _) as [y|] eqn:Ey; [|done]. cbn [mbind option_bind].
    destruct (take_precision _ _) as [z|] eqn:Ez; [|done]. cbn [mbind option_bind]. destruct (snd (take_qualifier _)) as [|c' f'] eqn:Eq.
    { split; [done|]. intros r [= <-]. apply not_elem_of_nil. }
    assert (∀ b, b ∈ c' :: f' → b ∈ f) as Hsub.
    { intros b Hb. rewrite -Eq in Hb. by apply take_qualifier_in, (take_precision_in _ _ _ _ Ez), (take_width_in _ _ _ _ _ Ey), take_flags_in in Hb. }
    assert (c' ≠ 112) as Hn. { intros ->. apply Hf. right. apply Hsub. by left. }
    rewrite /convert (proj2 (Z.eqb_neq c' 112) Hn). split; [done|].
    intros r. destruct (_ : option (list Z * list Z)) as [x|]; [|done]. cbn [mbind option_bind]. intros [= <-]. cbn.
    intros H. apply Hf. right. apply Hsub. by right. }
  destruct (render_directive strs p2 f args out) as [r|]; [|done]. cbn [mbind option_bind]. apply IH. by apply Hin.
Qed.

(** C16: [vsnprintf] of a format without [%n]: it returns, the buffer holds the
    text of the format cut to [size - 1] characters and a terminator (nothing
    at all when [size] is zero), and no byte outside of the buffer is written.
    The return value is the length of the whole text if the text fits or the
    format prints no pointer; otherwise the prefix of a pointer is not counted
    where it does not fit, and the value is at least [size - 1].  The format
    and the strings lie outside of the buffer, and the text is shorter than
    two gigabytes. *)
Theorem vsnprintf_correct null_str strs K n fuel m0 buf size fmt f args text :
  0 < buf → 0 ≤ size → buf + size ≤ 2 ^ 32 → owned m0 buf (Z.to_nat size) → words args →
  fixed m0 buf (buf + size - 1) fmt f →
  (∀ a l, strs a = Some l → fixed m0 buf (buf + size - 1) (if a =? NULL then null_str else a) l ∧
     (length l ≤ K)%nat ∧ len l < 2 ^ 31) →
  (length f + K < fuel)%nat → render strs whole_prefix n f args [] = Some text →
  buf + len text + 2 < 2 ^ 32 → len text < 2 ^ 31 →
  ∃ r s', vsnprintf null_str fuel buf size fmt (mk_vs m0 args) = Ret (r, s') ∧
    buffer_holds m0 (vs_mem s') buf size text ∧
    (len text < size ∨ 112 ∉ f → r = len text) ∧ (size ≤ len text → size - 1 ≤ r ≤ len text).
Proof.
  intros Hb Hs Hbs Ho Hw Hfx Hst Hf Hr Hl H31.
  destruct (render_cut strs size n f args [] [] text Hr) as (res & Hres & Htk & Hor); [split; [done|by left]|].
  assert (len res ≤ len text) as Hle by (destruct Hor as [->|]; lia).
  destruct (wp_elim _ _ _ (wp_vsnprintf null_str strs K n fuel m0 buf size fmt f args res Hb Hs Hbs Ho Hw Hfx Hst Hf Hres ltac:(lia) ltac:(lia)))
    as (r & s' & E & -> & H). exists (len res), s'. split; [done|]. split; [|split].
  - by rewrite /buffer_holds -Htk.
  - intros [Hfit|Hp].
    + destruct Hor as [->|Hor]; [done|]. lia.
    + rewrite (render_no_ptr strs _ whole_prefix n f args [] Hp) in Hres. congruence.
  - intros Hlong. destruct Hor as [->|]; lia.
Qed.

(** A buffer of eight bytes at 100, the format "%-4d|%s" at 200, "ab" at 300. *)
Definition ex_fmt : list Z := [37; 45; 52; 100; 124; 37; 115].
Definition ex_vs_mem : mem :=
  list_to_map ((λ i, (100 + i, 7)) <$> seqZ 0 8) ∪ list_to_map (zip (seqZ 200 8) (ex_fmt ++ [0])) ∪
  list_to_map (zip (seqZ 300 3) [97; 98; 0]).
Definition ex_strs (a : Z) : option (list Z) := if a =? 300 then Some [97; 98] else None.

Lemma number_witness : ∃ s',
  number (100 + len []) 107 (-42) 10 5 (-1) SIGN (mk_vs ex_vs_mem []) = Ret (100 + len [32; 32; 45; 52; 50], s') ∧
  ok ex_vs_mem 100 107 [32; 32; 45; 52; 50] [] s'.
Proof.
  apply (number_correct ex_vs_mem 100 107 (-42) 10 5 (-1) SIGN (mk_vs ex_vs_mem []) [] []).
  - lia.
  - intros a Ha. apply (ownedb ex_vs_mem 100 8); [vm_compute; reflexivity|lia].
  - lia.
  - lia.
  - split; [apply emitted_nil|reflexivity].
  - vm_compute. reflexivity.
Defined.

Lemma num_text_value_witness : ∃ ds, digits_text (-255) 16 SIGN = digit false <$> rev ds ∧
  Forall (λ d, 0 ≤ d < 16) ds ∧ undigits 16 ds = 255.
Proof. apply (num_text_value (-255) 16 SIGN); [lia|vm_compute; split; [discriminate|reflexivity]]. Defined.

(** "42  |ab" is cut to seven characters. *)
Lemma vsnprintf_witness : ∃ r s', vsnprintf 400 20 100 8 200 (mk_vs ex_vs_mem [42; 300]) = Ret (r, s') ∧
  buffer_holds ex_vs_mem (vs_mem s') 100 8 [52; 50; 32; 32; 124; 97; 98] ∧
  (len [52; 50; 32; 32; 124; 97; 98] < 8 ∨ 112 ∉ ex_fmt → r = 7) ∧ (8 ≤ len [52; 50; 32; 32; 124; 97; 98] → 8 - 1 ≤ r ≤ 7).
Proof.
  apply (vsnprintf_correct 400 ex_strs 2 8 20 ex_vs_mem 100 8 200 ex_fmt [42; 300]).
  - lia.
  - lia.
  - lia.
  - apply ownedb. vm_compute. reflexivity.
  - repeat constructor; lia.
  - split; [split; [vm_compute; done|repeat constructor]|]. right. vm_compute. reflexivity.
  - intros a l Ha. rewrite /ex_strs in Ha. destruct (Z.eqb_spec a 300) as [->|]; [|done]. injection Ha as <-.
    split_and!; [split; [split; [vm_compute; done|repeat constructor]|]| |].
    + right. vm_compute. reflexivity.
    + simpl. lia.
    + vm_compute. reflexivity.
  - simpl. lia.
  - vm_compute. reflexivity.
  - vm_compute. reflexivity.
  - vm_compute. reflexivity.
Defined.
