(* ===== verification/KeyTree.v ===== *)
(** * Searching an ordered red-black tree

    [iget] and [pagecache_file_readpage] contain the same loop: it walks down
    from the root of a tree ordered by a key, remembering the link it came
    through, until it meets the key or the place where it belongs.  The loop
    is written once here, over the way the caller reads a key and a node. *)
From S2P Require Import Prelude Rbtree RbtreeRep RbtreeInsert RbtreeErase RbtreeWalk.

Inductive search_result := Found (n : Z) | Hole (p : rb_link) (parent : Z).

Section search.
Context {T : Type} (ld_key : Z → M T Z) (ld_nd : Z → M T rb_node).

(** [for(p = &root, parent = NULL; *p; ) { parent = *p; ... }] *)
Fixpoint key_search (fuel : nat) (p : rb_link) (at_ parent key : Z) : M T search_result :=
  match fuel with
  | O => nofuel
  | S fuel =>
    if at_ =? NULL then ret (Hole p parent) else
    let! k := ld_key at_ in
    let! nd := ld_nd at_ in
    if key <? k then key_search fuel (LinkChild at_ RB_LEFT) (rb_child nd RB_LEFT) at_ key
    else if k <? key then key_search fuel (LinkChild at_ RB_RIGHT) (rb_child nd RB_RIGHT) at_ key
    else ret (Found at_)
  end.
End search.

(** Nodes in the order of their keys, no key twice. *)
Definition ksorted (key : Z → Z) (l : list Z) : Prop := StronglySorted (λ a b, key a < key b) l.

Lemma ksorted_mid key l a r : ksorted key (l ++ a :: r) ↔
  ksorted key (l ++ r) ∧ (∀ b, b ∈ l → key b < key a) ∧ (∀ b, b ∈ r → key a < key b).
Proof.
  rewrite /ksorted !StronglySorted_app StronglySorted_cons Forall_forall. split.
  - intros (H1 & H2 & H3 & H4). split_and!; [set_solver|done|done|set_solver|done].
  - intros ((H1 & H2 & H3) & H4 & H5). split_and!; [|done|done|done].
    intros x y Hx [->|Hy]%elem_of_cons; auto.
Qed.

Lemma ksorted_ext key key' l : (∀ a, a ∈ l → key' a = key a) → ksorted key l → ksorted key' l.
Proof.
  intros He. induction 1 as [|a l Hs IH Hf]; constructor; [apply IH; set_solver|].
  rewrite Forall_forall in Hf. apply Forall_forall. intros b Hb. rewrite !He; [set_solver..|]. by apply Hf.
Qed.

(** The keys of an ordered list designate their nodes. *)
Lemma ksorted_inj key l a b : ksorted key l → a ∈ l → b ∈ l → key a = key b → a = b.
Proof.
  induction 1 as [|x l Hs IH Hf]; [set_solver|]. rewrite Forall_forall in Hf.
  intros [->|Ha]%elem_of_cons [->|Hb]%elem_of_cons E; [done| | |auto].
  - specialize (Hf _ Hb). lia.
  - specialize (Hf _ Ha). lia.
Qed.

Lemma tree_focus_cell s0 s k c l a r :
  rep s0 s (plug k (Node c l a r)) → ∃ n, rb_nodes s !! a = Some n ∧
    rb_child n RB_LEFT = ptr l ∧ rb_child n RB_RIGHT = ptr r.
Proof.
  intros Hr. pose proof (rep_agree _ _ _ Hr) as Ha. apply agree_plug in Ha as [(Hc & _) _].
  eexists. split; [exact Hc|]. done.
Qed.

(** A cell outside of the tree may change. *)
Lemma rep_outside_tree s0 s t v n :
  rep s0 s t → cnt v t = 0%nat →
  rep (mk_rb_store (<[v := n]> (rb_nodes s)) (rb_root s))
      (mk_rb_store (<[v := n]> (rb_nodes s)) (rb_root s)) t.
Proof. intros [] Hv. split; simpl; try done. by apply agree_insert. Qed.

Section search_spec.
Context {T : Type} (ld_key : Z → M T Z) (ld_nd : Z → M T rb_node).

Lemma wp_key_search s0 st (s : T) key v fuel k t :
  rep s0 st (plug k t) →
  (∀ a n, rb_nodes st !! a = Some n → ld_nd a s = Ret (n, s)) →
  (∀ a, a ∈ inorder (plug k t) → ld_key a s = Ret (key a, s)) →
  ksorted key (inorder (plug k t)) → (height t < fuel)%nat →
  (∀ a, a ∈ before true k → key a < v) → (∀ a, a ∈ after true k → v < key a) →
  wp (key_search ld_key ld_nd fuel (link_of k) (ptr t) (up k) v) (λ r s', s' = s ∧
    ((∃ a, r = Found a ∧ a ∈ inorder (plug k t) ∧ key a = v) ∨
     (∃ k', r = Hole (link_of k') (up k') ∧ plug k' Leaf = plug k t ∧
       (∀ a, a ∈ before true k' → key a < v) ∧ (∀ a, a ∈ after true k' → v < key a)))) s.
Proof.
  revert k t. induction fuel as [|fuel IH]; intros k t Hr Hnd Hkey Hs Hf Hb Ha; [lia|].
  destruct t as [|cl l a r]; cbn [key_search ptr].
  { apply wp_ret. split; [done|]. right. by exists k. }
  assert (good_ptr a) as [_ Hn].
  { rewrite nd_false in Hr. eapply rep_focus_good. exact Hr. }
  rewrite (proj2 (Z.eqb_neq _ _) Hn).
  destruct (tree_focus_cell _ _ _ _ _ _ _ Hr) as (n & Hc & El & Er).
  pose proof (dir_plug true k (Node cl l a r) : inorder _ = _ ++ inorder _ ++ _) as Hio. simpl in Hio.
  assert (a ∈ inorder (plug k (Node cl l a r))) as Hin by (rewrite Hio; set_solver).
  apply wp_bind. rewrite {1}/wp (Hkey a Hin). apply wp_bind. rewrite {1}/wp (Hnd _ _ Hc) El Er.
  pose proof Hs as Hs'. rewrite Hio -!app_assoc app_assoc /= in Hs'.
  apply ksorted_mid in Hs' as (_ & Hlt & Hgt). simpl in Hf.
  destruct (Z.ltb_spec v (key a)) as [Hv|Hv].
  { apply (IH (Fr false cl a r :: k)); [done|done|done|done|lia|done|].
    change (∀ b, b ∈ a :: inorder r ++ after true k → v < key b).
    intros b [->|Hb']%elem_of_cons; [done|]. assert (v < key b); [|done]. specialize (Hgt b). apply elem_of_app in Hb'. destruct Hb'; [|by apply Ha]. etrans; [exact Hv|]. apply Hgt. set_solver. }
  destruct (Z.ltb_spec (key a) v) as [Hv'|Hv'].
  { apply (IH (Fr true cl a l :: k)); [done|done|done|done|lia| |done].
    change (∀ b, b ∈ before true k ++ inorder l ++ [a] → key b < v).
    intros b Hb'. destruct (decide (b = a)) as [->|]; [done|].
    assert (b ∈ before true k ∨ b ∈ inorder l) as [?|?] by set_solver; [by apply Hb|].
    etrans; [|exact Hv']. apply Hlt. set_solver. }
  apply wp_ret. split; [done|]. left. exists a. split_and!; [done|done|lia].
Qed.
End search_spec.
