(* ===== verification/Inode.v ===== *)
(** * The inode cache ([fs/inode.c], [struct inode], [struct super], [iref] and
      [iput] of [include/scaraOS/vfs.h])

    The cached inodes of a mounted file system are the nodes of a red-black
    tree ordered by inode number ([i_cache] is the first member, so an inode
    and its node have the same address).  The inodes nobody holds are also on
    the list [slack_inodes]. *)
From S2P Require Import Prelude ObjAlloc Rbtree KeyTree.

(** The operation tables an inode may point to: none yet, [ext2_reg_iop],
    [ext2_dir_iop]. *)
Inductive inode_ops := NoIop | RegIop | DirIop.

(** [struct inode]; its node is in the store of nodes, [i_list] is its place in
    [slack_inodes]. *)
Record inode := mk_inode {
  i_ino : Z;
  i_sb : Z;
  i_count : Z;
  i_pagecache : Z;
  i_sem : Z;
  i_iop : inode_ops;
  i_mode : Z;
  i_uid : Z;
  i_gid : Z;
  i_size : Z;
  i_nlink : Z;
  i_blocks : Z;
  i_block : list Z
}.

Definition set_i_count (v : Z) (i : inode) : inode :=
  mk_inode (i_ino i) (i_sb i) v (i_pagecache i) (i_sem i) (i_iop i) (i_mode i) (i_uid i) (i_gid i)
    (i_size i) (i_nlink i) (i_blocks i) (i_block i).

(** [struct super]; [s_info] is what the file system keeps in [u]. *)
Record super (I : Type) := mk_super {
  s_dev : Z;
  s_inode_cache : Z;
  s_sem : Z;
  s_blocksize : Z;
  s_root : Z;
  s_info : I
}.
Arguments mk_super {I}.
Arguments s_dev {I}.
Arguments s_inode_cache {I}.
Arguments s_sem {I}.
Arguments s_blocksize {I}.
Arguments s_root {I}.
Arguments s_info {I}.

Definition set_s_inode_cache {I} (v : Z) (s : super I) : super I :=
  mk_super (s_dev s) v (s_sem s) (s_blocksize s) (s_root s) (s_info s).
Definition set_s_sem {I} (v : Z) (s : super I) : super I :=
  mk_super (s_dev s) (s_inode_cache s) v (s_blocksize s) (s_root s) (s_info s).

(** [struct super_ops]: [read_inode] fills in an inode, or fails. *)
Class SuperOps (I E : Type) := {
  read_inode : super I → inode → M E (option inode)
}.

(** The object cache of the file. *)
Definition inodes_cache : Z := 3.

Section icache.
Context {P I E : Type} `{!ObjOps P, !SuperOps I E}.

Record icache := mk_icache {
  ic_nodes : gmap Z rb_node;
  ic_inodes : gmap Z inode;
  ic_supers : gmap Z (super I);
  slack_inodes : list Z;
  slacksem : Z;
  ic_objs : P;
  ic_env : E
}.

Definition upd_ic_nodes (v : gmap Z rb_node) (c : icache) : icache :=
  mk_icache v (ic_inodes c) (ic_supers c) (slack_inodes c) (slacksem c) (ic_objs c) (ic_env c).
Definition upd_inodes (f : gmap Z inode → gmap Z inode) (c : icache) : icache :=
  mk_icache (ic_nodes c) (f (ic_inodes c)) (ic_supers c) (slack_inodes c) (slacksem c) (ic_objs c) (ic_env c).
Definition upd_supers (f : gmap Z (super I) → gmap Z (super I)) (c : icache) : icache :=
  mk_icache (ic_nodes c) (ic_inodes c) (f (ic_supers c)) (slack_inodes c) (slacksem c) (ic_objs c) (ic_env c).
Definition upd_slack (f : list Z → list Z) (c : icache) : icache :=
  mk_icache (ic_nodes c) (ic_inodes c) (ic_supers c) (f (slack_inodes c)) (slacksem c) (ic_objs c) (ic_env c).
Definition set_slacksem (v : Z) (c : icache) : icache :=
  mk_icache (ic_nodes c) (ic_inodes c) (ic_supers c) (slack_inodes c) v (ic_objs c) (ic_env c).
Definition set_ic_objs (v : P) (c : icache) : icache :=
  mk_icache (ic_nodes c) (ic_inodes c) (ic_supers c) (slack_inodes c) (slacksem c) v (ic_env c).
Definition set_ic_env (v : E) (c : icache) : icache :=
  mk_icache (ic_nodes c) (ic_inodes c) (ic_supers c) (slack_inodes c) (slacksem c) (ic_objs c) v.

Abbreviation IC := (M icache).

Definition ld_inode (i : Z) : IC inode := let! c := get in deref (ic_inodes c !! i).
Definition st_inode (i : Z) (f : inode → inode) : IC unit :=
  let! x := ld_inode i in modify (upd_inodes (insert i (f x))).
Definition ld_super (sb : Z) : IC (super I) := let! c := get in deref (ic_supers c !! sb).
Definition st_super (sb : Z) (f : super I → super I) : IC unit :=
  let! x := ld_super sb in modify (upd_supers (insert sb (f x))).
Definition ld_inode_node (i : Z) : IC rb_node := let! c := get in deref (ic_nodes c !! i).
Definition ld_ino (i : Z) : IC Z := let! x := ld_inode i in ret (i_ino x).

(** [sem_P] and [sem_V] of [slacksem] and of [sb->s_sem]. *)
Definition slack_P : IC unit := zoom slacksem set_slacksem down.
Definition slack_V : IC unit := zoom slacksem set_slacksem sem_up.
Definition super_P (sb : Z) : IC unit :=
  let! s := ld_super sb in
  if s_sem s <=? 0 then block else st_super sb (set_s_sem (s_sem s - 1)).
Definition super_V (sb : Z) : IC unit := st_super sb (λ s, set_s_sem (s_sem s + 1) s).

(** A tree routine on the inode cache of [sb]. *)
Definition on_inode_tree {A} (sb : Z) (m : M rb_store A) : IC A :=
  let! s := ld_super sb in
  zoom (λ c, mk_rb_store (ic_nodes c) (s_inode_cache s))
       (λ t c, upd_supers (insert sb (set_s_inode_cache (rb_root t) s)) (upd_ic_nodes (rb_nodes t) c)) m.

(** [list_del(&in->i_list)]: an inode that is held is on no list but its own. *)
Definition slack_del (i : Z) : IC unit := modify (upd_slack (filter (λ x, x ≠ i))).

Definition new_inode (sb ino : Z) : inode :=
  mk_inode ino sb 0 NULL 1 NoIop 0 0 0 0 0 0 [].

(** [iget] from the allocation on. *)
Definition iget_new (fuel : nat) (sb ino : Z) (p : rb_link) (parent : Z) : IC Z :=
  let! new := zoom ic_objs set_ic_objs (obj_alloc inodes_cache) in
  if new =? NULL then ret NULL else
  let! s := ld_super sb in
  let! r := zoom ic_env set_ic_env (read_inode s (new_inode sb ino)) in
  match r with
  | None => do! zoom ic_objs set_ic_objs (obj_free inodes_cache new) then ret NULL
  | Some x =>
    do! modify (upd_inodes (insert new (set_i_count 1 x))) then
    do! on_inode_tree sb (do! rb_link_node new parent p then rb_insert_color fuel new) then
    ret new
  end.

Definition iget (fuel : nat) (sb ino : Z) : IC Z :=
  do! slack_P then
  do! super_P sb then
  let! s := ld_super sb in
  let! r := key_search ld_ino ld_inode_node fuel LinkRoot (s_inode_cache s) NULL ino in
  match r with
  | Found i =>
    do! st_inode i (λ x, set_i_count (u32 (i_count x + 1)) x) then
    do! slack_del i then
    do! slack_V then
    do! super_V sb then
    ret i
  | Hole p parent =>
    let! new := iget_new fuel sb ino p parent in
    do! slack_V then
    do! super_V sb then
    ret new
  end.

Definition inode_iref (i : Z) : IC Z :=
  do! st_inode i (λ x, set_i_count (u32 (i_count x + 1)) x) then ret i.

Definition inode_free (i : Z) : IC unit :=
  let! x := ld_inode i in
  do! bug_on (ctrue (i_count x)) then
  do! slack_P then
  do! modify (upd_slack (λ l, l ++ [i])) then
  slack_V.

Definition iput (i : Z) : IC unit :=
  let! x := ld_inode i in
  do! bug_on (i_count x =? 0) then
  do! st_inode i (set_i_count (u32 (i_count x - 1))) then
  when (u32 (i_count x - 1) =? 0) (inode_free i).

(** [__inode_free] *)
Definition do_inode_free (fuel : nat) (i : Z) : IC unit :=
  if i =? NULL then ret tt else
  let! x := ld_inode i in
  do! super_P (i_sb x) then
  do! on_inode_tree (i_sb x) (rb_erase fuel i) then
  do! slack_del i then
  do! super_V (i_sb x) then
  do! modify (upd_inodes (delete i)) then
  zoom ic_objs set_ic_objs (obj_free inodes_cache i).

Fixpoint squeeze_each (fuel : nat) (l : list Z) : IC unit :=
  match l with
  | [] => ret tt
  | i :: l => do! do_inode_free fuel i then squeeze_each fuel l
  end.
Definition _squeeze_inode_cache (fuel : nat) : IC unit :=
  do! slack_P then
  let! l := gets slack_inodes in
  do! squeeze_each fuel l then
  slack_V.
End icache.
