(* ===== verification/InodeProps.v ===== *)
(** * The inode cache: every inode number has at most one inode in memory *)
From S2P Require Import Prelude ObjAlloc Rbtree RbtreeRep RbtreeInsert RbtreeErase RbtreeWalk KeyTree Inode.

Section icache.
Context {P I E : Type} `{!ObjOps P, !ObjSpec P, !SuperOps I E}.
Implicit Types (c : @icache P I E) (s : super I) (t : tree).

Definition ino_of c (a : Z) : Z := from_option i_ino 0 (ic_inodes c !! a).
Definition inode_store c s : rb_store := mk_rb_store (ic_nodes c) (s_inode_cache s).

(** The inodes of [sb] in memory are the nodes of [t], in the order of their
    numbers; those on the slack list are the ones without a reference. *)
Record icache_ok c (sb : Z) s t (A : gset Z) : Prop := {
  ok_super : ic_supers c !! sb = Some s;
  ok_sem : s_sem s = 1;
  ok_rep : rep (inode_store c s) (inode_store c s) t;
  ok_rb : rbtree t;
  ok_inode a : a ∈ inorder t → ∃ x, ic_inodes c !! a = Some x ∧ i_sb x = sb ∧
    0 ≤ i_count x < 2 ^ 32 ∧ (a ∈ slack_inodes c ↔ i_count x = 0);
  ok_sorted : ksorted (ino_of c) (inorder t);
  ok_slack : NoDup (slack_inodes c);
  ok_live : objs_live (ic_objs c) A;
  ok_tree_live a : a ∈ inorder t → a ∈ A
}.

Lemma wp_ld_inode c i x (Q : inode → icache → Prop) :
  ic_inodes c !! i = Some x → Q x c → wp (ld_inode i) Q c.
Proof. intros H HQ. apply wp_bind. rewrite /wp /= H. done. Qed.
Lemma wp_st_inode c i x f (Q : unit → icache → Prop) :
  ic_inodes c !! i = Some x → Q tt (upd_inodes (insert i (f x)) c) → wp (st_inode i f) Q c.
Proof. intros H HQ. apply wp_bind. eapply wp_ld_inode; [exact H|]. by apply wp_modify. Qed.
Lemma wp_ld_super c sb s (Q : super I → icache → Prop) :
  ic_supers c !! sb = Some s → Q s c → wp (ld_super sb) Q c.
Proof. intros H HQ. apply wp_bind. rewrite /wp /= H. done. Qed.
Lemma wp_st_super c sb s f (Q : unit → icache → Prop) :
  ic_supers c !! sb = Some s → Q tt (upd_supers (insert sb (f s)) c) → wp (st_super sb f) Q c.
Proof. intros H HQ. apply wp_bind. eapply wp_ld_super; [exact H|]. by apply wp_modify. Qed.

Lemma wp_slack_P c (Q : unit → icache → Prop) : slacksem c = 1 → Q tt (set_slacksem 0 c) → wp slack_P Q c.
Proof. intros Hs HQ. apply wp_zoom. rewrite Hs. apply wp_down; [lia|]. exact HQ. Qed.
Lemma wp_super_P c sb s (Q : unit → icache → Prop) :
  ic_supers c !! sb = Some s → s_sem s = 1 → Q tt (upd_supers (insert sb (set_s_sem 0 s)) c) → wp (super_P sb) Q c.
Proof.
  intros H Hs HQ. apply wp_bind. eapply wp_ld_super; [exact H|]. rewrite Hs. change (1 <=? 0) with false. cbv iota.
  eapply wp_st_super; [exact H|]. exact HQ.
Qed.

(** Releasing both semaphores. *)
Definition locked c (sb : Z) s : Prop := slacksem c = 0 ∧ ic_supers c !! sb = Some (set_s_sem 0 s) ∧ s_sem s = 1.
Definition released c (sb : Z) s : icache := upd_supers (insert sb s) (set_slacksem 1 c).

Lemma wp_unlock {A} c sb s (r : A) (Q : A → icache → Prop) :
  locked c sb s → Q r (released c sb s) → wp (do! slack_V then do! super_V sb then ret r) Q c.
Proof.
  intros (H1 & H2 & H3) HQ. apply wp_bind, wp_zoom. rewrite H1. apply wp_bind.
  eapply wp_st_super; [exact H2|]. apply wp_ret. cbv beta.
  assert (set_s_sem (s_sem (set_s_sem 0 s) + 1) (set_s_sem 0 s) = s) as Hs by (destruct s; simpl in *; by subst).
  rewrite Hs. exact HQ.
Qed.

Lemma ino_of_insert c a x b : i_ino x = ino_of c a → ino_of (upd_inodes (insert a x) c) b = ino_of c b.
Proof.
  intros Hx. rewrite /ino_of /=. destruct (decide (b = a)) as [->|].
  - rewrite lookup_insert_eq. exact Hx.
  - rewrite lookup_insert_ne; [congruence|done].
Qed.

(** The search of [iget]. *)
Lemma wp_iget_search c sb s t A ino fuel c1 :
  icache_ok c sb s t A → (height t < fuel)%nat →
  ic_nodes c1 = ic_nodes c → ic_inodes c1 = ic_inodes c →
  wp (key_search ld_ino ld_inode_node fuel LinkRoot (s_inode_cache s) NULL ino) (λ r c', c' = c1 ∧
    ((∃ a, r = Found a ∧ a ∈ inorder t ∧ ino_of c a = ino) ∨
     (∃ k, r = Hole (link_of k) (up k) ∧ plug k Leaf = t ∧
       (∀ a, a ∈ before true k → ino_of c a < ino) ∧ (∀ a, a ∈ after true k → ino < ino_of c a)))) c1.
Proof.
  intros [] Hf En Ei. pose proof (rep_root _ _ _ ok_rep0) as Hroot. simpl in Hroot. rewrite Hroot.
  apply (wp_key_search _ _ (inode_store c s) (inode_store c s) c1 (ino_of c) ino fuel [] t); [exact ok_rep0| | |done|done|set_solver|set_solver].
  - intros a n Hn. rewrite /ld_inode_node /bind /= En. simpl in Hn. by rewrite Hn.
  - intros a Ha. destruct (ok_inode0 a Ha) as (x & Hx & _). rewrite /ld_ino /ld_inode /bind /= Ei Hx /=.
    by rewrite /ino_of Hx.
Qed.

(** An inode gains a reference. *)
Definition referenced c (i : Z) (x : inode) : icache :=
  upd_slack (filter (λ y, y ≠ i)) (upd_inodes (insert i (set_i_count (i_count x + 1) x)) c).

Lemma referenced_ok c sb s t A i x :
  icache_ok c sb s t A → i ∈ inorder t → ic_inodes c !! i = Some x → i_count x + 1 < 2 ^ 32 →
  icache_ok (referenced c i x) sb s t A.
Proof.
  intros [] Hi Hx Hc. assert (i_ino (set_i_count (i_count x + 1) x) = ino_of c i) as Hk by (by rewrite /ino_of Hx).
  split; simpl; try done.
  - intros a Ha. destruct (ok_inode0 a Ha) as (y & Hy & Hsb & Hcy & Hsl).
    destruct (decide (a = i)) as [->|Hne].
    + rewrite Hx in Hy. injection Hy as <-. rewrite lookup_insert_eq. eexists. split; [done|]. simpl.
      split_and!; [done|lia|lia|]. rewrite list_elem_of_filter. split; [naive_solver|lia].
    + rewrite lookup_insert_ne; [congruence|]. exists y. split_and!; [done|done|lia|lia|].
      rewrite list_elem_of_filter. naive_solver.
  - eapply ksorted_ext; [|exact ok_sorted0]. intros a _. exact (ino_of_insert c i _ a Hk).
  - by apply NoDup_filter.
Qed.
(** A new inode enters the tree. *)
Lemma wp_inode_link c sb s t A k v x fuel c1 :
  icache_ok c sb s t A → (height t < fuel)%nat → plug k Leaf = t → v ∉ A → good_ptr v →
  (∀ a, a ∈ before true k → ino_of c a < i_ino x) → (∀ a, a ∈ after true k → i_ino x < ino_of c a) →
  locked c1 sb s → ic_nodes c1 = ic_nodes c → ic_inodes c1 = <[v := x]> (ic_inodes c) →
  slack_inodes c1 = slack_inodes c → v ∉ slack_inodes c → i_sb x = sb → i_count x = 1 →
  objs_live (ic_objs c1) ({[ v ]} ∪ A) →
  wp (on_inode_tree sb (do! rb_link_node v (up k) (link_of k) then rb_insert_color fuel v)) (λ _ c',
    ∃ s' t' pre post, locked c' sb s' ∧ inorder t = pre ++ post ∧ inorder t' = pre ++ v :: post ∧
      ic_inodes c' = <[v := x]> (ic_inodes c) ∧ ic_env c' = ic_env c1 ∧ icache_ok (released c' sb s') sb s' t' ({[ v ]} ∪ A)) c1.
Proof.
  intros [] Hf Ht Hv Hg Hb Ha (Hl1 & Hl2 & Hl3) En Ei Es Hvs Hsb Hcnt Hlive.
  assert (v ∉ inorder t) as Hvt by naive_solver.
  apply wp_bind. eapply wp_ld_super; [exact Hl2|]. apply wp_zoom. cbn [s_inode_cache set_s_sem]. rewrite En.
  change (s_inode_cache (set_s_sem 0 s)) with (s_inode_cache s).
  change (mk_rb_store (ic_nodes c) (s_inode_cache s)) with (inode_store c s).
  eapply wp_mono.
  { eapply (wp_link_insert (inode_store c s)); [by rewrite Ht|by rewrite Ht|rewrite Ht; by apply cnt_inorder|done|by rewrite Ht]. }
  intros [] st (t' & Hr & Hio & Hrb).
  pose proof (dir_plug true k Leaf : inorder _ = _) as H0. simpl in H0.
  pose proof (dir_plug true k (Node false Leaf v Leaf) : inorder _ = _) as H1. simpl in H1.
  rewrite Ht in H0. rewrite H1 in Hio.
  exists (set_s_inode_cache (rb_root st) s), t', (before true k), (after true k).
  split; [split_and!; [exact Hl1|simpl; by rewrite lookup_insert_eq|done]|]. split; [done|]. split; [done|]. split; [exact Ei|]. split; [done|].
  assert (∀ a, a ∈ inorder t → ino_of (released (upd_supers (insert sb (set_s_inode_cache (rb_root st) (set_s_sem 0 s)))
    (upd_ic_nodes (rb_nodes st) c1)) sb (set_s_inode_cache (rb_root st) s)) a = ino_of c a) as Hk.
  { intros a Ha'. rewrite /ino_of /= Ei lookup_insert_ne //. intros ->. done. }
  split; simpl.
  - by rewrite lookup_insert_eq.
  - done.
  - assert (inode_store (released (upd_supers (insert sb (set_s_inode_cache (rb_root st) (set_s_sem 0 s)))
      (upd_ic_nodes (rb_nodes st) c1)) sb (set_s_inode_cache (rb_root st) s)) (set_s_inode_cache (rb_root st) s) = st) as ->
      by (by destruct st). destruct Hr. by split.
  - done.
  - intros a. rewrite Hio Ei Es elem_of_mid -H0. intros [->|Ha'].
    + rewrite lookup_insert_eq. exists x. rewrite Hcnt. split_and!; [done|done|lia|lia|]. split; [done|lia].
    + rewrite lookup_insert_ne; [congruence|]. by apply ok_inode0.
  - rewrite Hio. apply ksorted_mid. split_and!.
    + rewrite -H0. eapply ksorted_ext; [exact Hk|exact ok_sorted0].
    + intros b Hb'. rewrite (Hk b); [rewrite H0; rewrite elem_of_app; by left|]. rewrite {2}/ino_of /= Ei lookup_insert_eq /=. by apply Hb.
    + intros b Hb'. rewrite (Hk b); [rewrite H0 elem_of_app; by right|]. rewrite {1}/ino_of /= Ei lookup_insert_eq /=. by apply Ha.
  - by rewrite Es.
  - done.
  - intros a. rewrite Hio elem_of_mid -H0. intros [->|Ha']; [apply elem_of_union_l, elem_of_singleton_2; done|].
    by apply elem_of_union_r, ok_tree_live0.
Qed.

(** Locks taken and released change nothing else. *)
Lemma icache_ok_same c c' sb s t A :
  icache_ok c sb s t A → ic_nodes c' = ic_nodes c → ic_inodes c' = ic_inodes c →
  slack_inodes c' = slack_inodes c → ic_supers c' !! sb = Some s →
  objs_live (ic_objs c') A → icache_ok c' sb s t A.
Proof.
  intros [] En Ei Es Hs Hl. split; try done.
  - rewrite /inode_store En. exact ok_rep0.
  - rewrite Ei Es. exact ok_inode0.
  - eapply ksorted_ext; [|exact ok_sorted0]. intros a _. by rewrite /ino_of Ei.
  - by rewrite Es.
Qed.

(** What [read_inode] gives for a new inode, in the state of the file system
    that [iget] finds. *)
Definition read_gives c sb s ino (r : option inode) (e : E) : Prop :=
  read_inode (set_s_sem 0 s) (new_inode sb ino) (ic_env c) = Ret (r, e).

(** There is no object for an inode, or there is one and the read fails. *)
Definition iget_fails c sb s ino c' : Prop :=
  obj_alloc inodes_cache (ic_objs c) = Ret (NULL, ic_objs c') ∧ ic_env c' = ic_env c ∨
  (∃ v p, obj_alloc inodes_cache (ic_objs c) = Ret (v, p) ∧ v ≠ NULL) ∧ read_gives c sb s ino None (ic_env c').

(** What [iget] gives: the inode in memory; a new one, with what was read, and
    added; or nothing. *)
Definition iget_post c sb s t (A : gset Z) (ino r : Z) c' : Prop :=
  slacksem c' = 1 ∧ ((∃ x, r ∈ inorder t ∧ ic_inodes c !! r = Some x ∧ i_ino x = ino ∧
     ic_inodes c' = <[r := set_i_count (i_count x + 1) x]> (ic_inodes c) ∧ icache_ok c' sb s t A) ∨
  ((∀ a, a ∈ inorder t → ino_of c a ≠ ino) ∧
   ((r = NULL ∧ iget_fails c sb s ino c' ∧ ic_inodes c' = ic_inodes c ∧ icache_ok c' sb s t A) ∨
    (r ∉ A ∧ r ≠ NULL ∧ ∃ s' t' x pre post, read_gives c sb s ino (Some x) (ic_env c') ∧
       ic_inodes c' = <[r := set_i_count 1 x]> (ic_inodes c) ∧ i_ino x = ino ∧
       inorder t = pre ++ post ∧ inorder t' = pre ++ r :: post ∧
       icache_ok c' sb s' t' ({[ r ]} ∪ A))))).

(** [read_inode] returns, and keeps the number and the file system it is given. *)
Definition reads c sb s ino : Prop :=
  wp (read_inode (set_s_sem 0 s) (new_inode sb ino)) (λ r _, match r with
    | Some x => i_ino x = ino ∧ i_sb x = sb | None => True end) (ic_env c).

Lemma wp_iget_new c sb s t A ino k fuel c1 :
  icache_ok c sb s t A → (height t < fuel)%nat → plug k Leaf = t →
  (∀ a, a ∈ before true k → ino_of c a < ino) → (∀ a, a ∈ after true k → ino < ino_of c a) →
  (∀ a, a ∈ slack_inodes c → a ∈ inorder t) → reads c sb s ino →
  locked c1 sb s → ic_nodes c1 = ic_nodes c → ic_inodes c1 = ic_inodes c →
  slack_inodes c1 = slack_inodes c → ic_objs c1 = ic_objs c → ic_env c1 = ic_env c →
  wp (iget_new fuel sb ino (link_of k) (up k)) (λ r c', ∃ s0, locked c' sb s0 ∧
    ((r = NULL ∧ s0 = s ∧ iget_fails c sb s ino c' ∧ ic_inodes c' = ic_inodes c ∧ icache_ok (released c' sb s) sb s t A) ∨
     (r ∉ A ∧ r ≠ NULL ∧ ∃ t' x pre post, read_gives c sb s ino (Some x) (ic_env c') ∧
       ic_inodes c' = <[r := set_i_count 1 x]> (ic_inodes c) ∧ i_ino x = ino ∧
       inorder t = pre ++ post ∧ inorder t' = pre ++ r :: post ∧
       icache_ok (released c' sb s0) sb s0 t' ({[ r ]} ∪ A)))) c1.
Proof.
  intros Hok Hf Ht Hb Ha Hsl Hrd Hlk En Ei Es Eo Ee. pose proof Hok as [].
  destruct (wp_elim _ _ _ (objs_alloc _ _ inodes_cache ok_live0)) as (v & p' & Eal & Hpost).
  apply wp_bind, wp_zoom. rewrite Eo {1}/wp Eal. destruct Hpost as [[-> Ho']|(Hr & H4 & Hv & Ho')].
  { apply wp_ret. exists s. split; [done|]. left. split_and!; [done|done|by left|by rewrite -Ei|].
    eapply icache_ok_same; [exact Hok|..]; try done; simpl. by rewrite lookup_insert_eq. }
  assert (v ≠ NULL) as Hvn by (unfold NULL; lia). rewrite (proj2 (Z.eqb_neq v NULL) Hvn).
  destruct Hlk as (L1 & L2 & L3). destruct (wp_elim _ _ _ Hrd) as (r0 & e' & Erd & Hx).
  apply wp_bind. eapply wp_ld_super; [exact L2|]. apply wp_bind, wp_zoom. cbn [ic_env set_ic_objs]. rewrite Ee {1}/wp Erd. destruct r0 as [x|].
  - destruct Hx as [Hx1 Hx2]. apply wp_bind, wp_modify. apply wp_bind. eapply wp_mono.
    + eapply (wp_inode_link c sb s t A k v (set_i_count 1 x)); try done;
        [split; [split; [lia|done]|unfold NULL; lia]|by simpl; rewrite Hx1|by simpl; rewrite Hx1|simpl; by rewrite Ei|].
      intros Hs. apply Hv, ok_tree_live0, Hsl, Hs.
    + intros [] c' (s' & t' & pre & post & Hl' & Hp & Hp' & Hin & Henv & Hok'). apply wp_ret. exists s'. split; [done|].
      right. split; [done|]. split; [done|]. exists t', x, pre, post. split; [|done]. rewrite Henv. exact Erd.
  - apply wp_bind, wp_zoom. eapply wp_mono; [apply (objs_free _ _ inodes_cache v Ho'); set_solver|].
    intros [] p2 Ho2. apply wp_ret. exists s. split; [done|]. left. split_and!; [done|done|right; split; [by exists v, p'|exact Erd]|by rewrite -Ei|].
    assert (({[ v ]} ∪ A) ∖ {[ v ]} = A) as EA by set_solver. rewrite EA in Ho2.
    eapply icache_ok_same; [exact Hok|..]; try done; simpl. by rewrite lookup_insert_eq.
Qed.

(** ** Properties *)

(** C17: [iget] returns, with the locks released: if the inode is in memory,
    that very inode, with one reference more and off the slack list; otherwise
    a new inode that holds what [read_inode] gave, with one reference, added at
    its place in the tree; or NULL with the cache as it was, only when there
    is no object for an inode or [read_inode] fails.  The numbers of the inodes in memory stay distinct. *)
Theorem iget_correct c sb s t A ino fuel :
  icache_ok c sb s t A → slacksem c = 1 → (height t < fuel)%nat → (∀ a, a ∈ slack_inodes c → a ∈ inorder t) →
  (∀ a x, ic_inodes c !! a = Some x → i_count x + 1 < 2 ^ 32) → reads c sb s ino →
  ∃ r c', iget fuel sb ino c = Ret (r, c') ∧ iget_post c sb s t A ino r c'.
Proof.
  intros Hok Hsem Hf Hsl Hcnt Hrd. apply wp_elim. pose proof Hok as []. rewrite /iget.
  apply wp_bind, wp_slack_P; [done|]. apply wp_bind. eapply wp_super_P; [exact ok_super0|done|].
  set (c1 := upd_supers _ _).
  assert (locked c1 sb s) as Hlk by (split_and!; [done|simpl; by rewrite lookup_insert_eq|done]).
  apply wp_bind. eapply wp_ld_super; [apply Hlk|].
  change (s_inode_cache (set_s_sem 0 s)) with (s_inode_cache s).
  apply wp_bind. eapply wp_mono; [apply (wp_iget_search c sb s t A ino fuel c1 Hok Hf); done|].
  intros r c' [-> [(a & -> & Ha & Hk)|(k & -> & Ht & Hb & Haf)]].
  - destruct (ok_inode0 a Ha) as (x & Hx & _). rewrite /ino_of Hx /= in Hk.
    apply wp_bind. eapply wp_st_inode; [exact Hx|]. rewrite u32_id.
    { destruct (ok_inode0 a Ha) as (y & Hy & _ & Hr & _). rewrite Hx in Hy. injection Hy as <-.
      specialize (Hcnt a x Hx). lia. }
    apply wp_bind, wp_modify. eapply wp_unlock; [split_and!; [done|simpl; by rewrite lookup_insert_eq|done]|].
    split; [done|]. left. exists x. split_and!; try done.
    eapply icache_ok_same; [exact (referenced_ok _ _ _ _ _ _ _ Hok Ha Hx (Hcnt a x Hx))|..]; try done; simpl.
    by rewrite lookup_insert_eq.
  - apply wp_bind. eapply wp_mono; [by apply (wp_iget_new c sb s t A ino k fuel c1)|].
    intros r c' (s0 & Hl0 & Hpost). eapply wp_unlock; [exact Hl0|]. split; [done|]. right. split.
    { intros a Ha. rewrite -Ht (dir_plug true k Leaf : inorder _ = _) /= in Ha.
      apply elem_of_app in Ha as [Ha|Ha]; [specialize (Hb a Ha)|specialize (Haf a Ha)]; lia. }
    destruct Hpost as [(-> & -> & H1 & H2)|(H1 & Hn & t' & x & pre & post & H2)]; [by left|right].
    split; [done|]. split; [done|]. exists s0, t', x, pre, post. exact H2.
Qed.

(** C18: Dropping the last reference keeps the inode: it goes to the slack
    list, and a later [iget] of its number gives the same inode back, with one
    reference, off the list. *)
Theorem iput_iget_roundtrip c sb s t A i x fuel :
  icache_ok c sb s t A → slacksem c = 1 → (height t < fuel)%nat →
  i ∈ inorder t → ic_inodes c !! i = Some x → i_count x = 1 →
  ∃ c1 c2, iput i c = Ret (tt, c1) ∧ i ∈ slack_inodes c1 ∧ icache_ok c1 sb s t A ∧
    iget fuel sb (i_ino x) c1 = Ret (i, c2) ∧ i ∉ slack_inodes c2 ∧
    ic_inodes c2 = ic_inodes c ∧ icache_ok c2 sb s t A.
Proof.
  intros Hok Hsem Hf Hi Hx Hc. pose proof Hok as [].
  set (c1 := upd_slack (λ l, l ++ [i]) (upd_inodes (insert i (set_i_count 0 x)) c)).
  assert (i ∉ slack_inodes c) as Hns.
  { destruct (ok_inode0 i Hi) as (y & Hy & _ & _ & Hsl). rewrite Hx in Hy. injection Hy as <-. naive_solver lia. }
  assert (icache_ok c1 sb s t A) as Hok1.
  { split; simpl; try done.
    - intros a Ha. destruct (ok_inode0 a Ha) as (y & Hy & Hsb & Hcy & Hsl).
      destruct (decide (a = i)) as [->|Hne].
      + rewrite Hx in Hy. injection Hy as <-. rewrite lookup_insert_eq. eexists. split; [done|]. simpl.
        split_and!; [done|lia|lia|]. split; [done|set_solver].
      + rewrite lookup_insert_ne; [congruence|]. exists y. split_and!; [done|done|lia|lia|set_solver].
    - eapply ksorted_ext; [|exact ok_sorted0]. intros a _. apply (ino_of_insert c i). by rewrite /ino_of Hx.
    - apply NoDup_app. split_and!; [done|set_solver|apply NoDup_singleton]. }
  exists c1. assert (iput i c = Ret (tt, c1)) as Hput.
  { rewrite /iput /inode_free /st_inode /ld_inode /bind /= Hx /= Hc /= Hx /= lookup_insert_eq /=.
    rewrite /slack_P /slack_V /zoom /= Hsem /=. destruct c; simpl in *. by subst. }
  assert (ic_inodes c1 !! i = Some (set_i_count 0 x)) as Hx1 by (simpl; by rewrite lookup_insert_eq).
  enough (wp (iget fuel sb (i_ino x)) (λ r c2, r = i ∧ i ∉ slack_inodes c2 ∧
    ic_inodes c2 = ic_inodes c ∧ icache_ok c2 sb s t A) c1) as Hw.
  { destruct (wp_elim _ _ _ Hw) as (r & c2 & E2 & -> & H). exists c2. split_and!; [done|set_solver|done|done|apply H..]. }
  assert (ic_inodes c1 = <[i := set_i_count 0 x]> (ic_inodes c)) as Hin1 by done.
  assert (slacksem c1 = 1) as Hsem1 by done.
  clear Hput. clearbody c1. clear ok_inode0 ok_rep0 ok_rb0 ok_sorted0 ok_slack0 ok_live0. pose proof Hok1 as [].
  rewrite /iget. apply wp_bind, wp_slack_P; [done|]. apply wp_bind. eapply wp_super_P; [exact ok_super1|done|].
  set (c3 := upd_supers _ _). apply wp_bind. eapply (wp_ld_super c3 sb (set_s_sem 0 s)); [simpl; by rewrite lookup_insert_eq|].
  change (s_inode_cache (set_s_sem 0 s)) with (s_inode_cache s).
  apply wp_bind. eapply wp_mono; [apply (wp_iget_search c1 sb s t A (i_ino x) fuel c3 Hok1 Hf); done|].
  assert (ino_of c1 i = i_ino x) as Hk by (by rewrite /ino_of Hx1).
  intros r c' [-> [(a & -> & Ha & Hk')|(k & -> & Ht & Hb & Haf)]].
  - assert (a = i) as -> by (eapply (ksorted_inj (ino_of c1)); [exact ok_sorted0|done|done|congruence]).
    apply wp_bind. eapply wp_st_inode; [exact Hx1|]. apply wp_bind, wp_modify.
    eapply wp_unlock; [split_and!; [done|simpl; by rewrite lookup_insert_eq|done]|].
    split; [done|]. split; [simpl; rewrite list_elem_of_filter; naive_solver|]. split.
    + simpl. rewrite Hin1 insert_insert_eq. apply insert_id. rewrite Hx. f_equal. destruct x; simpl in *. by subst.
    + eapply icache_ok_same; [exact (referenced_ok _ _ _ _ _ _ _ Hok1 Hi Hx1 ltac:(simpl; lia))|..]; try done; simpl.
      by rewrite lookup_insert_eq.
  - exfalso. rewrite -Ht (dir_plug true k Leaf : inorder _ = _) /= in Hi.
    apply elem_of_app in Hi as [Hi|Hi]; [specialize (Hb _ Hi)|specialize (Haf _ Hi)]; lia.
Qed.

(** ** Freeing the inodes nobody holds *)

Lemma wp_do_inode_free c sb s t A i fuel :
  icache_ok c sb s t A → (2 * height t + 1 < fuel)%nat → i ∈ inorder t →
  wp (do_inode_free fuel i) (λ _ c', ∃ s' t' pre post, inorder t = pre ++ i :: post ∧ inorder t' = pre ++ post ∧
    ic_inodes c' = delete i (ic_inodes c) ∧ slack_inodes c' = filter (λ y, y ≠ i) (slack_inodes c) ∧
    slacksem c' = slacksem c ∧ icache_ok c' sb s' t' (A ∖ {[ i ]})) c.
Proof.
  intros Hok Hf Hi. pose proof Hok as []. destruct (ok_inode0 i Hi) as (x & Hx & Hsb & _).
  assert (good_ptr i) as [_ Hn0].
  { apply (rep_good _ _ _ ok_rep0). destruct (cnt i t) eqn:Ec; [|lia]. by apply cnt_inorder in Ec. }
  rewrite /do_inode_free (proj2 (Z.eqb_neq _ _) Hn0).
  apply wp_bind. eapply wp_ld_inode; [exact Hx|]. rewrite Hsb. apply wp_bind. eapply wp_super_P; [exact ok_super0|done|].
  apply wp_bind, wp_bind. eapply wp_ld_super; [simpl; by rewrite lookup_insert_eq|]. apply wp_zoom.
  change (mk_rb_store _ _) with (inode_store c s).
  destruct (inorder_focus i t false Hi) as (k & cl & l & r & ->).
  eapply wp_mono; [exact (wp_rb_erase _ _ _ _ _ _ _ _ ok_rep0 ok_rb0 Hf)|].
  intros [] st (n & t' & pre & post & Hio & Hr & Hio' & Hrb).
  apply wp_bind, wp_modify. apply wp_bind. eapply wp_st_super; [simpl; by rewrite lookup_insert_eq|].
  apply wp_bind, wp_modify. apply wp_zoom. eapply wp_mono; [apply (objs_free _ _ inodes_cache i ok_live0); by apply ok_tree_live0|].
  intros [] p' Hp. exists (set_s_inode_cache (rb_root st) s), t', pre, post.
  split; [exact Hio|]. split; [exact Hio'|]. split; [done|]. split; [done|]. split; [done|].
  pose proof (rep_nodup _ _ _ ok_rep0) as Hnd. rewrite Hio in Hnd.
  assert (∀ a, a ∈ pre ++ post → a ≠ i ∧ a ∈ inorder (plug k (nd false cl i l r))) as Hsub.
  { intros a Ha. rewrite Hio. apply NoDup_app in Hnd as (_ & Hd & [Hd2 _]%NoDup_cons). split; [|rewrite elem_of_mid; by right].
    intros ->. apply elem_of_app in Ha as [Ha|Ha]; [|done]. apply (Hd i Ha). by left. }
  split; simpl.
  - rewrite lookup_insert_eq. f_equal. destruct s; simpl in *. by subst.
  - done.
  - assert (∀ c', ic_nodes c' = rb_nodes st → inode_store c' (set_s_inode_cache (rb_root st) s) = st) as Est.
    { intros c' Ec. rewrite /inode_store Ec. by destruct st. }
    rewrite Est //. destruct Hr. by split.
  - done.
  - intros a. rewrite Hio'. intros Ha. destruct (Hsub a Ha) as [Hne Ha'].
    destruct (ok_inode0 a Ha') as (y & Hy & Hy1 & Hy2 & Hy3). exists y. rewrite lookup_delete_ne; [congruence|].
    split_and!; [done|done|lia|lia|]. rewrite list_elem_of_filter. naive_solver.
  - rewrite Hio'. rewrite Hio in ok_sorted0. apply ksorted_mid in ok_sorted0 as (Hs & _ & _).
    eapply ksorted_ext; [|exact Hs]. intros a Ha. rewrite /ino_of /= lookup_delete_ne //. intros ->. by destruct (Hsub a Ha).
  - by apply NoDup_filter.
  - done.
  - intros a. rewrite Hio'. intros Ha. destruct (Hsub a Ha) as [Hne Ha']. apply elem_of_difference.
    split; [by apply ok_tree_live0|]. by rewrite elem_of_singleton.
Qed.

(** Enough fuel for every tree that is not larger. *)
Definition tree_fuel (t : tree) : nat := (2 * (2 * Nat.log2 (S (length (inorder t)))) + 2)%nat.

Lemma tree_fuel_erase (t t' : tree) l i r :
  inorder t = l ++ i :: r → inorder t' = l ++ r → (tree_fuel t' ≤ tree_fuel t)%nat.
Proof.
  intros H H'. rewrite /tree_fuel H H' !length_app.
  assert (Nat.log2 (S (length l + length r)) ≤ Nat.log2 (S (length l + length (i :: r))))%nat
    by (apply Nat.log2_le_mono; simpl; lia). lia.
Qed.

Lemma wp_squeeze_each l c sb s t A fuel :
  icache_ok c sb s t A → (tree_fuel t ≤ fuel)%nat → NoDup l → (∀ a, a ∈ l → a ∈ inorder t) →
  wp (squeeze_each fuel l) (λ _ c', ∃ s' t', inorder t' = filter (λ a, a ∉ l) (inorder t) ∧
    slack_inodes c' = filter (λ a, a ∉ l) (slack_inodes c) ∧ slacksem c' = slacksem c ∧
    icache_ok c' sb s' t' (A ∖ list_to_set l)) c.
Proof.
  revert c s t A. induction l as [|i l IH]; intros c s t A Hok Hf Hnd Hin; cbn [squeeze_each].
  { apply wp_ret. exists s, t. assert (∀ k : list Z, filter (λ a, a ∉ []) k = k) as Hid.
    { intros k. induction k as [|y k IHk]; [done|]. rewrite filter_cons_True; [apply not_elem_of_nil|]. by rewrite IHk. }
    rewrite !Hid list_to_set_nil difference_empty_L. done. }
  apply NoDup_cons in Hnd as [Hi Hnd]. pose proof (rbtree_height _ (ok_rb _ _ _ _ _ Hok)) as Hh.
  apply wp_bind. eapply wp_mono; [apply (wp_do_inode_free c sb s t A i fuel Hok); [unfold tree_fuel in Hf; lia|apply Hin; by left]|].
  intros [] c1 (s1 & t1 & pre & post & Hio & Hio1 & _ & Hsl & Hsem & Hok1).
  pose proof (rep_nodup _ _ _ (ok_rep _ _ _ _ _ Hok)) as Hnt. rewrite Hio in Hnt.
  assert (pre ++ post = filter (λ y, y ≠ i) (inorder t)) as Epp.
  { rewrite Hio filter_app filter_ne_head; [by apply NoDup_app in Hnt as (_ & _ & [? _]%NoDup_cons)|].
    rewrite filter_ne_id //. apply NoDup_app in Hnt as (_ & Hd & _). intros Hp. apply (Hd i Hp). by left. }
  assert (∀ k : list Z, filter (λ a, a ∉ l) (filter (λ y, y ≠ i) k) = filter (λ a, a ∉ i :: l) k) as Hff.
  { intros k. rewrite list_filter_filter. apply list_filter_iff. intros y. rewrite not_elem_of_cons. tauto. }
  eapply wp_mono.
  - apply (IH c1 s1 t1 _ Hok1); [|done|].
    + etrans; [exact (tree_fuel_erase t t1 pre i post Hio Hio1)|done].
    + intros a Ha. specialize (Hin a ltac:(by right)). rewrite Hio elem_of_mid in Hin. rewrite Hio1.
      destruct Hin as [->|?]; [done|done].
  - intros [] c2 (s2 & t2 & H1 & H2 & H3 & H4). exists s2, t2. rewrite H1 Hio1 Epp H2 Hsl !Hff H3 Hsem.
    split_and!; try done. rewrite list_to_set_cons. by rewrite difference_difference_l_L in H4.
Qed.

(** [_squeeze_inode_cache] frees exactly the inodes without a reference:
    they leave the tree, the slack list is empty, and their memory is
    returned; the inodes in use stay, in order. *)
Theorem squeeze_correct c sb s t A fuel :
  icache_ok c sb s t A → slacksem c = 1 → (tree_fuel t ≤ fuel)%nat →
  (∀ a, a ∈ slack_inodes c → a ∈ inorder t) →
  ∃ c' s' t', _squeeze_inode_cache fuel c = Ret (tt, c') ∧
    inorder t' = filter (λ a, a ∉ slack_inodes c) (inorder t) ∧ slack_inodes c' = [] ∧ slacksem c' = 1 ∧
    icache_ok c' sb s' t' (A ∖ list_to_set (slack_inodes c)).
Proof.
  intros Hok Hsem Hf Hin.
  enough (wp (_squeeze_inode_cache fuel) (λ _ c', ∃ s' t',
    inorder t' = filter (λ a, a ∉ slack_inodes c) (inorder t) ∧ slack_inodes c' = [] ∧ slacksem c' = 1 ∧
    icache_ok c' sb s' t' (A ∖ list_to_set (slack_inodes c))) c) as Hw.
  { destruct (wp_elim _ _ _ Hw) as ([] & c' & E' & s' & t' & H). by exists c', s', t'. }
  assert (icache_ok (set_slacksem 0 c) sb s t A) as Hok0
    by (eapply icache_ok_same; [exact Hok|..]; try done; apply Hok).
  apply wp_bind, wp_slack_P; [done|]. apply wp_bind, wp_gets. apply wp_bind.
  eapply wp_mono; [apply (wp_squeeze_each _ _ sb s t A fuel Hok0 Hf); [apply Hok|exact Hin]|].
  intros [] c1 (s1 & t1 & H1 & H2 & H3 & H4). apply wp_zoom. rewrite H3. simpl. exists s1, t1.
  split; [done|]. split.
  - simpl in H2 |- *. rewrite H2. apply elem_of_nil_inv. intros a. rewrite list_elem_of_filter. tauto.
  - split; [done|]. eapply icache_ok_same; [exact H4|..]; try done; apply H4.
Qed.
End icache.

(** ** A concrete file system: the inode of number 0 cannot be read *)

#[local] Instance demo_super_ops : SuperOps unit unit := {|
  read_inode _ x := ret (if i_ino x =? 0 then None else Some x)
|}.

Definition demo_super : super unit := mk_super 1 NULL 1 1024 NULL ().
Definition demo_icache0 : @icache opool unit unit :=
  mk_icache ∅ ∅ {[ 0x900 := demo_super ]} [] 1 [0x100; 0x200; 0x300; 0x400] ().

(** Three inodes are opened, and one is closed again. *)
Definition demo_icache : @icache opool unit unit :=
  match (do! iget 8 0x900 12 then do! iget 8 0x900 2 then do! iget 8 0x900 31 then iput 0x200) demo_icache0 with
  | Ret (_, c) => c
  | _ => demo_icache0
  end.
Definition demo_inodes : tree := Node true (Node false Leaf 0x200 Leaf) 0x100 (Node false Leaf 0x300 Leaf).
Definition demo_mounted : super unit := mk_super 1 0x100 1 1024 NULL ().
Definition demo_held : gset Z := {[ 0x100; 0x200; 0x300 ]}.

Lemma demo_icache_ok : icache_ok demo_icache 0x900 demo_mounted demo_inodes demo_held.
Proof.
  split.
  - vm_compute. reflexivity.
  - reflexivity.
  - apply repb_rep. vm_compute. reflexivity.
  - split; [done|]. exists 1%nat. repeat constructor.
  - intros a Ha. simpl in Ha.
    repeat (apply elem_of_cons in Ha as [->|Ha]; [eexists; split; [vm_compute; reflexivity|]; split; [reflexivity|];
      split; [simpl; lia|]; apply (bool_decide_unpack _); vm_compute; exact I|]).
    by apply not_elem_of_nil in Ha.
  - repeat constructor.
  - decide_closed.
  - split_and!.
    + decide_closed.
    + intros v Hv. split; [|revert v Hv; apply Forall_forall; decide_closed].
      assert (Forall obj_ok (ic_objs demo_icache)) as HF by (repeat constructor). exact (proj1 (Forall_forall _ _) HF v Hv).
    + intros v Hv. rewrite /demo_held !elem_of_union !elem_of_singleton in Hv. destruct Hv as [[->| ->]| ->]; by vm_compute.
  - apply Forall_forall. decide_closed.
Qed.

Lemma demo_slack a : a ∈ slack_inodes demo_icache → a ∈ inorder demo_inodes.
Proof. revert a. apply Forall_forall. decide_closed. Qed.

(** Number 12 is found in memory; number 7 is read. *)
Lemma iget_witness :
  (∃ r c', iget 8 0x900 12 demo_icache = Ret (r, c') ∧ iget_post demo_icache 0x900 demo_mounted demo_inodes demo_held 12 r c') ∧
  (∃ r c', iget 8 0x900 7 demo_icache = Ret (r, c') ∧ iget_post demo_icache 0x900 demo_mounted demo_inodes demo_held 7 r c').
Proof.
  split; (apply iget_correct; [exact demo_icache_ok|reflexivity|simpl; lia|exact demo_slack| |by vm_compute]).
  all: intros a x Hx; assert (map_Forall (λ _ x, i_count x + 1 < 2 ^ 32) (ic_inodes demo_icache)) as H by decide_closed;
    exact (H a x Hx).
Defined.

Lemma iput_iget_witness : ∃ c1 c2, iput 0x100 demo_icache = Ret (tt, c1) ∧ iget 8 0x900 12 c1 = Ret (0x100, c2).
Proof.
  destruct (iput_iget_roundtrip demo_icache 0x900 demo_mounted demo_inodes demo_held 0x100
    (set_i_count 1 (new_inode 0x900 12)) 8 demo_icache_ok) as (c1 & c2 & H1 & _ & _ & H2 & _).
  - reflexivity.
  - simpl. lia.
  - decide_closed.
  - vm_compute. reflexivity.
  - reflexivity.
  - exists c1, c2. split; [exact H1|exact H2].
Defined.

Lemma squeeze_witness : ∃ c' t', _squeeze_inode_cache 12 demo_icache = Ret (tt, c') ∧
  inorder t' = [0x100; 0x300] ∧ slack_inodes c' = [].
Proof.
  destruct (squeeze_correct demo_icache 0x900 demo_mounted demo_inodes demo_held 12 demo_icache_ok)
    as (c' & s' & t' & H1 & H2 & H3 & _).
  - reflexivity.
  - apply Nat.leb_le. vm_compute. reflexivity.
  - exact demo_slack.
  - exists c', t'. split; [exact H1|]. split; [rewrite H2; vm_compute; reflexivity|exact H3].
Defined.
