(* ===== verification/Fdt.v ===== *)
(** * File descriptors ([kernel/fdt.c], [kernel/file.c], [struct file],
      [struct fdt_entry], [struct fd_table] and [file_get] of
      [include/scaraOS/fcntl.h])

    The entries of a descriptor table are linked in a ring of list cells; the
    cell is the first member of an entry and of the table, so they have the
    same address.  The loops over the table step through the ring by hand and
    reach the table itself as if it were an entry: the word they then read as
    [handle] is the table's [fd_alloc], which lies at the same offset. *)
From S2P Require Import Prelude ListHead ObjAlloc.

Record file := mk_file { f_inode : Z; f_mode : Z; f_offset : Z; f_refcount : Z }.
Record fdt_entry := mk_fdt_entry { fe_handle : Z; fe_file : Z; fe_refcount : Z }.
Record fd_table := mk_fd_table { fd_alloc : Z }.

Definition set_f_offset (v : Z) (f : file) : file := mk_file (f_inode f) (f_mode f) v (f_refcount f).
Definition set_f_refcount (v : Z) (f : file) : file := mk_file (f_inode f) (f_mode f) (f_offset f) v.
Definition set_fe_refcount (v : Z) (e : fdt_entry) : fdt_entry := mk_fdt_entry (fe_handle e) (fe_file e) v.

(** [objcache_init], for the cache every table has of its own. *)
Class CacheOps (P : Type) := cache_init : Z → M P Z.

(** The caches of the two files. *)
Definition fd_table_alloc : Z := 4.
Definition file_alloc : Z := 5.
Definition sizeof_fdt_entry : Z := 20.

Section fdt.
Context {P : Type} `{!ObjOps P, !CacheOps P}.

Record fdts := mk_fdts {
  ft_cells : lheap;
  ft_entries : gmap Z fdt_entry;
  ft_tables : gmap Z fd_table;
  ft_files : gmap Z file;
  ft_objs : P
}.

Definition set_ft_cells (v : lheap) (s : fdts) : fdts :=
  mk_fdts v (ft_entries s) (ft_tables s) (ft_files s) (ft_objs s).
Definition upd_entries (f : gmap Z fdt_entry → gmap Z fdt_entry) (s : fdts) : fdts :=
  mk_fdts (ft_cells s) (f (ft_entries s)) (ft_tables s) (ft_files s) (ft_objs s).
Definition upd_tables (f : gmap Z fd_table → gmap Z fd_table) (s : fdts) : fdts :=
  mk_fdts (ft_cells s) (ft_entries s) (f (ft_tables s)) (ft_files s) (ft_objs s).
Definition upd_files (f : gmap Z file → gmap Z file) (s : fdts) : fdts :=
  mk_fdts (ft_cells s) (ft_entries s) (ft_tables s) (f (ft_files s)) (ft_objs s).
Definition set_ft_objs (v : P) (s : fdts) : fdts :=
  mk_fdts (ft_cells s) (ft_entries s) (ft_tables s) (ft_files s) v.

Abbreviation F := (M fdts).

Definition on_cells {A} (m : M lheap A) : F A := zoom ft_cells set_ft_cells m.
Definition on_objs {A} (m : M P A) : F A := zoom ft_objs set_ft_objs m.
Definition ld_file (a : Z) : F file := let! s := get in deref (ft_files s !! a).
Definition ld_entry (a : Z) : F fdt_entry := let! s := get in deref (ft_entries s !! a).
Definition ld_table (a : Z) : F fd_table := let! s := get in deref (ft_tables s !! a).

(** [fdt->handle], for an entry or for the table taken for one. *)
Definition ld_handle (a : Z) : F Z :=
  let! s := get in
  match ft_entries s !! a with
  | Some e => ret (fe_handle e)
  | None => let! t := ld_table a in ret (fd_alloc t)
  end.

(** ** [kernel/file.c] *)

Definition file_new (inode mode : Z) : F Z :=
  let! f := on_objs (obj_alloc file_alloc) in
  if f =? NULL then ret NULL else
  do! modify (upd_files (insert f (mk_file inode mode 0 1))) then
  ret f.

Definition file_get (f : Z) : F unit :=
  if f =? NULL then ret tt else
  let! x := ld_file f in
  modify (upd_files (insert f (set_f_refcount (u32 (f_refcount x + 1)) x))).

Definition file_release (f : Z) : F unit :=
  let! x := ld_file f in
  do! modify (upd_files (insert f (set_f_refcount (u32 (f_refcount x - 1)) x))) then
  when (u32 (f_refcount x - 1) =? 0)
    (do! modify (upd_files (delete f)) then on_objs (obj_free file_alloc f)).

(** ** [kernel/fdt.c] *)

Definition fd_table_init : F Z :=
  let! t := on_objs (obj_alloc fd_table_alloc) in
  if t =? NULL then ret NULL else
  let! c := on_objs (cache_init sizeof_fdt_entry) in
  if c =? NULL then do! on_objs (obj_free fd_table_alloc t) then ret NULL else
  do! modify (upd_tables (insert t (mk_fd_table c))) then
  do! modify (λ s, set_ft_cells (<[t := mk_list_head NULL NULL]> (ft_cells s)) s) then
  do! on_cells (INIT_LIST_HEAD t) then
  ret t.

(** One [list_for_each_entry_safe] over the table that looks for a free
    handle: [pos] and [n] are the macro's cursors. *)
Fixpoint handle_pass (fuel : nat) (pos n head handle : Z) : F Z :=
  match fuel with
  | O => nofuel
  | S fuel =>
    if pos =? head then ret handle else
    let! fdt := on_cells (ld_next n) in
    let! h := ld_handle fdt in
    let! n' := on_cells (ld_next n) in
    handle_pass fuel n n' head (if h =? handle then u32 (handle + 1) else handle)
  end.

(** [do { old_handle = handle; ... } while ( old_handle != handle );] *)
Fixpoint handle_loop (fuel : nat) (head handle : Z) : F Z :=
  match fuel with
  | O => nofuel
  | S fuel' =>
    let! pos := on_cells (ld_next head) in
    let! n := on_cells (ld_next pos) in
    let! h := handle_pass fuel pos n head handle in
    if handle =? h then ret h else handle_loop fuel' head h
  end.

Definition fdt_entry_add (fuel : nat) (t file : Z) : F Z :=
  if file =? NULL then ret (-1) else
  let! tb := ld_table t in
  let! e := on_objs (obj_alloc (fd_alloc tb)) in
  if e =? NULL then ret (-1) else
  do! modify (λ s, set_ft_cells (<[e := mk_list_head NULL NULL]> (ft_cells s)) s) then
  let! empty := on_cells (list_empty t) in
  let! handle := (if empty then ret 0 else handle_loop fuel t 0) in
  do! modify (upd_entries (insert e (mk_fdt_entry handle file 1))) then
  do! on_cells (list_add e t) then
  ret (s32 handle).

(** The loop of [fdt_entry_retr] and [fdt_entry_del]. *)
Fixpoint fdt_find (fuel : nat) (pos n head handle : Z) : F Z :=
  match fuel with
  | O => nofuel
  | S fuel =>
    if pos =? head then ret NULL else
    let! fdt := on_cells (ld_next n) in
    let! h := ld_handle fdt in
    if h =? handle then ret fdt else
    let! n' := on_cells (ld_next n) in
    fdt_find fuel n n' head handle
  end.
Definition fdt_search (fuel : nat) (t handle : Z) : F Z :=
  let! empty := on_cells (list_empty t) in
  if empty then ret NULL else
  let! pos := on_cells (ld_next t) in
  let! n := on_cells (ld_next pos) in
  fdt_find fuel pos n t handle.

Definition fdt_entry_retr (fuel : nat) (t handle : Z) : F Z :=
  let! fdt := fdt_search fuel t handle in
  if fdt =? NULL then ret NULL else
  let! e := ld_entry fdt in ret (fe_file e).

Definition fdt_entry_del (fuel : nat) (t handle : Z) : F unit :=
  let! fdt := fdt_search fuel t handle in
  if fdt =? NULL then ret tt else
  let! e := ld_entry fdt in
  if fe_refcount e =? 1 then
    do! file_release (fe_file e) then on_cells (ListHead.list_del fdt)
  else modify (upd_entries (insert fdt (set_fe_refcount (u32 (fe_refcount e - 1)) e))).
End fdt.
