(* ===== verification/FdtProps.v ===== *)
(** * Descriptor tables: what the loops over the ring of entries reach *)
From S2P Require Import Prelude ListHead ObjAlloc Fdt.

Section props.
Context {P : Type} `{!ObjOps P, !ObjSpec P, !CacheOps P}.
Implicit Types (s : @fdts P) (t : Z) (xs ys : list Z).

(** The word read as the handle of the cell [a]. *)
Definition handle_at s (a : Z) : Z :=
  match ft_entries s !! a with
  | Some e => fe_handle e
  | None => from_option fd_alloc 0 (ft_tables s !! a)
  end.

(** The table [t] with the entries [xs], the newest first. *)
Record fd_ok s t (tb : fd_table) xs (A : gset Z) : Prop := {
  fd_tab : ft_tables s !! t = Some tb;
  fd_ring : dll (ft_cells s) t xs;
  fd_entries a : a ∈ xs → is_Some (ft_entries s !! a);
  fd_head : ft_entries s !! t = None;
  fd_live : objs_live (ft_objs s) A;
  fd_mine a : a ∈ t :: xs → a ∈ A ∧ a ≠ NULL;
  fd_len : Z.of_nat (length xs) < 2 ^ 31 - 1
}.

(** The cells whose handle a pass over the ring looks at, in order. *)
Definition visited t xs : list Z :=
  match xs with
  | [] => []
  | [a] => [a]
  | a :: _ :: rest => rest ++ [t; a]
  end.

Lemma visited_take t xs : xs ≠ [] → take (length xs) (drop 2 (xs ++ t :: xs)) = visited t xs.
Proof.
  destruct xs as [|a [|b rest]]; [done..|]. intros _. cbn [app length drop].
  assert (rest ++ t :: a :: b :: rest = (rest ++ [t; a]) ++ b :: rest) as -> by (by rewrite -app_assoc).
  rewrite take_app_length'; [rewrite length_app /=; lia|done].
Qed.

Lemma visited_in t xs a : a ∈ visited t xs → a ∈ t :: xs.
Proof. destruct xs as [|b [|c rest]]; simpl; set_solver. Qed.

Lemma visited_length t xs : length (visited t xs) = length xs.
Proof. destruct xs as [|b [|c rest]]; [done..|]. simpl. rewrite length_app /=. lia. Qed.

(** Successors along the ring, twice around. *)
Lemma ring_next h t xs : dll h t xs → ∀ l a b r, (xs ++ t :: xs) = l ++ a :: b :: r → next_of h a = Some b.
Proof.
  intros [_ Hc] l a b r Hl.
  assert (chain h (xs ++ t :: xs)) as Hcc.
  { apply chain_app. split.
    - destruct xs as [|x xs]; [done|]. by destruct Hc as (_ & _ & Hc).
    - change (t :: xs ++ [t]) with ((t :: xs) ++ [t]) in Hc. clear -Hc. revert Hc. generalize (t :: xs). intros k.
      induction k as [|x [|y k] IH]; [done..|]. intros (? & ? & H). split_and!; [done|done|by apply IH]. }
  rewrite Hl in Hcc. apply chain_app in Hcc as [_ Hcc]. by destruct Hcc.
Qed.

Lemma wp_cell_next s a b (Q : Z → fdts → Prop) :
  next_of (ft_cells s) a = Some b → Q b s → wp (on_cells (ld_next a)) Q s.
Proof. intros H HQ. apply wp_zoom. eapply wp_ld_next; [exact H|]. by destruct s. Qed.

Lemma wp_ld_handle s t tb xs A a (Q : Z → fdts → Prop) :
  fd_ok s t tb xs A → a ∈ t :: xs → Q (handle_at s a) s → wp (ld_handle a) Q s.
Proof.
  intros [] Ha HQ. rewrite /wp /ld_handle /bind /=. rewrite /handle_at in HQ.
  destruct (ft_entries s !! a) eqn:Ee; [exact HQ|]. apply elem_of_cons in Ha as [->|Ha].
  - rewrite /ld_table /bind /= fd_tab0. rewrite fd_tab0 in HQ. exact HQ.
  - apply fd_entries0 in Ha. rewrite Ee in Ha. by apply is_Some_None in Ha.
Qed.

Lemma wp_ld_table s a x (Q : fd_table → fdts → Prop) : ft_tables s !! a = Some x → Q x s → wp (ld_table a) Q s.
Proof. intros H HQ. apply wp_bind. rewrite /wp /= H. done. Qed.
Lemma wp_ld_entry s a x (Q : fdt_entry → fdts → Prop) : ft_entries s !! a = Some x → Q x s → wp (ld_entry a) Q s.
Proof. intros H HQ. apply wp_bind. rewrite /wp /= H. done. Qed.
Lemma wp_ld_file s a x (Q : file → fdts → Prop) : ft_files s !! a = Some x → Q x s → wp (ld_file a) Q s.
Proof. intros H HQ. apply wp_bind. rewrite /wp /= H. done. Qed.

Lemma disjoint_single (e : Z) (l : list Z) : e ∉ l → [e] ## l.
Proof. set_solver. Qed.

(** The two loops, from the cell [hd t ys] on, when [ys] of the ring is left. *)
Lemma ring_positions t xs pre y ys :
  xs = pre ++ y :: ys → ∃ n v r, ys ++ t :: xs = n :: v :: r ∧ take (length (y :: ys)) (drop 2 (y :: ys ++ t :: xs)) =
    v :: take (length ys) (drop 2 (ys ++ t :: xs)).
Proof.
  intros Hx. destruct ys as [|z [|w ys]]; simpl.
  - destruct xs as [|x xs]; [by destruct pre|]. exists t, x, xs. done.
  - by exists z, t, xs.
  - exists z, w, (ys ++ t :: xs). split; [done|]. f_equal.
Qed.

(** What one round of either loop meets. *)
Lemma loop_round s t tb xs A pre y ys :
  fd_ok s t tb xs A → xs = pre ++ y :: ys →
  ∃ n v r, ys ++ t :: xs = n :: v :: r ∧ hd t ys = n ∧ y ≠ t ∧
    next_of (ft_cells s) n = Some v ∧ v ∈ t :: xs ∧
    take (length (y :: ys)) (drop 2 ((y :: ys) ++ t :: xs)) = v :: take (length ys) (drop 2 (ys ++ t :: xs)).
Proof.
  intros [] Hx. destruct (ring_positions t xs pre y ys Hx) as (n & v & r & Hn & Ht). exists n, v, r.
  split; [done|]. split; [destruct ys; simpl in Hn |- *; congruence|]. split_and!; [| | |done].
  - destruct fd_ring0 as [Hnd _]. subst xs. apply NoDup_cons in Hnd as [Hnd _]. intros ->. apply Hnd. set_solver.
  - apply (ring_next _ t xs fd_ring0 (pre ++ [y]) n v r). rewrite {1}Hx -!app_assoc /=. by rewrite Hn.
  - assert (v ∈ ys ++ t :: xs) as Hv by (rewrite Hn; set_solver). subst xs. set_solver.
Qed.

Definition fresh_step s (h v : Z) : Z := if handle_at s v =? h then u32 (h + 1) else h.

Lemma wp_handle_pass s t tb xs A : fd_ok s t tb xs A → ∀ ys pre fuel h,
  xs = pre ++ ys → (length ys < fuel)%nat →
  wp (handle_pass fuel (hd t ys) (hd t (tail (ys ++ t :: xs))) t h)
    (λ r s', r = foldl (fresh_step s) h (take (length ys) (drop 2 (ys ++ t :: xs))) ∧ s' = s) s.
Proof.
  intros Hok. induction ys as [|y ys IH]; intros pre fuel h Hx Hf; (destruct fuel as [|fuel]; [simpl in Hf; lia|]).
  { simpl. rewrite Z.eqb_refl. by apply wp_ret. }
  destruct (loop_round s t tb xs A pre y ys Hok Hx) as (n & v & r & Hn & Hhd & Hy & Hnv & Hv & ->).
  cbn [foldl handle_pass hd tail app]. rewrite (proj2 (Z.eqb_neq y t) Hy) Hn. cbn [hd].
  apply wp_bind. eapply wp_cell_next; [exact Hnv|]. apply wp_bind. eapply wp_ld_handle; [exact Hok|exact Hv|].
  apply wp_bind. eapply wp_cell_next; [exact Hnv|].
  specialize (IH (pre ++ [y]) fuel (fresh_step s h v)). rewrite Hhd Hn in IH.
  apply IH; [by rewrite -app_assoc|simpl in Hf; lia].
Qed.

Lemma wp_fdt_find s t tb xs A k : fd_ok s t tb xs A → ∀ ys pre fuel,
  xs = pre ++ ys → (length ys < fuel)%nat →
  wp (fdt_find fuel (hd t ys) (hd t (tail (ys ++ t :: xs))) t k)
    (λ r s', r = from_option id NULL (find (λ v, handle_at s v =? k) (take (length ys) (drop 2 (ys ++ t :: xs)))) ∧ s' = s) s.
Proof.
  intros Hok. induction ys as [|y ys IH]; intros pre fuel Hx Hf; (destruct fuel as [|fuel]; [simpl in Hf; lia|]).
  { simpl. rewrite Z.eqb_refl. by apply wp_ret. }
  destruct (loop_round s t tb xs A pre y ys Hok Hx) as (n & v & r & Hn & Hhd & Hy & Hnv & Hv & ->).
  cbn [find fdt_find hd tail app]. rewrite (proj2 (Z.eqb_neq y t) Hy) Hn. cbn [hd].
  apply wp_bind. eapply wp_cell_next; [exact Hnv|]. apply wp_bind. eapply wp_ld_handle; [exact Hok|exact Hv|].
  destruct (handle_at s v =? k) eqn:Ek; [by apply wp_ret|].
  apply wp_bind. eapply wp_cell_next; [exact Hnv|].
  specialize (IH (pre ++ [y]) fuel). rewrite Hhd Hn in IH.
  apply IH; [by rewrite -app_assoc|simpl in Hf; lia].
Qed.

(** ** Lookup *)

Lemma wp_fdt_search s t tb xs A k fuel :
  fd_ok s t tb xs A → (length xs < fuel)%nat →
  wp (fdt_search fuel t k) (λ r s', r = from_option id NULL (find (λ v, handle_at s v =? k) (visited t xs)) ∧ s' = s) s.
Proof.
  intros Hok Hf. pose proof Hok as []. apply wp_bind, wp_zoom.
  eapply wp_mono; [exact (list_empty_wp _ _ _ fd_ring0)|]. intros b h [-> ->].
  assert (set_ft_cells (ft_cells s) s = s) as Hs by (by destruct s). rewrite Hs.
  case_bool_decide as Hx; [subst xs; apply wp_ret; split; reflexivity|].
  destruct xs as [|x xs]; [done|]. apply wp_bind. eapply (wp_cell_next s t x).
  { destruct fd_ring0 as [_ Hc]. by destruct Hc as [Hc _]. }
  apply wp_bind. eapply (wp_cell_next s x (hd t (xs ++ t :: x :: xs))).
  { destruct (xs ++ t :: x :: xs) as [|n r] eqn:En; [by destruct xs|].
    apply (ring_next _ t (x :: xs) fd_ring0 [] x n r). simpl. by rewrite En. }
  eapply wp_mono; [exact (wp_fdt_find s t tb (x :: xs) A k Hok (x :: xs) [] fuel eq_refl Hf)|].
  intros r s' [-> ->]. by rewrite visited_take.
Qed.

(** The first of the visited cells with this handle; the table itself has none. *)
Lemma find_visited s t tb xs A k r :
  fd_ok s t tb xs A → k ≠ fd_alloc tb → find (λ v, handle_at s v =? k) (visited t xs) = Some r →
  r ∈ xs ∧ xs !! 1%nat ≠ Some r ∧ handle_at s r = k.
Proof.
  intros [] Hk [Hr Hh]%List.find_some. apply Z.eqb_eq in Hh. apply list_elem_of_In in Hr.
  assert (r ≠ t) as Ht. { intros ->. apply Hk. by rewrite -Hh /handle_at fd_head0 fd_tab0. }
  destruct fd_ring0 as [[_ Hnd]%NoDup_cons _]. destruct xs as [|a [|b rest]]; simpl in Hr.
  - set_solver.
  - split_and!; [set_solver|done|done].
  - apply NoDup_cons in Hnd as [Ha [Hb _]%NoDup_cons]. split; [set_solver|]. split; [|done].
    intros [= ->]. set_solver.
Qed.

Lemma find_visited_other s t tb xs A i a :
  fd_ok s t tb xs A → NoDup (handle_at s <$> xs) → handle_at s a ≠ fd_alloc tb → xs !! i = Some a →
  find (λ v, handle_at s v =? handle_at s a) (visited t xs) = if decide (i = 1%nat) then None else Some a.
Proof.
  intros Hok Hnd Hk Hi. destruct (find _ _) as [r|] eqn:Ef.
  - destruct (find_visited s t tb xs A _ r Hok Hk Ef) as (Hr & H1 & Hh).
    assert (r = a) as ->.
    { apply list_elem_of_lookup in Hr as [j Hj]. assert (j = i) as ->; [|congruence].
      eapply (NoDup_lookup (handle_at s <$> xs)); [exact Hnd| |]; rewrite list_lookup_fmap ?Hj ?Hi /=; [reflexivity|by rewrite Hh]. }
    rewrite decide_False //. by intros ->.
  - rewrite decide_True //. destruct (decide (i = 1%nat)) as [|Hne]; [done|]. exfalso.
    assert (a ∈ visited t xs) as Hv.
    { destruct xs as [|x [|y rest]]; [done| |].
      - destruct i; simpl in Hi; [injection Hi as ->; set_solver|done].
      - destruct i as [|[|i]]; simpl in Hi; [injection Hi as ->; simpl; set_solver|done|].
        simpl. apply list_elem_of_lookup_2 in Hi. set_solver. }
    apply list_elem_of_In in Hv. pose proof (List.find_none _ _ Ef a Hv) as H. by rewrite Z.eqb_refl in H.
Qed.
(** ** The search for a free handle *)

Lemma fresh_fold s vs h : 0 ≤ h → h + Z.of_nat (length vs) < 2 ^ 32 →
  h ≤ foldl (fresh_step s) h vs ≤ h + Z.of_nat (length vs) ∧
  (∀ j, h ≤ j < foldl (fresh_step s) h vs → j ∈ handle_at s <$> vs) ∧
  (foldl (fresh_step s) h vs = h → h ∉ handle_at s <$> vs).
Proof.
  revert h. induction vs as [|v vs IH]; intros h H0 Hl; simpl.
  { split_and!; [lia|lia|intros; lia|intros _; apply not_elem_of_nil]. }
  simpl in Hl. assert (fresh_step s h v = if decide (handle_at s v = h) then h + 1 else h) as ->.
  { rewrite /fresh_step. destruct (Z.eqb_spec (handle_at s v) h); [|by rewrite decide_False].
    rewrite decide_True //. apply u32_id. lia. }
  case_decide as E.
  - destruct (IH (h + 1)) as (H1 & H2 & H3); [lia..|]. split_and!; [lia|lia| |intros; lia].
    intros j Hj. destruct (decide (j = h)) as [->|]; [rewrite -{1}E; left|right; apply H2; lia].
  - destruct (IH h) as (H1 & H2 & H3); [lia..|]. split_and!; [lia|lia| |].
    + intros j Hj. right. apply H2. lia.
    + intros Hh. apply not_elem_of_cons. split; [congruence|by apply H3].
Qed.

(** Handles taken without a gap are not more than there are handles. *)
Lemma below_length (hs : list Z) h : 0 ≤ h → (∀ j, 0 ≤ j < h → j ∈ hs) → h ≤ Z.of_nat (length hs).
Proof.
  intros H0 H. assert (seqZ 0 h ⊆+ hs) as Hs.
  { apply NoDup_submseteq; [apply NoDup_seqZ|]. intros j Hj%elem_of_seqZ. apply H. lia. }
  apply submseteq_length in Hs. rewrite length_seqZ in Hs. lia.
Qed.

Lemma wp_handle_loop s t tb xs A : fd_ok s t tb xs A → xs ≠ [] → ∀ fuel h,
  0 ≤ h → (∀ j, 0 ≤ j < h → j ∈ handle_at s <$> visited t xs) →
  (length xs + (length xs - Z.to_nat h) + 1 < fuel)%nat →
  wp (handle_loop fuel t h) (λ r s', s' = s ∧ 0 ≤ r ≤ Z.of_nat (length xs) ∧
    r ∉ handle_at s <$> visited t xs ∧ (∀ j, 0 ≤ j < r → j ∈ handle_at s <$> visited t xs)) s.
Proof.
  intros Hok Hne. pose proof Hok as []. induction fuel as [|fuel IH]; intros h H0 Hb Hf; [lia|]. cbn [handle_loop].
  destruct xs as [|x xs]; [done|]. pose proof (below_length _ h H0 Hb) as Hl. rewrite length_fmap visited_length in Hl.
  apply wp_bind. eapply (wp_cell_next s t x). { destruct fd_ring0 as [_ Hc]. by destruct Hc as [Hc _]. }
  apply wp_bind. eapply (wp_cell_next s x (hd t (xs ++ t :: x :: xs))).
  { destruct (xs ++ t :: x :: xs) as [|n r] eqn:En; [by destruct xs|].
    apply (ring_next _ t (x :: xs) fd_ring0 [] x n r). simpl. by rewrite En. }
  apply wp_bind. eapply wp_mono; [apply (wp_handle_pass s t tb (x :: xs) A Hok (x :: xs) [] (S fuel) h eq_refl); simpl in Hf |- *; lia|].
  intros h' s' [-> ->]. rewrite visited_take //.
  destruct (fresh_fold s (visited t (x :: xs)) h) as (H1 & H2 & H3); [done|rewrite visited_length; lia|].
  set (h' := foldl _ _ _) in *.
  assert (∀ j, 0 ≤ j < h' → j ∈ handle_at s <$> visited t (x :: xs)) as Hb'.
  { intros j Hj. destruct (decide (j < h)); [apply Hb; lia|apply H2; lia]. }
  pose proof (below_length _ h' ltac:(lia) Hb') as Hl'. rewrite length_fmap visited_length in Hl'.
  destruct (Z.eqb_spec h h') as [E|N].
  - apply wp_ret. split_and!; [done|lia|lia| |done]. rewrite -E. apply H3. done.
  - apply IH; [lia|done|]. simpl in Hf, Hl' |- *. lia.
Qed.

(** ** Properties *)

(** [fdt_entry_retr] returns, and looks at every descriptor of the table
    but the second of the list: a descriptor gives its file, the one opened
    just before the newest gives NULL as if it were not open, and so does a
    handle that is not in the table. *)
Theorem fdt_entry_retr_correct s t tb xs A k fuel :
  fd_ok s t tb xs A → NoDup (handle_at s <$> xs) → k ≠ fd_alloc tb → (length xs < fuel)%nat →
  ∃ r, fdt_entry_retr fuel t k s = Ret (r, s) ∧
    (∀ i a e, xs !! i = Some a → ft_entries s !! a = Some e → fe_handle e = k →
       r = if decide (i = 1%nat) then NULL else fe_file e) ∧
    (k ∉ handle_at s <$> xs → r = NULL).
Proof.
  intros Hok Hnd Hk Hf. pose proof Hok as [].
  set (o := find (λ v, handle_at s v =? k) (visited t xs)).
  exists (from_option (λ a, from_option fe_file 0 (ft_entries s !! a)) NULL o).
  assert (∀ a, o = Some a → a ∈ xs ∧ a ≠ NULL ∧ handle_at s a = k) as Ho.
  { intros a Ha. destruct (find_visited s t tb xs A k a Hok Hk Ha) as (H1 & _ & H2). split_and!; [done| |done].
    apply fd_mine0. by right. }
  split; [|split].
  - destruct (wp_elim (fdt_entry_retr fuel t k) (λ r s', s' = s ∧ r = from_option (λ a, from_option fe_file 0 (ft_entries s !! a)) NULL o) s)
      as (r & s' & E & -> & ->); [|done].
    apply wp_bind. eapply wp_mono; [exact (wp_fdt_search s t tb xs A k fuel Hok Hf)|]. fold o. intros r s' [-> ->].
    destruct o as [a|] eqn:Eo; [|by apply wp_ret]. destruct (Ho a eq_refl) as (H1 & H2 & _). simpl.
    rewrite (proj2 (Z.eqb_neq a NULL) H2). destruct (fd_entries0 a H1) as [e He]. rewrite /ld_entry /wp /bind /= He. done.
  - intros i a e Hi He Hh. assert (handle_at s a = k) as Hk' by (by rewrite /handle_at He).
    unfold o. rewrite -Hk' (find_visited_other s t tb xs A i a Hok Hnd); [congruence|done|].
    case_decide; simpl; [done|]. by rewrite He.
  - intros Hn. destruct o as [a|]; [|done]. destruct (Ho a eq_refl) as (H1 & _ & H2). exfalso. apply Hn.
    apply list_elem_of_fmap. by exists a.
Qed.

(** [fdt_entry_del] of a descriptor that the loop reaches and that is
    referenced once takes exactly this one out of the list and drops a
    reference of its file; a descriptor it does not reach stays open. *)
Theorem fdt_entry_del_correct s t tb xs A k fuel i a e x :
  fd_ok s t tb xs A → NoDup (handle_at s <$> xs) → k ≠ fd_alloc tb → (length xs < fuel)%nat →
  xs !! i = Some a → ft_entries s !! a = Some e → fe_handle e = k → fe_refcount e = 1 →
  ft_files s !! fe_file e = Some x → 1 < f_refcount x < 2 ^ 32 →
  ∃ s', fdt_entry_del fuel t k s = Ret (tt, s') ∧
    (i = 1%nat → s' = s) ∧
    (i ≠ 1%nat → dll (ft_cells s') t (take i xs ++ drop (S i) xs) ∧
       ft_files s' = <[fe_file e := set_f_refcount (f_refcount x - 1) x]> (ft_files s)).
Proof.
  intros Hok Hnd Hk Hf Hi He Hh Hrc Hx Hcx. pose proof Hok as [].
  destruct (wp_elim (fdt_entry_del fuel t k) (λ _ s', (i = 1%nat → s' = s) ∧
    (i ≠ 1%nat → dll (ft_cells s') t (take i xs ++ drop (S i) xs) ∧
       ft_files s' = <[fe_file e := set_f_refcount (f_refcount x - 1) x]> (ft_files s))) s) as ([] & s' & E & H); [|by exists s'].
  assert (handle_at s a = k) as Hk' by (by rewrite /handle_at He).
  apply wp_bind. eapply wp_mono; [exact (wp_fdt_search s t tb xs A k fuel Hok Hf)|].
  intros r s' [-> ->]. rewrite -Hk' (find_visited_other s t tb xs A i a Hok Hnd); [congruence|done|].
  case_decide as Hd; simpl; [by apply wp_ret|].
  assert (a ≠ NULL) as Ha0. { apply (fd_mine0 a). right. exact (list_elem_of_lookup_2 _ _ _ Hi). }
  rewrite (proj2 (Z.eqb_neq a NULL) Ha0). apply wp_bind. eapply wp_ld_entry; [exact He|]. rewrite Hrc. cbn [Z.eqb Pos.eqb].
  apply wp_bind. rewrite /file_release. apply wp_bind. eapply wp_ld_file; [exact Hx|].
  rewrite u32_id; [lia|]. apply wp_bind, wp_modify. rewrite (proj2 (Z.eqb_neq (f_refcount x - 1) 0)); [lia|].
  apply wp_ret. apply wp_zoom. pose proof (list_elem_of_split_length _ _ _ Hi) as (l1 & l2 & Hxs & Hl).
  eapply wp_mono; [apply (list_del_wp _ t l1 a l2); by rewrite -Hxs|].
  intros [] h (Hd1 & _). split; [done|]. intros _. split; [|done]. subst xs i. simpl.
  rewrite take_app_length drop_app_ge; [lia|].
  replace (S (length l1) - length l1)%nat with 1%nat by lia. simpl. by rewrite drop_0.
Qed.
End props.

(** ** A table, filled by the code itself *)

#[local] Instance opool_caches : CacheOps opool := λ _, obj_alloc 0.

Definition demo_fdts0 : @fdts opool := mk_fdts ∅ ∅ ∅ ∅ ((λ i, 0x100 * (i + 1)) <$> seqZ 0 12).

(** The table is at 0x100, its cache at 0x200; the files are opened in turn. *)
Definition open_file : M (@fdts opool) Z := let! f := file_new 0x9000 1 in fdt_entry_add 16 0x100 f.
Definition demo_fdts : @fdts opool :=
  match (do! fd_table_init then do! open_file then open_file) demo_fdts0 with
  | Ret (_, s) => s
  | _ => demo_fdts0
  end.
Definition demo_table : fd_table := mk_fd_table 0x200.

Lemma demo_fd_ok : fd_ok demo_fdts 0x100 demo_table [0x600; 0x400] {[ 0x100; 0x200; 0x300; 0x400; 0x500; 0x600 ]}.
Proof.
  split.
  - vm_compute. reflexivity.
  - split; [decide_closed|vm_compute; tauto].
  - intros a Ha. repeat (apply elem_of_cons in Ha as [->|Ha]; [vm_compute; by eexists|]). by apply not_elem_of_nil in Ha.
  - vm_compute. reflexivity.
  - split_and!.
    + decide_closed.
    + intros v Hv. split; [|revert v Hv; apply Forall_forall; decide_closed].
      assert (Forall obj_ok (ft_objs demo_fdts)) as HF by (repeat constructor). exact (proj1 (Forall_forall _ _) HF v Hv).
    + intros v Hv. rewrite !elem_of_union !elem_of_singleton in Hv. destruct_or! Hv; subst v; by vm_compute.
  - intros a Ha. repeat (apply elem_of_cons in Ha as [->|Ha]; [split; [decide_closed|done]|]). by apply not_elem_of_nil in Ha.
  - simpl. lia.
Qed.

(** Handle 1, the newest, gives its file; handle 0 is lost. *)
Lemma fdt_entry_retr_witness :
  fdt_entry_retr 16 0x100 1 demo_fdts = Ret (0x500, demo_fdts) ∧ fdt_entry_retr 16 0x100 0 demo_fdts = Ret (NULL, demo_fdts).
Proof.
  split.
  - destruct (fdt_entry_retr_correct demo_fdts 0x100 demo_table [0x600; 0x400] _ 1 16 demo_fd_ok) as (r & Hr & H & _).
    + decide_closed.
    + done.
    + simpl. lia.
    + rewrite Hr. rewrite (H 0%nat 0x600 (mk_fdt_entry 1 0x500 1)); reflexivity.
  - destruct (fdt_entry_retr_correct demo_fdts 0x100 demo_table [0x600; 0x400] _ 0 16 demo_fd_ok) as (r & Hr & H & _).
    + decide_closed.
    + done.
    + simpl. lia.
    + rewrite Hr. rewrite (H 1%nat 0x400 (mk_fdt_entry 0 0x300 1)); reflexivity.
Defined.


(** A shared file: its descriptor is closed, the file stays. *)
Definition demo_shared : @fdts opool :=
  match file_get 0x500 demo_fdts with Ret (_, s) => s | _ => demo_fdts end.
Lemma demo_shared_ok : fd_ok demo_shared 0x100 demo_table [0x600; 0x400] {[ 0x100; 0x200; 0x300; 0x400; 0x500; 0x600 ]}.
Proof. destruct demo_fd_ok. by split. Qed.

Lemma fdt_entry_del_witness : ∃ s', fdt_entry_del 16 0x100 1 demo_shared = Ret (tt, s') ∧ dll (ft_cells s') 0x100 [0x400].
Proof.
  destruct (fdt_entry_del_correct demo_shared 0x100 demo_table [0x600; 0x400] _ 1 16 0 0x600
    (mk_fdt_entry 1 0x500 1) (mk_file 0x9000 1 0 2) demo_shared_ok) as (s' & Hs & _ & H).
  - decide_closed.
  - done.
  - simpl. lia.
  - reflexivity.
  - vm_compute. reflexivity.
  - reflexivity.
  - reflexivity.
  - vm_compute. reflexivity.
  - simpl. lia.
  - exists s'. split; [exact Hs|]. by apply H.
Defined.

(** The third file opened is given the handle of the first: two open
    descriptors then share the handle 0. *)
Theorem fdt_duplicate_handle :
  ∃ s, (do! fd_table_init then
        let! a := open_file in let! b := open_file in let! c := open_file in ret [a; b; c]) demo_fdts0 = Ret ([0; 1; 0], s) ∧
    fe_handle <$> (ft_entries s !! 0x400) = Some 0 ∧ fe_handle <$> (ft_entries s !! 0x800) = Some 0.
Proof. eexists. split; [vm_compute; reflexivity|]. split; vm_compute; reflexivity. Qed.
