(* ===== verification/Blk.v ===== *)
(** * Block devices and buffers ([kernel/blk.c], [kernel/blkdev.c],
      [include/scaraOS/blk.h])

    A buffer is an object of the buffer cache with a data area from
    [kmalloc]; a device is read through the function its driver installed. *)
From S2P Require Import Prelude ObjAlloc.

Record buffer := mk_buffer { b_dev : Z; b_block : Z; b_buf : Z; b_len : Z }.

(** [struct blkdev]; the name is the text [name] points to. *)
Record blkdev := mk_blkdev {
  bd_next : Z;
  bd_name : list Z;
  sectsize : Z;
  bd_count : Z;
  blksem : Z
}.
Definition set_bd_next (v : Z) (d : blkdev) : blkdev :=
  mk_blkdev v (bd_name d) (sectsize d) (bd_count d) (blksem d).
Definition set_bd_count (v : Z) (d : blkdev) : blkdev :=
  mk_blkdev (bd_next d) (bd_name d) (sectsize d) v (blksem d).
Definition set_blksem (v : Z) (d : blkdev) : blkdev :=
  mk_blkdev (bd_next d) (bd_name d) (sectsize d) (bd_count d) v.

(** [ll_rw_blk] of a device: the address of the device, the device, 0 for a read, the first
    sector; its result and the bytes it stored in the buffer. *)
Class Driver (D : Type) := ll_rw_blk : Z → blkdev → Z → Z → M D (Z * list Z).

(** The caches: [bh_cache], and the general caches of [kmalloc]. *)
Definition bh_cache : Z := 6.
Definition general_cache_of (sz : Z) : Z := 16 + Z.log2_up (Z.max 4 sz).
Definition OBJCACHE_POISON : Z := 0xa5.

Section blk.
Context {P D : Type} `{!ObjOps P, !Driver D}.

Record blk := mk_blk {
  bk_devs : gmap Z blkdev;
  bdevs : Z;
  bk_bufs : gmap Z buffer;
  bk_data : gmap Z (list Z);
  bk_objs : P;
  bk_drv : D
}.

Definition upd_devs (f : gmap Z blkdev → gmap Z blkdev) (b : blk) : blk :=
  mk_blk (f (bk_devs b)) (bdevs b) (bk_bufs b) (bk_data b) (bk_objs b) (bk_drv b).
Definition set_bdevs (v : Z) (b : blk) : blk :=
  mk_blk (bk_devs b) v (bk_bufs b) (bk_data b) (bk_objs b) (bk_drv b).
Definition upd_bufs (f : gmap Z buffer → gmap Z buffer) (b : blk) : blk :=
  mk_blk (bk_devs b) (bdevs b) (f (bk_bufs b)) (bk_data b) (bk_objs b) (bk_drv b).
Definition upd_data (f : gmap Z (list Z) → gmap Z (list Z)) (b : blk) : blk :=
  mk_blk (bk_devs b) (bdevs b) (bk_bufs b) (f (bk_data b)) (bk_objs b) (bk_drv b).
Definition set_bk_objs (v : P) (b : blk) : blk :=
  mk_blk (bk_devs b) (bdevs b) (bk_bufs b) (bk_data b) v (bk_drv b).
Definition set_bk_drv (v : D) (b : blk) : blk :=
  mk_blk (bk_devs b) (bdevs b) (bk_bufs b) (bk_data b) (bk_objs b) v.

Abbreviation B := (M blk).

Definition ld_dev (a : Z) : B blkdev := let! b := get in deref (bk_devs b !! a).
Definition st_dev (a : Z) (f : blkdev → blkdev) : B unit :=
  let! d := ld_dev a in modify (upd_devs (insert a (f d))).
Definition ld_buf (a : Z) : B buffer := let! b := get in deref (bk_bufs b !! a).
Definition ld_data (a : Z) : B (list Z) := let! b := get in deref (bk_data b !! a).
Definition on_bobjs {A} (m : M P A) : B A := zoom bk_objs set_bk_objs m.

(** [kmalloc] of a data area, which comes poisoned, and [kfree] of it. *)
Definition kmalloc_area (sz : Z) : B Z :=
  if 4096 <? sz then ret NULL else
  let! a := on_bobjs (obj_alloc (general_cache_of sz)) in
  do! when (negb (a =? NULL)) (modify (upd_data (insert a (replicate (Z.to_nat sz) OBJCACHE_POISON)))) then
  ret a.
Definition kfree_area (a sz : Z) : B unit :=
  do! modify (upd_data (delete a)) then
  on_bobjs (obj_free (general_cache_of sz) a).

(** [sem_P(&dev->blksem)] and [sem_V]. *)
Definition dev_P (dev : Z) : B unit :=
  let! d := ld_dev dev in
  if blksem d <=? 0 then block else st_dev dev (set_blksem (blksem d - 1)).
Definition dev_V (dev : Z) : B unit := st_dev dev (λ d, set_blksem (blksem d + 1) d).

Definition block_bytes (d : blkdev) : Z := u32 (bd_count d * sectsize d).

Definition blk_free (bh : Z) : B unit :=
  let! x := ld_buf bh in
  do! kfree_area (b_buf x) (b_len x) then
  do! modify (upd_bufs (delete bh)) then
  on_bobjs (obj_free bh_cache bh).

Definition blk_read (dev logical : Z) : B Z :=
  let! bh := on_bobjs (obj_alloc bh_cache) in
  if bh =? NULL then ret NULL else
  let! d := ld_dev dev in
  let! buf := kmalloc_area (block_bytes d) in
  do! modify (upd_bufs (insert bh (mk_buffer dev logical buf (block_bytes d)))) then
  if buf =? NULL then
    do! modify (upd_bufs (delete bh)) then
    do! on_bobjs (obj_free bh_cache bh) then
    ret NULL
  else
  do! dev_P dev then
  let! d := ld_dev dev in
  let! r := zoom bk_drv set_bk_drv (ll_rw_blk dev d 0 (u64 (logical * bd_count d))) in
  let! old := ld_data buf in
  do! modify (upd_data (insert buf (snd r ++ drop (length (snd r)) old))) then
  if ctrue (fst r) then
    do! dev_V dev then
    do! blk_free bh then
    ret NULL
  else
  do! dev_V dev then
  ret bh.

Definition blk_set_blocksize (dev size : Z) : B Z :=
  let! d := ld_dev dev in
  if size <? sectsize d then ret (-1) else
  if (4096 <? size) || (size <? 512) || ctrue (Z.land size (u32 (size - 1))) then ret (-1) else
  if u32 (sectsize d * bd_count d) =? size then ret 0 else
  do! st_dev dev (set_bd_count (size / sectsize d)) then
  ret 0.

(** ** [kernel/blkdev.c] *)

Definition blkdev_add (bd : Z) : B unit :=
  do! bug_on (bd =? NULL) then
  let! first := gets bdevs in
  do! st_dev bd (set_bd_next first) then
  do! modify (set_bdevs bd) then
  st_dev bd (set_blksem 1).

Fixpoint blkdev_find (fuel : nat) (r : Z) (name : list Z) : B Z :=
  match fuel with
  | O => nofuel
  | S fuel =>
    if r =? NULL then ret NULL else
    let! d := ld_dev r in
    if bool_decide (name = bd_name d) then ret r else blkdev_find fuel (bd_next d) name
  end.
Definition blkdev_get (fuel : nat) (name : list Z) : B Z :=
  let! first := gets bdevs in blkdev_find fuel first name.
End blk.
