(* ===== verification/BlkProps.v ===== *)
(** * Buffers hold the blocks of their device, and are given back *)
From S2P Require Import Prelude ObjAlloc Blk.

(** What the drivers promise: a device is a sequence of sectors, of which some
    cannot be read; a read of [count] sectors gives their bytes in order, or
    fails, and does not change the device.  [drv_ok d a z]: the driver has a
    device [a] with sectors of [z] bytes, and it is idle. *)
Class DriverSpec (D : Type) `{!Driver D} := {
  drv_sector : D → Z → Z → option (list Z);
  drv_ok : D → Z → Z → Prop;
  drv_read d a dv n : drv_ok d a (sectsize dv) →
    wp (ll_rw_blk a dv 0 n) (λ r d', (∀ x z, drv_ok d x z → drv_ok d' x z) ∧
      (∀ x k, drv_sector d' x k = drv_sector d x k) ∧
      match mapM (drv_sector d a) (seqZ n (bd_count dv)) with
      | Some l => fst r = 0 ∧ snd r = mjoin l
      | None => fst r ≠ 0
      end) d
}.

(** A power of two shares no bit with its predecessor. *)
Lemma land_pred_pow2 x : 0 < x → Z.land x (x - 1) = 0 ↔ x = 2 ^ Z.log2 x.
Proof.
  intros Hx. pose proof (Z.log2_spec x Hx) as [H1 H2]. pose proof (Z.log2_nonneg x) as H0. split.
  - intros H. destruct (decide (x = 2 ^ Z.log2 x)) as [|Hne]; [done|]. exfalso.
    assert (Z.log2 (x - 1) = Z.log2 x) as Hl by (apply Z.log2_unique; lia).
    assert (Z.testbit (Z.land x (x - 1)) (Z.log2 x) = true) as Hb.
    { rewrite Z.land_spec (Z.bit_log2 x Hx) /= -Hl. apply Z.bit_log2.
      assert (1 ≤ 2 ^ Z.log2 x) by (apply (Z.pow_le_mono_r 2 0); lia). lia. }
    rewrite H Z.bits_0 in Hb. done.
  - generalize dependent (Z.log2 x). intros k _ _ Hk ->. replace (2 ^ k - 1) with (Z.ones k) by (rewrite Z.ones_equiv; lia).
    rewrite Z.land_ones //. apply Z.mod_same. lia.
Qed.

Section blk.
Context {P D : Type} `{!ObjOps P, !ObjSpec P, !Driver D, !DriverSpec D}.
Implicit Types (b : @blk P D) (dv : blkdev).

(** The device [dev] is idle; the live objects include every buffer and area. *)
Record blk_ok b (dev : Z) dv (A : gset Z) : Prop := {
  bk_dev : bk_devs b !! dev = Some dv;
  bk_sem : blksem dv = 1;
  bk_count : 0 < bd_count dv;
  bk_sect : 0 < sectsize dv;
  bk_size : bd_count dv * sectsize dv ≤ 4096;
  bk_idle : drv_ok (bk_drv b) dev (sectsize dv);
  bk_sectors k l : drv_sector (bk_drv b) dev k = Some l → Z.of_nat (length l) = sectsize dv;
  bk_live : objs_live (bk_objs b) A;
  bk_bufs_live a : is_Some (bk_bufs b !! a) → a ∈ A;
  bk_data_live a : is_Some (bk_data b !! a) → a ∈ A
}.

(** The bytes of block [n]. *)
Definition block_of b (dev : Z) dv (n : Z) : option (list Z) :=
  mjoin <$> mapM (drv_sector (bk_drv b) dev) (seqZ (n * bd_count dv) (bd_count dv)).

(** Nothing but the allocator and the driver's registers has changed. *)
Definition blk_same b b' : Prop :=
  bk_devs b' = bk_devs b ∧ bdevs b' = bdevs b ∧ (∀ x k, drv_sector (bk_drv b') x k = drv_sector (bk_drv b) x k) ∧
  (∀ x z, drv_ok (bk_drv b) x z → drv_ok (bk_drv b') x z).

Lemma blk_same_refl b : blk_same b b.
Proof. done. Qed.
Lemma blk_same_trans b1 b2 b3 : blk_same b1 b2 → blk_same b2 b3 → blk_same b1 b3.
Proof.
  intros (H1 & H2 & H3 & H4) (K1 & K2 & K3 & K4). split_and!; [congruence|congruence| |].
  - intros x k. by rewrite K3 H3.
  - intros x z Hx. by apply K4, H4.
Qed.

Lemma block_of_same b b' dev dv n : blk_same b b' → block_of b' dev dv n = block_of b dev dv n.
Proof.
  intros (_ & _ & H & _). rewrite /block_of. f_equal. generalize (seqZ (n * bd_count dv) (bd_count dv)). intros l.
  induction l as [|x l IH]; [done|]. simpl. by rewrite H IH.
Qed.

Lemma mapM_length {A B} (f : A → option B) l k : mapM f l = Some k → length k = length l.
Proof.
  revert k. induction l as [|x l IH]; intros k H; simpl in H; [by injection H as <-|].
  destruct (f x); [|done]. simpl in H. destruct (mapM f l); [|done]. simpl in H. injection H as <-. simpl. by rewrite (IH l0).
Qed.

Lemma block_of_length b dev dv A n l : blk_ok b dev dv A → block_of b dev dv n = Some l →
  Z.of_nat (length l) = bd_count dv * sectsize dv.
Proof.
  intros [] H. unfold block_of in H. destruct (mapM _ _) as [k|] eqn:Em; [|done]. simpl in H. injection H as <-.
  assert (length k = Z.to_nat (bd_count dv)) as Hk by (rewrite (mapM_length _ _ _ Em) length_seqZ; lia).
  assert (Forall (λ s, Z.of_nat (length s) = sectsize dv) k) as Hf.
  { clear Hk. revert k Em. generalize (seqZ (n * bd_count dv) (bd_count dv)). intros q.
    induction q as [|x q IH]; intros k H; simpl in H; [injection H as <-; constructor|].
    destruct (drv_sector (bk_drv b) dev x) as [s|] eqn:Es; [|done]. simpl in H.
    destruct (mapM _ q) as [r|] eqn:Er; [|done]. simpl in H. injection H as <-. constructor; [exact (bk_sectors0 _ _ Es)|by apply IH]. }
  assert (Z.of_nat (length (mjoin k)) = Z.of_nat (length k) * sectsize dv) as ->.
  { clear -Hf. induction Hf as [|s k Hs Hk IH]; [done|]. simpl. rewrite length_app. lia. }
  rewrite Hk. lia.
Qed.

Lemma wp_ld_dev b a d (Q : blkdev → blk → Prop) : bk_devs b !! a = Some d → Q d b → wp (ld_dev a) Q b.
Proof. intros H HQ. apply wp_bind. rewrite /wp /= H. done. Qed.
Lemma wp_ld_buf b a d (Q : buffer → blk → Prop) : bk_bufs b !! a = Some d → Q d b → wp (ld_buf a) Q b.
Proof. intros H HQ. apply wp_bind. rewrite /wp /= H. done. Qed.
Lemma wp_ld_data b a d (Q : list Z → blk → Prop) : bk_data b !! a = Some d → Q d b → wp (ld_data a) Q b.
Proof. intros H HQ. apply wp_bind. rewrite /wp /= H. done. Qed.
Lemma wp_st_dev b a d f (Q : unit → blk → Prop) :
  bk_devs b !! a = Some d → Q tt (upd_devs (insert a (f d)) b) → wp (st_dev a f) Q b.
Proof. intros H HQ. apply wp_bind. eapply wp_ld_dev; [exact H|]. by apply wp_modify. Qed.

Lemma wp_dev_P b a d (Q : unit → blk → Prop) :
  bk_devs b !! a = Some d → blksem d = 1 → Q tt (upd_devs (insert a (set_blksem 0 d)) b) → wp (dev_P a) Q b.
Proof.
  intros H Hs HQ. apply wp_bind. eapply wp_ld_dev; [exact H|]. rewrite Hs. change (1 <=? 0) with false. cbv iota.
  eapply wp_st_dev; [exact H|]. exact HQ.
Qed.

(** The allocations of a read: the buffer, the area for its data. *)
Definition block_io dv : list Z := [bh_cache; general_cache_of (bd_count dv * sectsize dv)].

(** [blk_free] of a live buffer. *)
Lemma wp_blk_free b bh x A (Q : unit → blk → Prop) :
  bk_bufs b !! bh = Some x → bh ∈ A → b_buf x ∈ A → bh ≠ b_buf x → objs_live (bk_objs b) A →
  (∀ p, objs_live p (A ∖ {[ b_buf x ]} ∖ {[ bh ]}) →
     (∀ l, objs_avail (bk_objs b) l → objs_avail p (bh_cache :: general_cache_of (b_len x) :: l)) →
     Q tt (set_bk_objs p (upd_bufs (delete bh) (upd_data (delete (b_buf x)) b)))) →
  wp (blk_free bh) Q b.
Proof.
  intros Hx H1 H2 Hne Hl HQ. apply wp_bind. eapply wp_ld_buf; [exact Hx|]. apply wp_bind, wp_bind, wp_modify.
  apply wp_zoom. eapply wp_mono; [exact (objs_free_avail _ _ (general_cache_of (b_len x)) _ Hl H2)|]. intros [] p [Hp Ha].
  apply wp_bind, wp_modify. apply wp_zoom. eapply wp_mono; [apply (objs_free_avail _ _ bh_cache bh Hp); set_solver|].
  intros [] p' [Hp' Ha']. apply (HQ p' Hp'). intros l Hl0. by apply Ha', Ha.
Qed.

(** What [blk_read] leaves: NULL and the same buffers, or a new buffer with the
    bytes of the block. *)
Definition read_post b (dev : Z) dv (A : gset Z) (n r : Z) b' : Prop :=
  blk_same b b' ∧
  ((r = NULL ∧ bk_bufs b' = bk_bufs b ∧ bk_data b' = bk_data b ∧ objs_live (bk_objs b') A) ∨
   (∃ buf l, block_of b dev dv n = Some l ∧ r ≠ NULL ∧ r ∉ A ∧ buf ∉ A ∧ r ≠ buf ∧
      bk_bufs b' = <[r := mk_buffer dev n buf (bd_count dv * sectsize dv)]> (bk_bufs b) ∧
      bk_data b' = <[buf := l]> (bk_data b) ∧ objs_live (bk_objs b') ({[ buf ]} ∪ ({[ r ]} ∪ A)))).

(** With memory for a read, NULL means that the block is not readable; then the
    memory is there again, and otherwise [blk_free] gives it back. *)
Definition read_supply b (dev : Z) dv (n r : Z) b' : Prop := ∀ l,
  objs_avail (bk_objs b) (block_io dv ++ l) →
  if decide (r = NULL) then block_of b dev dv n = None ∧ objs_avail (bk_objs b') (block_io dv ++ l)
  else objs_avail (bk_objs b') l.

Lemma wp_kmalloc_area b sz A (Q : Z → blk → Prop) :
  0 ≤ sz ≤ 4096 → objs_live (bk_objs b) A →
  (∀ p, objs_live p A → (∀ l, ¬ objs_avail (bk_objs b) (general_cache_of sz :: l)) → Q NULL (set_bk_objs p b)) →
  (∀ a p, a ≠ NULL → a ∉ A → objs_live p ({[ a ]} ∪ A) →
     (∀ l, objs_avail (bk_objs b) (general_cache_of sz :: l) → objs_avail p l) →
     Q a (upd_data (insert a (replicate (Z.to_nat sz) OBJCACHE_POISON)) (set_bk_objs p b))) →
  wp (kmalloc_area sz) Q b.
Proof.
  intros Hsz Hl H0 H1. rewrite /kmalloc_area. destruct (Z.ltb_spec 4096 sz); [lia|].
  apply wp_bind, wp_zoom. eapply wp_mono; [exact (objs_alloc_avail _ _ (general_cache_of sz) Hl)|].
  intros a p [[[-> Hp]|(Ha & _ & HA & Hp)] Hav].
  - apply wp_bind. change (negb (NULL =? NULL)) with false. apply wp_ret. apply wp_ret. apply H0; [done|].
    intros l Hl0. by destruct (Hav l Hl0).
  - apply wp_bind. rewrite (proj2 (Z.eqb_neq a NULL)); [unfold NULL; lia|]. apply wp_modify. apply wp_ret.
    apply H1; [unfold NULL; lia|done|done|]. intros l Hl0. by apply Hav.
Qed.

Lemma wp_blk_read b dev dv A n :
  blk_ok b dev dv A → 0 ≤ n → n * bd_count dv < 2 ^ 64 →
  wp (blk_read dev n) (λ r b', read_post b dev dv A n r b' ∧ read_supply b dev dv n r b') b.
Proof.
  intros Hok Hn Hb. pose proof Hok as []. rewrite /blk_read. apply wp_bind, wp_zoom.
  eapply wp_mono; [exact (objs_alloc_avail _ _ bh_cache bk_live0)|].
  intros bh p [[[-> Hp]|(Hr & _ & HbA & Hp)] Hav].
  { apply wp_ret. split; [split; [done|]; by left|]. intros l Hl. by destruct (Hav _ Hl). }
  rewrite (proj2 (Z.eqb_neq bh NULL)); [unfold NULL; lia|].
  assert (block_bytes dv = bd_count dv * sectsize dv) as Hbb by (apply u32_id; lia).
  apply wp_bind. eapply wp_ld_dev; [exact bk_dev0|]. rewrite Hbb. apply wp_bind.
  eapply (wp_kmalloc_area _ _ ({[ bh ]} ∪ A)); [nia|exact Hp| |].
  { intros p1 Hp1 Hno. apply wp_bind, wp_modify. change (NULL =? NULL) with true. cbv iota.
    apply wp_bind, wp_modify. apply wp_bind, wp_zoom.
    eapply wp_mono; [apply (objs_free _ _ bh_cache bh Hp1); set_solver|]. intros [] p2 Hp2. apply wp_ret.
    split; [split; [done|]; left; split_and!; [done| |done|]|].
    - simpl. rewrite delete_insert_id //. apply eq_None_not_Some. intros H. by apply HbA, bk_bufs_live0.
    - assert (({[ bh ]} ∪ A) ∖ {[ bh ]} = A) as <- by set_solver. exact Hp2.
    - intros l Hl. destruct (Hno l). apply (Hav _ Hl). }
  intros buf p1 Hbuf HbufA Hp1 Hav1. apply wp_bind, wp_modify. rewrite (proj2 (Z.eqb_neq buf NULL) Hbuf).
  apply wp_bind. eapply wp_dev_P; [exact bk_dev0|done|]. apply wp_bind.
  eapply (wp_ld_dev _ dev (set_blksem 0 dv)); [simpl; by rewrite lookup_insert_eq|].
  apply wp_bind, wp_zoom. simpl bd_count. rewrite /u64 Z.mod_small; [nia|].
  eapply wp_mono; [exact (drv_read (bk_drv b) dev (set_blksem 0 dv) (n * bd_count dv) bk_idle0)|].
  intros [rc bytes] d' (Hidle & Hsame & Hres). cbn [fst snd bd_count set_blksem] in *.
  apply wp_bind. eapply wp_ld_data; [simpl; by rewrite lookup_insert_eq|]. apply wp_bind, wp_modify.
  set (old := replicate _ _).
  assert (∀ b2, bk_devs b2 = <[dev := set_blksem 0 dv]> (bk_devs b) →
    upd_devs (insert dev (set_blksem (blksem (set_blksem 0 dv) + 1) (set_blksem 0 dv))) b2 =
    mk_blk (bk_devs b) (bdevs b2) (bk_bufs b2) (bk_data b2) (bk_objs b2) (bk_drv b2)) as Hun.
  { intros b2 E. rewrite /upd_devs E insert_insert_eq. f_equal. apply insert_id. rewrite bk_dev0.
    destruct dv; simpl in *. by subst. }
  assert (bh ≠ buf) as Hne by (intros ->; set_solver).
  destruct (mapM _ _) as [l|] eqn:Em.
  - destruct Hres as [-> ->]. change (ctrue 0) with false. cbv iota.
    apply wp_bind. eapply wp_st_dev; [simpl; by rewrite lookup_insert_eq|]. apply wp_ret. rewrite Hun //.
    split; [|intros k Hk; rewrite decide_False; [unfold NULL; lia|]; apply Hav1, (Hav _ Hk)].
    split; [done|]. right. exists buf, (mjoin l). simpl.
    assert (block_of b dev dv n = Some (mjoin l)) as Hbo by (by rewrite /block_of Em).
    pose proof (block_of_length b dev dv A n _ Hok Hbo) as Hlen.
    assert (drop (length (mjoin l)) old = []) as ->.
    { apply drop_ge. unfold old. rewrite length_replicate. lia. }
    rewrite app_nil_r insert_insert_eq. split_and!; [done|unfold NULL; lia|done|set_solver|done|done|done|done].
  - assert (ctrue rc = true) as Hrc by (rewrite /ctrue; by destruct (Z.eqb_spec rc 0)). rewrite Hrc.
    apply wp_bind. eapply wp_st_dev; [simpl; by rewrite lookup_insert_eq|]. rewrite Hun //. apply wp_bind.
    eapply (wp_blk_free _ bh _ ({[ buf ]} ∪ ({[ bh ]} ∪ A))); [simpl; by rewrite lookup_insert_eq|set_solver|simpl; set_solver|done|exact Hp1|].
    intros p2 Hp2 Hav2. apply wp_ret. split; [split; [done|]; left; simpl; split_and!; [done| | |]|].
    + rewrite delete_insert_id //. apply eq_None_not_Some. intros H. by apply HbA, bk_bufs_live0.
    + rewrite insert_insert_eq delete_insert_id //. apply eq_None_not_Some. intros H. apply HbufA. apply elem_of_union_r, bk_data_live0, H.
    + simpl in Hp2. assert (({[ buf ]} ∪ ({[ bh ]} ∪ A)) ∖ {[ buf ]} ∖ {[ bh ]} = A) as <-; [set_solver|exact Hp2].
    + intros k Hk. split; [by rewrite /block_of Em|]. apply Hav2, Hav1, (Hav _ Hk).
Qed.

(** A buffer that was read can be freed, and everything is as before. *)
Lemma wp_free_read b dev dv A n r b' (Q : unit → blk → Prop) :
  blk_ok b dev dv A → read_post b dev dv A n r b' → r ≠ NULL →
  (∀ b'', blk_same b b'' → bk_bufs b'' = bk_bufs b → bk_data b'' = bk_data b → objs_live (bk_objs b'') A →
     (∀ l, objs_avail (bk_objs b') l → objs_avail (bk_objs b'') (block_io dv ++ l)) → Q tt b'') →
  wp (blk_free r) Q b'.
Proof.
  intros [] [Hs [[-> _]|(buf & l & _ & _ & Hr & Hb & Hne & Hbufs & Hdata & Hl)]] Hn HQ; [done|].
  eapply wp_blk_free; [rewrite Hbufs; by rewrite lookup_insert_eq| | |simpl; exact Hne|exact Hl|].
  - set_solver.
  - simpl. set_solver.
  - intros p Hp Hav. apply HQ; [| | | |exact Hav].
    + done.
    + simpl. rewrite Hbufs delete_insert_id //. apply eq_None_not_Some. intros H. by apply Hr, bk_bufs_live0.
    + simpl. rewrite Hdata delete_insert_id //. apply eq_None_not_Some. intros H. by apply Hb, bk_data_live0.
    + simpl in Hp |- *. assert (({[ buf ]} ∪ ({[ r ]} ∪ A)) ∖ {[ buf ]} ∖ {[ r ]} = A) as <-; [set_solver|exact Hp].
Qed.

(** C20: [blk_read] returns NULL, or a new buffer holding the bytes of the
    block, read sector by sector; NULL leaves no buffer, no data area and no
    object behind, and [blk_free] of the buffer gives everything back.  When
    there is memory for a buffer and its data, NULL is returned only for a
    block that the device does not give. *)
Theorem blk_read_free_roundtrip b dev dv A n :
  blk_ok b dev dv A → 0 ≤ n → n * bd_count dv < 2 ^ 64 →
  ∃ r b', blk_read dev n b = Ret (r, b') ∧ read_post b dev dv A n r b' ∧ read_supply b dev dv n r b' ∧
    (r ≠ NULL → ∃ b'', blk_free r b' = Ret (tt, b'') ∧ blk_same b b'' ∧
       bk_bufs b'' = bk_bufs b ∧ bk_data b'' = bk_data b ∧ objs_live (bk_objs b'') A).
Proof.
  intros Hok Hn Hb. destruct (wp_elim _ _ _ (wp_blk_read b dev dv A n Hok Hn Hb)) as (r & b' & E & Hp & Hsup).
  exists r, b'. split; [done|]. split; [done|]. split; [done|]. intros Hr.
  destruct (wp_elim (blk_free r) (λ _ b'', blk_same b b'' ∧
       bk_bufs b'' = bk_bufs b ∧ bk_data b'' = bk_data b ∧ objs_live (bk_objs b'') A) b') as ([] & b'' & E'' & H); [|by exists b''].
  eapply wp_free_read; [exact Hok|exact Hp|done|]. intros b'' H1 H2 H3 H4 _. done.
Qed.

(** [blk_set_blocksize] accepts exactly the powers of two from 512 to
    4096 that are not smaller than a sector, and then a block of the device
    has that size (when sectors divide it); otherwise it answers -1 and
    changes nothing. *)
Theorem blk_set_blocksize_correct b dev dv size :
  bk_devs b !! dev = Some dv → 0 < sectsize dv → 0 ≤ size < 2 ^ 32 →
  ∃ r b', blk_set_blocksize dev size b = Ret (r, b') ∧
    (r = 0 ↔ sectsize dv ≤ size ∧ ∃ k, 9 ≤ k ≤ 12 ∧ size = 2 ^ k) ∧
    (r = 0 → (sectsize dv | size) → ∃ dv', bk_devs b' !! dev = Some dv' ∧ block_bytes dv' = size) ∧
    (r ≠ 0 → r = -1 ∧ b' = b).
Proof.
  intros Hd Hs Hz. apply wp_elim. apply wp_bind. eapply wp_ld_dev; [exact Hd|].
  assert ((∃ k, 9 ≤ k ≤ 12 ∧ size = 2 ^ k) ↔ 512 ≤ size ≤ 4096 ∧ Z.land size (size - 1) = 0) as Hpow.
  { split.
    - intros (k & Hk & ->). rewrite (land_pred_pow2 (2 ^ k)); [lia|]. rewrite Z.log2_pow2; [lia|]. split; [|done].
      pose proof (Z.pow_le_mono_r 2 9 k). pose proof (Z.pow_le_mono_r 2 k 12). lia.
    - intros [Hr Hl]. apply land_pred_pow2 in Hl; [|lia]. exists (Z.log2 size). split; [|done].
      split; [apply (Z.log2_le_mono 512)|apply (Z.log2_le_mono _ 4096)]; lia. }
  eapply (wp_mono _ (λ r b', (r = 0 ↔ sectsize dv ≤ size ∧ 512 ≤ size ≤ 4096 ∧ Z.land size (size - 1) = 0) ∧
    (r = 0 → (sectsize dv | size) → ∃ dv', bk_devs b' !! dev = Some dv' ∧ block_bytes dv' = size) ∧
    (r ≠ 0 → r = -1 ∧ b' = b))); [|intros r b'; by rewrite Hpow].
  destruct (Z.ltb_spec size (sectsize dv)).
  { apply wp_ret. split_and!; [lia|lia|done]. }
  destruct (Z.ltb_spec 4096 size); [apply wp_ret; split_and!; [lia|lia|done]|].
  destruct (Z.ltb_spec size 512); [apply wp_ret; split_and!; [lia|lia|done]|].
  rewrite u32_id; [lia|]. cbn [orb]. rewrite /ctrue. destruct (Z.eqb_spec (Z.land size (size - 1)) 0) as [E|N]; cbn [negb].
  2:{ apply wp_ret. split_and!; [lia|lia|done]. }
  destruct (Z.eqb_spec (u32 (sectsize dv * bd_count dv)) size) as [Es|Ns].
  { apply wp_ret. split_and!; [lia| |done]. intros _ _. exists dv. split; [done|].
    by rewrite /block_bytes Z.mul_comm. }
  apply wp_bind. eapply wp_st_dev; [exact Hd|]. apply wp_ret. split_and!; [lia| |done].
  intros _ [q Hq]. eexists. split; [simpl; by rewrite lookup_insert_eq|]. rewrite /block_bytes /=.
  rewrite Hq Z.div_mul; [lia|]. rewrite -Hq. apply u32_id. lia.
Qed.
End blk.

(** ** A disk in memory *)

Definition ramdisk := list (list Z).
Definition rd_sector (d : ramdisk) (k : Z) : option (list Z) := if k <? 0 then None else d !! Z.to_nat k.

#[export] Instance ramdisk_driver : Driver ramdisk := λ _ dv _ n d,
  match mapM (rd_sector d) (seqZ n (bd_count dv)) with
  | Some l => Ret ((0, mjoin l), d)
  | None => Ret ((1, []), d)
  end.
#[export] Program Instance ramdisk_spec : DriverSpec ramdisk := {| drv_sector d _ := rd_sector d; drv_ok _ _ _ := True |}.
Next Obligation. intros d a dv n _. rewrite /wp /ll_rw_blk /ramdisk_driver. by destruct (mapM _ _). Qed.

(** Four sectors of eight bytes, two to a block. *)
Definition demo_disk : ramdisk := [seqZ 0 8; seqZ 8 8; seqZ 16 8; seqZ 24 8].
Definition demo_dev : blkdev := mk_blkdev NULL [104; 100] 8 2 1.
Definition demo_blk : @blk opool ramdisk :=
  mk_blk {[ 0x40 := demo_dev ]} 0x40 ∅ ∅ [0x100; 0x200; 0x300; 0x400] demo_disk.

Lemma demo_blk_ok : blk_ok demo_blk 0x40 demo_dev ∅.
Proof.
  split; try done.
  - intros k l. change (drv_sector (bk_drv demo_blk) 0x40 k) with (rd_sector demo_disk k). rewrite /rd_sector.
    destruct (Z.ltb_spec k 0); [done|]. intros Hl%list_elem_of_lookup_2. revert Hl. unfold demo_disk.
    rewrite !elem_of_cons elem_of_nil. intros Hl. destruct_or! Hl; by subst.
  - split_and!; [decide_closed| |set_solver].
    intros v Hv. split; [|set_solver]. assert (Forall obj_ok (bk_objs demo_blk)) as HF by (repeat constructor).
    exact (proj1 (Forall_forall _ _) HF v Hv).
  - intros a [x Hx]. done.
  - intros a [x Hx]. done.
Qed.

Lemma blk_read_free_witness : ∃ r b', blk_read 0x40 1 demo_blk = Ret (r, b') ∧
  read_post demo_blk 0x40 demo_dev ∅ 1 r b' ∧ block_of demo_blk 0x40 demo_dev 1 = Some (seqZ 16 16).
Proof.
  destruct (blk_read_free_roundtrip demo_blk 0x40 demo_dev ∅ 1 demo_blk_ok) as (r & b' & H1 & H2 & _); [done|done|].
  exists r, b'. split; [exact H1|]. split; [exact H2|]. vm_compute. reflexivity.
Defined.

Lemma blk_set_blocksize_witness : ∃ b', blk_set_blocksize 0x40 1024 demo_blk = Ret (0, b') ∧
  ∃ dv', bk_devs b' !! 0x40 = Some dv' ∧ block_bytes dv' = 1024.
Proof.
  destruct (blk_set_blocksize_correct demo_blk 0x40 demo_dev 1024) as (r & b' & E & H1 & H2 & _).
  - reflexivity.
  - simpl. lia.
  - lia.
  - assert (r = 0) as -> by (apply H1; split; [simpl; lia|]; exists 10; split; [lia|reflexivity]).
    exists b'. split; [exact E|]. apply H2; [reflexivity|]. exists 128. reflexivity.
Defined.
