(* ===== verification/Ext2.v ===== *)
(** * The second extended file system ([fs/ext2.c], the on-disk structures of
      [include/scaraOS/ext2.h], [include/scaraOS/ext2_sb.h])

    Blocks of the disk are byte lists; a structure is read through its
    layout, the list of its fields in the order of the declaration.  Reads
    outside a block fault.  [ext2_read_inode] is the file system's side of
    the inode cache, [ext2_pread] and [ext2_lookup] are its inode operations. *)
From Stdlib Require Import String.
From stdpp Require Import strings.
From S2P Require Import Prelude Kmem ObjAlloc Rbtree KeyTree Inode Blk.

(** ** Layouts *)

(** A field: its name, the width of an element in bytes, the number of elements. *)
Record field := Field { fd_name : string; fd_width : Z; fd_elems : Z }.
Definition layout := list field.

(** Elements are aligned to their width. *)
Definition align (w o : Z) : Z := (o + w - 1) / w * w.
Fixpoint offset_from (o : Z) (l : layout) (n : string) : option (Z * Z) :=
  match l with
  | [] => None
  | f :: l =>
    if String.eqb (fd_name f) n then Some (align (fd_width f) o, fd_width f)
    else offset_from (align (fd_width f) o + fd_width f * fd_elems f) l n
  end.
Fixpoint size_from (o : Z) (l : layout) : Z :=
  match l with
  | [] => o
  | f :: l => size_from (align (fd_width f) o + fd_width f * fd_elems f) l
  end.
Definition sizeof (l : layout) : Z := size_from 0 l.

Open Scope string_scope.
Definition ext2_group_desc : layout := [
  Field "bg_block_bitmap" 4 1; Field "bg_inode_bitmap" 4 1; Field "bg_inode_table" 4 1;
  Field "bg_free_blocks_count" 2 1; Field "bg_free_inodes_count" 2 1; Field "bg_used_dirs_count" 2 1;
  Field "bg_pad" 2 1; Field "bg_reserved" 4 3 ].

Definition EXT2_NDIR_BLOCKS : Z := 12.
Definition EXT2_N_BLOCKS : Z := EXT2_NDIR_BLOCKS + 3.

Definition ext2_inode : layout := [
  Field "i_mode" 2 1; Field "i_uid" 2 1; Field "i_size" 4 1; Field "i_atime" 4 1; Field "i_ctime" 4 1;
  Field "i_mtime" 4 1; Field "i_dtime" 4 1; Field "i_gid" 2 1; Field "i_links_count" 2 1;
  Field "i_blocks" 4 1; Field "i_flags" 4 1; Field "osd1" 4 1; Field "i_block" 4 EXT2_N_BLOCKS;
  Field "i_generation" 4 1; Field "i_file_acl" 4 1; Field "i_dir_acl" 4 1; Field "i_faddr" 4 1;
  Field "osd2" 4 3 ].

Definition ext2_super_block : layout := [
  Field "s_inodes_count" 4 1; Field "s_blocks_count" 4 1; Field "s_r_blocks_count" 4 1;
  Field "s_free_blocks_count" 4 1; Field "s_free_inodes_count" 4 1; Field "s_first_data_block" 4 1;
  Field "s_log_block_size" 4 1; Field "s_log_frag_size" 4 1; Field "s_blocks_per_group" 4 1;
  Field "s_frags_per_group" 4 1; Field "s_inodes_per_group" 4 1; Field "s_mtime" 4 1; Field "s_wtime" 4 1;
  Field "s_mnt_count" 2 1; Field "s_max_mnt_count" 2 1; Field "s_magic" 2 1; Field "s_state" 2 1;
  Field "s_errors" 2 1; Field "s_minor_rev_level" 2 1; Field "s_lastcheck" 4 1;
  Field "s_checkinterval" 4 1; Field "s_creator_os" 4 1; Field "s_rev_level" 4 1;
  Field "s_def_resuid" 2 1; Field "s_def_resgid" 2 1; Field "s_first_ino" 4 1; Field "s_inode_size" 2 1;
  Field "s_block_group_nr" 2 1; Field "s_feature_compat" 4 1; Field "s_feature_incompat" 4 1;
  Field "s_feature_ro_compat" 4 1; Field "s_uuid" 1 16; Field "s_volume_name" 1 16;
  Field "s_last_mounted" 1 64; Field "s_algorithm_usage_bitmap" 4 1; Field "s_prealloc_blocks" 1 1;
  Field "s_prealloc_dir_blocks" 1 1; Field "s_padding1" 2 1; Field "s_journal_uuid" 1 16;
  Field "s_journal_inum" 4 1; Field "s_journal_dev" 4 1; Field "s_last_orphan" 4 1; Field "s_hash_seed" 4 4;
  Field "s_def_hash_version" 1 1; Field "s_reserved_char_pad" 1 1; Field "s_reserved_word_pad" 2 1;
  Field "s_default_mount_opts" 4 1; Field "s_first_meta_bg" 4 1; Field "s_reserved" 4 190 ].

Definition EXT2_NAME_LEN : Z := 255.
Definition ext2_dir_entry_2 : layout := [
  Field "inode" 4 1; Field "rec_len" 2 1; Field "name_len" 1 1; Field "file_type" 1 1;
  Field "name" 1 EXT2_NAME_LEN ].

Close Scope string_scope.

(** A little-endian number of [w] bytes at [o]. *)
Fixpoint le (data : list Z) (w : nat) (o : Z) : option Z :=
  match w with
  | O => Some 0
  | S w =>
    b ← (if o <? 0 then None else data !! Z.to_nat o);
    hi ← le data w (o + 1);
    Some (b + 256 * hi)
  end.

(** Element [k] of the field [n] of a structure at [base]. *)
Definition field_elem (l : layout) (n : string) (k : Z) (data : list Z) (base : Z) : option Z :=
  '(o, w) ← offset_from 0 l n;
  le data (Z.to_nat w) (base + o + w * k).
Definition field_of (l : layout) (n : string) (data : list Z) (base : Z) : option Z := field_elem l n 0 data base.

Definition EXT2_SUPER_MAGIC : Z := 0xEF53.
Definition EXT2_MIN_BLOCK_SIZE : Z := 1024.
Definition EXT2_ROOT_INO : Z := 2.
Definition S_IFMT : Z := 0xf000.
Definition S_IFREG : Z := 0x8000.
Definition S_IFDIR : Z := 0x4000.

(** [struct ext2_sb_info]; [s_es] is the data area of the buffer [s_sbh]. *)
Record ext2_sb_info := mk_ext2_sb_info {
  s_inodes_per_block : Z;
  s_blocks_per_group : Z;
  s_inodes_per_group : Z;
  s_itb_per_group : Z;
  s_gdb_count : Z;
  s_desc_per_block : Z;
  s_groups_count : Z;
  s_sbh : Z;
  s_es : Z;
  s_group_desc : list Z
}.

(** A division traps on zero. *)
Definition udiv {T} (a b : Z) : M T Z := if b =? 0 then fault else ret (a / b).
Definition umod {T} (a b : Z) : M T Z := if b =? 0 then fault else ret (a mod b).

Section ext2.
Context {P D : Type} `{!ObjOps P, !Driver D}.
Abbreviation B := (M (@blk P D)).
Abbreviation sb := (super ext2_sb_info).

(** The bytes of a buffer. *)
Definition buf_data (bh : Z) : B (list Z) := let! x := ld_buf bh in ld_data (b_buf x).

(** ** [ext2_read_inode] *)

(** Steps 5 and 6, the inode at [offset] of its block: the mode chooses the operations. *)
Definition copy_inode (i : inode) (data : list Z) (offset : Z) : B (option inode) :=
  let fld n := deref (field_of ext2_inode n data offset) in
  let! mode := fld "i_mode"%string in
  let iop := if Z.land mode S_IFMT =? S_IFDIR then DirIop
             else if Z.land mode S_IFMT =? S_IFREG then RegIop else NoIop in
  match iop with
  | NoIop => ret None
  | _ =>
    let! uid := fld "i_uid"%string in
    let! gid := fld "i_gid"%string in
    let! size := fld "i_size"%string in
    let! nlink := fld "i_links_count"%string in
    let! blocks := fld "i_blocks"%string in
    let! block := deref (mapM (λ k, field_elem ext2_inode "i_block"%string k data offset) (seqZ 0 EXT2_N_BLOCKS)) in
    ret (Some (mk_inode (i_ino i) (i_sb i) (i_count i) (i_pagecache i) (i_sem i) iop mode uid gid size nlink blocks block))
  end.

(** The block of the inode table that the code reads for [ino]. *)
Definition inode_block (s : sb) (ino table : Z) : B Z :=
  let! q := udiv (u32 (ino - 1)) (s_inodes_per_block (s_info s)) in
  ret (u32 (table + q)).

Definition ext2_read_inode (s : sb) (i : inode) : B (option inode) :=
  let info := s_info s in
  let! es := ld_data (s_es info) in
  let! inodes_count := deref (field_of ext2_super_block "s_inodes_count"%string es 0) in
  if inodes_count <? i_ino i then ret None else
  let! block_group := udiv (u32 (i_ino i - 1)) (s_inodes_per_group info) in
  if s_groups_count info <=? block_group then ret None else
  let! group_desc := udiv block_group (s_desc_per_block info) in
  let! desc := umod block_group (s_desc_per_block info) in
  let! b := deref (s_group_desc info !! Z.to_nat group_desc) in
  let! gdp := buf_data b in
  let! table := deref (field_of ext2_group_desc "bg_inode_table"%string gdp (desc * sizeof ext2_group_desc)) in
  let! block := inode_block s (i_ino i) table in
  let! b := blk_read (s_dev s) block in
  if b =? NULL then ret None else
  let! data := buf_data b in
  let! inode_size := deref (field_of ext2_super_block "s_inode_size"%string es 0) in
  let offset := Z.land (u32 (u32 (i_ino i - 1) * inode_size)) (s_blocksize s - 1) in
  let! r := copy_inode i data offset in
  do! blk_free b then
  ret r.

(** ** [ext2_pread] *)

(** Block devices and the memory the data is copied to. *)
Record penv := mk_penv { pe_blk : @blk P D; pe_mem : mem }.
Definition set_pe_blk (v : @blk P D) (p : penv) : penv := mk_penv v (pe_mem p).
Definition set_pe_mem (v : mem) (p : penv) : penv := mk_penv (pe_blk p) v.
Definition on_blk {A} (m : B A) : M penv A := zoom pe_blk set_pe_blk m.

(** [rep movsb] of [c] bytes; an address that is not mapped ends it with -1
    (the fixup of the page fault). *)
Fixpoint copy_user (src : list Z) (d c : Z) : M mem bool :=
  if c =? 0 then ret true else
  match src with
  | [] => fault
  | b :: src =>
    let! m := get in
    match m !! d with
    | None => ret false
    | Some _ => do! modify (<[d := b]>) then copy_user src (u32 (d + 1)) (c - 1)
    end
  end.
(** The result is [ecx] as an [int]. *)
Definition copy_to_user (d : Z) (src : list Z) (c : Z) : M mem Z :=
  let! ok := copy_user src d c in ret (if (ok : bool) then s32 c else -1).

Fixpoint pread_loop (n : nat) (s : sb) (i : inode) (x buf len off copied : Z) : M penv Z :=
  match n with
  | O => ret copied
  | S n =>
    let bs := s_blocksize s in
    let coff := Z.land off (bs - 1) in
    let clen := if bs <? u32 (coff + len) then u32 (bs - coff) else len in
    if clen =? 0 then ret copied else
    let! blkno := deref (i_block i !! Z.to_nat x) in
    let! bh := on_blk (blk_read (s_dev s) blkno) in
    if bh =? NULL then ret copied else
    let! data := on_blk (buf_data bh) in
    let! r := zoom pe_mem set_pe_mem (copy_to_user buf (drop (Z.to_nat coff) data) clen) in
    if r <? 0 then do! on_blk (blk_free bh) then ret (-1) else
    do! on_blk (blk_free bh) then
    pread_loop n s i (x + 1) (u32 (buf + clen)) (u32 (len - clen)) (u32 (off + clen)) (s32 (copied + clen))
  end.

Definition ext2_pread (s : sb) (i : inode) (buf len off : Z) : M penv Z :=
  let len := if i_size i <? u32 (off + len) then u32 (i_size i - off) else len in
  let! first_block := udiv off (s_blocksize s) in
  let! last_block := udiv (u32 (off + len)) (s_blocksize s) in
  do! bug_on (EXT2_NDIR_BLOCKS <=? last_block) then
  pread_loop (Z.to_nat (last_block - first_block + 1)) s i first_block buf len off 0.

(** ** [ext2_lookup] *)

(** [!memcmp(dir->name, n, nlen)] *)
Fixpoint name_eq (data : list Z) (o : Z) (n : list Z) : B bool :=
  match n with
  | [] => ret true
  | c :: n =>
    let! b := deref (data !! Z.to_nat o) in
    if b =? c then name_eq data (o + 1) n else ret false
  end.

(** The search in one block: the inode number of the entry. *)
Fixpoint dir_scan (fuel : nat) (data : list Z) (j : Z) (n : list Z) : B (option Z) :=
  match fuel with
  | O => nofuel
  | S fuel =>
    if Z.of_nat (length data) <=? j then ret None else
    let! rec_len := deref (field_of ext2_dir_entry_2 "rec_len"%string data j) in
    if rec_len <? 8 then ret None else
    let! name_len := deref (field_of ext2_dir_entry_2 "name_len"%string data j) in
    let! eq := (if name_len =? Z.of_nat (length n) then name_eq data (j + 8) n else ret false) in
    if (eq : bool) then let! inum := deref (field_of ext2_dir_entry_2 "inode"%string data j) in ret (Some inum)
    else dir_scan fuel data (j + rec_len) n
  end.

(** The blocks in order: [None] when a block cannot be read, otherwise the
    inode number, if any. *)
Fixpoint lookup_loop (s : sb) (blocks : list Z) (n : list Z) : B (option (option Z)) :=
  match blocks with
  | [] => ret (Some None)
  | b :: blocks =>
    if b =? 0 then lookup_loop s blocks n else
    let! bh := blk_read (s_dev s) b in
    if bh =? NULL then ret None else
    let! data := buf_data bh in
    let! r := dir_scan (S (length data)) data 0 n in
    do! blk_free bh then
    match r with
    | Some inum => ret (Some (Some inum))
    | None => lookup_loop s blocks n
    end
  end.
End ext2.

(** The file system behind the inode cache. *)
#[export] Instance ext2_superops {P D} `{!ObjOps P, !Driver D} : SuperOps ext2_sb_info (@blk P D) :=
  {| read_inode := ext2_read_inode |}.

Section ext2_cache.
Context {P Q D : Type} `{!ObjOps P, !ObjOps Q, !Driver D}.
Abbreviation IC := (M (@icache P ext2_sb_info (@blk Q D))).

Definition ext2_lookup (fuel : nat) (i : Z) (n : list Z) : IC Z :=
  let! x := ld_inode i in
  let! s := ld_super (i_sb x) in
  let y := if EXT2_NDIR_BLOCKS <? i_blocks x then EXT2_NDIR_BLOCKS else i_blocks x in
  let! r := zoom ic_env set_ic_env (lookup_loop s (take (Z.to_nat y) (i_block x)) n) in
  match r with
  | Some (Some inum) => iget fuel (i_sb x) inum
  | _ => ret NULL
  end.
End ext2_cache.
