(* ===== verification/Ext2Props.v ===== *)
(** * The file system: reading files, finding names, reading inodes *)
From Stdlib Require Import String.
From stdpp Require Import strings.
From S2P Require Import Prelude Kmem ObjAlloc Rbtree Inode Blk BlkProps Ext2.

(** ** Copies *)

(** The bytes [l] stored from [d] on. *)
Fixpoint store (d : Z) (l : list Z) (m : mem) : mem :=
  match l with
  | [] => m
  | b :: l => store (d + 1) l (<[d := b]> m)
  end.

Lemma lookup_store d l m a :
  store d l m !! a = if decide (d ≤ a < d + Z.of_nat (length l)) then l !! Z.to_nat (a - d) else m !! a.
Proof.
  revert d m. induction l as [|b l IH]; intros d m; cbn [store length].
  { by rewrite decide_False; [lia|]. }
  rewrite IH. destruct (decide (a = d)) as [->|Hne].
  - rewrite decide_False; [lia|]. rewrite decide_True; [lia|]. by rewrite lookup_insert_eq Z.sub_diag.
  - rewrite lookup_insert_ne; [congruence|]. case_decide as H1.
    + rewrite decide_True; [lia|]. replace (Z.to_nat (a - d)) with (S (Z.to_nat (a - (d + 1)))) by lia. done.
    + by rewrite decide_False; [lia|].
Qed.

Lemma wp_copy_user src d c m (Q : bool → mem → Prop) :
  0 ≤ c ≤ Z.of_nat (length src) → 0 ≤ d → d + c < 2 ^ 32 → owned m d (Z.to_nat c) →
  Q true (store d (take (Z.to_nat c) src) m) → wp (copy_user src d c) Q m.
Proof.
  revert d c m. induction src as [|b src IH]; intros d c m Hc Hd Hlt Ho HQ; cbn [copy_user].
  { simpl in Hc. assert (c = 0) as -> by lia. by apply wp_ret. }
  destruct (Z.eqb_spec c 0) as [->|Hc0]; [by apply wp_ret|].
  replace (Z.to_nat c) with (S (Z.to_nat (c - 1))) in Ho, HQ by lia. apply owned_cons in Ho as [[v Hv] Ho].
  apply wp_bind. rewrite /wp /get Hv. fold (@wp mem bool).
  match goal with |- match ?m ?s with _ => _ end => change (wp m Q s) end.
  apply wp_bind, wp_modify. rewrite u32_id; [lia|].
  apply IH; [simpl in Hc; lia|lia|lia|by apply owned_insert|exact HQ].
Qed.

Lemma wp_copy_to_user src d c m (Q : Z → mem → Prop) :
  0 ≤ c ≤ Z.of_nat (length src) → c < 2 ^ 31 → 0 ≤ d → d + c < 2 ^ 32 → owned m d (Z.to_nat c) →
  Q c (store d (take (Z.to_nat c) src) m) → wp (copy_to_user d src c) Q m.
Proof.
  intros. apply wp_bind. apply wp_copy_user; [done..|]. apply wp_ret. by rewrite s32_id; [lia|].
Qed.

Section ext2.
Context {P D : Type} `{!ObjOps P, !ObjSpec P, !Driver D, !DriverSpec D}.
Implicit Types (b : @blk P D) (s : super ext2_sb_info).

(** The buffers, areas and objects are as they were. *)
Definition blk_kept b (A : gset Z) b' : Prop :=
  blk_same b b' ∧ bk_bufs b' = bk_bufs b ∧ bk_data b' = bk_data b ∧ objs_live (bk_objs b') A.

Lemma blk_kept_ok b dev dv A b' : blk_ok b dev dv A → blk_kept b A b' → blk_ok b' dev dv A.
Proof.
  intros [] ((H1 & _ & H3 & H3') & H4 & H5 & H6). split; try done.
  - by rewrite H1.
  - by apply H3'.
  - intros k l. rewrite H3. apply bk_sectors.
  - intros a. rewrite H4. apply bk_bufs_live.
  - intros a. rewrite H5. apply bk_data_live.
Qed.
Lemma blk_kept_refl b dev dv A : blk_ok b dev dv A → blk_kept b A b.
Proof. intros []. done. Qed.
Lemma blk_kept_trans b1 b2 b3 A : blk_kept b1 A b2 → blk_kept b2 A b3 → blk_kept b1 A b3.
Proof.
  intros (H1 & H2 & H3 & H4) (K1 & K2 & K3 & K4). split; [exact (blk_same_trans _ _ _ H1 K1)|]. split_and!; [congruence..|done].
Qed.

Lemma wp_read_data b dev dv A n r b' l (Q : list Z → blk → Prop) :
  read_post b dev dv A n r b' → r ≠ NULL → block_of b dev dv n = Some l → Q l b' → wp (buf_data r) Q b'.
Proof.
  intros [_ [[-> _]|(buf & l' & Hl & _ & _ & _ & _ & Hb & Hd & _)]] Hr Hn HQ; [done|].
  rewrite Hn in Hl. injection Hl as <-. apply wp_bind. eapply wp_ld_buf; [rewrite Hb; by rewrite lookup_insert_eq|].
  eapply wp_ld_data; [rewrite Hd; by rewrite lookup_insert_eq|]. exact HQ.
Qed.

(** A block is read, used and freed. *)
Lemma wp_blk_free_kept b dev dv A n r b' (Q : unit → blk → Prop) :
  blk_ok b dev dv A → read_post b dev dv A n r b' → r ≠ NULL →
  (∀ b'', blk_kept b A b'' → (∀ l, objs_avail (bk_objs b') l → objs_avail (bk_objs b'') (block_io dv ++ l)) → Q tt b'') →
  wp (blk_free r) Q b'.
Proof. intros Hok Hp Hr HQ. eapply wp_free_read; [exact Hok|exact Hp|done|]. intros b'' H1 H2 H3 H4 H5. by apply HQ. Qed.

(** There is memory for one buffer and its data. *)
Definition can_read b (dv : blkdev) : Prop := objs_avail (bk_objs b) (block_io dv).

(** The block [n] is not given by the device: the only cause of a failed read
    while there is memory for it. *)
Definition no_block b s (dv : blkdev) (n : Z) : Prop := can_read b dv → block_of b (s_dev s) dv n = None.

Lemma no_block_intro b s dv n b' : read_supply b (s_dev s) dv n NULL b' → no_block b s dv n.
Proof. intros H Hc. destruct (H [] Hc) as [H1 _]. exact H1. Qed.

(** The memory of one block serves for the next. *)
Lemma can_read_next b s dv n r b' b'' :
  read_supply b (s_dev s) dv n r b' → r ≠ NULL →
  (∀ l, objs_avail (bk_objs b') l → objs_avail (bk_objs b'') (block_io dv ++ l)) → can_read b dv → can_read b'' dv.
Proof. intros H Hr Hf Hc. specialize (H [] Hc). rewrite decide_False // in H. exact (Hf [] H). Qed.

(** ** Reading a file *)

(** A mounted file system of [2 ^ k] bytes a block on the idle device [dev]. *)
Record ext2_dev b s (dv : blkdev) (k : Z) (A : gset Z) : Prop := {
  ed_ok : blk_ok b (s_dev s) dv A;
  ed_size : s_blocksize s = bd_count dv * sectsize dv;
  ed_pow : s_blocksize s = 2 ^ k;
  ed_k : 0 ≤ k ≤ 12
}.

(** The byte at offset [o] of the file: in block [o / 2 ^ k] of the inode's direct blocks. *)
Definition file_byte b s (dv : blkdev) (i : inode) (o : Z) : option Z :=
  n ← i_block i !! Z.to_nat (o / s_blocksize s);
  l ← block_of b (s_dev s) dv n;
  l !! Z.to_nat (o mod s_blocksize s).

Definition blocks_ok (dv : blkdev) (i : inode) : Prop :=
  length (i_block i) = 15%nat ∧ Forall (λ n, 0 ≤ n ∧ n * bd_count dv < 2 ^ 64) (i_block i).

(** The effect of a read of [c] bytes at [off] to [buf]. *)
Definition pread_done b s dv i (A : gset Z) (p : penv) buf off c (p' : penv) : Prop :=
  blk_kept (pe_blk p) A (pe_blk p') ∧
  ∀ a, pe_mem p' !! a = if decide (buf ≤ a < buf + c) then file_byte b s dv i (off + (a - buf)) else pe_mem p !! a.

Lemma land_pred_mod k off : 0 ≤ k → Z.land off (2 ^ k - 1) = off mod 2 ^ k.
Proof. intros Hk. rewrite -Z.land_ones // Z.ones_equiv. done. Qed.

Lemma pread_loop_end n s i x k buf off copied p :
  s_blocksize s = 2 ^ k → 0 ≤ k ≤ 12 → pread_loop n s i x buf 0 off copied p = Ret (copied, p).
Proof.
  intros Hs Hk. destruct n; [done|]. cbn [pread_loop]. rewrite Hs land_pred_mod; [lia|].
  pose proof (Z.mod_pos_bound off (2 ^ k)) as Hm. pose proof (Z.pow_le_mono_r 2 k 12). rewrite u32_id; [lia|].
  rewrite Z.add_0_r. by destruct (Z.ltb_spec (2 ^ k) (off mod 2 ^ k)); [lia|].
Qed.

(** One round of the loop copies a part of one block. *)
Lemma file_byte_round b s dv i k A n l off c j :
  ext2_dev b s dv k A → 0 ≤ off → i_block i !! Z.to_nat (off / 2 ^ k) = Some n → block_of b (s_dev s) dv n = Some l →
  off mod 2 ^ k + c ≤ 2 ^ k → 0 ≤ j < c →
  take (Z.to_nat c) (drop (Z.to_nat (off mod 2 ^ k)) l) !! Z.to_nat j = file_byte b s dv i (off + j).
Proof.
  intros [] Hoff Hn Hl Hc Hj. assert (0 < 2 ^ k) as Hp by lia. pose proof (Z.mod_pos_bound off (2 ^ k) Hp) as Hm.
  pose proof (Z.div_mod off (2 ^ k)) as Hdm.
  assert ((off + j) / 2 ^ k = off / 2 ^ k) as Hd by (symmetry; apply (Z.div_unique_pos _ _ _ (off mod 2 ^ k + j)); lia).
  assert ((off + j) mod 2 ^ k = off mod 2 ^ k + j) as Hmm by (symmetry; apply (Z.mod_unique_pos _ _ (off / 2 ^ k)); lia).
  rewrite /file_byte ed_pow0 Hd Hmm Hn /= Hl /=. rewrite lookup_take_lt; [lia|]. rewrite lookup_drop. f_equal. lia.
Qed.

Lemma pread_done_trans b s dv i A p p1 p2 buf off c1 c2 :
  0 ≤ c1 → 0 ≤ c2 → pread_done b s dv i A p buf off c1 p1 → pread_done b s dv i A p1 (buf + c1) (off + c1) c2 p2 →
  pread_done b s dv i A p buf off (c1 + c2) p2.
Proof.
  intros H1 H2 [K1 M1] [K2 M2]. split; [exact (blk_kept_trans _ _ _ _ K1 K2)|]. intros a. rewrite M2.
  case_decide as Ha.
  - rewrite decide_True; [lia|]. f_equal. lia.
  - rewrite M1. case_decide as Hb; [rewrite decide_True; [lia|done]|]. rewrite decide_False; [lia|done].
Qed.

Lemma wp_pread_loop b s dv i k A :
  ext2_dev b s dv k A → blocks_ok dv i → ∀ n buf len off copied p,
  blk_kept b A (pe_blk p) → 0 ≤ off → 0 ≤ len → off + len < 2 ^ 32 →
  Z.of_nat n = (off + len) / 2 ^ k - off / 2 ^ k + 1 → (off + len) / 2 ^ k < 12 →
  owned (pe_mem p) buf (Z.to_nat len) → 0 ≤ buf → buf + len < 2 ^ 32 → 0 ≤ copied → copied + len < 2 ^ 31 →
  wp (pread_loop n s i (off / 2 ^ k) buf len off copied) (λ r p', ∃ c, 0 ≤ c ≤ len ∧ r = copied + c ∧
    pread_done b s dv i A p buf off c p' ∧ (can_read (pe_blk p) dv → c < len → file_byte b s dv i (off + c) = None)) p.
Proof.
  intros Hed [Hblen Hbr]. pose proof Hed as []. pose proof (Z.pow_le_mono_r 2 k 12) as Hkp.
  assert (0 < 2 ^ k) as Hpos by lia.
  induction n as [|n IH]; intros buf len off copied p Hk Ho Hl Hol Hn H12 Hown Hb0 Hbl Hc0 Hcl.
  { pose proof (Z.div_le_mono off (off + len) (2 ^ k)). lia. }
  assert (pread_done b s dv i A p buf off 0 p) as Hd0.
  { split; [exact (blk_kept_refl _ (s_dev s) dv _ (blk_kept_ok _ _ _ _ _ ed_ok0 Hk))|].
    intros a. by rewrite decide_False; [lia|]. }
  pose proof (Z.mod_pos_bound off (2 ^ k) Hpos) as Hm.
  cbn [pread_loop]. rewrite ed_pow0 land_pred_mod; [lia|]. rewrite u32_id; [lia|].
  set (coff := off mod 2 ^ k) in *. rewrite (u32_id (2 ^ k - coff)); [lia|].
  set (clen := if 2 ^ k <? coff + len then 2 ^ k - coff else len).
  assert (0 ≤ clen ≤ len ∧ coff + clen ≤ 2 ^ k) as [Hcl1 Hcl2] by (unfold clen; destruct (Z.ltb_spec (2 ^ k) (coff + len)); lia).
  destruct (Z.eqb_spec clen 0) as [Ez|Hnz].
  { apply wp_ret. exists 0. split_and!; [lia..|done|]. intros _ Hlt. exfalso. unfold clen in Ez. destruct (Z.ltb_spec (2 ^ k) (coff + len)); lia. }
  assert (0 ≤ off / 2 ^ k < 12) as Hx.
  { split; [apply Z.div_pos; lia|]. pose proof (Z.div_le_mono off (off + len) (2 ^ k)). lia. }
  destruct (lookup_lt_is_Some_2 (i_block i) (Z.to_nat (off / 2 ^ k))) as [bn Hbn]; [lia|].
  apply wp_bind. eapply wp_deref; [exact Hbn|].
  pose proof (blk_kept_ok _ _ _ _ _ ed_ok0 Hk) as Hokp.
  pose proof (proj1 (Forall_lookup _ _) Hbr _ _ Hbn) as [Hb1 Hb2].
  destruct (wp_elim _ _ _ (wp_blk_read (pe_blk p) (s_dev s) dv A bn Hokp Hb1 Hb2)) as (r & b1 & Er & Hrp & Hsup).
  apply wp_bind, wp_zoom. rewrite {1}/wp Er.
  destruct (Z.eqb_spec r NULL) as [->|Hr0].
  { apply wp_ret. exists 0. destruct Hrp as [Hs [(_ & Hb & Hd & Hlv)|(? & ? & _ & Hne & _)]]; [|done].
    split_and!; [lia..|split; [by split|]; intros a; by rewrite decide_False; [lia|]|].
    intros Hcr _. rewrite Z.add_0_r /file_byte ed_pow0 Hbn /=.
    by rewrite -(block_of_same _ _ _ _ _ (proj1 Hk)) (no_block_intro _ _ _ _ _ Hsup Hcr). }
  assert (∃ l, block_of (pe_blk p) (s_dev s) dv bn = Some l) as [l Hl'].
  { destruct Hrp as [_ [(-> & _)|(? & l & H & _)]]; [done|by exists l]. }
  pose proof (block_of_length _ _ _ _ _ _ Hokp Hl') as Hlen. rewrite -ed_size0 ed_pow0 in Hlen.
  assert (block_of b (s_dev s) dv bn = Some l) as Hlb by (rewrite -Hl'; symmetry; apply block_of_same, Hk).
  apply wp_bind, wp_zoom. eapply wp_read_data; [exact Hrp|done|exact Hl'|]. apply wp_bind, wp_zoom.
  apply wp_copy_to_user; [rewrite length_drop; lia|lia|lia|lia|eapply owned_sub; [exact Hown|lia..]|].
  destruct (Z.ltb_spec clen 0); [lia|]. apply wp_bind, wp_zoom.
  eapply wp_blk_free_kept; [exact Hokp|exact Hrp|done|]. intros b2 Hk2 Hsup2. cbn [pe_blk pe_mem set_pe_blk set_pe_mem].
  set (p2 := set_pe_blk b2 _).
  assert (pread_done b s dv i A p buf off clen p2) as Hd2.
  { split; [exact Hk2|]. intros a. simpl. rewrite lookup_store length_take length_drop.
    assert (Z.of_nat (Z.to_nat clen `min` (length l - Z.to_nat coff)) = clen) as -> by lia.
    case_decide as Ha; [|done]. apply (file_byte_round b s dv i k A bn l); [done|done|done|done|done|lia]. }
  rewrite (u32_id (buf + clen)); [lia|]. rewrite (u32_id (len - clen)); [lia|]. rewrite (u32_id (off + clen)); [lia|].
  rewrite s32_id; [lia|].
  destruct (decide (clen = len)) as [Ecl|Ncl].
  - replace (len - clen) with 0 by lia. rewrite /wp (pread_loop_end _ _ _ _ k); [done|lia|].
    exists clen. split_and!; [lia..|done|lia].
  - assert (clen = 2 ^ k - coff) as Ec by (unfold clen in *; destruct (Z.ltb_spec (2 ^ k) (coff + len)); lia).
    pose proof (Z.div_mod off (2 ^ k)) as Hdm. fold coff in Hdm.
    assert ((off + clen) / 2 ^ k = off / 2 ^ k + 1) as Hdiv by (symmetry; apply (Z.div_unique_pos _ _ _ 0); lia).
    rewrite -Hdiv. eapply wp_mono.
    + apply (IH (buf + clen) (len - clen) (off + clen) (copied + clen) p2); try lia.
      * exact (blk_kept_trans _ _ _ _ Hk Hk2).
      * replace (off + clen + (len - clen)) with (off + len) by lia. lia.
      * replace (off + clen + (len - clen)) with (off + len) by lia. lia.
      * intros a Ha. simpl. rewrite lookup_store. case_decide as Hd.
        -- apply lookup_lt_is_Some_2. lia.
        -- apply Hown. lia.
    + intros r' p' (c & Hc & -> & Hd & Hf). exists (clen + c).
      split_and!; [lia|lia|lia|eapply pread_done_trans; [lia|lia|exact Hd2|exact Hd]|].
      intros Hcr Hlt. rewrite Z.add_assoc. apply Hf; [|lia]. exact (can_read_next _ _ _ _ _ _ b2 Hsup Hr0 Hsup2 Hcr).
Qed.

Lemma wp_ext2_pread s dv i k A p buf len off n :
  ext2_dev (pe_blk p) s dv k A → blocks_ok dv i → 0 ≤ off ≤ i_size i → i_size i < 2 ^ 32 → 0 ≤ len →
  off + len < 2 ^ 32 → n = Z.min len (i_size i - off) → (off + n) / 2 ^ k < EXT2_NDIR_BLOCKS →
  owned (pe_mem p) buf (Z.to_nat n) → 0 ≤ buf → buf + n < 2 ^ 32 →
  wp (ext2_pread s i buf len off) (λ c p', 0 ≤ c ≤ n ∧ pread_done (pe_blk p) s dv i A p buf off c p' ∧
    (can_read (pe_blk p) dv → c < n → file_byte (pe_blk p) s dv i (off + c) = None)) p.
Proof.
  intros Hed Hb Ho Hsz Hl Hol Hn H12 Hown Hb0 Hbl. pose proof Hed as [].
  pose proof (Z.pow_le_mono_r 2 k 12) as Hkp. assert (0 < 2 ^ k) as Hpos by lia.
  assert (0 ≤ n) as Hn0 by lia. unfold EXT2_NDIR_BLOCKS in H12.
  rewrite /ext2_pread. rewrite (u32_id (off + len)); [lia|].
  assert ((if i_size i <? off + len then u32 (i_size i - off) else len) = n) as ->.
  { destruct (Z.ltb_spec (i_size i) (off + len)); [rewrite u32_id; [lia|]|]; lia. }
  rewrite (u32_id (off + n)); [lia|]. rewrite /udiv ed_pow0. rewrite (proj2 (Z.eqb_neq (2 ^ k) 0)); [lia|].
  apply wp_bind, wp_ret. apply wp_bind, wp_ret. apply wp_bind, wp_bug_on; [apply Z.leb_gt; exact H12|].
  pose proof (Z.div_le_mono off (off + n) (2 ^ k)) as Hdm.
  assert (off + n < 12 * 2 ^ k) as Hlt.
  { pose proof (Z.div_mod (off + n) (2 ^ k)). pose proof (Z.mod_pos_bound (off + n) (2 ^ k) Hpos). nia. }
  eapply wp_mono.
  - apply (wp_pread_loop (pe_blk p) s dv i k A Hed Hb); try lia.
    + exact (blk_kept_refl _ _ _ _ ed_ok0).
    + done.
  - intros r p' (c & Hc & -> & Hd & Hf). split_and!; [lia..|exact Hd|exact Hf].
Qed.

(** Only the direct blocks can be read, and the check is made on the byte
    after the last one: a read that ends exactly at the end of the twelfth
    block (or later) stops the kernel. *)
Theorem ext2_pread_panics s i k p buf len off n :
  s_blocksize s = 2 ^ k → 0 ≤ k → 0 ≤ off ≤ i_size i → i_size i < 2 ^ 32 → 0 ≤ len → off + len < 2 ^ 32 →
  n = Z.min len (i_size i - off) → EXT2_NDIR_BLOCKS * 2 ^ k ≤ off + n →
  ext2_pread s i buf len off p = Bug.
Proof.
  intros Hs Hk Ho Hsz Hl Hol Hn H12. assert (0 < 2 ^ k) as Hpos by lia.
  rewrite /ext2_pread (u32_id (off + len)); [lia|].
  assert ((if i_size i <? off + len then u32 (i_size i - off) else len) = n) as ->.
  { destruct (Z.ltb_spec (i_size i) (off + len)); [rewrite u32_id; [lia|]|]; lia. }
  rewrite (u32_id (off + n)); [lia|]. rewrite /udiv Hs (proj2 (Z.eqb_neq (2 ^ k) 0)); [lia|].
  rewrite /bind /=. rewrite (proj2 (Z.leb_le _ _)); [|done]. apply Z.div_le_lower_bound; unfold EXT2_NDIR_BLOCKS in *; lia.
Qed.

(** C21: Reading at an offset inside the file copies the bytes of the file,
    block after block, to the buffer and nowhere else, up to the length asked
    for or the end of the file.  While there is memory for a buffer, it stops
    early only at a byte whose block the device does not give.  All buffers are
    released.  Only the direct blocks can be read, and the check is made on the
    byte after the last one: a read that ends exactly at the end of the twelfth
    block, or later, stops the kernel. *)
Theorem ext2_pread_correct s dv i k A p buf len off n :
  ext2_dev (pe_blk p) s dv k A → blocks_ok dv i → 0 ≤ off ≤ i_size i → i_size i < 2 ^ 32 → 0 ≤ len →
  off + len < 2 ^ 32 → n = Z.min len (i_size i - off) →
  owned (pe_mem p) buf (Z.to_nat n) → 0 ≤ buf → buf + n < 2 ^ 32 →
  if decide (off + n < EXT2_NDIR_BLOCKS * 2 ^ k)
  then ∃ c p', ext2_pread s i buf len off p = Ret (c, p') ∧ 0 ≤ c ≤ n ∧
    pread_done (pe_blk p) s dv i A p buf off c p' ∧
    (can_read (pe_blk p) dv → c < n → file_byte (pe_blk p) s dv i (off + c) = None)
  else ext2_pread s i buf len off p = Bug.
Proof.
  intros Hed Hb Ho Hsz Hl Hol Hn Hown Hb0 Hbl. pose proof Hed as []. case_decide as Hd.
  - apply wp_elim, (wp_ext2_pread s dv i k); try done. apply Z.div_lt_upper_bound; lia.
  - apply (ext2_pread_panics s i k p buf len off n); try done; lia.
Qed.

Lemma copy_user_short src d c m :
  Z.of_nat (length src) < c → 0 ≤ d → d + Z.of_nat (length src) < 2 ^ 32 → owned m d (length src) → copy_user src d c m = Fault.
Proof.
  revert d c m. induction src as [|b src IH]; intros d c m Hc Hd Hl Ho; cbn [copy_user length] in *;
    (rewrite (proj2 (Z.eqb_neq c 0)); [lia|]); [done|].
  apply owned_cons in Ho as [[v Hv] Ho]. rewrite /bind /= Hv /=. rewrite u32_id; [lia|].
  apply IH; [lia..|by apply owned_insert].
Qed.

(** A read that starts behind the end of the file, in its last block, is
    not answered with 0: the length wraps around and the copy runs over the
    end of the buffer. *)
Theorem ext2_pread_past_end s dv i k A p buf len off :
  ext2_dev (pe_blk p) s dv k A → blocks_ok dv i → 0 ≤ i_size i < off → off / 2 ^ k = i_size i / 2 ^ k →
  i_size i / 2 ^ k < EXT2_NDIR_BLOCKS → 0 ≤ len → off + len < 2 ^ 32 →
  owned (pe_mem p) buf (Z.to_nat (2 ^ k)) → 0 ≤ buf → buf + 2 ^ k < 2 ^ 32 →
  can_read (pe_blk p) dv → is_Some (file_byte (pe_blk p) s dv i off) → ext2_pread s i buf len off p = Fault.
Proof.
  intros Hed [Hbl Hbr] Hsz Hd H12 Hl Hol Hown Hb0 Hb Hcr Hfb. pose proof Hed as []. unfold EXT2_NDIR_BLOCKS in H12.
  pose proof (Z.pow_le_mono_r 2 k 12) as Hkp. assert (0 < 2 ^ k) as Hpos by lia.
  pose proof (Z.mod_pos_bound off (2 ^ k) Hpos) as Hm. pose proof (Z.div_mod off (2 ^ k)) as D1.
  pose proof (Z.div_mod (i_size i) (2 ^ k)) as D2. pose proof (Z.mod_pos_bound (i_size i) (2 ^ k) Hpos) as Hm2.
  rewrite /ext2_pread (u32_id (off + len)); [lia|]. rewrite (proj2 (Z.ltb_lt (i_size i) (off + len))); [lia|].
  assert (u32 (i_size i - off) = i_size i - off + 2 ^ 32) as Hu.
  { symmetry. apply (Z.mod_unique_pos _ _ (-1)); lia. }
  assert (∀ z, 0 ≤ z + (i_size i - off) < 2 ^ 32 → u32 (z + (i_size i - off + 2 ^ 32)) = z + (i_size i - off)) as Hwrap.
  { intros z Hz. symmetry. apply (Z.mod_unique_pos _ _ 1); lia. }
  rewrite Hu Hwrap; [lia|]. replace (off + (i_size i - off)) with (i_size i) by lia.
  rewrite /udiv ed_pow0 (proj2 (Z.eqb_neq (2 ^ k) 0)); [lia|]. rewrite {1 2}/bind /=. rewrite Hd Z.sub_diag.
  rewrite {1}/bind /bug_on (proj2 (Z.leb_gt 12 _) H12) /=. change (Z.to_nat 1) with 1%nat. cbn [pread_loop].
  rewrite ed_pow0 land_pred_mod; [lia|]. rewrite Hwrap; [lia|].
  rewrite (proj2 (Z.ltb_ge (2 ^ k) _)); [lia|]. rewrite (proj2 (Z.eqb_neq _ 0)); [lia|].
  assert (0 ≤ i_size i / 2 ^ k) by (apply Z.div_pos; lia).
  destruct (lookup_lt_is_Some_2 (i_block i) (Z.to_nat (i_size i / 2 ^ k))) as [bn Hbn]; [lia|].
  rewrite Hbn. rewrite {1}/bind /=. pose proof (proj1 (Forall_lookup _ _) Hbr _ _ Hbn) as [Hb1 Hb2].
  destruct (wp_elim _ _ _ (wp_blk_read (pe_blk p) (s_dev s) dv A bn ed_ok0 Hb1 Hb2)) as (r & b1 & Er & Hrp & Hsup).
  destruct (Z.eqb_spec r NULL) as [->|Hr0].
  { exfalso. rewrite /file_byte ed_pow0 Hd Hbn /= (no_block_intro _ _ _ _ _ Hsup Hcr) /= in Hfb. by destruct Hfb. }
  rewrite {1}/bind /on_blk {1}/zoom Er. rewrite (proj2 (Z.eqb_neq r NULL) Hr0).
  destruct Hrp as [_ [(-> & _)|(bf & l & Hl' & _ & _ & _ & _ & Hbf & Hdt & _)]]; [done|].
  pose proof (block_of_length _ _ _ _ _ _ ed_ok0 Hl') as Hlen. rewrite -ed_size0 ed_pow0 in Hlen.
  rewrite {1}/bind {1}/zoom /buf_data /ld_buf /ld_data /bind /= Hbf lookup_insert_eq /= Hdt lookup_insert_eq /=.
  rewrite /zoom /copy_to_user /bind /= copy_user_short //; rewrite ?length_drop; try lia.
  eapply owned_sub; [exact Hown|lia..].
Qed.

(** ** Reading an inode *)

(** What the mounted file system keeps in memory: the superblock and, for the
    group [g], its descriptor with the place of its inode table. *)
Record ext2_meta b s (g icount isz table : Z) : Prop := {
  em_es : ∃ es, bk_data b !! s_es (s_info s) = Some es ∧
    field_of ext2_super_block "s_inodes_count"%string es 0 = Some icount ∧
    field_of ext2_super_block "s_inode_size"%string es 0 = Some isz;
  em_gd : ∃ bh x gd, s_group_desc (s_info s) !! Z.to_nat (g / s_desc_per_block (s_info s)) = Some bh ∧
    bk_bufs b !! bh = Some x ∧ bk_data b !! b_buf x = Some gd ∧
    field_of ext2_group_desc "bg_inode_table"%string gd (g mod s_desc_per_block (s_info s) * 32) = Some table;
  em_ipg : 0 < s_inodes_per_group (s_info s);
  em_dpb : 0 < s_desc_per_block (s_info s);
  em_groups : g < s_groups_count (s_info s);
  em_isz : 128 ≤ isz;
  em_ipb : 0 < s_inodes_per_block (s_info s);
  em_fit : s_inodes_per_block (s_info s) * isz = s_blocksize s
}.

(** The on-disk format of an inode, at offset [o] of the block [l]. *)
Definition decoded (l : list Z) (o : Z) (x : inode) : Prop :=
  le l 2 o = Some (i_mode x) ∧ le l 2 (o + 2) = Some (i_uid x) ∧ le l 4 (o + 4) = Some (i_size x) ∧
  le l 2 (o + 24) = Some (i_gid x) ∧ le l 2 (o + 26) = Some (i_nlink x) ∧ le l 4 (o + 28) = Some (i_blocks x) ∧
  length (i_block x) = 15%nat ∧ (∀ j : nat, (j < 15)%nat → le l 4 (o + 40 + 4 * Z.of_nat j) = i_block x !! j) ∧
  i_iop x = if Z.land (i_mode x) S_IFMT =? S_IFDIR then DirIop
            else if Z.land (i_mode x) S_IFMT =? S_IFREG then RegIop else NoIop.

Lemma le_is_Some (l : list Z) w o : 0 ≤ o → o + Z.of_nat w ≤ Z.of_nat (length l) → is_Some (le l w o).
Proof.
  revert o. induction w as [|w IH]; intros o H0 Hl; cbn [le]; [by eexists|].
  destruct (Z.ltb_spec o 0); [lia|]. destruct (lookup_lt_is_Some_2 l (Z.to_nat o)) as [b ->]; [lia|]. simpl.
  destruct (IH (o + 1)) as [h ->]; [lia..|]. simpl. by eexists.
Qed.

(** The fields of an inode by their offsets. *)
Lemma inode_fields l o :
  field_of ext2_inode "i_mode"%string l o = le l 2 (o + 0 + 0) ∧ field_of ext2_inode "i_uid"%string l o = le l 2 (o + 2 + 0) ∧
  field_of ext2_inode "i_gid"%string l o = le l 2 (o + 24 + 0) ∧ field_of ext2_inode "i_size"%string l o = le l 4 (o + 4 + 0) ∧
  field_of ext2_inode "i_links_count"%string l o = le l 2 (o + 26 + 0) ∧ field_of ext2_inode "i_blocks"%string l o = le l 4 (o + 28 + 0) ∧
  ∀ k, field_elem ext2_inode "i_block"%string k l o = le l 4 (o + 40 + 4 * k).
Proof. split_and!; reflexivity. Qed.

Lemma mapM_total {A B} (f : A → option B) q : (∀ x, x ∈ q → is_Some (f x)) →
  ∃ k, mapM f q = Some k ∧ length k = length q ∧ ∀ j x, q !! j = Some x → f x = k !! j.
Proof.
  induction q as [|x q IH]; intros H; [by exists []|].
  destruct (H x) as [y Hy]; [by left|]. destruct IH as (k & Hk & Hl & Hj); [intros z Hz; apply H; by right|].
  exists (y :: k). simpl. rewrite Hy /= Hk. split_and!; [done|by rewrite /= Hl|].
  intros [|j] z Hz; simpl in Hz |- *; [injection Hz as <-; exact Hy|by apply Hj].
Qed.

Lemma wp_copy_inode i l o b (Q : option inode → blk → Prop) :
  0 ≤ o → o + 128 ≤ Z.of_nat (length l) →
  (∀ x, decoded l o x → i_iop x ≠ NoIop → i_ino x = i_ino i → i_sb x = i_sb i → Q (Some x) b) →
  (∀ mode, le l 2 o = Some mode → Z.land mode S_IFMT ≠ S_IFDIR → Z.land mode S_IFMT ≠ S_IFREG → Q None b) →
  wp (copy_inode i l o) Q b.
Proof.
  intros H0 Hl HS HN. destruct (inode_fields l o) as (F1 & F2 & F3 & F4 & F5 & F6 & F7).
  rewrite /copy_inode F1 F2 F3 F4 F5 F6 !Z.add_0_r.
  destruct (le_is_Some l 2 o) as [mode Hm]; [lia..|]. destruct (le_is_Some l 2 (o + 2)) as [uid Hu]; [lia..|].
  destruct (le_is_Some l 2 (o + 24)) as [gid Hg]; [lia..|]. destruct (le_is_Some l 4 (o + 4)) as [size Hs]; [lia..|].
  destruct (le_is_Some l 2 (o + 26)) as [nl Hn]; [lia..|]. destruct (le_is_Some l 4 (o + 28)) as [bl Hb]; [lia..|].
  rewrite Hm Hu Hg Hs Hn Hb. apply wp_bind. eapply wp_deref; [done|].
  destruct (mapM_total (λ k, field_elem ext2_inode "i_block"%string k l o) (seqZ 0 EXT2_N_BLOCKS)) as (blk' & Hbk & Hbl & Hbj).
  { intros x Hx%elem_of_seqZ. rewrite F7. unfold EXT2_N_BLOCKS, EXT2_NDIR_BLOCKS in Hx. apply le_is_Some; lia. }
  rewrite length_seqZ in Hbl.
  set (iop := if Z.land mode S_IFMT =? S_IFDIR then DirIop else _).
  assert (iop ≠ NoIop → wp (let! uid := deref (Some uid) in let! gid := deref (Some gid) in let! size := deref (Some size) in
    let! nlink := deref (Some nl) in let! blocks := deref (Some bl) in
    let! block := deref (mapM (λ k, field_elem ext2_inode "i_block"%string k l o) (seqZ 0 EXT2_N_BLOCKS)) in
    ret (Some (mk_inode (i_ino i) (i_sb i) (i_count i) (i_pagecache i) (i_sem i) iop mode uid gid size nlink blocks block))) Q b) as Hgo.
  { intros Hiop. rewrite Hbk. rewrite /wp /=. apply HS; [|done..]. split_and!; try done.
    intros j Hj. rewrite -F7. apply (Hbj j). rewrite lookup_seqZ_lt; [unfold EXT2_N_BLOCKS, EXT2_NDIR_BLOCKS; lia|]. by rewrite Z.add_0_l. }
  destruct iop eqn:Ei.
  - apply wp_ret. unfold iop in Ei. apply (HN mode Hm); intros E; rewrite E in Ei; [by rewrite Z.eqb_refl in Ei|].
    by vm_compute in Ei.
  - by apply Hgo.
  - by apply Hgo.
Qed.

(** The place the code reads, for any group. *)
Lemma wp_ext2_read_inode b s dv k A i icount isz table (Q : option inode → blk → Prop) :
  ext2_dev b s dv k A → ext2_meta b s ((i_ino i - 1) / s_inodes_per_group (s_info s)) icount isz table →
  1 ≤ i_ino i ≤ icount → i_ino i < 2 ^ 32 → i_ino i * isz < 2 ^ 32 →
  0 ≤ table → (table + (i_ino i - 1) / s_inodes_per_block (s_info s)) < 2 ^ 32 → bd_count dv ≤ 4096 →
  (∀ b', blk_kept b A b' → no_block b s dv (table + (i_ino i - 1) / s_inodes_per_block (s_info s)) → Q None b') →
  (∀ b' l, blk_kept b A b' → block_of b (s_dev s) dv (table + (i_ino i - 1) / s_inodes_per_block (s_info s)) = Some l →
     let o := (i_ino i - 1) mod s_inodes_per_block (s_info s) * isz in
     (∀ x, decoded l o x → i_iop x ≠ NoIop → i_ino x = i_ino i → i_sb x = i_sb i → Q (Some x) b') ∧
     (∀ mode, le l 2 o = Some mode → Z.land mode S_IFMT ≠ S_IFDIR → Z.land mode S_IFMT ≠ S_IFREG → Q None b')) →
  wp (ext2_read_inode s i) Q b.
Proof.
  intros Hed [] Hi Hi32 Hisz Ht0 Ht Hcnt HF HS. pose proof Hed as [].
  destruct em_es0 as (es & Hes & Hic & His). destruct em_gd0 as (gb & gx & gd & Hg1 & Hg2 & Hg3 & Hg4).
  rewrite /ext2_read_inode. apply wp_bind. eapply wp_ld_data; [exact Hes|]. apply wp_bind. eapply wp_deref; [exact Hic|].
  destruct (Z.ltb_spec icount (i_ino i)); [lia|]. rewrite u32_id; [lia|].
  apply wp_bind. rewrite /udiv (proj2 (Z.eqb_neq _ 0)); [lia|]. apply wp_ret.
  destruct (Z.leb_spec (s_groups_count (s_info s)) ((i_ino i - 1) / s_inodes_per_group (s_info s))); [lia|].
  apply wp_bind. rewrite (proj2 (Z.eqb_neq (s_desc_per_block (s_info s)) 0)); [lia|]. apply wp_ret.
  apply wp_bind. rewrite /umod (proj2 (Z.eqb_neq (s_desc_per_block (s_info s)) 0)); [lia|]. apply wp_ret.
  apply wp_bind. eapply wp_deref; [exact Hg1|]. apply wp_bind, wp_bind. eapply wp_ld_buf; [exact Hg2|].
  eapply wp_ld_data; [exact Hg3|]. change (sizeof ext2_group_desc) with 32. apply wp_bind. eapply wp_deref; [exact Hg4|].
  apply wp_bind. rewrite /inode_block. apply wp_bind. rewrite /udiv (u32_id (i_ino i - 1)); [lia|].
  rewrite (proj2 (Z.eqb_neq (s_inodes_per_block (s_info s)) 0)); [lia|]. apply wp_ret, wp_ret.
  assert (0 ≤ (i_ino i - 1) / s_inodes_per_block (s_info s)) as Hq by (apply Z.div_pos; lia).
  set (n := table + _) in *. rewrite (u32_id n); [lia|].
  destruct (wp_elim _ _ _ (wp_blk_read b (s_dev s) dv A n ed_ok0 ltac:(lia) ltac:(nia))) as (r & b1 & Er & Hrp & Hsup).
  apply wp_bind. rewrite {1}/wp Er. destruct (Z.eqb_spec r NULL) as [->|Hr0].
  { apply wp_ret, HF; [|exact (no_block_intro _ _ _ _ _ Hsup)]. destruct Hrp as [Hs [(_ & Hb & Hd & Hlv)|(? & ? & _ & Hne & _)]]; [|done]. by split. }
  assert (∃ l, block_of b (s_dev s) dv n = Some l) as [l Hl].
  { destruct Hrp as [_ [(-> & _)|(? & l & Hl0 & _)]]; [done|by exists l]. }
  pose proof (block_of_length _ _ _ _ _ _ ed_ok0 Hl) as Hlen. rewrite -ed_size0 -em_fit0 in Hlen.
  apply wp_bind. eapply wp_read_data; [exact Hrp|done|exact Hl|]. apply wp_bind. eapply wp_deref; [exact His|].
  set (o := Z.land _ _). assert (o = (i_ino i - 1) mod s_inodes_per_block (s_info s) * isz) as Ho.
  { unfold o. rewrite ed_pow0 land_pred_mod; [lia|]. rewrite u32_id; [nia|]. rewrite -ed_pow0 -em_fit0.
    rewrite Z.mul_mod_distr_r; [lia|lia|done]. }
  pose proof (Z.mod_pos_bound (i_ino i - 1) _ em_ipb0) as Hmod.
  assert (∀ v, (∀ b', blk_kept b A b' → Q v b') → wp (do! blk_free r then ret v) Q b1) as Hfree.
  { intros v Hv. apply wp_bind. eapply wp_blk_free_kept; [exact ed_ok0|exact Hrp|done|]. intros b' Hb' _. by apply wp_ret, Hv. }
  apply wp_bind, wp_copy_inode; [nia|nia|..].
  - intros x H1 H2 H3 H4. apply Hfree. intros b' Hb'. destruct (HS b' l Hb' Hl) as [Hx _]. rewrite Ho in H1. by apply Hx.
  - intros mode H1 H2 H3. apply Hfree. intros b' Hb'. destruct (HS b' l Hb' Hl) as [_ Hx]. rewrite Ho in H1. by apply (Hx mode).
Qed.

(** An inode of the first block group is read from its place in the inode
    table: the block and offset the format prescribes, the fields by their
    offsets, the operations by the file type; other types give an error, and so does
    the block when it cannot be read, and no buffer is kept. *)
Theorem ext2_read_inode_correct b s dv k A i icount isz table :
  ext2_dev b s dv k A → ext2_meta b s 0 icount isz table →
  1 ≤ i_ino i ≤ icount → i_ino i ≤ s_inodes_per_group (s_info s) → i_ino i < 2 ^ 32 → i_ino i * isz < 2 ^ 32 →
  0 ≤ table → table + i_ino i < 2 ^ 32 → bd_count dv ≤ 4096 →
  let ino' := (i_ino i - 1) mod s_inodes_per_group (s_info s) in
  ∃ r b', ext2_read_inode s i b = Ret (r, b') ∧ blk_kept b A b' ∧
    match r with
    | Some x => ∃ l, block_of b (s_dev s) dv (table + ino' / s_inodes_per_block (s_info s)) = Some l ∧
        decoded l (ino' mod s_inodes_per_block (s_info s) * isz) x ∧ i_iop x ≠ NoIop ∧ i_ino x = i_ino i ∧ i_sb x = i_sb i
    | None => no_block b s dv (table + ino' / s_inodes_per_block (s_info s)) ∨ ∃ l mode,
        block_of b (s_dev s) dv (table + ino' / s_inodes_per_block (s_info s)) = Some l ∧
        le l 2 (ino' mod s_inodes_per_block (s_info s) * isz) = Some mode ∧
        Z.land mode S_IFMT ≠ S_IFDIR ∧ Z.land mode S_IFMT ≠ S_IFREG
    end.
Proof.
  intros Hed Hm Hi Hg Hi32 Hisz Ht0 Ht Hcnt ino'. apply wp_elim. pose proof Hm as [].
  assert ((i_ino i - 1) / s_inodes_per_group (s_info s) = 0) as Hg0 by (apply Z.div_small; lia).
  assert (ino' = i_ino i - 1) as -> by (apply Z.mod_small; lia).
  assert ((i_ino i - 1) / s_inodes_per_block (s_info s) ≤ i_ino i - 1) as Hle.
  { apply Z.div_le_upper_bound; [lia|]. nia. }
  eapply wp_ext2_read_inode; [exact Hed|rewrite Hg0; exact Hm|lia|lia|lia|lia|lia|lia| |].
  - intros b' Hb' Hf. split; [done|by left].
  - intros b' l Hb' Hl. split.
    + intros x H1 H2 H3 H4. split; [done|]. by exists l.
    + intros mode H1 H2 H3. split; [done|]. right. by exists l, mode.
Qed.

(** In every other group [g] the code divides the number of the inode in
    the file system, not in its group, and so reads [g] inode tables too far:
    what it takes for the inode is not at the place the format prescribes. *)
Theorem ext2_read_inode_wrong_block b s dv k A i icount isz table g :
  ext2_dev b s dv k A → ext2_meta b s g icount isz table →
  1 ≤ i_ino i ≤ icount → g = (i_ino i - 1) / s_inodes_per_group (s_info s) → 1 ≤ g →
  s_inodes_per_group (s_info s) = s_itb_per_group (s_info s) * s_inodes_per_block (s_info s) →
  i_ino i < 2 ^ 32 → i_ino i * isz < 2 ^ 32 → 0 ≤ table → table + i_ino i < 2 ^ 32 → bd_count dv ≤ 4096 →
  let ino' := (i_ino i - 1) mod s_inodes_per_group (s_info s) in
  let place := table + ino' / s_inodes_per_block (s_info s) in
  ∃ r b' n, ext2_read_inode s i b = Ret (r, b') ∧ n = place + g * s_itb_per_group (s_info s) ∧ n ≠ place ∧
    ∀ x, r = Some x → ∃ l, block_of b (s_dev s) dv n = Some l ∧ decoded l (ino' mod s_inodes_per_block (s_info s) * isz) x.
Proof.
  intros Hed Hm Hi Hg Hg1 Hitb Hi32 Hisz Ht0 Ht Hcnt ino' place. pose proof Hm as [].
  set (ipb := s_inodes_per_block (s_info s)) in *. set (itb := s_itb_per_group (s_info s)) in *.
  assert (0 < itb) as Hitb0 by nia.
  pose proof (Z.div_mod (i_ino i - 1) (s_inodes_per_group (s_info s))) as Hdm. fold ino' in Hdm. rewrite -Hg in Hdm.
  assert ((i_ino i - 1) / ipb = g * itb + ino' / ipb) as Hq.
  { replace (i_ino i - 1) with (ino' + g * itb * ipb) by nia. rewrite Z.div_add; lia. }
  assert ((i_ino i - 1) mod ipb = ino' mod ipb) as Hr.
  { replace (i_ino i - 1) with (ino' + g * itb * ipb) by nia. by rewrite Z_mod_plus_full. }
  assert ((i_ino i - 1) / ipb ≤ i_ino i - 1) as Hle by (apply Z.div_le_upper_bound; nia).
  destruct (wp_elim (ext2_read_inode s i) (λ r b', ∀ x, r = Some x → ∃ l, block_of b (s_dev s) dv (place + g * itb) = Some l ∧
    decoded l (ino' mod ipb * isz) x) b) as (r & b' & E & H).
  - eapply wp_ext2_read_inode; [exact Hed|rewrite -Hg; exact Hm|lia|lia|lia|lia|fold ipb; lia|lia| |].
    + done.
    + intros b' l Hb' Hl. fold ipb. fold ipb in Hl. rewrite Hr. rewrite Hq in Hl.
      replace (table + (g * itb + ino' / ipb)) with (place + g * itb) in Hl by (unfold place; lia).
      split; [|done]. intros x H1 _ _ _ x' [= <-]. by exists l.
  - exists r, b', (place + g * itb). split_and!; [done|done|nia|exact H].
Qed.

(** ** Directories *)

(** The entries of a directory block from offset [j] on: names and inode numbers. *)
Inductive dirents (data : list Z) : Z → list (list Z * Z) → Prop :=
  | dirents_end j : Z.of_nat (length data) ≤ j → dirents data j []
  | dirents_cons j ino rl nm es :
      0 ≤ j < Z.of_nat (length data) → 8 ≤ rl → le data 4 j = Some ino → le data 2 (j + 4) = Some rl →
      le data 1 (j + 6) = Some (Z.of_nat (length nm)) →
      (∀ q c, nm !! q = Some c → data !! Z.to_nat (j + 8 + Z.of_nat q) = Some c) →
      dirents data (j + rl) es → dirents data j ((nm, ino) :: es).

(** The inode number of the first entry with the name [n]. *)
Definition dir_find (n : list Z) (es : list (list Z * Z)) : option Z :=
  snd <$> find (λ e, bool_decide (fst e = n)) es.

Lemma dir_find_app n es1 es2 :
  dir_find n (es1 ++ es2) = match dir_find n es1 with Some i => Some i | None => dir_find n es2 end.
Proof. rewrite /dir_find. induction es1 as [|e es1 IH]; [done|]. simpl. by case_bool_decide. Qed.

Lemma dirent_fields l j :
  field_of ext2_dir_entry_2 "rec_len"%string l j = le l 2 (j + 4 + 0) ∧
  field_of ext2_dir_entry_2 "name_len"%string l j = le l 1 (j + 6 + 0) ∧
  field_of ext2_dir_entry_2 "inode"%string l j = le l 4 (j + 0 + 0).
Proof. split_and!; reflexivity. Qed.

Lemma wp_name_eq data n : ∀ o nm b (Q : bool → blk → Prop),
  0 ≤ o → length nm = length n → (∀ q c, nm !! q = Some c → data !! Z.to_nat (o + Z.of_nat q) = Some c) →
  Q (bool_decide (nm = n)) b → wp (name_eq data o n) Q b.
Proof.
  induction n as [|c n IH]; intros o nm b Q Ho Hl Hd HQ; destruct nm as [|c' nm]; try done; cbn [name_eq].
  assert (data !! Z.to_nat o = Some c') as H0 by (rewrite -(Hd 0%nat c' eq_refl); f_equal; lia).
  apply wp_bind. eapply wp_deref; [exact H0|].
  destruct (Z.eqb_spec c' c) as [->|Hne].
  - apply (IH (o + 1) nm); [lia|by injection Hl| |].
    + intros q d Hq. rewrite -(Hd (S q) d Hq). f_equal. lia.
    + erewrite bool_decide_ext; [exact HQ|]. naive_solver.
  - apply wp_ret. rewrite bool_decide_eq_false_2 in HQ; [congruence|]. exact HQ.
Qed.

Lemma wp_dir_scan data j es n : dirents data j es → ∀ fuel b (Q : option Z → blk → Prop),
  (length data - Z.to_nat j < fuel)%nat → Q (dir_find n es) b → wp (dir_scan fuel data j n) Q b.
Proof.
  induction 1 as [j Hj|j ino rl nm es Hj Hrl Hi Hr Hn Hc _ IH]; intros fuel b Q Hf HQ; (destruct fuel as [|fuel]; [lia|]);
    cbn [dir_scan].
  { rewrite (proj2 (Z.leb_le _ _) Hj). by apply wp_ret. }
  rewrite (proj2 (Z.leb_gt _ _)); [lia|]. destruct (dirent_fields data j) as (F1 & F2 & F3).
  rewrite F1 F2 F3 !Z.add_0_r. apply wp_bind. eapply wp_deref; [exact Hr|].
  rewrite (proj2 (Z.ltb_ge rl 8)); [lia|]. apply wp_bind. eapply wp_deref; [exact Hn|]. apply wp_bind.
  apply (wp_mono _ (λ e b', e = bool_decide (nm = n) ∧ b' = b)).
  - destruct (Z.eqb_spec (Z.of_nat (length nm)) (Z.of_nat (length n))) as [El|Nl].
    + apply (wp_name_eq data n (j + 8) nm); [lia|lia|exact Hc|done].
    + apply wp_ret. split; [|done]. symmetry. apply bool_decide_eq_false_2. congruence.
  - intros e b' [-> ->]. rewrite /dir_find /= in HQ. case_bool_decide.
    + apply wp_bind. eapply wp_deref; [exact Hi|]. by apply wp_ret.
    + apply IH; [lia|exact HQ].
Qed.

(** The entries of the block [n] of a directory; a block number of zero is skipped. *)
Definition block_entries b s (dv : blkdev) (n : Z) (es : list (list Z * Z)) : Prop :=
  0 ≤ n ∧ n * bd_count dv < 2 ^ 64 ∧
  if n =? 0 then es = [] else ∀ l, block_of b (s_dev s) dv n = Some l → dirents l 0 es.

(** One of the blocks [bl] is not given by the device. *)
Definition lost_block b s (dv : blkdev) (bl : list Z) : Prop := ∃ n, n ∈ bl ∧ n ≠ 0 ∧ block_of b (s_dev s) dv n = None.

Lemma lost_block_cons b s dv n bl : lost_block b s dv bl → lost_block b s dv (n :: bl).
Proof. intros (m & Hm & H). exists m. split; [by right|exact H]. Qed.

Lemma wp_dir_lookup_loop b s dv k A n : ext2_dev b s dv k A → ∀ bl ess b1,
  Forall2 (block_entries b s dv) bl ess → blk_kept b A b1 →
  wp (lookup_loop s bl n) (λ r b', blk_kept b A b' ∧
    (r = Some (dir_find n (mjoin ess)) ∨ (r = None ∧ (can_read b1 dv → lost_block b s dv bl)))) b1.
Proof.
  intros Hed. pose proof Hed as []. induction bl as [|bn bl IH]; intros ess b1 HF Hk; cbn [lookup_loop].
  { apply Forall2_nil_inv_l in HF as ->. apply wp_ret. split; [done|by left]. }
  apply Forall2_cons_inv_l in HF as (es & ess' & (Hn0 & Hn1 & Hes) & HF & ->).
  destruct (Z.eqb_spec bn 0) as [->|Hbn].
  { subst es. eapply wp_mono; [exact (IH ess' b1 HF Hk)|]. intros r b' [Hk' [->|[-> Hl]]]; (split; [exact Hk'|]); [by left|right].
    split; [done|]. intros Hc. apply lost_block_cons, Hl, Hc. }
  pose proof (blk_kept_ok _ _ _ _ _ ed_ok0 Hk) as Hok1.
  destruct (wp_elim _ _ _ (wp_blk_read b1 (s_dev s) dv A bn Hok1 Hn0 Hn1)) as (r & b2 & Er & Hrp & Hsup).
  apply wp_bind. rewrite {1}/wp Er. destruct (Z.eqb_spec r NULL) as [->|Hr0].
  { apply wp_ret. destruct Hrp as [Hs [(_ & Hb & Hd & Hlv)|(? & ? & _ & Hne & _)]]; [|done].
    split; [eapply blk_kept_trans; [exact Hk|by split]|]. right. split; [done|].
    intros Hc. exists bn. split_and!; [by left|done|]. rewrite -(block_of_same _ _ _ _ _ (proj1 Hk)).
    exact (no_block_intro _ _ _ _ _ Hsup Hc). }
  assert (∃ l, block_of b1 (s_dev s) dv bn = Some l) as [l Hl].
  { destruct Hrp as [_ [(-> & _)|(? & l & H & _)]]; [done|by exists l]. }
  assert (block_of b (s_dev s) dv bn = Some l) as Hlb by (rewrite -Hl; symmetry; apply block_of_same, Hk).
  apply wp_bind. eapply wp_read_data; [exact Hrp|done|exact Hl|]. apply wp_bind.
  eapply wp_dir_scan; [exact (Hes l Hlb)|lia|]. apply wp_bind.
  eapply wp_blk_free_kept; [exact Hok1|exact Hrp|done|]. intros b3 Hk3 Hsup3.
  assert (blk_kept b A b3) as Hk' by exact (blk_kept_trans _ _ _ _ Hk Hk3).
  pose proof (dir_find_app n es (mjoin ess')) as Happ. change (es ++ mjoin ess') with (mjoin (es :: ess')) in Happ.
  rewrite Happ. destruct (dir_find n es) as [inum|].
  - apply wp_ret. split; [done|by left].
  - eapply wp_mono; [exact (IH ess' b3 HF Hk')|]. intros r' b' [Hkb [->|[-> Hl']]]; (split; [exact Hkb|]); [by left|right].
    split; [done|]. intros Hc. apply lost_block_cons, Hl'. exact (can_read_next _ _ _ _ _ _ b3 Hsup Hr0 Hsup3 Hc).
Qed.
End ext2.

Section ext2_cache.
Context {P Q D : Type} `{!ObjOps P, !ObjOps Q, !ObjSpec Q, !Driver D, !DriverSpec D}.
Implicit Types (c : @icache P ext2_sb_info (@blk Q D)).

Lemma ext2_lookup_search c i x s dv k A n ess fuel :
  ic_inodes c !! i = Some x → ic_supers c !! i_sb x = Some s → ext2_dev (ic_env c) s dv k A → 0 ≤ i_blocks x →
  let bl := take (Z.to_nat (Z.min EXT2_NDIR_BLOCKS (i_blocks x))) (i_block x) in
  Forall2 (block_entries (ic_env c) s dv) bl ess →
  ∃ b', blk_kept (ic_env c) A b' ∧
    (ext2_lookup fuel i n c = match dir_find n (mjoin ess) with
       | Some inum => iget fuel (i_sb x) inum (set_ic_env b' c)
       | None => Ret (NULL, set_ic_env b' c)
       end ∨
     (ext2_lookup fuel i n c = Ret (NULL, set_ic_env b' c) ∧
      (can_read (ic_env c) dv → lost_block (ic_env c) s dv bl))).
Proof.
  intros Hx Hs Hed Hb bl HF. pose proof Hed as [].
  destruct (wp_elim _ _ _ (wp_dir_lookup_loop (ic_env c) s dv k A n Hed bl ess (ic_env c) HF (blk_kept_refl _ _ _ _ ed_ok0)))
    as (r & b' & E & Hk & Hr).
  exists b'. split; [exact Hk|].
  rewrite /ext2_lookup /ld_inode /ld_super /bind /= Hx /= Hs /=.
  assert ((if EXT2_NDIR_BLOCKS <? i_blocks x then EXT2_NDIR_BLOCKS else i_blocks x) = Z.min EXT2_NDIR_BLOCKS (i_blocks x)) as ->.
  { destruct (Z.ltb_spec EXT2_NDIR_BLOCKS (i_blocks x)); lia. }
  fold bl. rewrite /zoom E. destruct Hr as [->|[-> Hf]]; [left|by right]. by destruct (dir_find n (mjoin ess)).
Qed.

(** C22: [ext2_lookup] finds a name as the list of the directory's entries
    does: with the first entry of that name, block after block, it goes on to
    [iget] of the entry's inode; without one it answers NULL.  So it does
    whenever there is memory for a buffer and the device gives the blocks of
    the directory; otherwise it may also answer NULL.  The search itself
    leaves the inode cache and the buffers as they were. *)
Theorem ext2_lookup_correct c i x s dv k A n ess fuel :
  ic_inodes c !! i = Some x → ic_supers c !! i_sb x = Some s → ext2_dev (ic_env c) s dv k A → 0 ≤ i_blocks x →
  let bl := take (Z.to_nat (Z.min EXT2_NDIR_BLOCKS (i_blocks x))) (i_block x) in
  Forall2 (block_entries (ic_env c) s dv) bl ess →
  ∃ b', blk_kept (ic_env c) A b' ∧
    let found := match dir_find n (mjoin ess) with
      | Some inum => iget fuel (i_sb x) inum (set_ic_env b' c)
      | None => Ret (NULL, set_ic_env b' c)
      end in
    (ext2_lookup fuel i n c = found ∨ ext2_lookup fuel i n c = Ret (NULL, set_ic_env b' c)) ∧
    (can_read (ic_env c) dv → Forall (λ m, m ≠ 0 → is_Some (block_of (ic_env c) (s_dev s) dv m)) bl →
     ext2_lookup fuel i n c = found).
Proof.
  intros Hx Hs Hed Hb bl HF.
  destruct (ext2_lookup_search c i x s dv k A n ess fuel Hx Hs Hed Hb HF) as (b' & Hk & Hr).
  exists b'. split; [exact Hk|]. destruct Hr as [Hr|[Hr Hl]]; (split; [auto|]); [done|].
  intros Hc Hall. destruct (Hl Hc) as (m & Hm & H0 & Hno).
  pose proof (proj1 (Forall_forall _ _) Hall m Hm H0) as [l Hl']. congruence.
Qed.
End ext2_cache.

(** ** A small file system: blocks of 256 bytes, two inodes to a block, two groups *)

Definition patch (o : nat) (l blk : list Z) : list Z := take o blk ++ l ++ drop (o + length l) blk.
Definition zeros : list Z := replicate 256 0.
Definition raw_inode (mode_lo mode_hi size_lo size_hi : Z) (blocks : list Z) : list Z :=
  patch 40 blocks (patch 28 [2] (patch 4 [size_lo; size_hi] (patch 0 [mode_lo; mode_hi] (replicate 128 0)))).

(** The directory holds the file [a], inode 1. *)
Definition dir_block : list Z := patch 12 [1; 0; 0; 0; 244; 0; 1; 1; 97] (patch 0 [2; 0; 0; 0; 12; 0; 1; 2; 46] zeros).
Definition ext2_image : ramdisk := [
  zeros;
  zeros;
  zeros;
  raw_inode 0xa4 0x81 0x2c 1 [6; 0; 0; 0; 7] ++ raw_inode 0xed 0x41 0 1 [5];
  raw_inode 0xa4 0x81 3 0 [6] ++ raw_inode 0 0 0 0 [];
  dir_block;
  replicate 256 65;
  replicate 256 66 ].

Definition ext2_es : list Z := patch 88 [128] (patch 0 [4] zeros).
Definition ext2_gd : list Z := patch 40 [4] (patch 8 [3] zeros).
Definition ext2_bdev : blkdev := mk_blkdev NULL [104; 100] 256 1 1.
Definition ext2_blk : @blk opool ramdisk :=
  mk_blk {[ 0x40 := ext2_bdev ]} 0x40 {[ 0x1100 := mk_buffer 0x40 2 0x1200 256 ]}
    {[ 0x1000 := ext2_es; 0x1200 := ext2_gd ]} [0x100; 0x200; 0x300; 0x400] ext2_image.
Definition ext2_info : ext2_sb_info := mk_ext2_sb_info 2 8 2 1 1 8 2 0x1300 0x1000 [0x1100].
Definition ext2_sb : super ext2_sb_info := mk_super 0x40 NULL 1 256 NULL ext2_info.
Definition ext2_live : gset Z := {[ 0x1000; 0x1100; 0x1200 ]}.

Lemma ext2_image_sectors : Forall (λ l, Z.of_nat (length l) = 256) ext2_image.
Proof. repeat constructor. Qed.

Lemma ext2_blk_ok : ext2_dev ext2_blk ext2_sb ext2_bdev 8 ext2_live.
Proof.
  split; [|done..]. split; try done.
  - intros k l. change (drv_sector (bk_drv ext2_blk) (s_dev ext2_sb) k) with (rd_sector ext2_image k). rewrite /rd_sector.
    destruct (Z.ltb_spec k 0); [done|]. intros Hl%list_elem_of_lookup_2. exact (proj1 (Forall_forall _ _) ext2_image_sectors l Hl).
  - split_and!; [decide_closed| |].
    + intros v Hv. split; [|revert v Hv; apply Forall_forall; decide_closed].
      assert (Forall obj_ok (bk_objs ext2_blk)) as HF by (repeat constructor). exact (proj1 (Forall_forall _ _) HF v Hv).
    + intros v Hv. rewrite /ext2_live !elem_of_union !elem_of_singleton in Hv. destruct_or! Hv; subst v; by vm_compute.
  - intros a [x Hx]. simpl in Hx. apply lookup_singleton_Some in Hx as [<- _]. decide_closed.
  - intros a Ha. simpl in Ha. rewrite lookup_insert_is_Some lookup_singleton_is_Some in Ha.
    destruct Ha as [<-|[_ <-]]; decide_closed.
Qed.

Lemma ext2_meta_ok g : g = 0 ∨ g = 1 → ext2_meta ext2_blk ext2_sb g 4 128 (3 + g).
Proof.
  intros Hg. split; try done; try (destruct Hg as [->| ->]; simpl; lia).
  - exists ext2_es. split_and!; [|vm_compute; reflexivity..]. simpl. by rewrite lookup_insert_eq.
  - exists 0x1100, (mk_buffer 0x40 2 0x1200 256), ext2_gd. split_and!.
    + destruct Hg as [->| ->]; reflexivity.
    + reflexivity.
    + reflexivity.
    + destruct Hg as [->| ->]; vm_compute; reflexivity.
Qed.

(** Inode 1, as the file system reads it. *)
Definition ext2_file : inode :=
  mk_inode 1 0x900 0 NULL 1 RegIop 0x81a4 0 0 300 0 2 [6; 7; 0; 0; 0; 0; 0; 0; 0; 0; 0; 0; 0; 0; 0].
Lemma ext2_file_blocks : blocks_ok ext2_bdev ext2_file.
Proof. split; [done|]. repeat (apply Forall_cons; split; [done|]). apply Forall_nil. done. Qed.
Definition user_mem : mem := fill 0x8000 0 300 ∅.

Lemma ext2_can_read : can_read ext2_blk ext2_bdev.
Proof. rewrite /can_read /=. lia. Qed.

(** Twenty bytes across the border of two blocks. *)
Lemma ext2_pread_witness : ∃ p', ext2_pread ext2_sb ext2_file 0x8000 20 250 (mk_penv ext2_blk user_mem) = Ret (20, p') ∧
  pread_done ext2_blk ext2_sb ext2_bdev ext2_file ext2_live (mk_penv ext2_blk user_mem) 0x8000 250 20 p' ∧
  (file_byte ext2_blk ext2_sb ext2_bdev ext2_file 255, file_byte ext2_blk ext2_sb ext2_bdev ext2_file 256) = (Some 65, Some 66).
Proof.
  pose proof (ext2_pread_correct ext2_sb ext2_bdev ext2_file 8 ext2_live (mk_penv ext2_blk user_mem) 0x8000 20 250 20
    ext2_blk_ok ext2_file_blocks ltac:(simpl; lia) ltac:(simpl; lia) ltac:(lia) ltac:(lia) eq_refl
    (fill_owned 0x8000 0 300 ∅ 0x8000 20 ltac:(lia) ltac:(lia)) ltac:(lia) ltac:(lia)) as H.
  case_decide as Hd; [|unfold EXT2_NDIR_BLOCKS in Hd; lia]. destruct H as (c & p' & H1 & H2 & H3 & H4).
  assert (c = 20) as ->.
  { destruct (Z.eq_dec c 20) as [|Hne]; [done|]. exfalso. specialize (H4 ext2_can_read ltac:(lia)).
    assert (Forall (λ o, is_Some (file_byte ext2_blk ext2_sb ext2_bdev ext2_file o)) (seqZ 250 20)) as HF by decide_closed.
    assert (250 + c ∈ seqZ 250 20) as Hin by (apply elem_of_seqZ; lia).
    apply (proj1 (Forall_forall _ _) HF) in Hin as [y Hy]. simpl in H4. congruence. }
  exists p'. split; [exact H1|]. split; [exact H3|]. vm_compute. reflexivity.
Defined.

(** A file of twelve full blocks, read to its end. *)
Definition ext2_big : inode := mk_inode 1 0x900 0 NULL 1 RegIop 0x81a4 0 0 3072 0 2 (replicate 15 6).
Lemma ext2_pread_panics_witness : ext2_pread ext2_sb ext2_big 0x8000 256 2816 (mk_penv ext2_blk user_mem) = Bug.
Proof. apply (ext2_pread_panics ext2_sb ext2_big 8 _ 0x8000 256 2816 256); try reflexivity; simpl; lia. Defined.

Lemma ext2_pread_past_end_witness : ext2_pread ext2_sb ext2_file 0x8000 20 310 (mk_penv ext2_blk user_mem) = Fault.
Proof.
  apply (ext2_pread_past_end ext2_sb ext2_bdev ext2_file 8 ext2_live).
  - exact ext2_blk_ok.
  - exact ext2_file_blocks.
  - simpl. lia.
  - reflexivity.
  - reflexivity.
  - lia.
  - lia.
  - apply fill_owned; [lia|]. apply Z.leb_le. reflexivity.
  - lia.
  - lia.
  - exact ext2_can_read.
  - decide_closed.
Defined.

Lemma ext2_read_inode_witness : ∃ r b', ext2_read_inode ext2_sb (new_inode 0x900 1) ext2_blk = Ret (r, b') ∧
  blk_kept ext2_blk ext2_live b'.
Proof.
  destruct (ext2_read_inode_correct ext2_blk ext2_sb ext2_bdev 8 ext2_live (new_inode 0x900 1) 4 128 3) as (r & b' & H1 & H2 & _);
    try (simpl; lia).
  - exact ext2_blk_ok.
  - apply (ext2_meta_ok 0). by left.
  - exists r, b'. split; [exact H1|exact H2].
Defined.

(** Inode 3, the first of the second group, is at the start of block 4; block 5 is read. *)
Lemma ext2_read_inode_wrong_block_witness : ∃ r b', ext2_read_inode ext2_sb (new_inode 0x900 3) ext2_blk = Ret (r, b') ∧
  ∀ x, r = Some x → ∃ l, block_of ext2_blk 0x40 ext2_bdev 5 = Some l ∧ decoded l 0 x.
Proof.
  destruct (ext2_read_inode_wrong_block ext2_blk ext2_sb ext2_bdev 8 ext2_live (new_inode 0x900 3) 4 128 4 1)
    as (r & b' & n & H1 & H2 & _ & H3); try (simpl; lia).
  - exact ext2_blk_ok.
  - apply (ext2_meta_ok 1). by right.
  - reflexivity.
  - exists r, b'. split; [exact H1|]. intros x Hx. destruct (H3 x Hx) as (l & H4 & H5). exists l.
    rewrite H2 in H4. split; [exact H4|exact H5].
Defined.

(** The directory, inode 2, is in memory. *)
Definition ext2_dir : inode := mk_inode 2 0x900 1 NULL 1 DirIop 0x41ed 0 0 256 0 2 (5 :: replicate 14 0).
Definition ext2_icache : @icache opool ext2_sb_info (@blk opool ramdisk) :=
  mk_icache {[ 0x500 := mk_rb_node 1 NULL NULL ]} {[ 0x500 := ext2_dir ]} {[ 0x900 := set_s_inode_cache 0x500 ext2_sb ]} [] 1 [0x600; 0x700] ext2_blk.
Definition dir_entries : list (list (list Z * Z)) := [[([46], 2); ([97], 1)]; []].

Lemma dir_entries_ok : Forall2 (block_entries ext2_blk ext2_sb ext2_bdev) [5; 0] dir_entries.
Proof.
  repeat constructor; try done. intros l Hl. vm_compute in Hl. injection Hl as <-.
  eapply (dirents_cons _ 0 2 12 [46]); try reflexivity; [simpl; lia|lia| |].
  { intros [|q] c Hq; [injection Hq as <-; reflexivity|done]. }
  eapply (dirents_cons _ 12 1 244 [97]); try reflexivity; [simpl; lia|lia| |].
  { intros [|q] c Hq; [injection Hq as <-; reflexivity|done]. }
  apply dirents_end. simpl. lia.
Qed.

Lemma ext2_lookup_witness : ∃ b', ext2_lookup 8 0x500 [97] ext2_icache = iget 8 0x900 1 (set_ic_env b' ext2_icache).
Proof.
  destruct (ext2_lookup_correct ext2_icache 0x500 ext2_dir (set_s_inode_cache 0x500 ext2_sb) ext2_bdev 8 ext2_live [97] dir_entries 8)
    as (b' & _ & _ & H).
  - reflexivity.
  - reflexivity.
  - destruct ext2_blk_ok. by split.
  - simpl. lia.
  - exact dir_entries_ok.
  - exists b'. apply H; [exact ext2_can_read|]. decide_closed.
Defined.
