(* ===== verification/Namei.v ===== *)
(** * Path names ([fs/dentry.c])

    [namei] walks over a path with a two-state machine: between components
    (state 1) it skips slashes, inside one (state 0) it waits for the next
    slash or the end and then looks the component up.  The theorem compares it
    with the two steps it interleaves: splitting the path into its components,
    and looking them up one after the other. *)
From S2P Require Import Prelude Kmem.

(** What [namei] uses: the bytes of the path, references of inodes, and the
    [lookup] of a directory's operations. *)
Class VfsOps (T : Type) := {
  vfs_mem : T → mem;
  vfs_iref : Z → M T Z;
  vfs_iput : Z → M T unit;
  vfs_lookup : Z → list Z → M T Z
}.

Section namei.
Context {T : Type} `{!VfsOps T}.

Definition ld_char (a : Z) : M T Z := let! s := get in deref (vfs_mem s !! a).

(** The [n] bytes from [a] on. *)
Fixpoint ld_name (n : nat) (a : Z) : M T (list Z) :=
  match n with
  | O => ret []
  | S n => let! c := ld_char a in let! l := ld_name n (a + 1) in ret (c :: l)
  end.

(** The loop: [i] is the directory, [n] the cursor, [name] the start of the component. *)
Fixpoint namei_loop (fuel : nat) (i n name state : Z) : M T Z :=
  match fuel with
  | O => nofuel
  | S fuel =>
    let! c := ld_char n in
    if state =? 0 then
      if (c =? 0) || (c =? 47) then
        let! comp := ld_name (Z.to_nat (n - name)) name in
        let! i' := vfs_lookup i comp in
        if i' =? NULL then ret NULL else
        do! vfs_iput i then
        if c =? 0 then ret i' else namei_loop fuel i' (n + 1) name 1
      else namei_loop fuel i (n + 1) name 0
    else
      if c =? 0 then ret i
      else if negb (c =? 47) then namei_loop fuel i (n + 1) n 0
      else namei_loop fuel i (n + 1) name 1
  end.

(** [root] and [cwd] of the calling task. *)
Definition namei (fuel : nat) (root cwd name : Z) : M T Z :=
  if name =? NULL then ret NULL else
  let! c := ld_char name in
  if c =? 47 then let! i := vfs_iref root in namei_loop fuel i (name + 1) (name + 1) 1
  else let! i := vfs_iref cwd in namei_loop fuel i name name 1.

(** ** The reference *)

(** The components of a path: the maximal runs of bytes that are not slashes. *)
Fixpoint components_from (cur l : list Z) : list (list Z) :=
  match l with
  | [] => if bool_decide (cur = []) then [] else [cur]
  | c :: l =>
    if c =? 47 then (if bool_decide (cur = []) then [] else [cur]) ++ components_from [] l
    else components_from (cur ++ [c]) l
  end.
Definition components (l : list Z) : list (list Z) := components_from [] l.

(** One lookup after the other; the directory is released when the lookup has succeeded. *)
Fixpoint walk (i : Z) (cs : list (list Z)) : M T Z :=
  match cs with
  | [] => ret i
  | c :: cs =>
    let! i' := vfs_lookup i c in
    if i' =? NULL then ret NULL else
    do! vfs_iput i then
    walk i' cs
  end.

(** Lookups and references do not write to the path. *)
Class VfsLaws : Prop := {
  lookup_mem i c s r s' : vfs_lookup i c s = Ret (r, s') → vfs_mem s' = vfs_mem s;
  iput_mem i s r s' : vfs_iput i s = Ret (r, s') → vfs_mem s' = vfs_mem s;
  iref_mem i s r s' : vfs_iref i s = Ret (r, s') → vfs_mem s' = vfs_mem s
}.
Context {laws : VfsLaws}.

Lemma bind_ext {A B} (m : M T A) (k k' : A → M T B) s :
  (∀ a s', m s = Ret (a, s') → k a s' = k' a s') → bind m k s = bind m k' s.
Proof. intros H. rewrite /bind. destruct (m s) as [[a s']| | | |]; try done. by apply H. Qed.

Lemma ld_name_bytes l a s : bytes (vfs_mem s) a l → ld_name (length l) a s = Ret (l, s).
Proof.
  revert a. induction l as [|c l IH]; intros a H; [done|]. destruct H as [Hc H]. cbn [ld_name length].
  rewrite /ld_char /bind /= Hc /=. by rewrite IH.
Qed.

(** The two states of the loop, with [l] left of the path and [cur] read of the component. *)
Lemma namei_loop_walk l : ∀ fuel i n s, (length l < fuel)%nat → bytes (vfs_mem s) n (l ++ [0]) → Forall (λ c, 0 < c) l →
  (∀ name, namei_loop fuel i n name 1 s = walk i (components_from [] l) s) ∧
  (∀ cur, cur ≠ [] → bytes (vfs_mem s) (n - Z.of_nat (length cur)) cur →
     namei_loop fuel i n (n - Z.of_nat (length cur)) 0 s = walk i (components_from cur l) s).
Proof.
  induction l as [|c l IH]; intros fuel i n s Hf Hb Hp; (destruct fuel as [|fuel]; [simpl in Hf; lia|]); cbn [namei_loop app components_from].
  - destruct Hb as [Hc _]. split.
    + intros name. rewrite /ld_char /bind /= Hc /=. done.
    + intros cur Hne Hcur. rewrite {1}/bind /ld_char {1}/bind /= Hc /=.
      rewrite bool_decide_eq_false_2 //. cbn [walk].
      replace (Z.to_nat (n - (n - Z.of_nat (length cur)))) with (length cur) by lia.
      rewrite {1}/bind (ld_name_bytes cur _ s Hcur). apply bind_ext. intros i' s1 _. destruct (i' =? NULL); [done|].
      apply bind_ext. done.
  - destruct Hb as [Hc Hb]. apply Forall_cons in Hp as [Hc0 Hp]. simpl in Hf.
    assert (c =? 0 = false) as Ec by (apply Z.eqb_neq; lia).
    split.
    + intros name. rewrite {1}/bind /ld_char {1}/bind /= Hc /= Ec. destruct (Z.eqb_spec c 47) as [->|Hs]; cbn [negb].
      * apply IH; [lia|done|done].
      * specialize (IH fuel i (n + 1) s). destruct IH as [_ IH]; [lia|done|done|].
        specialize (IH [c]). simpl in IH. replace (n + 1 - Z.of_nat 1) with n in IH by lia. by apply IH.
    + intros cur Hne Hcur. rewrite {1}/bind /ld_char {1}/bind /= Hc /= Ec. destruct (Z.eqb_spec c 47) as [->|Hs]; cbn [orb].
      * rewrite bool_decide_eq_false_2 //. cbn [walk app].
        replace (Z.to_nat (n - (n - Z.of_nat (length cur)))) with (length cur) by lia.
        rewrite {1}/bind (ld_name_bytes cur _ s Hcur). apply bind_ext. intros i' s1 E1. destruct (i' =? NULL); [done|].
        apply bind_ext. intros [] s2 E2. apply IH; [lia| |done].
        by rewrite (iput_mem _ _ _ _ E2) (lookup_mem _ _ _ _ _ E1).
      * specialize (IH fuel i (n + 1) s). destruct IH as [_ IH]; [lia|done|done|].
        specialize (IH (cur ++ [c])). rewrite length_app /= in IH.
        replace (n + 1 - Z.of_nat (length cur + 1)) with (n - Z.of_nat (length cur)) in IH by lia. apply IH; [by destruct cur|].
        apply bytes_app. split; [done|]. replace (n - Z.of_nat (length cur) + Z.of_nat (length cur)) with n by lia. done.
Qed.

(** A path that begins with a slash is walked from the root. *)
Lemma namei_absolute root cwd name l fuel s :
  cstr (vfs_mem s) name (47 :: l) → name ≠ NULL → (length l < fuel)%nat →
  namei fuel root cwd name s = (let! i := vfs_iref root in walk i (components l)) s.
Proof.
  intros [[Hc Hb] Hr] Hn Hf. rewrite /namei (proj2 (Z.eqb_neq name NULL) Hn).
  assert (Forall (λ c, 0 < c) l) as Hp by (apply Forall_cons in Hr as [_ Hr]; eapply Forall_impl; [exact Hr|]; simpl; lia).
  rewrite {1}/bind /ld_char {1}/bind /= Hc /=. apply bind_ext. intros i s' E.
  destruct (namei_loop_walk l fuel i (name + 1) s') as [H _]; [done| |done|by rewrite H].
  by rewrite (iref_mem _ _ _ _ E).
Qed.

(** C23: [namei] is the walk over the components of the path, from the root
    for a path that begins with a slash and from the working directory
    otherwise; repeated, leading and trailing slashes make no difference, and it ends on
    every path. *)
Theorem namei_walk root cwd name l fuel s :
  cstr (vfs_mem s) name l → name ≠ NULL → (length l < fuel)%nat →
  namei fuel root cwd name s =
    (let! i := vfs_iref (if bool_decide (head l = Some 47) then root else cwd) in walk i (components l)) s.
Proof.
  intros Hl Hn Hf. pose proof Hl as [Hb Hr].
  assert (Forall (λ c, 0 < c) l) as Hp by (eapply Forall_impl; [exact Hr|]; simpl; lia).
  destruct l as [|c l].
  - destruct Hb as [Hc _]. rewrite /namei (proj2 (Z.eqb_neq name NULL) Hn) {1}/bind /ld_char {1}/bind /= Hc /=. apply bind_ext. intros i s' E.
    destruct (namei_loop_walk [] fuel i name s') as [H _]; [done| |done|by rewrite H].
    simpl. by rewrite (iref_mem _ _ _ _ E).
  - destruct (decide (c = 47)) as [->|Hs].
    + rewrite (namei_absolute _ _ _ l); [exact Hl|done|simpl in Hf; lia|]. by rewrite bool_decide_eq_true_2.
    + destruct Hb as [Hc Hb]. rewrite /namei (proj2 (Z.eqb_neq name NULL) Hn) {1}/bind /ld_char {1}/bind /= Hc /=. rewrite (proj2 (Z.eqb_neq c 47) Hs).
      rewrite bool_decide_eq_false_2; [congruence|]. apply bind_ext. intros i s' E.
      destruct (namei_loop_walk (c :: l) fuel i name s') as [H _]; [done| |done|by rewrite H].
      rewrite (iref_mem _ _ _ _ E). done.
Qed.
End namei.
