(* ===== verification/Vfs.v ===== *)
(** * Mounting and the system calls on files ([fs/vfs.c], [fs/mount.c],
      [ext2_get_super] of [fs/ext2.c], [kernel/open.c], [kernel/close.c],
      [kernel/read.c], the user-space access of [include/scaraOS/kernel.h] and
      [include/arch-ia32/user.h])

    The state joins the inode cache (over the block layer), the descriptor
    tables, and the memory of the caller.  Each of the three components keeps
    the objects it allocates in a part of the allocator of its own. *)
From Stdlib Require Import String.
From stdpp Require Import strings.
From S2P Require Import Prelude Kmem ListHead ObjAlloc Rbtree Inode Blk Ext2 Fdt Namei.

Definition USER_TOP : Z := 0xc0000000.

(** [uaddr_ok] and [uaddr_maxstr] *)
Definition uaddr_ok (vaddr count : Z) : bool :=
  if USER_TOP <=? vaddr then false else negb (USER_TOP - vaddr <? count).
Definition uaddr_maxstr (vaddr : Z) : Z := if USER_TOP <=? vaddr then 0 else USER_TOP - vaddr.

(** Red-black trees of 32-bit keys are lower than this. *)
Definition vfs_fuel : nat := 140.

(** The file system types: [struct vfs_fstype]; the kernel has one [read_super]. *)
Record vfs_fstype := mk_vfs_fstype { fst_next : Z; fst_name : list Z }.

Section vfs.
Context {P Q D : Type} `{!ObjOps P, !CacheOps P, !ObjOps Q, !Driver D}.
Abbreviation ic := (@icache P ext2_sb_info (@blk Q D)).

(** [t_root], [t_cwd] and [t_fds] belong to the calling task. *)
Record vfs := mk_vfs {
  v_ic : ic;
  v_fdt : @fdts P;
  v_mem : mem;
  v_objs : P;
  fs_types : Z;
  v_types : gmap Z vfs_fstype;
  superblocks : list Z;
  t_root : Z;
  t_cwd : Z;
  t_fds : Z
}.
Abbreviation V := (M vfs).

Definition set_v_ic (x : ic) (v : vfs) : vfs :=
  mk_vfs x (v_fdt v) (v_mem v) (v_objs v) (fs_types v) (v_types v) (superblocks v) (t_root v) (t_cwd v) (t_fds v).
Definition set_v_fdt (x : @fdts P) (v : vfs) : vfs :=
  mk_vfs (v_ic v) x (v_mem v) (v_objs v) (fs_types v) (v_types v) (superblocks v) (t_root v) (t_cwd v) (t_fds v).
Definition set_v_mem (x : mem) (v : vfs) : vfs :=
  mk_vfs (v_ic v) (v_fdt v) x (v_objs v) (fs_types v) (v_types v) (superblocks v) (t_root v) (t_cwd v) (t_fds v).
Definition set_v_objs (x : P) (v : vfs) : vfs :=
  mk_vfs (v_ic v) (v_fdt v) (v_mem v) x (fs_types v) (v_types v) (superblocks v) (t_root v) (t_cwd v) (t_fds v).
Definition set_fs_types (x : Z) (v : vfs) : vfs :=
  mk_vfs (v_ic v) (v_fdt v) (v_mem v) (v_objs v) x (v_types v) (superblocks v) (t_root v) (t_cwd v) (t_fds v).
Definition upd_types (f : gmap Z vfs_fstype → gmap Z vfs_fstype) (v : vfs) : vfs :=
  mk_vfs (v_ic v) (v_fdt v) (v_mem v) (v_objs v) (fs_types v) (f (v_types v)) (superblocks v) (t_root v) (t_cwd v) (t_fds v).
Definition set_superblocks (x : list Z) (v : vfs) : vfs :=
  mk_vfs (v_ic v) (v_fdt v) (v_mem v) (v_objs v) (fs_types v) (v_types v) x (t_root v) (t_cwd v) (t_fds v).
Definition set_t_dirs (r c : Z) (v : vfs) : vfs :=
  mk_vfs (v_ic v) (v_fdt v) (v_mem v) (v_objs v) (fs_types v) (v_types v) (superblocks v) r c (t_fds v).

Definition on_ic {A} (m : M ic A) : V A := zoom v_ic set_v_ic m.
Definition on_fdt {A} (m : M (@fdts P) A) : V A := zoom v_fdt set_v_fdt m.
Definition on_mem {A} (m : M mem A) : V A := zoom v_mem set_v_mem m.
Definition on_env {A} (m : M (@blk Q D) A) : M ic A := zoom ic_env set_ic_env m.

(** ** The operations of an inode *)

(** [nul_inode_lookup], [nul_inode_pread]. *)
Definition nul_inode_lookup (i : Z) (n : list Z) : V Z := ret NULL.
Definition nul_inode_pread (i buf len off : Z) : V Z := ret (-1).

(** [i->i_iop->lookup]; an inode without operations has a null table. *)
Definition iop_lookup (i : Z) (n : list Z) : V Z :=
  let! x := on_ic (ld_inode i) in
  match i_iop x with
  | NoIop => fault
  | RegIop => nul_inode_lookup i n
  | DirIop => on_ic (ext2_lookup vfs_fuel i n)
  end.

(** [i->i_iop->pread] *)
Definition on_penv {A} (m : M penv A) : V A :=
  zoom (λ v, mk_penv (ic_env (v_ic v)) (v_mem v)) (λ p v, set_v_mem (pe_mem p) (set_v_ic (set_ic_env (pe_blk p) (v_ic v)) v)) m.
Definition iop_pread (i buf len off : Z) : V Z :=
  let! x := on_ic (ld_inode i) in
  match i_iop x with
  | NoIop => fault
  | RegIop => let! s := on_ic (ld_super (i_sb x)) in on_penv (ext2_pread s x buf len off)
  | DirIop => nul_inode_pread i buf len off
  end.

#[export] Instance vfs_ops : VfsOps vfs := {|
  vfs_mem := v_mem;
  vfs_iref i := on_ic (inode_iref i);
  vfs_iput i := on_ic (iput i);
  vfs_lookup := iop_lookup
|}.

(** ** Mounting *)

Definition vfs_add_fstype (t : Z) : V unit :=
  if t =? NULL then ret tt else
  let! v := get in
  let! x := deref (v_types v !! t) in
  do! modify (upd_types (insert t (mk_vfs_fstype (fs_types v) (fst_name x)))) then
  modify (set_fs_types t).

Fixpoint fstype_find (fuel : nat) (r : Z) (name : list Z) : V Z :=
  match fuel with
  | O => nofuel
  | S fuel =>
    if r =? NULL then ret NULL else
    let! v := get in
    let! x := deref (v_types v !! r) in
    if bool_decide (name = fst_name x) then ret r else fstype_find fuel (fst_next x) name
  end.
Definition vfs_get_fstype (fuel : nat) (name : list Z) : V Z :=
  let! first := gets fs_types in fstype_find fuel first name.

Definition vfs_squeeze : V unit := on_ic (_squeeze_inode_cache vfs_fuel).

(** The group descriptors, from block [i + 2] on.  When one cannot be read the
    code frees the entry it could not read, once for each one before it. *)
Fixpoint read_groups (dev : Z) (n : nat) (i : Z) : M (@blk Q D) (option (list Z)) :=
  match n with
  | O => ret (Some [])
  | S n =>
    let! bh := blk_read dev (i + 2) in
    if bh =? NULL then
      do! when (0 <? i) (blk_free bh) then ret None
    else
      let! r := read_groups dev n (i + 1) in
      ret (match r with Some l => Some (bh :: l) | None => None end)
  end.

(** [ext2_get_super] up to the root inode: the information it keeps. *)
Definition ext2_fill_super (dev : Z) (bh : Z) : M (@blk Q D) (option ext2_sb_info) :=
  let! x := ld_buf bh in
  let! s := ld_data (b_buf x) in
  let fld n := deref (field_of ext2_super_block n s 0) in
  let! magic := fld "s_magic"%string in
  if negb (magic =? EXT2_SUPER_MAGIC) then ret None else
  let! log_block_size := fld "s_log_block_size"%string in
  if ctrue log_block_size then ret None else
  let! inode_size := fld "s_inode_size"%string in
  let! blocks_per_group := fld "s_blocks_per_group"%string in
  let! inodes_per_group := fld "s_inodes_per_group"%string in
  let! blocks_count := fld "s_blocks_count"%string in
  let! first_data_block := fld "s_first_data_block"%string in
  let! inodes_per_block := udiv EXT2_MIN_BLOCK_SIZE inode_size in
  let! itb_per_group := udiv inodes_per_group inodes_per_block in
  let desc_per_block := EXT2_MIN_BLOCK_SIZE / sizeof ext2_group_desc in
  let! groups_count := udiv (u32 (u32 (blocks_count - first_data_block) + u32 (blocks_per_group - 1))) blocks_per_group in
  let db_count := u32 (groups_count + desc_per_block - 1) / desc_per_block in
  let! area := kmalloc_area (u32 (db_count * 4)) in
  do! when (0 <? db_count) (if area =? NULL then fault else ret tt) then
  let! gds := read_groups dev (Z.to_nat db_count) 0 in
  match gds with
  | None => ret None
  | Some gds =>
    ret (Some (mk_ext2_sb_info inodes_per_block blocks_per_group inodes_per_group itb_per_group 0
                 desc_per_block groups_count bh (b_buf x) gds))
  end.

Definition ext2_get_super (sb : Z) : M ic Z :=
  let! s := ld_super sb in
  let dev := s_dev s in
  let! r := on_env (blk_set_blocksize dev EXT2_MIN_BLOCK_SIZE) in
  if ctrue r then ret (-1) else
  let! bh := on_env (blk_read dev 1) in
  if bh =? NULL then ret (-1) else
  let! info := on_env (ext2_fill_super dev bh) in
  match info with
  | None => do! on_env (blk_free bh) then ret (-1)
  | Some info =>
    do! st_super sb (λ s, mk_super (s_dev s) (s_inode_cache s) (s_sem s) EXT2_MIN_BLOCK_SIZE (s_root s) info) then
    let! root := iget vfs_fuel sb EXT2_ROOT_INO in
    do! st_super sb (λ s, mk_super (s_dev s) (s_inode_cache s) (s_sem s) (s_blocksize s) root (s_info s)) then
    if root =? NULL then do! on_env (blk_free bh) then ret (-1) else ret 0
  end.

(** The cache of [fs/mount.c]. *)
Definition supers_cache : Z := 7.
Definition no_info : ext2_sb_info := mk_ext2_sb_info 0 0 0 0 0 0 0 NULL NULL [].

Definition super_get (type blkdev : Z) : V Z :=
  let! sb := zoom v_objs set_v_objs (obj_alloc supers_cache) in
  if sb =? NULL then ret NULL else
  do! on_ic (modify (upd_supers (insert sb (mk_super blkdev NULL 1 0 NULL no_info)))) then
  let! r := on_ic (ext2_get_super sb) in
  if ctrue r then
    do! on_ic (modify (upd_supers (delete sb))) then
    do! zoom v_objs set_v_objs (obj_free supers_cache sb) then
    ret NULL
  else
  do! modify (λ v, set_superblocks (sb :: superblocks v) v) then
  ret sb.

Definition vfs_mount_root (fuel : nat) (type dev : list Z) : V Z :=
  let! fstype := vfs_get_fstype fuel type in
  if fstype =? NULL then ret (-1) else
  let! bd := on_ic (on_env (blkdev_get fuel dev)) in
  if bd =? NULL then ret (-1) else
  let! s := super_get fstype bd in
  if s =? NULL then ret (-1) else
  let! x := on_ic (ld_super s) in
  let! cwd := on_ic (inode_iref (s_root x)) in
  do! modify (set_t_dirs (s_root x) cwd) then
  ret 0.

(** ** Access to user space *)

(** [__strnlen_from_user]: [repnz scasb] over at most [max] bytes, -1 at an
    address that is not mapped. *)
Fixpoint strnlen_user (fuel : nat) (a k max : Z) : V Z :=
  match fuel with
  | O => nofuel
  | S fuel =>
    if k =? max then ret (max - 1) else
    let! v := get in
    match v_mem v !! (a + k) with
    | None => ret (-1)
    | Some c => if c =? 0 then ret k else strnlen_user fuel a (k + 1) max
    end
  end.
Definition strlen_from_user (fuel : nat) (d : Z) : V Z :=
  let max := uaddr_maxstr d in
  if max =? 0 then ret (-1) else strnlen_user fuel d 0 max.

(** [copy_from_user] to memory of the kernel's own. *)
Fixpoint copy_from_user (n : nat) (d s : Z) : V bool :=
  match n with
  | O => ret true
  | S n =>
    let! v := get in
    match v_mem v !! s with
    | None => ret false
    | Some b => do! modify (λ v, set_v_mem (<[d := b]> (v_mem v)) v) then copy_from_user n (d + 1) (s + 1)
    end
  end.

(** [kmalloc] and [kfree] of the copy of a path. *)
Definition path_alloc (sz : Z) : V Z :=
  if 4096 <? sz then ret NULL else zoom v_objs set_v_objs (obj_alloc (general_cache_of sz)).
Definition path_free (a : Z) : V unit := zoom v_objs set_v_objs (obj_free (general_cache_of 4096) a).

Definition strdup_from_user (fuel : nat) (uptr : Z) : V Z :=
  let! sz := strlen_from_user fuel uptr in
  if sz <=? 0 then ret NULL else
  let sz := sz + 1 in
  let! r := path_alloc sz in
  if r =? NULL then ret NULL else
  let! ok := copy_from_user (Z.to_nat sz) r uptr in
  let! v := get in
  if (ok : bool) && bool_decide (v_mem v !! (r + sz - 1) = Some 0) then ret r
  else do! path_free r then ret NULL.

(** ** System calls *)

Definition sys_open (fuel : nat) (fn mode : Z) : V Z :=
  let! kfn := strdup_from_user fuel fn in
  if kfn =? NULL then ret (-1) else
  let! v := get in
  let! inode := namei fuel (t_root v) (t_cwd v) kfn in
  if inode =? NULL then do! path_free kfn then ret (-1) else
  let! f := on_fdt (file_new inode mode) in
  let! fd := on_fdt (fdt_entry_add fuel (t_fds v) f) in
  do! path_free kfn then
  ret fd.

Definition kernel_open (fuel : nat) (fn mode : Z) : V Z :=
  let! v := get in
  let! inode := namei fuel (t_root v) (t_cwd v) fn in
  if inode =? NULL then ret NULL else on_fdt (file_new inode mode).

Definition sys_close (fuel : nat) (handle : Z) : V Z :=
  let! v := get in
  do! on_fdt (fdt_entry_del fuel (t_fds v) handle) then
  ret 0.

Definition kernel_close (file : Z) : V unit :=
  if file =? NULL then ret tt else on_fdt (file_release file).

Definition kernel_read (file buf size : Z) : V Z :=
  let! f := on_fdt (ld_file file) in
  let! x := on_ic (ld_inode (f_inode f)) in
  let size := if i_size x <? size then i_size x else size in
  let! r := iop_pread (f_inode f) buf size (f_offset f) in
  do! when (0 <? r) (on_fdt (modify (upd_files (insert file (set_f_offset (u32 (f_offset f + r)) f))))) then
  ret r.

Definition sys_read (fuel : nat) (handle buf size : Z) : V Z :=
  if negb (uaddr_ok buf size) then ret (-1) else
  let! v := get in
  let! fd := on_fdt (fdt_entry_retr fuel (t_fds v) handle) in
  if fd =? NULL then ret (-1) else
  kernel_read fd buf size.
End vfs.
