(* ===== verification/VfsProps.v ===== *)
(** * Files, names and inodes together *)
From S2P Require Import Prelude Kmem ListHead ObjAlloc Rbtree Inode Blk BlkProps Ext2 Ext2Props Fdt FdtProps Namei Vfs.

Section vfs.
Context {P Q D : Type} `{!ObjOps P, !CacheOps P, !ObjOps Q, !ObjSpec Q, !Driver D, !DriverSpec D}.
Implicit Types (v : @vfs P Q D).

Lemma on_ic_mem {A} (m : M _ A) v r v' : on_ic m v = Ret (r, v') → v_mem v' = v_mem v.
Proof. rewrite /on_ic /zoom. destruct (m (v_ic v)) as [[]| | | |]; try done. by intros [= <- <-]. Qed.

#[export] Instance vfs_laws : VfsLaws (T := @vfs P Q D).
Proof.
  split; [|intros i v r v' H; exact (on_ic_mem _ _ _ _ H)..].
  intros i n v r v' H. change (iop_lookup i n v = Ret (r, v')) in H. rewrite /iop_lookup /bind in H.
  destruct (on_ic (ld_inode i) v) as [[x v1]| | | |] eqn:E1; try done. apply on_ic_mem in E1.
  destruct (i_iop x); [done| |].
  - injection H as <- <-. done.
  - apply on_ic_mem in H. exact (eq_trans H E1).
Qed.

(** Reads of the parts of the state. *)
Lemma run_ld_file v a f : ft_files (v_fdt v) !! a = Some f → on_fdt (ld_file a) v = Ret (f, v).
Proof. intros H. rewrite /on_fdt /zoom /ld_file /bind /= H /=. by destruct v. Qed.
Lemma run_ld_inode v a x : ic_inodes (v_ic v) !! a = Some x → on_ic (ld_inode a) v = Ret (x, v).
Proof. intros H. rewrite /on_ic /zoom /ld_inode /bind /= H /=. by destruct v. Qed.
Lemma run_ld_super v a s : ic_supers (v_ic v) !! a = Some s → on_ic (ld_super a) v = Ret (s, v).
Proof. intros H. rewrite /on_ic /zoom /ld_super /bind /= H /=. by destruct v. Qed.

(** A read through an open file. *)
Lemma kernel_read_next v fl f x s dv k A buf size n :
  ft_files (v_fdt v) !! fl = Some f → ic_inodes (v_ic v) !! f_inode f = Some x → i_iop x = RegIop →
  ic_supers (v_ic v) !! i_sb x = Some s → ext2_dev (ic_env (v_ic v)) s dv k A → blocks_ok dv x →
  0 ≤ f_offset f ≤ i_size x → i_size x < 2 ^ 31 → 0 ≤ size →
  n = Z.min size (i_size x - f_offset f) → f_offset f + n < EXT2_NDIR_BLOCKS * 2 ^ k →
  owned (v_mem v) buf (Z.to_nat n) → 0 ≤ buf → buf + n < 2 ^ 32 →
  ∃ c v', kernel_read fl buf size v = Ret (c, v') ∧ 0 ≤ c ≤ n ∧
    ft_files (v_fdt v') = <[fl := set_f_offset (f_offset f + c) f]> (ft_files (v_fdt v)) ∧
    blk_kept (ic_env (v_ic v)) A (ic_env (v_ic v')) ∧ ic_inodes (v_ic v') = ic_inodes (v_ic v) ∧
    (∀ a, v_mem v' !! a = if decide (buf ≤ a < buf + c)
       then file_byte (ic_env (v_ic v)) s dv x (f_offset f + (a - buf)) else v_mem v !! a) ∧
    (can_read (ic_env (v_ic v)) dv → c < n → file_byte (ic_env (v_ic v)) s dv x (f_offset f + c) = None).
Proof.
  intros Hf Hx Hiop Hs Hed Hb Ho Hsz Hsize Hn H12 Hown Hb0 Hbl.
  set (size' := if i_size x <? size then i_size x else size).
  assert (0 ≤ size' ≤ i_size x ∧ n = Z.min size' (i_size x - f_offset f)) as [Hs' Hn'].
  { unfold size'. destruct (Z.ltb_spec (i_size x) size); lia. }
  destruct (wp_elim _ _ _ (wp_ext2_pread s dv x k A (mk_penv (ic_env (v_ic v)) (v_mem v)) buf size' (f_offset f) n
    Hed Hb Ho ltac:(lia) ltac:(lia) ltac:(lia) Hn' ltac:(pose proof Hed as []; apply Z.div_lt_upper_bound; lia) Hown Hb0 Hbl))
    as (c & p' & E & Hc & [Hk Hm] & Hfail).
  set (v1 := set_v_mem (pe_mem p') (set_v_ic (set_ic_env (pe_blk p') (v_ic v)) v)).
  assert (kernel_read fl buf size v = (do! when (0 <? c) (on_fdt (modify (upd_files (insert fl (set_f_offset (u32 (f_offset f + c)) f))))) then ret c) v1) as ->.
  { rewrite /kernel_read {1}/bind (run_ld_file _ _ _ Hf) {1}/bind (run_ld_inode _ _ _ Hx). fold size'.
    rewrite /iop_pread {1 2}/bind (run_ld_inode _ _ _ Hx) Hiop {1}/bind (run_ld_super _ _ _ Hs).
    rewrite /on_penv /zoom E. done. }
  rewrite (u32_id (f_offset f + c)); [lia|]. destruct (Z.ltb_spec 0 c) as [Hc0|Hc0].
  - eexists c, _. split; [reflexivity|]. simpl. split_and!; try done; lia.
  - assert (c = 0) as -> by lia. exists 0, v1. split; [reflexivity|].
    split_and!; try done; [lia|]. simpl. rewrite Z.add_0_r insert_id //. rewrite Hf. by destruct f.
Qed.

Lemma uaddr_ok_spec buf size : uaddr_ok buf size = bool_decide (buf < USER_TOP ∧ buf + size ≤ USER_TOP).
Proof.
  rewrite /uaddr_ok. destruct (Z.leb_spec USER_TOP buf); [by rewrite bool_decide_eq_false_2; [lia|]|].
  destruct (Z.ltb_spec (USER_TOP - buf) size); cbn [negb]; [rewrite bool_decide_eq_false_2|rewrite bool_decide_eq_true_2]; done || lia.
Qed.


Lemma components_one cur n : 47 ∉ n → cur ++ n ≠ [] → components_from cur n = [cur ++ n].
Proof.
  revert cur. induction n as [|c n IH]; intros cur Hn Hne; cbn [components_from].
  { rewrite app_nil_r in Hne |- *. by rewrite bool_decide_eq_false_2. }
  apply not_elem_of_cons in Hn as [Hc Hn]. rewrite (proj2 (Z.eqb_neq c 47)); [congruence|].
  rewrite IH //; rewrite -app_assoc //.
Qed.

(** A name that is not in the root directory is answered with NULL, but
    the reference taken of the directory is never given back: its count is
    one higher after every such call. *)
Theorem namei_missing_leaks v x s dv k A name n ess fuel :
  ic_inodes (v_ic v) !! t_root v = Some x → i_iop x = DirIop → 0 ≤ i_count x → i_count x + 1 < 2 ^ 32 →
  ic_supers (v_ic v) !! i_sb x = Some s → ext2_dev (ic_env (v_ic v)) s dv k A → 0 ≤ i_blocks x →
  Forall2 (block_entries (ic_env (v_ic v)) s dv) (take (Z.to_nat (Z.min EXT2_NDIR_BLOCKS (i_blocks x))) (i_block x)) ess →
  cstr (v_mem v) name (47 :: n) → name ≠ NULL → 47 ∉ n → n ≠ [] → dir_find n (mjoin ess) = None → (length n + 1 < fuel)%nat →
  ∃ v', namei fuel (t_root v) (t_cwd v) name v = Ret (NULL, v') ∧
    ic_inodes (v_ic v') = <[t_root v := set_i_count (i_count x + 1) x]> (ic_inodes (v_ic v)).
Proof.
  intros Hx Hiop Hc0 Hc Hs Hed Hb HF Hstr Hname Hsl Hne Hfind Hfuel.
  rewrite (namei_absolute (t_root v) (t_cwd v) name n); [exact Hstr|done|lia|].
  change (components n) with (components_from [] n). rewrite components_one //. cbn [walk app].
  set (c1 := upd_inodes (insert (t_root v) (set_i_count (i_count x + 1) x)) (v_ic v)).
  assert (vfs_iref (t_root v) v = Ret (t_root v, set_v_ic c1 v)) as Hi.
  { change (on_ic (inode_iref (t_root v)) v = Ret (t_root v, set_v_ic c1 v)).
    rewrite /on_ic /zoom /inode_iref /st_inode /ld_inode /bind /= Hx /=. rewrite u32_id; [lia|]. done. }
  rewrite {1}/bind Hi. cbv beta.
  destruct (ext2_lookup_search c1 (t_root v) (set_i_count (i_count x + 1) x) s dv k A n ess vfs_fuel) as (b' & _ & Hl).
  { simpl. by rewrite lookup_insert_eq. }
  { done. } { done. } { done. } { done. }
  assert (ext2_lookup vfs_fuel (t_root v) n c1 = Ret (NULL, set_ic_env b' c1)) as Hr by (rewrite Hfind in Hl; by destruct Hl as [|[]]).
  exists (set_v_ic (set_ic_env b' c1) v). split; [|done].
  rewrite /bind. change (vfs_lookup (t_root v) n) with (iop_lookup (P := P) (Q := Q) (D := D) (t_root v) n).
  rewrite /iop_lookup /bind (run_ld_inode _ (t_root v) (set_i_count (i_count x + 1) x)); [simpl; by rewrite lookup_insert_eq|].
  cbn [i_iop set_i_count]. rewrite Hiop /on_ic /zoom. change (v_ic (set_v_ic c1 v)) with c1. rewrite Hr. done.
Qed.
End vfs.

(** ** A mounted file system and an open file *)

#[local] Instance demo_caches : CacheOps opool := λ _, obj_alloc 0.

(** The path [/b] at 0x7000; the file at 0x700 is open at offset 250. *)
Definition demo_path : list Z := [47; 98].
Definition demo_vmem : mem := store 0x7000 (demo_path ++ [0]) (fill 0x8000 0 300 ∅).
Definition demo_vic : @icache opool ext2_sb_info (@blk opool ramdisk) :=
  mk_icache ∅ {[ 0x500 := ext2_dir; 0x540 := ext2_file ]} {[ 0x900 := ext2_sb ]} [] 1 [0x600] ext2_blk.
Definition demo_vfdt : @fdts opool :=
  mk_fdts {[ 0x100 := mk_list_head 0x200 0x200; 0x200 := mk_list_head 0x100 0x100 ]} {[ 0x200 := mk_fdt_entry 3 0x700 1 ]}
    {[ 0x100 := mk_fd_table 0x180 ]} {[ 0x700 := mk_file 0x540 1 250 1 ]} [].
Definition demo_vfs : @vfs opool opool ramdisk :=
  mk_vfs demo_vic demo_vfdt demo_vmem [] NULL ∅ [0x900] 0x500 0x500 0x100.

Lemma demo_path_ok : cstr demo_vmem 0x7000 demo_path.
Proof.
  split; [|apply Forall_forall; intros b Hb; apply list_elem_of_In in Hb; simpl in Hb; lia].
  assert (∀ i, (i < 3)%nat → demo_vmem !! (0x7000 + Z.of_nat i) = [47; 98; 0] !! i) as H.
  { intros i Hi. rewrite /demo_vmem lookup_store decide_True; [simpl; lia|]. f_equal. lia. }
  split; [exact (H 0%nat ltac:(lia))|]. split; [exact (H 1%nat ltac:(lia))|]. split; [exact (H 2%nat ltac:(lia))|done].
Qed.

Lemma namei_walk_witness : namei 8 0x500 0x500 0x7000 demo_vfs = (let! i := vfs_iref 0x500 in walk i [[98]]) demo_vfs.
Proof.
  rewrite (namei_walk 0x500 0x500 0x7000 demo_path 8).
  - exact demo_path_ok.
  - done.
  - simpl. lia.
  - reflexivity.
Defined.

Lemma demo_vfdt_ok : fd_ok demo_vfdt 0x100 (mk_fd_table 0x180) [0x200] {[ 0x100; 0x200 ]}.
Proof.
  split.
  - reflexivity.
  - split; [decide_closed|vm_compute; tauto].
  - intros a Ha%list_elem_of_singleton. subst a. by eexists.
  - reflexivity.
  - split_and!; [decide_closed|by intros v Hv%not_elem_of_nil|].
    intros v Hv. rewrite !elem_of_union !elem_of_singleton in Hv. destruct_or! Hv; subst v; by vm_compute.
  - intros a Ha. repeat (apply elem_of_cons in Ha as [->|Ha]; [split; [decide_closed|done]|]). by apply not_elem_of_nil in Ha.
  - simpl. lia.
Qed.


Lemma namei_missing_witness : ∃ v', namei 8 0x500 0x500 0x7000 demo_vfs = Ret (NULL, v') ∧
  ic_inodes (v_ic v') = <[0x500 := set_i_count 2 ext2_dir]> (ic_inodes (v_ic demo_vfs)).
Proof.
  apply (namei_missing_leaks demo_vfs ext2_dir ext2_sb ext2_bdev 8 ext2_live 0x7000 [98] dir_entries 8).
  - reflexivity.
  - reflexivity.
  - simpl. lia.
  - simpl. lia.
  - reflexivity.
  - exact ext2_blk_ok.
  - simpl. lia.
  - exact dir_entries_ok.
  - exact demo_path_ok.
  - done.
  - decide_closed.
  - done.
  - reflexivity.
  - simpl. lia.
Defined.
