(* ===== verification/Pagecache.v ===== *)
(** * The page cache ([kernel/pagecache.c], [struct pagecache_hdr] of
      [include/scaraOS/mm.h])

    The cached pages of an inode are the nodes of a red-black tree ordered by
    the offset in the file; the node is the first member of [struct page], so
    a page frame and its node have the same address in the page frame array. *)
From S2P Require Import Prelude Kmem PageAlloc Buddy Rbtree KeyTree Vma.

(** The page frame array and the size of its elements. *)
Definition pfa_base : Z := 0xc0400000.
Definition sizeof_page : Z := 28.
(** [virt_to_page], as an address. *)
Definition page_of (va : Z) : Z := pfa_base + sizeof_page * virt_to_page va.

(** The fields of a frame that is in the cache. *)
Record cpage := mk_cpage { pc_count : Z; pc_type : Z; pc_off : Z }.
Definition set_pc_count (v : Z) (p : cpage) : cpage := mk_cpage v (pc_type p) (pc_off p).

Section pagecache.
Context {P E : Type} `{!PageOps P}.
(** [in->i_iop->pread]: the buffer, the length, the offset. *)
Context (pread : Z → Z → Z → M (E * mem) Z).

(** [pc_root] and [pc_sem] are [i_pagecache] and [i_sem] of the inode. *)
Record pcache := mk_pcache {
  pc_nodes : gmap Z rb_node;
  pc_root : Z;
  pc_sem : Z;
  pc_pages : gmap Z cpage;
  pc_alloc : P;
  pc_env : E * mem
}.

Definition set_pc_tree (s : rb_store) (c : pcache) : pcache :=
  mk_pcache (rb_nodes s) (rb_root s) (pc_sem c) (pc_pages c) (pc_alloc c) (pc_env c).
Definition pc_store (c : pcache) : rb_store := mk_rb_store (pc_nodes c) (pc_root c).
Definition set_pc_sem (v : Z) (c : pcache) : pcache :=
  mk_pcache (pc_nodes c) (pc_root c) v (pc_pages c) (pc_alloc c) (pc_env c).
Definition upd_pages (f : gmap Z cpage → gmap Z cpage) (c : pcache) : pcache :=
  mk_pcache (pc_nodes c) (pc_root c) (pc_sem c) (f (pc_pages c)) (pc_alloc c) (pc_env c).
Definition set_pc_alloc (v : P) (c : pcache) : pcache :=
  mk_pcache (pc_nodes c) (pc_root c) (pc_sem c) (pc_pages c) v (pc_env c).
Definition set_pc_env (v : E * mem) (c : pcache) : pcache :=
  mk_pcache (pc_nodes c) (pc_root c) (pc_sem c) (pc_pages c) (pc_alloc c) v.

Abbreviation PC := (M pcache).

Definition ld_cpage (a : Z) : PC cpage := let! c := get in deref (pc_pages c !! a).
Definition ld_off (a : Z) : PC Z := let! p := ld_cpage a in ret (pc_off p).
Definition ld_pc_node (a : Z) : PC rb_node := let! c := get in deref (pc_nodes c !! a).
Definition pc_V : PC unit := zoom pc_sem set_pc_sem sem_up.

(** From [alloc_page] on. *)
Definition readpage_new (fuel : nat) (off : Z) (p : rb_link) (parent : Z) : PC Z :=
  let! ptr := zoom pc_alloc set_pc_alloc alloc_page in
  if ptr =? NULL then ret NULL else
  let! n := zoom pc_env set_pc_env (pread ptr PAGE_SIZE off) in
  if n <=? 0 then do! zoom pc_alloc set_pc_alloc (free_page ptr) then ret NULL else
  do! zoom (λ c, snd (pc_env c)) (λ m c, set_pc_env (fst (pc_env c), m) c)
        (memset (ptr + n) 0 (Z.to_nat (u32 (PAGE_SIZE - n)))) then
  let new := page_of ptr in
  do! modify (upd_pages (insert new (mk_cpage 1 PG_pagecache off))) then
  do! zoom pc_store set_pc_tree (do! rb_link_node new parent p then rb_insert_color fuel new) then
  ret new.

Definition pagecache_file_readpage (fuel : nat) (off : Z) : PC Z :=
  do! bug_on (ctrue (Z.land off PAGE_MASK)) then
  do! zoom pc_sem set_pc_sem down then
  let! root := gets pc_root in
  let! r := key_search ld_off ld_pc_node fuel LinkRoot root NULL off in
  match r with
  | Found pg =>
    let! x := ld_cpage pg in
    do! bug_on (negb (pc_type x =? PG_pagecache)) then
    do! modify (upd_pages (insert pg (set_pc_count (u32 (pc_count x + 1)) x))) then
    do! pc_V then
    ret pg
  | Hole p parent =>
    let! new := readpage_new fuel off p parent in
    do! pc_V then
    ret new
  end.
End pagecache.
