(* ===== verification/PagecacheProps.v ===== *)
(** * The page cache: one page for each offset of a file *)
From S2P Require Import Prelude Kmem PageAlloc Buddy Rbtree RbtreeRep RbtreeInsert RbtreeErase RbtreeWalk KeyTree Vma Pagecache.

(** Frames and their addresses. *)
Lemma page_of_eq va : page_ok va → page_of va = pfa_base + 28 * ((va - PAGE_OFFSET) / 4096) ∧
  0 ≤ (va - PAGE_OFFSET) / 4096 < 2 ^ 18 ∧ va = PAGE_OFFSET + 4096 * ((va - PAGE_OFFSET) / 4096).
Proof.
  rewrite /page_ok /PAGE_OFFSET /PAGE_SIZE. intros [Hr Hm].
  assert (va - 0xc0000000 = 4096 * ((va - 0xc0000000) / 4096)) as Hd.
  { apply Z.div_exact; [done|]. rewrite Zminus_mod Hm. reflexivity. }
  split; [|split; [split; [apply Z.div_pos; lia|apply Z.div_lt_upper_bound; lia]|lia]].
  rewrite /page_of /sizeof_page /virt_to_page /__pa /PAGE_OFFSET /PAGE_SHIFT. rewrite u32_id; [lia|].
  by rewrite Z.shiftr_div_pow2.
Qed.

Lemma page_of_inj va vb : page_ok va → page_ok vb → page_of va = page_of vb → va = vb.
Proof. intros (Ea & _ & Ha)%page_of_eq (Eb & _ & Hb)%page_of_eq E. rewrite Ha Hb. lia. Qed.

Lemma page_of_good va : page_ok va → good_ptr (page_of va).
Proof.
  intros (-> & Hr & _)%page_of_eq. rewrite /pfa_base. set (i := _ / _) in *. clearbody i.
  split; [split|unfold NULL; lia]; [lia|].
  replace (0xc0400000 + 28 * i) with ((806354944 + 7 * i) * 4) by lia. apply Z.mod_mul. lia.
Qed.

Section pagecache.
Context {P E : Type} `{!PageOps P, !PageSpec P}.
Context (pread : Z → Z → Z → M (E * mem) Z).
Implicit Types (c : @pcache P E) (t : tree).

Definition off_of c (a : Z) : Z := from_option pc_off 0 (pc_pages c !! a).

Record pc_ok c t (A : gset Z) : Prop := {
  po_rep : rep (pc_store c) (pc_store c) t;
  po_rb : rbtree t;
  po_page a : a ∈ inorder t → ∃ x, pc_pages c !! a = Some x ∧ pc_type x = PG_pagecache ∧ 1 ≤ pc_count x < 2 ^ 32 - 1;
  po_sorted : ksorted (off_of c) (inorder t);
  po_own : pages_own (pc_alloc c) A;
  po_pages v : v ∈ A → page_ok v;
  po_frames a : a ∈ inorder t → ∃ v, v ∈ A ∧ a = page_of v
}.

Lemma pc_ok_same c c' t A :
  pc_ok c t A → pc_nodes c' = pc_nodes c → pc_root c' = pc_root c → pc_pages c' = pc_pages c →
  pages_own (pc_alloc c') A → pc_ok c' t A.
Proof.
  intros [] En Er Ep Ho. split; try done.
  - rewrite /pc_store En Er. exact po_rep0.
  - rewrite Ep. exact po_page0.
  - eapply ksorted_ext; [|exact po_sorted0]. intros a _. by rewrite /off_of Ep.
Qed.

(** What a call leaves behind. *)
Definition readpage_post c t (A : gset Z) (off r : Z) c' : Prop :=
  pc_sem c' = 1 ∧
  ((∃ x, r ∈ inorder t ∧ pc_pages c !! r = Some x ∧ pc_off x = off ∧
      pc_pages c' = <[r := set_pc_count (pc_count x + 1) x]> (pc_pages c) ∧ pc_env c' = pc_env c ∧
      rep (pc_store c') (pc_store c') t) ∨
   ((∀ a, a ∈ inorder t → off_of c a ≠ off) ∧
    ((r = NULL ∧ pc_pages c' = pc_pages c ∧ pc_ok c' t A) ∨
     (∃ ptr n e t' pre post, ptr ∉ A ∧ r = page_of ptr ∧ pread ptr PAGE_SIZE off (pc_env c) = Ret (n, e) ∧ 0 < n ≤ PAGE_SIZE ∧
        pc_env c' = (fst e, Kmem.fill (ptr + n) 0 (Z.to_nat (PAGE_SIZE - n)) (snd e)) ∧
        pc_pages c' = <[r := mk_cpage 1 PG_pagecache off]> (pc_pages c) ∧
        inorder t = pre ++ post ∧ inorder t' = pre ++ r :: post ∧ pc_ok c' t' ({[ ptr ]} ∪ A))))).

(** [pread] returns at most a page, and leaves the page mapped. *)
Definition preads c off : Prop := ∀ v p', alloc_page (pc_alloc c) = Ret (v, p') → v ≠ NULL →
  wp (pread v PAGE_SIZE off) (λ n e', n ≤ PAGE_SIZE ∧ owned (snd e') v 4096) (pc_env c).

(** A new page enters the tree. *)
Lemma wp_page_link c t A k ptr off fuel c1 :
  pc_ok c t A → (height t < fuel)%nat → plug k Leaf = t → page_ok ptr → ptr ∉ A →
  (∀ a, a ∈ before true k → off_of c a < off) → (∀ a, a ∈ after true k → off < off_of c a) →
  pc_nodes c1 = pc_nodes c → pc_root c1 = pc_root c →
  pc_pages c1 = <[page_of ptr := mk_cpage 1 PG_pagecache off]> (pc_pages c) → pages_own (pc_alloc c1) ({[ ptr ]} ∪ A) →
  wp (zoom pc_store set_pc_tree (do! rb_link_node (page_of ptr) (up k) (link_of k) then rb_insert_color fuel (page_of ptr)))
    (λ _ c', ∃ t' pre post, inorder t = pre ++ post ∧ inorder t' = pre ++ page_of ptr :: post ∧
      pc_sem c' = pc_sem c1 ∧ pc_pages c' = pc_pages c1 ∧ pc_env c' = pc_env c1 ∧ pc_ok c' t' ({[ ptr ]} ∪ A)) c1.
Proof.
  intros [] Hf Ht Hpk Hv Hb Ha En Er Ep Hown. set (v := page_of ptr) in *.
  assert (v ∉ inorder t) as Hvt.
  { intros Hin. destruct (po_frames0 v Hin) as (u & Hu & E'). apply page_of_inj in E'; [by subst|done|by apply po_pages0]. }
  apply wp_zoom. assert (pc_store c1 = pc_store c) as -> by (by rewrite /pc_store En Er).
  eapply wp_mono.
  { eapply (wp_link_insert (pc_store c)); [by rewrite Ht|by rewrite Ht|rewrite Ht; by apply cnt_inorder|by apply page_of_good|by rewrite Ht]. }
  intros [] st (t' & Hr & Hio & Hrb).
  pose proof (dir_plug true k Leaf : inorder _ = _) as H0. simpl in H0.
  pose proof (dir_plug true k (Node false Leaf v Leaf) : inorder _ = _) as H1. simpl in H1.
  rewrite Ht in H0. rewrite H1 in Hio. exists t', (before true k), (after true k).
  split_and!; [done|done|done|done|done|].
  assert (∀ a, a ∈ inorder t → off_of (set_pc_tree st c1) a = off_of c a) as Hk.
  { intros a Ha'. rewrite /off_of /= Ep lookup_insert_ne //. intros ->. done. }
  split; simpl; try done.
  - assert (pc_store (set_pc_tree st c1) = st) as -> by (by destruct st). destruct Hr. by split.
  - intros a. rewrite Hio Ep elem_of_mid -H0. intros [->|Ha'].
    + rewrite lookup_insert_eq. eexists. split; [done|]. simpl. split; [done|lia].
    + rewrite lookup_insert_ne; [congruence|]. by apply po_page0.
  - rewrite Hio. apply ksorted_mid. split_and!.
    + rewrite -H0. eapply ksorted_ext; [exact Hk|exact po_sorted0].
    + intros b Hb'. rewrite (Hk b); [rewrite H0 elem_of_app; by left|]. rewrite {2}/off_of /= Ep lookup_insert_eq /=. by apply Hb.
    + intros b Hb'. rewrite (Hk b); [rewrite H0 elem_of_app; by right|]. rewrite {1}/off_of /= Ep lookup_insert_eq /=. by apply Ha.
  - intros u [->%elem_of_singleton|Hu]%elem_of_union; [done|by apply po_pages0].
  - intros a. rewrite Hio elem_of_mid -H0. intros [->|Ha'].
    + exists ptr. split; [apply elem_of_union_l; by apply elem_of_singleton_2|done].
    + destruct (po_frames0 a Ha') as (u & Hu & ->). exists u. split; [by apply elem_of_union_r|done].
Qed.

(** C25: [pagecache_file_readpage] of an aligned offset returns, with the
    inode's semaphore released: the page that is in the cache for this offset,
    with one reference more and nothing read; or a new page filled by [pread] and, after the
    bytes read, with zeros to its end, inserted at its place in the tree; or NULL with the cache as it
    was, when there is no memory or nothing was read. *)
Theorem readpage_correct c t A off fuel :
  pc_ok c t A → pc_sem c = 1 → off mod PAGE_SIZE = 0 → 0 ≤ off → (height t < fuel)%nat → preads c off →
  ∃ r c', pagecache_file_readpage pread fuel off c = Ret (r, c') ∧ readpage_post c t A off r c'.
Proof.
  intros Hok Hsem Hoff Hoff0 Hf Hrd. apply wp_elim. pose proof Hok as []. rewrite /pagecache_file_readpage.
  apply wp_bind, wp_bug_on.
  { change PAGE_MASK with (Z.ones 12). rewrite Z.land_ones //. change (2 ^ 12) with PAGE_SIZE. by rewrite Hoff. }
  apply wp_bind, wp_zoom. rewrite Hsem. apply wp_down; [lia|]. apply wp_bind, wp_gets.
  pose proof (rep_root _ _ _ po_rep0) as Hroot. simpl in Hroot.
  set (c1 := set_pc_sem _ c). change (pc_root c1) with (pc_root c). rewrite Hroot. apply wp_bind. eapply wp_mono.
  { apply (wp_key_search _ _ (pc_store c) (pc_store c) c1 (off_of c) off fuel [] t); [exact po_rep0| | |done|done|set_solver|set_solver].
    - intros a n Hn. rewrite /ld_pc_node /bind /=. simpl in Hn. by rewrite Hn.
    - intros a Ha. destruct (po_page0 a Ha) as (x & Hx & _). rewrite /ld_off /ld_cpage /bind /= Hx /=. by rewrite /off_of Hx. }
  intros r c' [-> [(a & -> & Ha & Hk)|(k & -> & Ht & Hb & Haf)]].
  - destruct (po_page0 a Ha) as (x & Hx & Hty & Hcx). rewrite /off_of Hx /= in Hk.
    apply wp_bind. apply (wp_mono _ (λ y c', y = x ∧ c' = c1)); [rewrite /wp /ld_cpage /bind /= Hx; done|]. intros y c' [-> ->].
    apply wp_bind, wp_bug_on; [by rewrite Hty|]. apply wp_bind, wp_modify. apply wp_bind, wp_zoom. apply wp_ret.
    split; [done|]. left. exists x. simpl. rewrite u32_id; [lia|]. done.
  - change (plug [] t) with t in Ht.
    assert (∀ a, a ∈ inorder t → off_of c a ≠ off) as Hno.
    { intros a Ha. rewrite -Ht (dir_plug true k Leaf : inorder _ = _) /= in Ha.
      apply elem_of_app in Ha as [Ha|Ha]; [specialize (Hb a Ha)|specialize (Haf a Ha)]; lia. }
    apply wp_bind. apply (wp_mono _ (λ r c', pc_sem c' = 0 ∧ readpage_post c t A off r (set_pc_sem 1 c'))).
    2:{ intros r c' [Hs Hp]. apply wp_bind, wp_zoom. rewrite Hs. apply wp_ret. exact Hp. }
    rewrite /readpage_new. apply wp_bind, wp_zoom. change (pc_alloc c1) with (pc_alloc c).
    destruct (wp_elim _ _ _ (pages_alloc _ _ po_own0)) as (v & p' & Ev & Hpost). rewrite {1}/wp Ev.
    destruct Hpost as [[-> Ho']|(Hpg & HvA & Ho')].
    { apply wp_ret. split; [done|]. split; [done|]. right. split; [done|]. left. split_and!; [done|done|].
      by eapply pc_ok_same; [exact Hok|..]. }
    assert (v ≠ NULL) as Hv0 by (destruct Hpg as [Hr _]; rewrite /PAGE_OFFSET in Hr; unfold NULL; lia).
    rewrite (proj2 (Z.eqb_neq v NULL) Hv0). apply wp_bind, wp_zoom.
    destruct (wp_elim _ _ _ (Hrd v p' Ev Hv0)) as (n & e & En & Hn & Hown). change (pc_env (set_pc_alloc p' c1)) with (pc_env c).
    rewrite {1}/wp En. destruct (Z.leb_spec n 0) as [Hn0|Hn0].
    { apply wp_bind, wp_zoom. eapply wp_mono; [apply (pages_free _ _ v Ho'); [set_solver|done]|].
      intros [] p2 Ho2. apply wp_ret. split; [done|]. split; [done|]. right. split; [done|]. left. split_and!; [done|done|].
      assert (({[ v ]} ∪ A) ∖ {[ v ]} = A) as EA by set_solver. rewrite EA in Ho2. by eapply pc_ok_same; [exact Hok|..]. }
    rewrite /PAGE_SIZE in Hn. rewrite (u32_id (PAGE_SIZE - n)); [rewrite /PAGE_SIZE; lia|].
    apply wp_bind, wp_zoom. apply wp_memset; [eapply owned_sub; [exact Hown|rewrite /PAGE_SIZE; lia..]|].
    apply wp_bind, wp_modify. apply wp_bind. eapply wp_mono.
    { by apply (wp_page_link c t A k v off fuel). }
    intros [] c2 (t' & pre & post & Hp1 & Hp2 & Hs & Hp & He & Hok'). apply wp_ret. split; [done|]. split; [done|]. right.
    split; [done|]. right. exists v, n, e, t', pre, post. split_and!; [done|done|done|done|rewrite /PAGE_SIZE; lia|exact He|exact Hp|done|done|].
    eapply pc_ok_same; [exact Hok'|done|done|done|]. apply Hok'.
Qed.
End pagecache.

(** ** A file of 8000 bytes, nothing cached *)

Definition demo_pread (ptr len off : Z) : M (unit * mem) Z := ret (Z.max 0 (Z.min len (8000 - off))).
Definition demo_pcache : @pcache pool unit :=
  mk_pcache ∅ NULL 1 ∅ [0xc0500000; 0xc0501000] (tt, Kmem.fill 0xc0500000 0 (Z.to_nat 8192) ∅).

Lemma demo_pc_ok : pc_ok demo_pcache Leaf ∅.
Proof.
  split.
  - apply repb_rep. vm_compute. reflexivity.
  - split; [done|]. exists 0%nat. constructor.
  - intros a Ha. by apply not_elem_of_nil in Ha.
  - constructor.
  - split_and!; [decide_closed| |set_solver]. intros v Hv. split; [|set_solver].
    assert (Forall page_ok (pc_alloc demo_pcache)) as HF by (repeat (apply Forall_cons; split; [by vm_compute|]); by apply Forall_nil).
    exact (proj1 (Forall_forall _ _) HF v Hv).
  - set_solver.
  - intros a Ha. by apply not_elem_of_nil in Ha.
Qed.

Lemma readpage_witness : ∃ r c', pagecache_file_readpage demo_pread 4 4096 demo_pcache = Ret (r, c') ∧
  readpage_post demo_pread demo_pcache Leaf ∅ 4096 r c'.
Proof.
  apply readpage_correct.
  - exact demo_pc_ok.
  - reflexivity.
  - reflexivity.
  - lia.
  - simpl. lia.
  - intros v p' Ev _. injection Ev as <- <-. split; [done|]. simpl.
    apply fill_owned; [lia|]. apply Z.leb_le. reflexivity.
Defined.
