(* ===== verification/Paging.v ===== *)
(** * Page tables ([arch-ia32/mm.c], [include/arch-ia32/mm.h])

    A page directory or page table is a page of 1024 words, designated by its
    linear address; a context is the physical address of its directory.  The
    second part is the set-up of memory at boot: the map of the boot loader,
    the boot allocator and the kernel's own page tables. *)
From S2P Require Import Prelude PageAlloc Kmem Buddy.

Definition NR_PDE : Z := 1024.
Definition NR_PTE : Z := 1024.
Definition PDE_SHIFT : Z := 10 + PAGE_SHIFT.

Definition __dir (x : Z) : Z := Z.land x 0xFFC00000.
Definition __tbl (x : Z) : Z := Z.land x 0x003FF000.
Definition __ofs (x : Z) : Z := Z.land x 0x00000FFF.
Definition dir (x : Z) : Z := Z.shiftr (__dir x) 22.
Definition tbl (x : Z) : Z := Z.shiftr (__tbl x) 12.
Definition __pg_val (x : Z) : Z := Z.land x 0xFFFFF000.

Definition PDE_PRESENT : Z := Z.shiftl 1 0.
Definition PDE_RW : Z := Z.shiftl 1 1.
Definition PDE_USER : Z := Z.shiftl 1 2.
Definition PTE_PRESENT : Z := Z.shiftl 1 0.
Definition PTE_RW : Z := Z.shiftl 1 1.
Definition PTE_USER : Z := Z.shiftl 1 2.

(** [page_phys] *)
Definition page_phys (pfn : Z) : Z := u32 (Z.shiftl pfn PAGE_SHIFT).

(** A table that [memset] has cleared. *)
Definition zero_table : list Z := replicate (Z.to_nat NR_PTE) 0.

Section paging.
Context {P : Type} `{!PageOps P}.
(** [__init_pgd], the directory of the kernel. *)
Context (init_pgd : Z).

Record paging := mk_paging {
  pg_tables : gmap Z (list Z);
  pg_pages : P;
  cr3 : Z
}.
Definition upd_tables (f : gmap Z (list Z) → gmap Z (list Z)) (g : paging) : paging :=
  mk_paging (f (pg_tables g)) (pg_pages g) (cr3 g).
Definition set_pg_pages (v : P) (g : paging) : paging := mk_paging (pg_tables g) v (cr3 g).
Definition set_cr3 (v : Z) (g : paging) : paging := mk_paging (pg_tables g) (pg_pages g) v.

Abbreviation G := (M paging).

Definition ld_table (a : Z) : G (list Z) := let! g := get in deref (pg_tables g !! a).
(** [t[i]] and [t[i] = v]. *)
Definition ld_word (a i : Z) : G Z := let! l := ld_table a in deref (l !! Z.to_nat i).
Definition st_word (a i v : Z) : G unit :=
  let! l := ld_table a in
  let! _ := deref (l !! Z.to_nat i) in
  modify (upd_tables (insert a (<[Z.to_nat i := v]> l))).

(** [__flush_tlb] reloads [cr3]: the model has no cached translations. *)
Definition __flush_tlb : G unit := modify (λ g, set_cr3 (cr3 g) g).

Definition setup_kthread_ctx : G Z := ret (__pa init_pgd).

(** [for (i = 0; i < NR_PDE; i++) pgd[i] = old[i];] into a new page. *)
Definition copy_pgd (old : Z) : G (option Z) :=
  let! pgd := zoom pg_pages set_pg_pages alloc_page in
  if pgd =? NULL then ret None else
  let! l := ld_table old in
  let! l := deref (mapM (λ i, l !! Z.to_nat i) (seqZ 0 NR_PDE)) in
  do! modify (upd_tables (insert pgd l)) then
  ret (Some (__pa pgd)).

Definition setup_new_ctx : G (option Z) := copy_pgd init_pgd.
Definition clone_ctx (old : Z) : G (option Z) := copy_pgd (__va old).

Definition destroy_ctx (pgd : Z) : G unit :=
  do! modify (upd_tables (delete (__va pgd))) then
  zoom pg_pages set_pg_pages (free_page (__va pgd)).

Definition use_ctx (pgd : Z) : G unit := modify (set_cr3 pgd).

Definition map_page_to_ctx (ctx page addr prot : Z) : G Z :=
  do! bug_on (PAGE_OFFSET <=? addr) then
  let pd := __va ctx in
  let! pde := ld_word pd (dir addr) in
  let! pt := (if negb (ctrue (Z.land pde PDE_PRESENT)) then
      let! pt := zoom pg_pages set_pg_pages alloc_page in
      if pt =? NULL then ret NULL else
      do! modify (upd_tables (insert pt zero_table)) then
      do! st_word pd (dir addr) (Z.lor (Z.lor (Z.lor (__pa pt) PDE_PRESENT) PDE_RW) PDE_USER) then
      ret pt
    else ret (__va (__pg_val pde))) in
  if pt =? NULL then ret (-1) else
  let tblent := Z.lor (Z.lor (page_phys page) PTE_PRESENT) PTE_USER in
  let tblent := if ctrue (Z.land prot PROT_WRITE) then Z.lor tblent PTE_RW else tblent in
  do! st_word pt (tbl addr) tblent then
  do! __flush_tlb then
  ret 0.

(** ** What the processor does with the tables *)

(** The page table entry for [va] in the context with directory [pgd], if present. *)
Definition translate (g : paging) (pgd va : Z) : option Z :=
  l ← pg_tables g !! pgd;
  pde ← l !! Z.to_nat (dir va);
  if ctrue (Z.land pde PDE_PRESENT) then
    t ← pg_tables g !! __va (__pg_val pde);
    pte ← t !! Z.to_nat (tbl va);
    if ctrue (Z.land pte PTE_PRESENT) then Some pte else None
  else None.
End paging.

(** ** Indices *)

Lemma dir_eq x : 0 ≤ x < 2 ^ 32 → dir x = x / 2 ^ 22 ∧ 0 ≤ dir x < 1024.
Proof.
  intros H. assert (dir x = x / 2 ^ 22) as E.
  { rewrite /dir /__dir Z.shiftr_land. change (Z.shiftr 0xFFC00000 22) with (Z.ones 10).
    rewrite Z.land_ones // Z.shiftr_div_pow2 // Z.mod_small //.
    split; [apply Z.div_pos; lia|apply Z.div_lt_upper_bound; lia]. }
  split; [done|]. rewrite E. split; [apply Z.div_pos; lia|apply Z.div_lt_upper_bound; lia].
Qed.

Lemma tbl_eq x : tbl x = (x / 2 ^ 12) mod 2 ^ 10 ∧ 0 ≤ tbl x < 1024.
Proof.
  assert (tbl x = (x / 2 ^ 12) mod 2 ^ 10) as E.
  { rewrite /tbl /__tbl Z.shiftr_land. change (Z.shiftr 0x003FF000 12) with (Z.ones 10).
    by rewrite Z.land_ones // Z.shiftr_div_pow2. }
  split; [done|]. rewrite E. by apply Z.mod_pos_bound.
Qed.

(** Two addresses use the same entries exactly if they are on the same page. *)
Lemma same_entries x y : 0 ≤ x < 2 ^ 32 → 0 ≤ y < 2 ^ 32 →
  dir x = dir y ∧ tbl x = tbl y ↔ x / 4096 = y / 4096.
Proof.
  intros Hx Hy. destruct (dir_eq x Hx) as [-> _]. destruct (dir_eq y Hy) as [-> _].
  destruct (tbl_eq x) as [-> _]. destruct (tbl_eq y) as [-> _].
  assert (∀ z, z / 2 ^ 22 = z / 4096 / 2 ^ 10) as Hd by (intros z; by rewrite Z.div_div).
  change (2 ^ 12) with 4096. rewrite !Hd. split; [|by intros ->]. intros [H1 H2].
  rewrite (Z.div_mod (x / 4096) (2 ^ 10)) // (Z.div_mod (y / 4096) (2 ^ 10)) //. by rewrite H1 H2.
Qed.

(** A frame address with flags, and the address again. *)
Lemma pg_val_flags i f : 0 ≤ i < 2 ^ 20 → 0 ≤ f < 2 ^ 12 → __pg_val (Z.lor (4096 * i) f) = 4096 * i.
Proof.
  intros Hi Hf. rewrite /__pg_val Z.land_lor_distr_l. change 0xFFFFF000 with (Z.shiftl (Z.ones 20) 12).
  replace (4096 * i) with (Z.shiftl i 12) by (rewrite Z.shiftl_mul_pow2; lia).
  rewrite -Z.shiftl_land Z.land_ones // Z.mod_small //.
  assert (Z.land f (Z.shiftl (Z.ones 20) 12) = 0) as ->; [|apply Z.lor_0_r].
  apply Z.bits_inj'. intros n Hn. rewrite Z.land_spec Z.bits_0. destruct (decide (n < 12)).
  - rewrite Z.shiftl_spec_low //. apply andb_false_r.
  - destruct (decide (f = 0)) as [->|]; [by rewrite Z.bits_0|]. rewrite (Z.bits_above_log2 f n); [lia| |done].
    assert (Z.log2 f < 12); [apply Z.log2_lt_pow2; lia|lia].
Qed.

Lemma flag_present x f : Z.testbit f 0 = true → ctrue (Z.land (Z.lor x f) 1) = true.
Proof.
  intros Hf. rewrite /ctrue. destruct (Z.eqb_spec (Z.land (Z.lor x f) 1) 0) as [E|]; [|done].
  assert (Z.testbit (Z.land (Z.lor x f) 1) 0 = true) as H by (by rewrite Z.land_spec Z.lor_spec Hf orb_true_r).
  by rewrite E in H.
Qed.
