(* ===== verification/PagingProps.v ===== *)
(** * Mapping a page changes the translation of that page and of no other *)
From S2P Require Import Prelude PageAlloc Kmem Buddy Paging.

Lemma page_pa v : page_ok v → __pa v = 4096 * ((v - PAGE_OFFSET) / 4096) ∧ 0 ≤ (v - PAGE_OFFSET) / 4096 < 2 ^ 18 ∧ __va (__pa v) = v.
Proof.
  rewrite /page_ok /PAGE_OFFSET /PAGE_SIZE. intros [Hr Hm].
  assert (v - 0xc0000000 = 4096 * ((v - 0xc0000000) / 4096)) as Hd.
  { apply Z.div_exact; [done|]. rewrite Zminus_mod Hm. reflexivity. }
  rewrite /__va /__pa /PAGE_OFFSET. rewrite (u32_id (v - 0xc0000000)); [lia|]. rewrite u32_id; [lia|].
  split; [exact Hd|]. split; [split; [apply Z.div_pos; lia|apply Z.div_lt_upper_bound; lia]|lia].
Qed.

Section paging.
Context {P : Type} `{!PageOps P, !PageSpec P}.
Implicit Types (g : @paging P) (A : gset Z).

Definition present (e : Z) : bool := ctrue (Z.land e PDE_PRESENT).
Definition table_of (pde : Z) : Z := __va (__pg_val pde).

(** The directory of a context, and the tables of its lower 768 entries: each
    is a page of its own. *)
Record ctx_ok g (pgd : Z) (l : list Z) A : Prop := {
  cx_dir : pg_tables g !! pgd = Some l;
  cx_len : length l = 1024%nat;
  cx_pgd : pgd ∈ A;
  cx_table (d : nat) pde : (d < 768)%nat → l !! d = Some pde → present pde = true →
    table_of pde ∈ A ∧ table_of pde ≠ pgd ∧ ∃ t, pg_tables g !! table_of pde = Some t ∧ length t = 1024%nat;
  cx_inj (d d' : nat) pde pde' : (d < 768)%nat → (d' < 768)%nat → l !! d = Some pde → l !! d' = Some pde' →
    present pde = true → present pde' = true → table_of pde = table_of pde' → d = d';
  cx_own : pages_own (pg_pages g) A;
  cx_pages v : v ∈ A → page_ok v
}.

(** A user address uses one of the lower 768 entries. *)
Lemma user_dir va : 0 ≤ va < PAGE_OFFSET → 0 ≤ va < 2 ^ 32 ∧ (Z.to_nat (dir va) < 768)%nat.
Proof.
  rewrite /PAGE_OFFSET. intros H. split; [lia|]. destruct (dir_eq va) as [E _]; [lia|].
  assert (va / 2 ^ 22 < 768) by (apply Z.div_lt_upper_bound; lia). rewrite E. lia.
Qed.

Lemma wp_ld_word g a i l v (Q : Z → paging → Prop) :
  pg_tables g !! a = Some l → l !! Z.to_nat i = Some v → Q v g → wp (ld_word a i) Q g.
Proof. intros Hl Hv HQ. rewrite /wp /ld_word /ld_table /bind /= Hl /= Hv. exact HQ. Qed.
Lemma wp_st_word g a i l v (Q : unit → paging → Prop) :
  pg_tables g !! a = Some l → (Z.to_nat i < length l)%nat →
  Q tt (upd_tables (insert a (<[Z.to_nat i := v]> l)) g) → wp (st_word a i v) Q g.
Proof.
  intros Hl Hi HQ. destruct (lookup_lt_is_Some_2 l _ Hi) as [w Hw].
  rewrite /wp /st_word /ld_table /bind /= Hl /= Hw. exact HQ.
Qed.

(** The translation by directory entry and table. *)
Definition entry_in (t : list Z) (va : Z) : option Z :=
  pte ← t !! Z.to_nat (tbl va); if present pte then Some pte else None.

Lemma translate_absent g pgd l va pde :
  pg_tables g !! pgd = Some l → l !! Z.to_nat (dir va) = Some pde → present pde = false → translate g pgd va = None.
Proof.
  intros Hl Hd Hp. rewrite /translate Hl. cbn [mbind option_bind]. rewrite Hd. cbn [mbind option_bind].
  unfold present in Hp. by rewrite Hp.
Qed.
Lemma translate_present g pgd l va pde t :
  pg_tables g !! pgd = Some l → l !! Z.to_nat (dir va) = Some pde → present pde = true →
  pg_tables g !! table_of pde = Some t → translate g pgd va = entry_in t va.
Proof.
  intros Hl Hd Hp Ht. rewrite /translate Hl. cbn [mbind option_bind]. rewrite Hd. cbn [mbind option_bind].
  unfold present in Hp. rewrite Hp. unfold table_of in Ht. by rewrite Ht.
Qed.
Lemma entry_in_zero va : entry_in zero_table va = None.
Proof.
  rewrite /entry_in /zero_table lookup_replicate_2; [|done]. destruct (tbl_eq va) as [_ H]. unfold NR_PTE. lia.
Qed.
Lemma entry_in_insert t va addr e :
  length t = 1024%nat → present e = true →
  entry_in (<[Z.to_nat (tbl addr) := e]> t) va = if decide (tbl va = tbl addr) then Some e else entry_in t va.
Proof.
  intros Hl He. destruct (tbl_eq va) as [_ H1]. destruct (tbl_eq addr) as [_ H2]. rewrite /entry_in. case_decide as E.
  - rewrite E list_lookup_insert_eq; [lia|]. cbn [mbind option_bind]. by rewrite He.
  - rewrite list_lookup_insert_ne //. lia.
Qed.

(** A new, empty table changes no translation. *)
Definition new_pde (pt : Z) : Z := Z.lor (Z.lor (Z.lor (__pa pt) PDE_PRESENT) PDE_RW) PDE_USER.

Lemma new_pde_table pt : page_ok pt → present (new_pde pt) = true ∧ table_of (new_pde pt) = pt.
Proof.
  intros Hp. destruct (page_pa pt Hp) as (E & Hi & Hv).
  assert (new_pde pt = Z.lor (__pa pt) 7) as Hn by (by rewrite /new_pde -!Z.lor_assoc).
  split; [rewrite /present Hn; change PDE_PRESENT with 1; by apply flag_present|].
  rewrite /table_of Hn {1}E pg_val_flags; [lia|lia|]. by rewrite -E.
Qed.

Lemma install_table g pgd l A d pde pt p :
  ctx_ok g pgd l A → (d < 768)%nat → l !! d = Some pde → present pde = false →
  page_ok pt → pt ∉ A → pages_own p ({[ pt ]} ∪ A) →
  let l' := <[d := new_pde pt]> l in
  let g' := mk_paging (<[pgd := l']> (<[pt := zero_table]> (pg_tables g))) p (cr3 g) in
  ctx_ok g' pgd l' ({[ pt ]} ∪ A) ∧
  (∀ va, 0 ≤ va < PAGE_OFFSET → translate g' pgd va = translate g pgd va) ∧
  (∀ a, a ∈ A → a ≠ pgd → pg_tables g' !! a = pg_tables g !! a).
Proof.
  intros [] Hd Hpde Hnp Hpt HptA Hown l' g'. destruct (new_pde_table pt Hpt) as [Hpr Htab].
  assert (pt ≠ pgd) as Hne by (intros ->; done).
  assert (∀ d' e, l' !! d' = Some e → (d' = d ∧ e = new_pde pt) ∨ (d' ≠ d ∧ l !! d' = Some e)) as Hl'.
  { intros d' e H. destruct (decide (d' = d)) as [->|Hdd].
    - left. unfold l' in H. rewrite list_lookup_insert_eq in H; [lia|]. by injection H as <-.
    - right. unfold l' in H. rewrite list_lookup_insert_ne in H; [congruence|]. done. }
  assert (∀ a, a ∈ A → a ≠ pgd → pg_tables g' !! a = pg_tables g !! a) as Hsame.
  { intros a Ha Hap. simpl. rewrite lookup_insert_ne; [congruence|]. rewrite lookup_insert_ne //. intros ->. done. }
  split; [split|split; [|done]].
  - simpl. by rewrite lookup_insert_eq.
  - unfold l'. by rewrite length_insert.
  - set_solver.
  - intros d' e Hd' He Hpe. destruct (Hl' d' e He) as [[-> ->]|[Hdd He']].
    + rewrite Htab. split; [set_solver|]. split; [done|]. exists zero_table. simpl.
      rewrite lookup_insert_ne; [congruence|]. rewrite lookup_insert_eq. split; [done|reflexivity].
    + destruct (cx_table0 d' e Hd' He' Hpe) as (H1 & H2 & t & H3 & H4). split; [set_solver|]. split; [done|].
      exists t. by rewrite Hsame.
  - intros d1 d2 e1 e2 H1 H2 L1 L2 P1 P2 E. destruct (Hl' d1 e1 L1) as [[-> ->]|[N1 L1']], (Hl' d2 e2 L2) as [[-> ->]|[N2 L2']].
    + done.
    + exfalso. rewrite Htab in E. destruct (cx_table0 d2 e2 H2 L2' P2) as (H & _). by rewrite -E in H.
    + exfalso. rewrite Htab in E. destruct (cx_table0 d1 e1 H1 L1' P1) as (H & _). by rewrite E in H.
    + by eapply (cx_inj0 d1 d2 e1 e2).
  - exact Hown.
  - intros v [->%elem_of_singleton|Hv]%elem_of_union; [done|by apply cx_pages0].
  - intros va Hva. destruct (user_dir va Hva) as [Hva' Hdv].
    assert (pg_tables g' !! pgd = Some l') as Hg' by (simpl; by rewrite lookup_insert_eq).
    destruct (l !! Z.to_nat (dir va)) as [e|] eqn:Ee; [|apply lookup_ge_None in Ee; lia].
    destruct (decide (Z.to_nat (dir va) = d)) as [Ed|Nd].
    + rewrite Ed in Ee. rewrite (translate_absent g pgd l va pde cx_dir0); [by rewrite Ed|done|].
      rewrite (translate_present g' pgd l' va (new_pde pt) zero_table Hg'); [|done| |apply entry_in_zero].
      * rewrite Ed. unfold l'. rewrite list_lookup_insert_eq //. lia.
      * rewrite Htab. simpl. rewrite lookup_insert_ne; [congruence|]. by rewrite lookup_insert_eq.
    + assert (l' !! Z.to_nat (dir va) = Some e) as Ee' by (unfold l'; rewrite list_lookup_insert_ne; [congruence|done]).
      destruct (present e) eqn:Pe.
      * destruct (cx_table0 _ e Hdv Ee Pe) as (H1 & H2 & t & H3 & _).
        rewrite (translate_present g pgd l va e t) // (translate_present g' pgd l' va e t) //. by rewrite Hsame.
      * by rewrite (translate_absent g pgd l va e) // (translate_absent g' pgd l' va e).
Qed.

(** Writing an entry of the table of [addr]. *)
Lemma write_entry g pgd l A pde addr t e :
  ctx_ok g pgd l A → 0 ≤ addr < PAGE_OFFSET → l !! Z.to_nat (dir addr) = Some pde → present pde = true →
  pg_tables g !! table_of pde = Some t → present e = true →
  let g' := upd_tables (insert (table_of pde) (<[Z.to_nat (tbl addr) := e]> t)) g in
  ctx_ok g' pgd l A ∧
  (∀ va, 0 ≤ va < PAGE_OFFSET → translate g' pgd va = if decide (va / 4096 = addr / 4096) then Some e else translate g pgd va).
Proof.
  intros [] Haddr Hpde Hpr Ht He g'. destruct (user_dir addr Haddr) as [Ha32 Hda].
  destruct (cx_table0 _ pde Hda Hpde Hpr) as (HtA & Htp & t0 & Ht0 & Htl). rewrite Ht in Ht0. injection Ht0 as <-.
  split; [split; simpl; try done|].
  - by rewrite lookup_insert_ne; [congruence|].
  - intros d x Hd Hx Hxp. destruct (cx_table0 d x Hd Hx Hxp) as (H1 & H2 & t' & H3 & H4). split; [done|]. split; [done|].
    destruct (decide (table_of x = table_of pde)) as [->|Hne].
    + rewrite lookup_insert_eq. eexists. split; [done|]. by rewrite length_insert.
    + exists t'. by rewrite lookup_insert_ne; [congruence|].
  - intros va Hva. destruct (user_dir va Hva) as [Hv32 Hdv].
    assert (pg_tables g' !! pgd = Some l) as Hg' by (simpl; by rewrite lookup_insert_ne; [congruence|]).
    pose proof (same_entries va addr Hv32 Ha32) as Hse. destruct (dir_eq va Hv32) as [_ Hd1]. destruct (dir_eq addr Ha32) as [_ Hd2].
    destruct (l !! Z.to_nat (dir va)) as [x|] eqn:Ex; [|apply lookup_ge_None in Ex; lia].
    destruct (decide (dir va = dir addr)) as [Ed|Nd].
    + assert (l !! Z.to_nat (dir va) = Some pde) as Hpde' by (rewrite Ed; exact Hpde).
      rewrite (translate_present g pgd l va pde t cx_dir0 Hpde' Hpr Ht).
      rewrite (translate_present g' pgd l va pde (<[Z.to_nat (tbl addr) := e]> t) Hg' Hpde' Hpr (lookup_insert_eq _ _ _)).
      rewrite (entry_in_insert t va addr e Htl He). apply decide_ext. rewrite -Hse. split; [intros H; split; [exact Ed|exact H]|intros [_ H]; exact H].
    + rewrite decide_False; [intros Heq; apply Hse in Heq as [? _]; done|].
      destruct (present x) eqn:Px.
      * destruct (cx_table0 _ x Hdv Ex Px) as (H1 & H2 & t' & H3 & _).
        rewrite (translate_present g pgd l va x t' cx_dir0 Ex Px H3). apply (translate_present g' pgd l va x t' Hg' Ex Px).
        unfold g'. cbn [pg_tables upd_tables]. rewrite lookup_insert_ne; [|exact H3].
        intros Heq. apply Nd. assert (Z.to_nat (dir va) = Z.to_nat (dir addr)); [|lia].
        exact (cx_inj0 _ _ x pde Hdv Hda Ex Hpde Px Hpr (eq_sym Heq)).
      * rewrite (translate_absent g pgd l va x cx_dir0 Ex Px). exact (translate_absent g' pgd l va x Hg' Ex Px).
Qed.

(** The entry for a frame: present and for the user, writable if asked. *)
Definition pte_for (page prot : Z) : Z :=
  Z.lor (4096 * page) (if ctrue (Z.land prot PROT_WRITE) then 7 else 5).

Lemma pte_for_ok page prot : 0 ≤ page < 2 ^ 20 → present (pte_for page prot) = true ∧ __pg_val (pte_for page prot) = 4096 * page.
Proof.
  intros Hp. rewrite /pte_for /present. change PDE_PRESENT with 1.
  destruct (ctrue (Z.land prot PROT_WRITE)); (split; [by apply flag_present|apply pg_val_flags; [done|lia]]).
Qed.

Lemma pte_for_eq page prot : 0 ≤ page < 2 ^ 20 →
  let tblent := Z.lor (Z.lor (page_phys page) PTE_PRESENT) PTE_USER in
  (if ctrue (Z.land prot PROT_WRITE) then Z.lor tblent PTE_RW else tblent) = pte_for page prot.
Proof.
  intros Hp. assert (page_phys page = 4096 * page) as ->.
  { rewrite /page_phys /PAGE_SHIFT Z.shiftl_mul_pow2 // u32_id; lia. }
  rewrite /pte_for. destruct (ctrue (Z.land prot PROT_WRITE)); by rewrite -!Z.lor_assoc.
Qed.

(** There is no table for [addr] yet, and no page for one. *)
Definition no_table g (l : list Z) (addr : Z) : Prop :=
  ∃ pde p, l !! Z.to_nat (dir addr) = Some pde ∧ present pde = false ∧ alloc_page (pg_pages g) = Ret (NULL, p).

(** What [map_page_to_ctx] leaves: it fails when it needs a page for a table
    and there is none; otherwise the page of [addr] is mapped, and only that one
    changes. *)
Definition map_post g (pgd : Z) (l : list Z) A (page addr prot r : Z) (g' : @paging P) : Prop :=
  (r = -1 ∧ no_table g l addr ∧ ctx_ok g' pgd l A ∧ ∀ va, translate g' pgd va = translate g pgd va) ∨
  (r = 0 ∧ ¬ no_table g l addr ∧ ∃ l' A', A ⊆ A' ∧ ctx_ok g' pgd l' A' ∧ ∀ va, 0 ≤ va < PAGE_OFFSET →
     translate g' pgd va = if decide (va / 4096 = addr / 4096) then Some (pte_for page prot) else translate g pgd va).

Lemma ctx_ok_pages g pgd l A p c : ctx_ok g pgd l A → pages_own p A → ctx_ok (mk_paging (pg_tables g) p c) pgd l A.
Proof. intros [] Hp. by split. Qed.

(** From the table on. *)
Lemma wp_map_write g pgd l A pde page addr prot (Q : Z → paging → Prop) :
  ctx_ok g pgd l A → 0 ≤ addr < PAGE_OFFSET → 0 ≤ page < 2 ^ 20 →
  l !! Z.to_nat (dir addr) = Some pde → present pde = true →
  (∀ g', ctx_ok g' pgd l A → (∀ va, 0 ≤ va < PAGE_OFFSET →
     translate g' pgd va = if decide (va / 4096 = addr / 4096) then Some (pte_for page prot) else translate g pgd va) →
   (∃ t, g' = upd_tables (insert (table_of pde) t) g ∧ ∃ t0, t = <[Z.to_nat (tbl addr) := pte_for page prot]> t0 ∧ length t0 = 1024%nat) → Q 0 g') →
  wp (do! st_word (table_of pde) (tbl addr) (pte_for page prot) then do! __flush_tlb then ret 0) Q g.
Proof.
  intros Hok Haddr Hpage Hpde Hpr HQ. destruct (user_dir addr Haddr) as [Ha32 Hda].
  destruct (cx_table _ _ _ _ Hok _ pde Hda Hpde Hpr) as (HtA & Htp & t & Ht & Htl).
  destruct (pte_for_ok page prot Hpage) as [He _]. destruct (tbl_eq addr) as [_ Htb].
  destruct (write_entry g pgd l A pde addr t (pte_for page prot) Hok Haddr Hpde Hpr Ht He) as [H1 H2].
  apply wp_bind. apply (wp_st_word _ _ _ t); [exact Ht|lia|]. apply wp_bind, wp_modify. apply wp_ret.
  destruct g as [gt gp gc]. apply HQ; [exact H1|exact H2|]. eexists. split; [reflexivity|]. exists t. split; [reflexivity|exact Htl].
Qed.

Lemma wp_map_page_present g pgd l A pde page addr prot (Q : Z → paging → Prop) :
  ctx_ok g pgd l A → 0 ≤ addr < PAGE_OFFSET → 0 ≤ page < 2 ^ 20 →
  l !! Z.to_nat (dir addr) = Some pde → present pde = true →
  wp (do! st_word (table_of pde) (tbl addr) (pte_for page prot) then do! __flush_tlb then ret 0) Q g →
  wp (map_page_to_ctx (__pa pgd) page addr prot) Q g.
Proof.
  intros Hok Haddr Hpage Hpde Hpr HQ. destruct (user_dir addr Haddr) as [Ha32 Hda].
  destruct (page_pa pgd) as (_ & _ & Hva); [exact (cx_pages _ _ _ _ Hok _ (cx_pgd _ _ _ _ Hok))|].
  rewrite /map_page_to_ctx. rewrite (pte_for_eq page prot Hpage) Hva.
  apply wp_bind, wp_bug_on; [by apply Z.leb_gt; lia|].
  apply wp_bind, (wp_ld_word _ _ _ l pde); [exact (cx_dir _ _ _ _ Hok)|exact Hpde|].
  apply wp_bind. change (ctrue (Z.land pde PDE_PRESENT)) with (present pde). rewrite Hpr. apply wp_ret.
  change (__va (__pg_val pde)) with (table_of pde).
  destruct (cx_table _ _ _ _ Hok _ pde Hda Hpde Hpr) as (HtA & _).
  destruct (Z.eqb_spec (table_of pde) NULL) as [E0|_]; [|exact HQ].
  destruct (cx_pages _ _ _ _ Hok _ HtA) as [Hr _]. rewrite E0 /PAGE_OFFSET /NULL in Hr. lia.
Qed.

Lemma wp_map_page g pgd l A page addr prot :
  ctx_ok g pgd l A → 0 ≤ addr < PAGE_OFFSET → 0 ≤ page < 2 ^ 20 →
  wp (map_page_to_ctx (__pa pgd) page addr prot) (map_post g pgd l A page addr prot) g.
Proof.
  intros Hok Haddr Hpage. destruct (user_dir addr Haddr) as [Ha32 Hda].
  pose proof (cx_dir _ _ _ _ Hok) as Hdir. pose proof (cx_len _ _ _ _ Hok) as Hlen.
  destruct (l !! Z.to_nat (dir addr)) as [pde|] eqn:Hpde; [|apply lookup_ge_None in Hpde; lia].
  destruct (present pde) eqn:Hpr.
  { apply (wp_map_page_present g pgd l A pde); [done..|]. apply (wp_map_write g pgd l A pde); [done..|].
    intros g' H1 H2 _. right. split; [done|]. split; [intros (? & ? & ? & ? & _); congruence|]. by exists l, A. }
  destruct (page_pa pgd) as (_ & _ & Hva); [exact (cx_pages _ _ _ _ Hok _ (cx_pgd _ _ _ _ Hok))|].
  rewrite /map_page_to_ctx. rewrite (pte_for_eq page prot Hpage) Hva.
  apply wp_bind, wp_bug_on; [by apply Z.leb_gt; lia|]. apply wp_bind, (wp_ld_word _ _ _ l pde); [exact Hdir|exact Hpde|].
  apply wp_bind. change (ctrue (Z.land pde PDE_PRESENT)) with (present pde). rewrite Hpr. cbn [negb].
  apply wp_bind, wp_zoom. destruct (wp_elim _ _ _ (pages_alloc _ _ (cx_own _ _ _ _ Hok))) as (pt & p & Ept & Hpost).
    rewrite {1}/wp Ept. destruct Hpost as [[-> Hown]|(Hpg & HptA & Hown)].
    { apply wp_ret. cbn [Z.eqb NULL]. apply wp_ret. left. split; [done|]. split; [by exists pde, p|]. split; [by apply ctx_ok_pages|done]. }
    assert (pt ≠ NULL) as Hn0 by (destruct Hpg as [Hr _]; rewrite /PAGE_OFFSET in Hr; unfold NULL; lia).
    rewrite (proj2 (Z.eqb_neq pt NULL) Hn0). apply wp_bind, wp_modify. apply wp_bind.
    assert (pt ≠ pgd) as Hne by (intros ->; exact (HptA (cx_pgd _ _ _ _ Hok))).
    destruct (new_pde_table pt Hpg) as [Hnp Hnt].
    destruct (install_table g pgd l A _ pde pt p Hok Hda Hpde Hpr Hpg HptA Hown) as (Hok' & Htr & _).
    apply (wp_st_word _ _ _ l); [exact (eq_trans (lookup_insert_ne (pg_tables g) _ _ _ Hne) Hdir)|rewrite Hlen; lia|].
    apply wp_ret. rewrite (proj2 (Z.eqb_neq pt NULL) Hn0). rewrite -{1}Hnt.
    eapply (wp_map_write _ pgd _ _ (new_pde pt)); [exact Hok'|done|done| |exact Hnp|].
    { apply list_lookup_insert_eq. rewrite Hlen. lia. }
    intros g' H1 H2 _. right. split; [done|]. split; [intros (? & ? & _ & _ & ?); congruence|]. eexists _, ({[ pt ]} ∪ A). split; [apply union_subseteq_r|]. split; [exact H1|].
    intros va Hv. rewrite (H2 va Hv). case_decide; [done|]. by apply Htr.
Qed.

(** C28: Mapping a page in a context whose tables are pages of their own never
    faults.  It fails, changing no translation, exactly when the directory has
    no table for the address and the allocator no page for one; otherwise the whole page of the address translates to the
    frame, present, accessible to the user and writable exactly if [PROT_WRITE]
    was asked for, and every other user address translates as before. *)
Theorem map_page_correct g pgd l A page addr prot :
  ctx_ok g pgd l A → 0 ≤ addr < PAGE_OFFSET → 0 ≤ page < 2 ^ 20 →
  ∃ r g', map_page_to_ctx (__pa pgd) page addr prot g = Ret (r, g') ∧ map_post g pgd l A page addr prot r g'.
Proof. intros. by apply wp_elim, wp_map_page. Qed.
(** ** The copy of a context *)

Lemma copy_words (l : list Z) : length l = 1024%nat → mapM (λ i, l !! Z.to_nat i) (seqZ 0 NR_PDE) = Some l.
Proof.
  intros Hl. apply mapM_Some. apply Forall2_same_length_lookup. split; [by rewrite length_seqZ Hl|].
  intros i x y [-> _]%lookup_seqZ Hy. by rewrite Z.add_0_l Nat2Z.id.
Qed.

Lemma wp_clone_ctx g pgd l A c p (Q : option Z → paging → Prop) :
  ctx_ok g pgd l A → alloc_page (pg_pages g) = Ret (c, p) → c ≠ NULL →
  (let g' := mk_paging (<[c := l]> (pg_tables g)) p (cr3 g) in
   ctx_ok g' pgd l ({[ c ]} ∪ A) → ctx_ok g' c l ({[ c ]} ∪ A) → pgd ≠ c → Q (Some (__pa c)) g') →
  wp (clone_ctx (__pa pgd)) Q g.
Proof.
  intros [] Ec Hc HQ. pose proof (pages_alloc _ _ cx_own0) as Hal. rewrite /wp Ec in Hal.
  destruct Hal as [[H _]|(Hpg & HcA & Hown)]; [done|].
  destruct (page_pa pgd) as (_ & _ & Hva); [by apply cx_pages0|].
  rewrite /clone_ctx Hva. apply wp_bind, wp_zoom. rewrite {1}/wp Ec. rewrite (proj2 (Z.eqb_neq c NULL) Hc).
  apply wp_bind. apply (wp_mono _ (λ x g', x = l ∧ g' = set_pg_pages p g)).
  { rewrite /wp /ld_table /bind /=. by rewrite cx_dir0. }
  intros x g' [-> ->]. apply wp_bind, (wp_deref _ l); [by apply copy_words|]. apply wp_bind, wp_modify, wp_ret.
  assert (pgd ≠ c) as Hpc by (intros ->; done).
  assert (∀ a, a ∈ A → <[c := l]> (pg_tables g) !! a = pg_tables g !! a) as Hsame.
  { intros a Ha. apply lookup_insert_ne. intros ->. done. }
  assert (∀ v, v ∈ {[ c ]} ∪ A → page_ok v) as Hpages.
  { intros v [->%elem_of_singleton|Hv]%elem_of_union; [done|by apply cx_pages0]. }
  apply HQ; [split|split|exact Hpc]; cbn [pg_tables pg_pages]; try done.
  - by rewrite Hsame.
  - set_solver.
  - intros d x Hd Hx Hp. destruct (cx_table0 d x Hd Hx Hp) as (H1 & H2 & t & Ht & Hl). split; [set_solver|]. split; [done|].
    exists t. by rewrite Hsame.
  - by rewrite lookup_insert_eq.
  - set_solver.
  - intros d x Hd Hx Hp. destruct (cx_table0 d x Hd Hx Hp) as (H1 & H2 & t & Ht & Hl). split; [set_solver|].
    split; [intros E'; by rewrite E' in H1|]. exists t. by rewrite Hsame.
Qed.

(** C40: The copy that [clone_ctx] makes of a context translates every user
    address as the original does, but the two share the page tables there are:
    mapping a page in the copy at an address for which the original has a table
    succeeds without taking a page, and maps it in the original too. *)
Theorem clone_ctx_shares g pgd l A c p pde page addr prot :
  ctx_ok g pgd l A → alloc_page (pg_pages g) = Ret (c, p) → c ≠ NULL →
  0 ≤ addr < PAGE_OFFSET → 0 ≤ page < 2 ^ 20 → l !! Z.to_nat (dir addr) = Some pde → present pde = true →
  ∃ g1 g2, clone_ctx (__pa pgd) g = Ret (Some (__pa c), g1) ∧
    (∀ va, 0 ≤ va < PAGE_OFFSET → translate g1 c va = translate g pgd va) ∧
    map_page_to_ctx (__pa c) page addr prot g1 = Ret (0, g2) ∧
    translate g2 pgd addr = Some (pte_for page prot).
Proof.
  intros Hok Ec Hc Haddr Hpage Hpde Hpr.
  destruct (wp_elim (clone_ctx (__pa pgd)) (λ r g1, r = Some (__pa c) ∧ ctx_ok g1 pgd l ({[ c ]} ∪ A) ∧ ctx_ok g1 c l ({[ c ]} ∪ A) ∧
     (∀ va, 0 ≤ va < PAGE_OFFSET → translate g1 c va = translate g pgd va)) g) as (r & g1 & E1 & -> & H1 & H2 & Htr).
  { apply (wp_clone_ctx g pgd l A c p); [done..|]. intros g' H1 H2 Hpc. split; [done|]. split; [done|]. split; [done|].
    intros va Hva. destruct (user_dir va Hva) as [_ Hdv].
    destruct (l !! Z.to_nat (dir va)) as [x|] eqn:Ex; [|apply lookup_ge_None in Ex; rewrite (cx_len _ _ _ _ Hok) in Ex; lia].
    destruct (present x) eqn:Px.
    - destruct (cx_table _ _ _ _ Hok _ x Hdv Ex Px) as (HA & _ & t & Ht & _).
      rewrite (translate_present g pgd l va x t (cx_dir _ _ _ _ Hok) Ex Px Ht).
      destruct (cx_table _ _ _ _ H2 _ x Hdv Ex Px) as (_ & Hne & _).
      apply (translate_present g' c l va x t (cx_dir _ _ _ _ H2) Ex Px). unfold g'. cbn [pg_tables].
      rewrite lookup_insert_ne; [congruence|exact Ht].
    - rewrite (translate_absent g pgd l va x (cx_dir _ _ _ _ Hok) Ex Px). exact (translate_absent g' c l va x (cx_dir _ _ _ _ H2) Ex Px). }
  destruct (wp_elim (map_page_to_ctx (__pa c) page addr prot) (λ r g2, r = 0 ∧ translate g2 pgd addr = Some (pte_for page prot)) g1)
    as (r & g2 & E2 & -> & Ht2).
  { apply (wp_map_page_present g1 c l ({[ c ]} ∪ A) pde); [done..|]. apply (wp_map_write g1 c l ({[ c ]} ∪ A) pde); [done..|].
    intros g' _ _ (t & -> & t0 & -> & Hl). split; [done|]. destruct (user_dir addr Haddr) as [_ Hda].
    destruct (cx_table _ _ _ _ H1 _ pde Hda Hpde Hpr) as (_ & Hne & _).
    rewrite (translate_present _ pgd l addr pde (<[Z.to_nat (tbl addr) := pte_for page prot]> t0)); [|exact Hpde|exact Hpr|apply lookup_insert_eq|].
    - cbn [pg_tables upd_tables]. rewrite lookup_insert_ne; [congruence|exact (cx_dir _ _ _ _ H1)].
    - rewrite (entry_in_insert t0 addr addr _ Hl (proj1 (pte_for_ok page prot Hpage))). by rewrite decide_True. }
  by exists g1, g2.
Qed.
End paging.

(** ** An address space with one table *)

Definition demo_pgd : Z := 0xc0100000.
Definition demo_table : Z := 0xc0101000.
Definition demo_dir : list Z := <[32%nat := new_pde demo_table]> zero_table.
Definition demo_paging : @paging pool :=
  mk_paging {[ demo_pgd := demo_dir; demo_table := zero_table ]} [0xc0102000; 0xc0103000] (__pa demo_pgd).

Lemma demo_dir_present d pde : demo_dir !! d = Some pde → present pde = true → d = 32%nat ∧ pde = new_pde demo_table.
Proof.
  intros H Hp. unfold demo_dir in H. destruct (decide (d = 32%nat)) as [->|Hne].
  - rewrite list_lookup_insert_eq in H; [apply Nat.ltb_lt; vm_compute; reflexivity|]. split; [reflexivity|congruence].
  - rewrite list_lookup_insert_ne in H; [congruence|]. apply lookup_replicate in H as [-> _]. discriminate.
Qed.

Lemma demo_ctx_ok : ctx_ok demo_paging demo_pgd demo_dir {[ demo_pgd; demo_table ]}.
Proof.
  assert (page_ok demo_table) as Ht by (by vm_compute).
  assert (page_ok demo_pgd) as Hp by (by vm_compute).
  destruct (new_pde_table demo_table Ht) as [Hpr Htab]. split.
  - apply lookup_insert_eq.
  - unfold demo_dir. rewrite length_insert. apply length_replicate.
  - set_solver.
  - intros d pde _ Hd Hpd. destruct (demo_dir_present d pde Hd Hpd) as [-> ->]. rewrite Htab. split; [set_solver|].
    split; [done|]. exists zero_table. split; [|apply length_replicate].
    unfold demo_paging. cbn [pg_tables]. rewrite lookup_insert_ne; [done|apply lookup_singleton_eq].
  - intros d d' pde pde' _ _ Hd Hd' Hp1 Hp2 _. destruct (demo_dir_present d pde Hd Hp1) as [-> _].
    by destruct (demo_dir_present d' pde' Hd' Hp2) as [-> _].
  - split_and!; [decide_closed| |].
    + intros v Hv. assert (v = 0xc0102000 ∨ v = 0xc0103000) as [-> | ->] by set_solver; (split; [by vm_compute|set_solver]).
    + intros v [->%elem_of_singleton| ->%elem_of_singleton]%elem_of_union; done.
  - intros v [->%elem_of_singleton| ->%elem_of_singleton]%elem_of_union; done.
Qed.

Lemma map_page_witness : ∃ r g', map_page_to_ctx (__pa demo_pgd) 0x123 0x8048000 PROT_WRITE demo_paging = Ret (r, g') ∧
  map_post demo_paging demo_pgd demo_dir {[ demo_pgd; demo_table ]} 0x123 0x8048000 PROT_WRITE r g'.
Proof. apply map_page_correct; [exact demo_ctx_ok|unfold PAGE_OFFSET; lia|lia]. Defined.

Lemma clone_ctx_witness : ∃ g1 g2, clone_ctx (__pa demo_pgd) demo_paging = Ret (Some (__pa 0xc0102000), g1) ∧
  (∀ va, 0 ≤ va < PAGE_OFFSET → translate g1 0xc0102000 va = translate demo_paging demo_pgd va) ∧
  map_page_to_ctx (__pa 0xc0102000) 0x123 0x8048000 PROT_READ g1 = Ret (0, g2) ∧
  translate g2 demo_pgd 0x8048000 = Some (pte_for 0x123 PROT_READ).
Proof.
  apply (clone_ctx_shares demo_paging demo_pgd demo_dir {[ demo_pgd; demo_table ]} 0xc0102000 [0xc0103000] (new_pde demo_table)).
  - exact demo_ctx_ok.
  - reflexivity.
  - done.
  - unfold PAGE_OFFSET; lia.
  - lia.
  - apply list_lookup_insert_eq. apply Nat.ltb_lt. vm_compute. reflexivity.
  - vm_compute. reflexivity.
Defined.
