(* ===== verification/PageFault.v ===== *)
(** * Page faults ([mm_pagefault] of [kernel/mm.c] over [arch-ia32/mm.c] and
      [kernel/pagecache.c], [page_fault] and [exc_handler] of [arch-ia32/idt.c])

    The interface of the memory areas to the page tables and to the page cache
    is discharged by those two components, and the fault handler is verified
    on top of all three. *)
From S2P Require Import Prelude Regs PageAlloc ObjAlloc Kmem Buddy Rbtree RbtreeRep RbtreeErase RbtreeWalk Vma VmaProps.
From S2P Require Import VmaFree KeyTree Pagecache Paging PagingProps.

Section fault.
Context {P T F D : Type} `{!ObjOps P, !ObjSpec P, !PageOps T, !PageSpec T, !PageOps F}.
(** The directory of the kernel, and [pread] of an inode. *)
Context (init_pgd : Z) (pread : Z → Z → Z → Z → M (D * mem) Z).

(** The page tables, the reference counts of the inodes and their cached
    pages. *)
Record menv := mk_menv {
  me_pg : @paging T;
  me_refs : gmap Z Z;
  me_cache : gmap Z (@pcache F D)
}.
Definition set_me_pg (v : paging) (e : menv) : menv := mk_menv v (me_refs e) (me_cache e).
Definition upd_refs (f : gmap Z Z → gmap Z Z) (e : menv) : menv := mk_menv (me_pg e) (f (me_refs e)) (me_cache e).
Definition upd_cache (f : gmap Z pcache → gmap Z pcache) (e : menv) : menv :=
  mk_menv (me_pg e) (me_refs e) (f (me_cache e)).

(** A tree of pages of a file of at most 2^32 bytes is lower than this. *)
Definition cache_fuel : nat := 64.

(** [inode_readpage], giving the index of the page in the page frame array. *)
Definition env_readpage (i off : Z) : M menv (option Z) :=
  let! e := get in
  let! c := deref (me_cache e !! i) in
  let! pg := zoom (λ _, c) (λ c', upd_cache (insert i c')) (pagecache_file_readpage (pread i) cache_fuel off) in
  ret (if pg =? NULL then None else Some ((pg - pfa_base) / sizeof_page)).

#[export] Instance paging_mmu : MmuOps menv := {|
  iref i :=
    let! e := get in
    let! c := deref (me_refs e !! i) in
    do! modify (upd_refs (insert i (u32 (c + 1)))) then ret i;
  readpage := env_readpage;
  Vma.map_page_to_ctx c page va prot := zoom me_pg set_me_pg (Paging.map_page_to_ctx c page va prot);
  Vma.clone_ctx c := zoom me_pg set_me_pg (Paging.clone_ctx c);
  Vma.setup_new_ctx := zoom me_pg set_me_pg (Paging.setup_new_ctx init_pgd);
  Vma.destroy_ctx c := zoom me_pg set_me_pg (Paging.destroy_ctx c)
|}.

(** ** The page tables keep the promise made to contexts *)

Lemma page_pa_inj v w : page_ok v → page_ok w → __pa v = __pa w → v = w.
Proof. intros Hv Hw Heq. destruct (page_pa v Hv) as (_ & _ & <-). destruct (page_pa w Hw) as (_ & _ & <-). by rewrite Heq. Qed.

(** A directory: a page of [A] with all its entries. *)
Definition dir_page (h : gmap Z (list Z)) (A : gset Z) (v : Z) : Prop :=
  v ∈ A ∧ ∃ l, h !! v = Some l ∧ length l = 1024%nat.

(** The directories in use are pages of their own; the kernel's directory is
    none of them. *)
Record menv_ok (e : menv) (I Ds : gset Z) : Prop := {
  mo_own : ∃ A, pages_own (pg_pages (me_pg e)) A ∧ (∀ v, v ∈ A → page_ok v) ∧ dir_page (pg_tables (me_pg e)) A init_pgd ∧
    ∀ d, d ∈ Ds → ∃ v, dir_page (pg_tables (me_pg e)) A v ∧ v ≠ init_pgd ∧ d = __pa v;
  mo_refs i : i ∈ I → is_Some (me_refs e !! i)
}.

(** A copy of a directory is a new one. *)
Lemma wp_copy_dir e I Ds (old : Z) : menv_ok e I Ds →
  (∀ A, pages_own (pg_pages (me_pg e)) A → dir_page (pg_tables (me_pg e)) A init_pgd →
     (∀ d, d ∈ Ds → ∃ v, dir_page (pg_tables (me_pg e)) A v ∧ v ≠ init_pgd ∧ d = __pa v) → (∀ v, v ∈ A → page_ok v) → dir_page (pg_tables (me_pg e)) A old) →
  wp (zoom me_pg set_me_pg (copy_pgd old)) (λ r e', match r with
    | None => menv_ok e' I Ds
    | Some d => d ∉ Ds ∧ menv_ok e' I ({[ d ]} ∪ Ds)
    end) e.
Proof.
  intros [(A & Hown & Hpg & Hini & HD) Hr] Hold. destruct (Hold A Hown Hini HD Hpg) as [_ (l & Hl & Hlen)].
  apply wp_zoom. rewrite /copy_pgd. apply wp_bind, wp_zoom.
  eapply wp_mono; [exact (pages_alloc _ _ Hown)|]. intros v p [[-> Ho]|(Hv & HvA & Ho)].
  { apply wp_ret. split; [by exists A|done]. }
  assert (v ≠ NULL) as Hn by (destruct Hv as [Hv _]; rewrite /PAGE_OFFSET in Hv; unfold NULL; lia).
  rewrite (proj2 (Z.eqb_neq _ _) Hn). apply wp_bind. apply (wp_mono _ (λ x g', x = l ∧ g' = set_pg_pages p (me_pg e))).
  { rewrite /wp /ld_table /bind /=. by rewrite Hl. }
  intros x g' [-> ->]. apply wp_bind, (wp_deref _ l); [by apply copy_words|]. apply wp_bind, wp_modify, wp_ret.
  assert (∀ w, dir_page (pg_tables (me_pg e)) A w → w ≠ v ∧
    dir_page (<[v := l]> (pg_tables (me_pg e))) ({[ v ]} ∪ A) w) as Hkeep.
  { intros w [Hw (k & Hk & Hkl)]. assert (w ≠ v) by (intros ->; done). split; [done|]. split; [set_solver|].
    exists k. split; [|done]. cbn. rewrite lookup_insert_ne; [congruence|done]. }
  split.
  - intros (w & [Hw _] & _ & Heq)%HD. apply HvA. by rewrite (page_pa_inj v w Hv (Hpg w Hw) Heq).
  - split; [|done]. exists ({[ v ]} ∪ A). split; [done|]. split; [|split; [by apply Hkeep|]].
    + intros w [->%elem_of_singleton|Hw]%elem_of_union; [done|by apply Hpg].
    + intros d [->%elem_of_singleton|Hd]%elem_of_union.
      * exists v. split; [|split; [|done]].
        -- split; [set_solver|]. exists l. cbn. by rewrite lookup_insert_eq.
        -- intros ->. apply HvA. by destruct Hini.
      * destruct (HD d Hd) as (w & Hw & Hwi & ->). exists w. by split; [apply Hkeep|].
Qed.

#[export] Program Instance paging_mmu_spec : MmuSpec menv := {| env_ok := menv_ok |}.
Next Obligation.
  intros e I Ds i [Ho Hr] Hin. destruct (Hr i Hin) as [c Hc]. rewrite /wp /= /bind /= Hc /=.
  split; [done|]. split; [done|]. intros j Hj. simpl. destruct (decide (j = i)) as [->|].
  - rewrite lookup_insert_eq. by eexists.
  - rewrite lookup_insert_ne; [congruence|]. by apply Hr.
Qed.
Next Obligation. intros e I Ds He. by apply (wp_copy_dir e I Ds init_pgd He). Qed.
Next Obligation.
  intros e I Ds d [(A & Hown & Hpg & Hini & HD) Hr] Hd. destruct (HD d Hd) as (v & [HvA _] & Hvi & ->).
  destruct (page_pa v (Hpg v HvA)) as (_ & _ & Hva). apply wp_zoom. rewrite /Paging.destroy_ctx Hva. apply wp_bind, wp_modify, wp_zoom.
  assert (v ≠ NULL) as Hn by (destruct (Hpg v HvA) as [Hv _]; rewrite /PAGE_OFFSET in Hv; unfold NULL; lia).
  eapply wp_mono; [exact (pages_free _ _ v Hown HvA Hn)|]. intros [] p Ho.
  assert (∀ w, dir_page (pg_tables (me_pg e)) A w → w ≠ v →
    dir_page (delete v (pg_tables (me_pg e))) (A ∖ {[ v ]}) w) as Hkeep.
  { intros w [Hw (k & Hk & Hkl)] Hne. split; [set_solver|]. exists k. split; [|done]. cbn. rewrite lookup_delete_ne; [congruence|done]. }
  split; [|done]. exists (A ∖ {[ v ]}). split; [done|]. split; [intros w Hw; apply Hpg; set_solver|].
  split; [apply Hkeep; [done|congruence]|].
  intros d' [Hd' Hne]%elem_of_difference. destruct (HD d' Hd') as (w & Hw & Hwi & ->). exists w.
  split; [|done]. apply Hkeep; [done|]. intros ->. set_solver.
Qed.

(** And what [fork] asks of them. *)
#[export] Instance paging_clone_spec : CloneSpec menv.
Proof.
  split. intros e I Ds d He Hd. apply (wp_copy_dir e I Ds (__va d) He).
  intros A _ _ HD Hpg. destruct (HD d Hd) as (v & Hv & _ & ->). destruct (page_pa v) as (_ & _ & ->); [apply Hpg, Hv|done].
Qed.

Implicit Types (m : @mm P menv).

(** What a fault in an anonymous area leaves: the areas, and either the
    translations of before, or a new cleared page at the page of the address. *)
Definition fault_post m cx c t (pgd : Z) (l : list Z) A fl va prot (r : Z) m' : Prop :=
  let g := me_pg (mm_env m) in
  let g' := me_pg (mm_env m') in
  areas m' cx c t ∧
  ((r = -1 ∧ (∀ w, translate g' pgd w = translate g pgd w) ∧
     ((fl = [] ∧ m' = m) ∨ (no_table g l (va_round_down va) ∧ ∃ pfn rest, fl = pfn :: rest ∧ buddy_inv (mm_bd m') rest))) ∨
   (r = 0 ∧ ∃ pfn rest l' A', fl = pfn :: rest ∧ buddy_inv (mm_bd m') rest ∧
     A ⊆ A' ∧ ctx_ok g' pgd l' A' ∧
     (∀ o, 0 ≤ o < 4096 → bmem (mm_bd m') !! (page_address pfn + o) = Some 0) ∧
     ∀ w, 0 ≤ w < PAGE_OFFSET →
       translate g' pgd w = if decide (w / 4096 = va / 4096) then Some (pte_for pfn prot) else translate g pgd w)).

Lemma areas_same m m' cx c t :
  mm_nodes m' = mm_nodes m → mm_vmas m' = mm_vmas m → mm_ctxs m' = mm_ctxs m → areas m cx c t → areas m' cx c t.
Proof. intros E1 E2 E3 [H1 H2 H3 H4]. split; rewrite /tree_store ?E1 ?E2 ?E3; done. Qed.

(** A page of an anonymous area. *)
Lemma wp_anon_page m fl (Q : option Z → mm → Prop) :
  buddy_inv (mm_bd m) fl →
  (fl = [] → Q None m) →
  (∀ pfn rest b, fl = pfn :: rest → frame_ok pfn → buddy_inv b rest →
     (∀ o, 0 ≤ o < 4096 → bmem b !! (page_address pfn + o) = Some 0) → Q (Some pfn) (set_mm_bd b m)) →
  wp anon_page Q m.
Proof.
  intros Hb H0 H1. apply wp_bind, wp_zoom. eapply wp_alloc_pages; [exact Hb| |].
  - intros ->. replace (set_mm_bd (mm_bd m) m) with m by (by destruct m). apply wp_ret. by apply H0.
  - intros pfn p rest -> Hp Hc. pose proof (bi_frame _ _ Hb _ _ Hp) as Hf.
    rewrite (proj2 (Z.eqb_neq (page_address pfn) NULL)).
    { rewrite page_address_eq // /PAGE_OFFSET /NULL. rewrite /frame_ok in Hf. lia. }
    pose proof (taken_inv _ _ Hb pfn p rest eq_refl Hp) as Hb'.
    apply wp_bind, wp_zoom, wp_zoom, wp_memset.
    { eapply (bi_mapped _ _ Hb'). apply lookup_insert_eq. }
    apply wp_ret. rewrite -{1}(Z.add_0_r (page_address pfn)) virt_to_page_address //.
    apply (H1 pfn rest); [done|done| |].
    + split; try apply Hb'. intros q pq Hq. apply owned_fill. exact (bi_mapped _ _ Hb' q pq Hq).
    + intros o Ho. cbn [bmem set_bmem]. rewrite lookup_fill decide_True //. unfold PAGE_SIZE. lia.
Qed.
(** Mapping through the interface. *)
Lemma wp_env_map m pgd l A page va prot (Q : Z → mm → Prop) :
  ctx_ok (me_pg (mm_env m)) pgd l A → 0 ≤ va < PAGE_OFFSET → 0 ≤ page < 2 ^ 20 →
  (∀ r g, map_post (me_pg (mm_env m)) pgd l A page va prot r g → Q r (set_env (set_me_pg g (mm_env m)) m)) →
  wp (zoom mm_env set_env (Vma.map_page_to_ctx (__pa pgd) page va prot)) Q m.
Proof.
  intros Hok Hva Hp HQ. apply wp_zoom, wp_zoom. eapply wp_mono; [by apply (wp_map_page _ pgd l A)|].
  intros r g Hg. by apply HQ.
Qed.

(** The part of [mm_pagefault] after the lookup. *)
Lemma wp_lookup_area m cx c t a x va fuel (Q : Z → mm → Prop) :
  areas m cx c t → (height t < fuel)%nat → a ∈ inorder t → mm_vmas m !! a = Some x →
  vma_begin x ≤ va < vma_end x → (∀ b y, b ∈ inorder t → mm_vmas m !! b = Some y → vma_end y ≠ va) →
  Q a m → wp (lookup_vma fuel cx va) Q m.
Proof.
  intros Har Hf Ha Hx Hva Hne HQ. destruct (lookup_vma_spec m cx c t va fuel Har Hf) as (r & E & _ & _ & Hr).
  rewrite /wp E (Hr a x Ha Hx Hva Hne). exact HQ.
Qed.

Lemma pagefault_anon m cx c t a x pgd l A fl va prot fuel :
  areas m cx c t → (height t < fuel)%nat → a ∈ inorder t → mm_vmas m !! a = Some x →
  vma_begin x ≤ va < vma_end x → (∀ b y, b ∈ inorder t → mm_vmas m !! b = Some y → vma_end y ≠ va) →
  vma_ino x = NULL → Z.land (vma_prot x) prot ≠ 0 → 0 ≤ va < PAGE_OFFSET →
  mc_pgd c = __pa pgd → ctx_ok (me_pg (mm_env m)) pgd l A → buddy_inv (mm_bd m) fl →
  ∃ r m', mm_pagefault fuel cx va prot m = Ret (r, m') ∧ fault_post m cx c t pgd l A fl va prot r m'.
Proof.
  intros Har Hf Ha Hx Hva Hne Hino Hprot Hu Hpgd Hok Hb. apply wp_elim.
  assert (a ≠ NULL) as Hn.
  { destruct Har as [_ Hr _ _]. apply (rep_good _ _ _ Hr). destruct (decide (cnt a t = 0%nat)) as [H0|H0]; [|lia]. by apply cnt_inorder in H0. }
  apply wp_bind. eapply wp_lookup_area; [exact Har|exact Hf|exact Ha|exact Hx|exact Hva|exact Hne|].
  rewrite (proj2 (Z.eqb_neq _ _) Hn). apply wp_bind. eapply wp_ld_vma; [exact Hx|].
  rewrite /ctrue (proj2 (Z.eqb_neq _ _) Hprot) Hino /=. apply wp_bind.
  eapply wp_anon_page; [exact Hb| |].
  - intros ->. apply wp_ret. split; [done|]. left. split; [done|]. split; [done|]. by left.
  - intros pfn rest b -> Hfr Hb' Hz. apply wp_bind. eapply wp_ld_ctx; [exact (ar_ctx _ _ _ _ Har)|].
    rewrite Hpgd. destruct (va_round_down_spec va) as [Hrd _]; [rewrite /PAGE_OFFSET in Hu; lia|].
    pose proof (Z.mod_pos_bound va 4096 ltac:(lia)). pose proof (Z.mod_le va 4096 ltac:(lia) ltac:(lia)).
    apply wp_bind. eapply wp_env_map; [exact Hok|lia|rewrite /frame_ok in Hfr; lia|].
    intros r g [(-> & Hnt & _ & Htr)|(-> & _ & l' & A' & HA & Hok' & Htr)]; simpl; apply wp_ret.
    + split; [by apply (areas_same m)|]. left. split; [done|]. split; [exact Htr|]. right. split; [exact Hnt|]. by exists pfn, rest.
    + split; [by apply (areas_same m)|]. right. split; [done|]. exists pfn, rest, l', A'.
      split; [done|]. split; [exact Hb'|]. split; [done|]. split; [exact Hok'|]. split; [exact Hz|].
      intros w Hw. rewrite (Htr w Hw). apply decide_ext.
      assert (va_round_down va / 4096 = va / 4096) as ->; [|done].
      rewrite Hrd. replace (va - va mod 4096) with (va / 4096 * 4096) by (pose proof (Z.div_mod va 4096); lia).
      by rewrite Z.div_mul.
Qed.

(** The entry of a page mapped for reading is not writable. *)
Lemma read_only_entry pfn : Z.land (pte_for pfn PROT_READ) PTE_RW = 0.
Proof.
  rewrite /pte_for. change (ctrue (Z.land PROT_READ PROT_WRITE)) with false. cbv iota.
  rewrite Z.land_lor_distr_l. change (Z.land 5 PTE_RW) with 0. rewrite Z.lor_0_r.
  replace (4096 * pfn) with (Z.shiftl pfn 12) by (rewrite Z.shiftl_mul_pow2; lia).
  apply Z.bits_inj'. intros n Hn. rewrite Z.land_spec Z.bits_0. destruct (decide (n < 12)).
  - by rewrite Z.shiftl_spec_low.
  - rewrite (Z.bits_above_log2 PTE_RW); [done|change (Z.log2 PTE_RW) with 1; lia|]. apply andb_false_r.
Qed.

(** C7: A fault inside an anonymous area that permits the access, at an
    address where no area ends ([lookup_vma] takes the end of an area for one of
    its addresses, and there could find the neighbour): the handler returns.
    It fails, and no translation changes, only when there is no free page, or no
    page for a page table, and then the page taken for the area is lost.
    Otherwise it has taken the first free page, cleared it, and
    mapped it at the page of the address with the access that faulted, and the
    translation of every other user address is as before. *)
Theorem mm_pagefault_correct m cx c t a x pgd l A fl va prot fuel :
  areas m cx c t → (height t < fuel)%nat → a ∈ inorder t → mm_vmas m !! a = Some x →
  vma_begin x ≤ va < vma_end x → (∀ b y, b ∈ inorder t → mm_vmas m !! b = Some y → vma_end y ≠ va) →
  vma_ino x = NULL → Z.land (vma_prot x) prot ≠ 0 → 0 ≤ va < PAGE_OFFSET →
  mc_pgd c = __pa pgd → ctx_ok (me_pg (mm_env m)) pgd l A → buddy_inv (mm_bd m) fl →
  ∃ r m', mm_pagefault fuel cx va prot m = Ret (r, m') ∧ fault_post m cx c t pgd l A fl va prot r m'.
Proof. apply pagefault_anon. Qed.
(** ** The exception handlers *)

Definition PAGEFAULT_PROTECTION : Z := Z.shiftl 1 0.
Definition PAGEFAULT_WRITE : Z := Z.shiftl 1 1.
Definition PAGEFAULT_USER : Z := Z.shiftl 1 2.

(** The table [exc] without the names: the kind of an exception, whether the
    processor pushes an error code, and whether [page_fault] is its handler
    (there is no other). *)
Record exc_entry := mk_exc { e_type : Z; e_err : Z; e_page_fault : bool }.
Definition EXC_TYPE_FAULT : Z := 1.
Definition EXC_TYPE_TRAP : Z := 2.
Definition EXC_TYPE_ABORT : Z := 3.
Definition exc : list exc_entry := [
  mk_exc EXC_TYPE_FAULT 0 false; mk_exc EXC_TYPE_TRAP 0 false; mk_exc EXC_TYPE_TRAP 0 false;
  mk_exc EXC_TYPE_TRAP 0 false; mk_exc EXC_TYPE_TRAP 0 false;
  mk_exc EXC_TYPE_FAULT 0 false; mk_exc EXC_TYPE_FAULT 0 false; mk_exc EXC_TYPE_FAULT 0 false;
  mk_exc EXC_TYPE_ABORT 1 false; mk_exc EXC_TYPE_FAULT 0 false;
  mk_exc EXC_TYPE_FAULT 1 false; mk_exc EXC_TYPE_FAULT 1 false; mk_exc EXC_TYPE_FAULT 1 false;
  mk_exc EXC_TYPE_FAULT 1 false; mk_exc EXC_TYPE_FAULT 1 true;
  mk_exc 0 0 false; mk_exc EXC_TYPE_FAULT 0 false; mk_exc EXC_TYPE_FAULT 1 false;
  mk_exc EXC_TYPE_ABORT 0 false; mk_exc EXC_TYPE_FAULT 0 false ].

(** How a handler ends: it returns to the interrupted code, the task exits
    ([_sys_exit]), or the machine stops with interrupts disabled. *)
Inductive exc_end :=
  | Resume (regs : intr_ctx)
  | TaskExit (code : Z)
  | Halted.

(** [page_fault]; [cx] is the context of the task, [va] the value of [cr2],
    [fixups] the table from [__rodata_pagefault] on. *)
Definition page_fault (fuel : nat) (fixups : list (Z * Z)) (cx va : Z) (regs : intr_ctx) : M (@mm P menv) exc_end :=
  let err := r_err_code regs in
  let prot := if ctrue (Z.land err PAGEFAULT_WRITE) then PROT_WRITE else PROT_READ in
  let! r := (if Z.land err PAGEFAULT_PROTECTION =? 0 then mm_pagefault fuel cx va prot else ret (-1)) in
  if r =? 0 then ret (Resume regs) else
  if ctrue (Z.land err PAGEFAULT_USER) then ret (TaskExit (u32 (Z.lnot 0))) else
  match list_find (λ f, fst f = r_eip regs) fixups with
  | Some (_, f) => ret (Resume (set_eip (snd f) regs))
  | None => ret Halted
  end.

(** [exc_handler], with the data selector it gives back. *)
Definition exc_handler (fuel : nat) (fixups : list (Z * Z)) (cx va exc_num : Z) (regs : intr_ctx) : M (@mm P menv) (exc_end * Z) :=
  let! e := deref (exc !! Z.to_nat exc_num) in
  if (e_page_fault e : bool) then
    let! r := page_fault fuel fixups cx va regs in
    match r with
    | Resume regs => let! ds := return_from_intr regs in ret (Resume regs, ds)
    | _ => ret (r, 0)
    end
  else if Z.land (r_cs regs) __CPL3 =? __CPL3 then ret (TaskExit (u32 (Z.lnot 0)), 0)
  else ret (Halted, 0).

(** A task that first reads and then writes a page of an anonymous area it
    may read and write is killed.  The fault of the read, if it succeeds, maps the page without
    the right to write, so the write faults again, as a protection
    violation, and that fault is not resolved but ends the task. *)
Theorem read_then_write_kills m cx c t a x pgd l A fl va fuel fixups regs :
  areas m cx c t → (height t < fuel)%nat → a ∈ inorder t → mm_vmas m !! a = Some x →
  vma_begin x ≤ va < vma_end x → (∀ b y, b ∈ inorder t → mm_vmas m !! b = Some y → vma_end y ≠ va) →
  vma_ino x = NULL → vma_prot x = Z.lor PROT_READ PROT_WRITE → 0 ≤ va < PAGE_OFFSET →
  mc_pgd c = __pa pgd → ctx_ok (me_pg (mm_env m)) pgd l A → buddy_inv (mm_bd m) fl →
  r_err_code regs = PAGEFAULT_USER →
  ∃ r m', page_fault fuel fixups cx va regs m = Ret (r, m') ∧
    (r = TaskExit (2 ^ 32 - 1) ∨
     r = Resume regs ∧
     (∃ pte, translate (me_pg (mm_env m')) pgd va = Some pte ∧ Z.land pte PTE_RW = 0) ∧
     ∀ regs', r_err_code regs' = Z.lor PAGEFAULT_USER (Z.lor PAGEFAULT_WRITE PAGEFAULT_PROTECTION) →
       page_fault fuel fixups cx va regs' m' = Ret (TaskExit (2 ^ 32 - 1), m')).
Proof.
  intros Har Hf Ha Hx Hva Hne Hino Hprot Hu Hpgd Hok Hb Herr. rewrite /page_fault Herr.
  change (ctrue (Z.land PAGEFAULT_USER PAGEFAULT_WRITE)) with false.
  change (Z.land PAGEFAULT_USER PAGEFAULT_PROTECTION =? 0) with true. cbv iota zeta.
  destruct (pagefault_anon m cx c t a x pgd l A fl va PROT_READ fuel) as (r & m' & E & _ & Hpost);
    [exact Har|exact Hf|exact Ha|exact Hx|exact Hva|exact Hne|exact Hino|by rewrite Hprot|exact Hu|exact Hpgd|exact Hok|exact Hb|].
  rewrite /bind E. destruct Hpost as [[-> _]|(-> & pfn & rest & l' & A' & -> & _ & _ & _ & _ & Htr)].
  - exists (TaskExit (2 ^ 32 - 1)), m'. split; [reflexivity|]. by left.
  - exists (Resume regs), m'. split; [reflexivity|]. right. split; [done|]. split.
    + exists (pte_for pfn PROT_READ). rewrite (Htr va Hu) decide_True //. split; [done|]. apply read_only_entry.
    + intros regs' ->. reflexivity.
Qed.
End fault.

(** ** A task with one anonymous area *)

Definition fault_mm0 : @mm opool (@menv pool pool unit) :=
  mk_mm ∅ ∅ {[ 64 := mk_mem_ctx NULL (__pa demo_pgd) 1 ]} [0x100; 0x200] (mk_menv demo_paging ∅ ∅) ex_buddy NULL.
Definition fault_area : vma := mk_vma 0x8048000 0x8049000 (Z.lor PROT_READ PROT_WRITE) 0 NULL.
Definition fault_ctx : mem_ctx := mk_mem_ctx 0x100 (__pa demo_pgd) 1.
(** One page that may be read and written. *)
Definition fault_mm : @mm opool (@menv pool pool unit) :=
  upd_ctxs (λ _, {[ 64 := fault_ctx ]}) (upd_vmas (λ _, {[ 0x100 := fault_area ]})
    (set_nodes {[ 0x100 := mk_rb_node 1 0 0 ]} (set_objs [0x200] fault_mm0))).
Definition fault_tree : tree := Node true Leaf 0x100 Leaf.

Lemma fault_areas : areas fault_mm 64 fault_ctx fault_tree.
Proof.
  split.
  - reflexivity.
  - apply repb_rep. vm_compute. reflexivity.
  - split; [done|]. exists 1%nat. repeat constructor.
  - split; [|repeat constructor]. repeat constructor. exists fault_area. split; [reflexivity|]. simpl. lia.
Qed.

Lemma fault_end b y : b ∈ inorder fault_tree → mm_vmas fault_mm !! b = Some y → vma_end y ≠ 0x8048123.
Proof. intros ->%list_elem_of_singleton Hy. injection Hy as <-. done. Qed.

Lemma mm_pagefault_witness :
  let pread := λ _ _ _ _ : Z, ret 0 in
  let _ := paging_mmu 0xc0000000 pread in
  ∃ r m', mm_pagefault 4 64 0x8048123 PROT_WRITE fault_mm = Ret (r, m') ∧
    fault_post fault_mm 64 fault_ctx fault_tree demo_pgd demo_dir {[ demo_pgd; demo_table ]} [2; 0] 0x8048123 PROT_WRITE r m'.
Proof.
  eapply (mm_pagefault_correct 0xc0000000 (λ _ _ _ _, ret 0) fault_mm 64 fault_ctx fault_tree 0x100 fault_area demo_pgd demo_dir).
  - exact fault_areas.
  - simpl. lia.
  - by apply list_elem_of_singleton.
  - reflexivity.
  - simpl. lia.
  - exact fault_end.
  - reflexivity.
  - done.
  - unfold PAGE_OFFSET. lia.
  - reflexivity.
  - exact demo_ctx_ok.
  - exact ex_buddy_inv.
Defined.

Lemma read_then_write_witness :
  let pread := λ _ _ _ _ : Z, ret 0 in
  let regs := mk_intr_ctx 0 0 0 0 0 0 0 0 4 0x8048000 0x1b 0x200 0x80000000 0x23 in
  ∃ r m', page_fault 0xc0000000 pread 4 [] 64 0x8048123 regs fault_mm = Ret (r, m') ∧
    (r = TaskExit (2 ^ 32 - 1) ∨
     r = Resume regs ∧
     (∃ pte, translate (me_pg (mm_env m')) demo_pgd 0x8048123 = Some pte ∧ Z.land pte PTE_RW = 0) ∧
     ∀ regs', r_err_code regs' = 7 → page_fault 0xc0000000 pread 4 [] 64 0x8048123 regs' m' = Ret (TaskExit (2 ^ 32 - 1), m')).
Proof.
  intros pread regs.
  eapply (read_then_write_kills 0xc0000000 pread fault_mm 64 fault_ctx fault_tree 0x100 fault_area demo_pgd demo_dir).
  - exact fault_areas.
  - simpl. lia.
  - by apply list_elem_of_singleton.
  - reflexivity.
  - simpl. lia.
  - exact fault_end.
  - reflexivity.
  - reflexivity.
  - unfold PAGE_OFFSET. lia.
  - reflexivity.
  - exact demo_ctx_ok.
  - exact ex_buddy_inv.
  - reflexivity.
Defined.
