(* ===== verification/Exec.v ===== *)
(** * Program loading ([kernel/exec.c], the headers of
      [include/scaraOS/elf.h], [task_init_exec] of [arch-ia32/task.c])

    [exec] reads the headers of an ELF file, builds a new memory context with
    an area for each loadable segment and one for the stack, and enters user
    mode in it.  The file system, [kmalloc] and the page tables are reached
    through interfaces; the contents of the two buffers the headers are read
    to, which nobody else sees, are returned by the interface of [pread]. *)
From Stdlib Require Import String.
From stdpp Require Import strings.
From S2P Require Import Prelude Regs PageAlloc ObjAlloc Kmem Buddy Rbtree Vma Ext2.

Open Scope string_scope.
Definition EI_NIDENT : Z := 16.
Definition Elf32_Ehdr : layout := [
  Field "e_ident" 1 EI_NIDENT; Field "e_type" 2 1; Field "e_machine" 2 1; Field "e_version" 4 1;
  Field "e_entry" 4 1; Field "e_phoff" 4 1; Field "e_shoff" 4 1; Field "e_flags" 4 1;
  Field "e_ehsize" 2 1; Field "e_phentsize" 2 1; Field "e_phnum" 2 1; Field "e_shentsize" 2 1;
  Field "e_shnum" 2 1; Field "e_shstrndx" 2 1 ].
Definition Elf32_Phdr : layout := [
  Field "p_type" 4 1; Field "p_offset" 4 1; Field "p_vaddr" 4 1; Field "p_paddr" 4 1;
  Field "p_filesz" 4 1; Field "p_memsz" 4 1; Field "p_flags" 4 1; Field "p_align" 4 1 ].
Close Scope string_scope.

(** The characters of the literal, with its terminator. *)
Definition ELFMAG : list Z := [0x7f; 69; 76; 70; 0].
Definition ET_EXEC : Z := 2.
Definition EM_386 : Z := 3.
Definition PT_LOAD : Z := 1.

Definition USER_STACK_BASE : Z := 0x80000000.
Definition USER_STACK_PAGES : Z := 128.
Definition USER_STACK_SIZE : Z := Z.shiftl USER_STACK_PAGES PAGE_SHIFT.

(** The state [task_init_exec] gives the task before it jumps to it. *)
Definition task_init_exec (this cr3 ip sp : Z) : ia32_tss :=
  let ds := Z.lor __USER_DS __CPL3 in
  mk_tss (u32 (this + PAGE_SIZE)) __KERNEL_DS cr3 ip (Z.shiftl 1 9) 0 sp
    ds (Z.lor __USER_CS __CPL3) ds ds ds ds 0x8000.

(** How [exec] ends: with a value for the caller, or in user mode. *)
Inductive exec_result :=
  | ExecRet (r : Z)
  | ExecUser (tss : ia32_tss).

Class ExecOps (E : Type) := {
  x_strdup_from_user : Z → M E Z;
  x_strdup : Z → M E Z;
  x_namei : Z → M E Z;
  x_pread : Z → Z → Z → M E (Z * list Z);
  x_kmalloc : Z → M E Z;
  x_kfree : Z → M E unit;
  use_ctx : Z → M E unit
}.

Section exec.
Context {P E : Type} `{!ObjOps P, !MmuOps E, !ExecOps E}.
(** The bytes that follow the literal [ELFMAG] in the kernel image. *)
Context (after_elfmag : list Z).

(** [x_ctx] is the [ctx] of the calling task, [x_this] the task. *)
Record exec_st := mk_exec_st { x_mm : @mm P E; x_ctx : Z; x_this : Z }.
Definition set_x_mm (m : mm) (s : exec_st) : exec_st := mk_exec_st m (x_ctx s) (x_this s).
Definition set_x_ctx (c : Z) (s : exec_st) : exec_st := mk_exec_st (x_mm s) c (x_this s).

Abbreviation X := (M exec_st).
Definition on_mm {A} (k : M (@mm P E) A) : X A := zoom x_mm set_x_mm k.
Definition on_files {A} (k : M E A) : X A := on_mm (zoom mm_env set_env k).

(** The loop over the program headers; [ph] is the offset of the next one in
    the buffer. *)
Fixpoint load_loop (fuel : nat) (buf : list Z) (entsize : Z) (n : nat) (ph ctx inode : Z) : M (@mm P E) Z :=
  match n with
  | O => ret 0
  | S n =>
    let fld x := deref (field_of Elf32_Phdr x buf ph) in
    let! p_type := fld "p_type"%string in
    if negb (p_type =? PT_LOAD) then load_loop fuel buf entsize n (ph + entsize) ctx inode else
    let! p_filesz := fld "p_filesz"%string in
    let! p_vaddr := fld "p_vaddr"%string in
    let! p_memsz := fld "p_memsz"%string in
    let! p_offset := fld "p_offset"%string in
    let! r := (if ctrue p_filesz then
        setup_vma fuel ctx p_vaddr p_memsz (Z.lor PROT_READ PROT_EXEC) inode p_offset
      else setup_vma fuel ctx p_vaddr p_memsz (Z.lor PROT_READ PROT_WRITE) NULL 0) in
    if ctrue r then ret (-1) else load_loop fuel buf entsize n (ph + entsize) ctx inode
  end.

(** The loop, then the stack. *)
Definition load_all (fuel : nat) (buf : list Z) (entsize : Z) (n : nat) (ctx inode : Z) : M (@mm P E) Z :=
  let! r := load_loop fuel buf entsize n 0 ctx inode in
  if ctrue r then ret (-1) else
  let! r := setup_vma fuel ctx (USER_STACK_BASE - USER_STACK_SIZE) USER_STACK_SIZE
              (Z.lor PROT_READ PROT_WRITE) NULL 0 in
  if ctrue r then ret (-1) else ret 0.

(** From [mem_ctx_new] on. *)
Definition exec_load (fuel : nat) (buf : list Z) (entsize : Z) (n : nat) (inode phbuf entry : Z) : X exec_result :=
  let! ctx := on_mm mem_ctx_new in
  if ctx =? NULL then do! on_files (x_kfree phbuf) then ret (ExecRet (-1)) else
  let! r := on_mm (load_all fuel buf entsize n ctx inode) in
  if ctrue r then
    do! on_mm (mem_ctx_put fuel ctx) then
    do! on_files (x_kfree phbuf) then
    ret (ExecRet (-1))
  else
  do! on_files (x_kfree phbuf) then
  let! c := on_mm (ld_ctx ctx) in
  do! on_files (use_ctx (mc_pgd c)) then
  let! s := get in
  do! on_mm (mem_ctx_put fuel (x_ctx s)) then
  do! modify (set_x_ctx ctx) then
  let! c := on_mm (ld_ctx ctx) in
  ret (ExecUser (task_init_exec (x_this s) (mc_pgd c) entry USER_STACK_BASE)).

(** [do_exec] once the name is resolved and its buffer is freed. *)
Definition exec_file (fuel : nat) (inode : Z) : X exec_result :=
  let! rd := on_files (x_pread inode (sizeof Elf32_Ehdr) 0) in
  if (fst rd <=? 0) || negb (u32 (fst rd) =? sizeof Elf32_Ehdr) then ret (ExecRet (-1)) else
  let fld x := deref (field_of Elf32_Ehdr x (snd rd) 0) in
  if bool_decide (take (Z.to_nat EI_NIDENT) (snd rd) = take (Z.to_nat EI_NIDENT) (ELFMAG ++ after_elfmag))
  then ret (ExecRet (-1)) else
  let! e_type := fld "e_type"%string in
  if negb (e_type =? ET_EXEC) then ret (ExecRet (-1)) else
  let! e_machine := fld "e_machine"%string in
  if negb (e_machine =? EM_386) then ret (ExecRet (-1)) else
  let! e_phentsize := fld "e_phentsize"%string in
  if e_phentsize <? sizeof Elf32_Phdr then ret (ExecRet (-1)) else
  let! e_phnum := fld "e_phnum"%string in
  let! e_phoff := fld "e_phoff"%string in
  let! e_entry := fld "e_entry"%string in
  let phbufsz := u32 (e_phentsize * e_phnum) in
  let! phbuf := on_files (x_kmalloc phbufsz) in
  if phbuf =? NULL then ret (ExecRet (-1)) else
  let! rd := on_files (x_pread inode phbufsz e_phoff) in
  if (fst rd <=? 0) || negb (u32 (fst rd) =? phbufsz) then
    do! on_files (x_kfree phbuf) then ret (ExecRet (-1))
  else
  exec_load fuel (snd rd) e_phentsize (Z.to_nat e_phnum) inode phbuf e_entry.

Definition do_exec (fuel : nat) (path : Z) : X exec_result :=
  let! inode := on_files (x_namei path) in
  if inode =? NULL then do! on_files (x_kfree path) then ret (ExecRet (-1)) else
  do! on_files (x_kfree path) then
  exec_file fuel inode.

Definition sys_exec (fuel : nat) (path : Z) : X exec_result :=
  let! kpath := on_files (x_strdup_from_user path) in
  if kpath =? NULL then ret (ExecRet (-1)) else do_exec fuel kpath.
Definition kernel_exec (fuel : nat) (path : Z) : X exec_result :=
  let! kpath := on_files (x_strdup path) in
  if kpath =? NULL then ret (ExecRet (-1)) else do_exec fuel kpath.
End exec.
