(* ===== verification/ExecProps.v ===== *)
(** * Program loading: the areas are the segments of the file

    A failed [exec] leaves the task as it was and gives back every object it
    took; one that succeeds has one area for each loadable segment, and the
    stack. *)
From Stdlib Require Import String.
From stdpp Require Import strings.
From S2P Require Import Prelude Regs PageAlloc ObjAlloc Kmem Buddy.
From S2P Require Import Rbtree RbtreeRep RbtreeInsert RbtreeErase RbtreeWalk Vma VmaProps VmaFree Ext2 Ext2Props Exec.

(** ** Segments *)

Record seg := mk_seg { sg_va : Z; sg_len : Z; sg_prot : Z; sg_ino : Z; sg_off : Z }.
Definition sg_lo (s : seg) : Z := va_round_down (sg_va s).
Definition sg_hi (s : seg) : Z := va_round_up (sg_va s + sg_len s).
Definition seg_ok (s : seg) : Prop :=
  0 ≤ sg_va s ∧ 0 ≤ sg_len s ∧ sg_va s + sg_len s ≤ 2 ^ 32 - 4096 ∧
  (sg_ino s = NULL ∨ u32 (sg_off s - sg_va s mod 4096) mod 4096 = 0).
Definition disjoint_segs (s1 s2 : seg) : Prop := sg_hi s1 ≤ sg_lo s2 ∨ sg_hi s2 ≤ sg_lo s1.
Definition seg_mapped (vm : gmap Z vma) (a : Z) (s : seg) : Prop :=
  ∃ x, vm !! a = Some x ∧ mapped (sg_va s) (sg_len s) (sg_prot s) (sg_ino s) (sg_off s) x.

Definition stack_seg : seg :=
  mk_seg (USER_STACK_BASE - USER_STACK_SIZE) USER_STACK_SIZE (Z.lor PROT_READ PROT_WRITE) NULL 0.

(** The loadable segments of a table of [n] headers. *)
Definition phdr_seg (buf : list Z) (ph inode : Z) : option (option seg) :=
  let fld x := field_of Elf32_Phdr x buf ph in
  ty ← fld "p_type"%string;
  filesz ← fld "p_filesz"%string;
  va ← fld "p_vaddr"%string;
  memsz ← fld "p_memsz"%string;
  off ← fld "p_offset"%string;
  Some (if ty =? PT_LOAD then
      Some (if ctrue filesz then mk_seg va memsz (Z.lor PROT_READ PROT_EXEC) inode off
            else mk_seg va memsz (Z.lor PROT_READ PROT_WRITE) NULL 0)
    else None).
Fixpoint segments (buf : list Z) (entsize : Z) (n : nat) (ph inode : Z) : option (list seg) :=
  match n with
  | O => Some []
  | S n =>
    s ← phdr_seg buf ph inode;
    rest ← segments buf entsize n (ph + entsize) inode;
    Some (match s with Some s => s :: rest | None => rest end)
  end.

(** The area of a mapped segment is exactly the segment, rounded to pages. *)
Lemma mapped_bounds s x : seg_ok s → mapped (sg_va s) (sg_len s) (sg_prot s) (sg_ino s) (sg_off s) x →
  vma_begin x = sg_lo s ∧ vma_end x = sg_hi s.
Proof.
  intros (H1 & H2 & H3 & _) (Hb & [He1 He2] & Hem & _). rewrite /sg_lo /sg_hi.
  destruct (va_round_down_spec (sg_va s)) as [Hd _]; [lia|].
  destruct (va_round_up_spec (sg_va s + sg_len s)) as [Hu1 Hu2]; [lia|].
  split; [lia|].
  assert (vma_end x = 4096 * (vma_end x / 4096)) by (apply Z.div_exact; [lia|done]).
  assert (va_round_up (sg_va s + sg_len s) = 4096 * (va_round_up (sg_va s + sg_len s) / 4096)) by (apply Z.div_exact; [lia|lia]).
  lia.
Qed.

(** What the headers of a file describe: the entry point and the loadable
    segments. *)
Definition elf_segments (f : list Z) (inode : Z) : option (Z * list seg) :=
  let fld x := field_of Elf32_Ehdr x (take (Z.to_nat (sizeof Elf32_Ehdr)) f) 0 in
  ty ← fld "e_type"%string;
  mach ← fld "e_machine"%string;
  ents ← fld "e_phentsize"%string;
  num ← fld "e_phnum"%string;
  phoff ← fld "e_phoff"%string;
  entry ← fld "e_entry"%string;
  let tbl := take (Z.to_nat (ents * num)) (drop (Z.to_nat phoff) f) in
  if (ty =? ET_EXEC) && (mach =? EM_386) && (sizeof Elf32_Phdr <=? ents) && (0 <? num) &&
     bool_decide (Z.of_nat (length tbl) = ents * num) then
    segs ← segments tbl ents (Z.to_nat num) 0 inode;
    Some (entry, segs)
  else None.

(** The segments can be mapped beside each other and the stack. *)
Definition loadable (segs : list seg) : Prop :=
  Forall seg_ok segs ∧ StronglySorted disjoint_segs (segs ++ [stack_seg]).

Lemma stack_seg_ok : seg_ok stack_seg.
Proof. split_and!; [by vm_compute..|by left]. Qed.

Lemma le_bound (l : list Z) w o v : Forall (λ b, 0 ≤ b < 256) l → le l w o = Some v → 0 ≤ v < 256 ^ Z.of_nat w.
Proof.
  intros Hl. revert o v. induction w as [|w IH]; intros o v; cbn [le]; [intros [= <-]; done|].
  destruct (o <? 0); [done|]. simpl. destruct (l !! Z.to_nat o) as [b|] eqn:Eb; [|done]. simpl.
  destruct (le l w (o + 1)) as [h|] eqn:Eh; [|done]. simpl. intros [= <-].
  specialize (IH _ _ Eh). rewrite Forall_lookup in Hl. specialize (Hl _ _ Eb). simpl in Hl.
  rewrite Nat2Z.inj_succ Z.pow_succ_r; [lia|]. nia.
Qed.

Lemma phdr_seg_total buf ph inode : 0 ≤ ph → ph + 32 ≤ Z.of_nat (length buf) → is_Some (phdr_seg buf ph inode).
Proof.
  intros H0 Hl.
  assert (∀ o, 0 ≤ o ≤ 28 → is_Some (le buf 4 (ph + o + 4 * 0))) as Hle by (intros o Ho; apply le_is_Some; lia).
  rewrite /phdr_seg.
  change (field_of Elf32_Phdr "p_type" buf ph) with (le buf 4 (ph + 0 + 4 * 0)).
  change (field_of Elf32_Phdr "p_filesz" buf ph) with (le buf 4 (ph + 16 + 4 * 0)).
  change (field_of Elf32_Phdr "p_vaddr" buf ph) with (le buf 4 (ph + 8 + 4 * 0)).
  change (field_of Elf32_Phdr "p_memsz" buf ph) with (le buf 4 (ph + 20 + 4 * 0)).
  change (field_of Elf32_Phdr "p_offset" buf ph) with (le buf 4 (ph + 4 + 4 * 0)).
  destruct (Hle 0) as [a ->]; [lia|]. destruct (Hle 16) as [b ->]; [lia|]. destruct (Hle 8) as [c ->]; [lia|].
  destruct (Hle 20) as [d ->]; [lia|]. destruct (Hle 4) as [e ->]; [lia|]. by eexists.
Qed.

Lemma segments_total buf entsize n ph inode :
  0 ≤ ph → 32 ≤ entsize → ph + entsize * Z.of_nat n ≤ Z.of_nat (length buf) → is_Some (segments buf entsize n ph inode).
Proof.
  revert ph. induction n as [|n IH]; intros ph H0 He Hl; simpl; [by eexists|].
  destruct (phdr_seg_total buf ph inode) as [o ->]; [done|nia|]. simpl.
  destruct (IH (ph + entsize)) as [r ->]; [lia|done|nia|]. simpl. by eexists.
Qed.

Lemma ehdr_fields (h : list Z) : length h = 52%nat → Forall (λ b, 0 ≤ b < 256) h →
  ∃ ty mach ents num phoff entry,
    field_of Elf32_Ehdr "e_type" h 0 = Some ty ∧ field_of Elf32_Ehdr "e_machine" h 0 = Some mach ∧
    field_of Elf32_Ehdr "e_phentsize" h 0 = Some ents ∧ field_of Elf32_Ehdr "e_phnum" h 0 = Some num ∧
    field_of Elf32_Ehdr "e_phoff" h 0 = Some phoff ∧ field_of Elf32_Ehdr "e_entry" h 0 = Some entry ∧
    0 ≤ ents < 65536 ∧ 0 ≤ num < 65536 ∧ 0 ≤ phoff.
Proof.
  intros Hl Hb.
  change (field_of Elf32_Ehdr "e_type" h 0) with (le h 2 16). change (field_of Elf32_Ehdr "e_machine" h 0) with (le h 2 18).
  change (field_of Elf32_Ehdr "e_phentsize" h 0) with (le h 2 42). change (field_of Elf32_Ehdr "e_phnum" h 0) with (le h 2 44).
  change (field_of Elf32_Ehdr "e_phoff" h 0) with (le h 4 28). change (field_of Elf32_Ehdr "e_entry" h 0) with (le h 4 24).
  destruct (le_is_Some h 2 16) as [a Ea]; [lia..|]. destruct (le_is_Some h 2 18) as [b Eb]; [lia..|].
  destruct (le_is_Some h 2 42) as [c Ec]; [lia..|]. destruct (le_is_Some h 2 44) as [d Ed]; [lia..|].
  destruct (le_is_Some h 4 28) as [e Ee]; [lia..|]. destruct (le_is_Some h 4 24) as [f Ef]; [lia..|].
  pose proof (le_bound _ _ _ _ Hb Ec). pose proof (le_bound _ _ _ _ Hb Ed). pose proof (le_bound _ _ _ _ Hb Ee).
  exists a, b, c, d, e, f. split_and!; try done; lia.
Qed.

Section exec.
Context {P E : Type} `{!ObjOps P, !ObjSpec P, !MmuOps E, !ExecOps E}.
Implicit Types (m : @mm P E) (t : tree).

(** ** The loop as a sequence of [setup_vma] *)

Fixpoint setup_all (fuel : nat) (ctx : Z) (l : list seg) : M (@mm P E) Z :=
  match l with
  | [] => ret 0
  | s :: l =>
    let! r := setup_vma fuel ctx (sg_va s) (sg_len s) (sg_prot s) (sg_ino s) (sg_off s) in
    if ctrue r then ret (-1) else setup_all fuel ctx l
  end.

Lemma load_loop_setup fuel buf entsize n ph ctx inode l m :
  segments buf entsize n ph inode = Some l →
  load_loop fuel buf entsize n ph ctx inode m = setup_all fuel ctx l m.
Proof.
  revert ph l m. induction n as [|n IH]; intros ph l m; simpl; [by intros [= <-]|].
  destruct (phdr_seg buf ph inode) as [s|] eqn:Es; [|done]. simpl.
  destruct (segments buf entsize n (ph + entsize) inode) as [rest|] eqn:Er; [|done]. simpl. intros [= <-].
  revert Es. rewrite /phdr_seg /bind.
  destruct (field_of Elf32_Phdr "p_type" buf ph) as [ty|]; [simpl|done].
  destruct (field_of Elf32_Phdr "p_filesz" buf ph) as [fs|]; [simpl|done].
  destruct (field_of Elf32_Phdr "p_vaddr" buf ph) as [va|]; [simpl|done].
  destruct (field_of Elf32_Phdr "p_memsz" buf ph) as [ms|]; [simpl|done].
  destruct (field_of Elf32_Phdr "p_offset" buf ph) as [off|]; [simpl|done].
  intros [= <-]. destruct (ty =? PT_LOAD); simpl; [|by apply IH].
  rewrite /bind. destruct (ctrue fs); simpl; destruct (setup_vma _ _ _ _ _ _ _ m) as [[r m1]| | | |]; try done;
    (destruct (ctrue r); [done|by apply IH]).
Qed.

Lemma load_all_setup fuel buf entsize n ctx inode l m :
  segments buf entsize n 0 inode = Some l →
  load_all fuel buf entsize n ctx inode m = setup_all fuel ctx (l ++ [stack_seg]) m.
Proof.
  intros Hl. rewrite /load_all /bind (load_loop_setup _ _ _ _ _ _ _ _ _ Hl). clear Hl.
  revert m. induction l as [|s l IH]; intros m; simpl.
  - rewrite /bind. by destruct (setup_vma _ _ _ _ _ _ _ m) as [[r m1]| | | |].
  - rewrite /bind. destruct (setup_vma _ _ _ _ _ _ _ m) as [[r m1]| | | |]; [|done..].
    destruct (ctrue r); [done|]. apply IH.
Qed.
Context {spec : MmuSpec E}.

(** The context [cx] while it is built: [new] are the areas added to those of
    [t], [l] the segments they map. *)
Definition built m cx c t (A I D : gset Z) (new : list Z) m' : Prop :=
  ∃ c' t', areas m' cx c' t' ∧ (∃ r, c' = set_root r c) ∧
    inorder t' ≡ₚ inorder t ++ new ∧ NoDup new ∧ (∀ a, a ∈ new → a ∉ A) ∧
    objs_live (mm_objs m') (list_to_set new ∪ A) ∧ env_ok (mm_env m') I D ∧
    (∀ d, d ≠ cx → mm_ctxs m' !! d = mm_ctxs m !! d) ∧
    (∀ a, a ∉ inorder t' → mm_nodes m' !! a = mm_nodes m !! a) ∧
    (∀ a, a ∉ new → mm_vmas m' !! a = mm_vmas m !! a).

Lemma height_size t : (height t ≤ length (inorder t))%nat.
Proof. induction t as [|c l IHl a r IHr]; simpl; [lia|]. rewrite length_app /=. lia. Qed.

Lemma wp_setup_all fuel l m cx c t A I D :
  areas m cx c t → objs_live (mm_objs m) A → (∀ a, a ∈ inorder t → a ∈ A) → env_ok (mm_env m) I D →
  (length (inorder t) + length l < fuel)%nat →
  Forall seg_ok l → Forall (λ s, sg_ino s = NULL ∨ sg_ino s ∈ I) l → StronglySorted disjoint_segs l →
  (∀ a s, a ∈ inorder t → s ∈ l → apart (mm_vmas m) (sg_lo s) (sg_hi s) a) →
  wp (setup_all fuel cx l) (λ r m', ∃ new, built m cx c t A I D new m' ∧ (length new ≤ length l)%nat ∧
    (r = -1 ∨ r = 0 ∧ Forall2 (seg_mapped (mm_vmas m')) new l)) m.
Proof.
  revert m c t A. induction l as [|s l IH]; intros m c t A Har Ho HA He Hf Hok Hin Hdj Hap.
  { apply wp_ret. exists []. split; [|split; [done|right; split; [done|constructor]]]. exists c, t.
    rewrite app_nil_r union_empty_l_L. split; [done|]. split; [exists (mc_vmas c); by destruct c|].
    split; [done|]. split; [constructor|]. split; [set_solver|]. split_and!; done. }
  apply Forall_cons in Hok as [Hs Hok]. apply Forall_cons in Hin as [Hi Hin].
  apply StronglySorted_inv in Hdj as [Hdj Hdj1]. destruct Hs as (Hs1 & Hs2 & Hs3 & Hs4).
  assert (mapping_ok m (sg_va s) (sg_ino s) (sg_off s)) as Hmok.
  { destruct (decide (sg_ino s = NULL)) as [E0|E0]; [by left|]. right. split; [by destruct Hs4|].
    destruct Hi as [?|Hi]; [done|]. eapply wp_mono; [exact (env_iref _ I D _ He Hi)|]. by intros r e' [-> _]. }
  apply wp_bind. eapply wp_mono.
  { apply (wp_setup_vma m cx c t A); [done|done|done| |done|done|done|exact Hmok|].
    - pose proof (height_size t). simpl in Hf. lia.
    - intros a Ha. apply Hap; set_solver. }
  intros r m1 [(-> & (p & _ & ->) & Har1 & Ho1)|(-> & v & x & c1 & t1 & pre & post & Hv & Ho1 & Har1 & Et & Et1 & Evm & Hx & Hfr)].
  { simpl. apply wp_ret. exists []. split; [|split; [simpl; lia|by left]]. exists c, t. rewrite app_nil_r union_empty_l_L.
    split; [done|]. split; [exists (mc_vmas c); by destruct c|]. split; [done|]. split; [constructor|].
    split; [by intros a Ha%not_elem_of_nil|]. split_and!; done. }
  destruct Hfr as ([rt Ec1] & Ectx & Ebd & Enodes & Eenv). simpl.
  assert (env_ok (mm_env m1) I D) as He1.
  { destruct (Z.eqb_spec (sg_ino s) NULL) as [E0|E0]; [by rewrite Eenv|]. destruct Hi as [?|Hi]; [done|].
    pose proof (env_iref _ I D _ He Hi) as Hw. rewrite /wp Eenv in Hw. apply Hw. }
  assert (inorder t1 ≡ₚ v :: inorder t) as Ep by (rewrite Et1 Et; symmetry; apply Permutation_middle).
  destruct (mapped_bounds s x) as [Hb1 Hb2]; [done|done|].
  eapply wp_mono; [apply (IH m1 c1 t1 ({[ v ]} ∪ A)); [done|done| |done| |done|done|done|]|].
  - intros a Ha. rewrite Ep in Ha. apply elem_of_cons in Ha as [->|Ha]; [set_solver|]. apply HA in Ha. set_solver.
  - apply Permutation_length in Ep. rewrite Ep /=. simpl in Hf. lia.
  - intros a s' Ha Hs'. rewrite Ep in Ha. rewrite Evm. apply elem_of_cons in Ha as [->|Ha].
    + exists x. rewrite lookup_insert_eq Hb1 Hb2. split; [done|]. rewrite Forall_forall in Hdj1.
      destruct (Hdj1 s' Hs'); [by right|by left].
    + apply apart_outside; [intros ->; by apply Hv, HA|]. apply Hap; set_solver.
  - intros r m2 (new & (c2 & t2 & Har2 & [r2 Ec2] & Ep2 & Hnd & Hfresh & Ho2 & He2 & Hk1 & Hk2 & Hk3) & Hlen & Hr).
    exists (v :: new). assert (v ∉ new) as Hvn by (intros Hvn; apply (Hfresh v Hvn); set_solver).
    split.
    + exists c2, t2. split; [done|]. split; [exists r2; rewrite Ec2 Ec1; done|].
      split; [rewrite Ep2 Ep; simpl; apply Permutation_middle|].
      split; [by apply NoDup_cons|]. split; [intros a [->|Ha]%elem_of_cons; [done|]; specialize (Hfresh a Ha); set_solver|].
      split.
      { replace (list_to_set (v :: new) ∪ A) with (list_to_set new ∪ ({[ v ]} ∪ A)); [done|]. rewrite list_to_set_cons. set_solver. }
      split; [done|]. split; [intros d Hd; rewrite (Hk1 d Hd) Ectx; apply lookup_insert_ne; congruence|].
      split.
      * intros a Ha. rewrite (Hk2 a Ha). apply Enodes. intros Hin1. apply Ha. rewrite Ep2. set_solver.
      * intros a Ha. rewrite (Hk3 a); [set_solver|]. rewrite Evm. apply lookup_insert_ne. set_solver.
    + split; [simpl; lia|]. destruct Hr as [->|[-> HF]]; [by left|]. right. split; [done|]. constructor; [|done].
      exists x. rewrite (Hk3 v Hvn) Evm lookup_insert_eq. done.
Qed.
(** ** From [mem_ctx_new] on *)

(** [mem_ctx_new]: an empty context with one reference. *)
Lemma wp_mem_ctx_new m A I D (Q : Z → mm → Prop) :
  objs_live (mm_objs m) A → env_ok (mm_env m) I D →
  (∀ p e, objs_live p A → env_ok e I D → Q NULL (set_env e (set_objs p m))) →
  (∀ cx d p e, cx ≠ NULL → cx ∉ A → objs_live p ({[ cx ]} ∪ A) → d ∉ D → env_ok e I ({[ d ]} ∪ D) →
     Q cx (upd_ctxs (insert cx (mk_mem_ctx NULL d 1)) (set_env e (set_objs p m)))) →
  wp mem_ctx_new Q m.
Proof.
  intros Ho He H0 H1. apply wp_bind, wp_zoom. eapply wp_mono; [exact (objs_alloc _ _ memctx_cache Ho)|].
  intros cx p [[-> Ho']|(Hr & H4 & Hcx & Ho')].
  { apply wp_ret. replace (set_objs p m) with (set_env (mm_env m) (set_objs p m)) by (by destruct m). by apply H0. }
  assert (cx ≠ NULL) as Hn by (unfold NULL; lia). rewrite (proj2 (Z.eqb_neq _ _) Hn).
  apply wp_bind, wp_zoom. eapply wp_mono; [exact (env_new _ _ _ He)|]. intros [d|] e' He'.
  - apply wp_bind, wp_modify, wp_ret. destruct He' as [Hd He']. by apply H1.
  - apply wp_bind, wp_zoom. eapply wp_mono; [apply (objs_free _ _ memctx_cache cx Ho'); set_solver|].
    intros [] q Hq. apply wp_ret. replace (set_objs q (set_env e' (set_objs p m))) with (set_env e' (set_objs q m)) by (by destruct m).
    apply H0; [|done]. by replace (({[cx]} ∪ A) ∖ {[cx]}) with A in Hq by set_solver.
Qed.
(** The state in which the new context [cx] is built and the old one is still
    there. *)
Record both_live m (old : Z) (c : mem_ctx) t (A I D : gset Z) (cx d : Z) (c' : mem_ctx) t' (new : list Z) : Prop := {
  bl_old : ctx_live m old c t A D;
  bl_cx : cx ∉ A;
  bl_d : d ∉ D;
  bl_new : areas m cx c' t';
  bl_c' : mc_pgd c' = d ∧ mc_count c' = 1;
  bl_perm : inorder t' ≡ₚ new;
  bl_fresh a : a ∈ new → a ∉ {[ cx ]} ∪ A;
  bl_objs : objs_live (mm_objs m) (list_to_set new ∪ ({[ cx ]} ∪ A));
  bl_env : env_ok (mm_env m) I ({[ d ]} ∪ D)
}.

Lemma wp_build m old c t A I D cx d p e fuel segs :
  ctx_live m old c t A D → cx ∉ A → cx ≠ NULL → objs_live p ({[ cx ]} ∪ A) → d ∉ D → env_ok e I ({[ d ]} ∪ D) →
  Forall seg_ok segs → Forall (λ x, sg_ino x = NULL ∨ sg_ino x ∈ I) segs → StronglySorted disjoint_segs segs →
  (length segs < fuel)%nat →
  wp (setup_all fuel cx segs) (λ r m', ∃ c' t' new, both_live m' old c t A I D cx d c' t' new ∧
      (length new ≤ length segs)%nat ∧ (r = -1 ∨ r = 0 ∧ Forall2 (seg_mapped (mm_vmas m')) new segs))
    (upd_ctxs (insert cx (mk_mem_ctx NULL d 1)) (set_env e (set_objs p m))).
Proof.
  intros [Har Hold Hobj Hpgd] Hcx Hn Ho Hd He Hok Hin Hdj Hf.
  set (m1 := upd_ctxs _ _). set (c1 := mk_mem_ctx NULL d 1).
  assert (areas m1 cx c1 Leaf) as Har1.
  { split; [apply lookup_insert_eq| |split; [done|by exists 0%nat; constructor]|split; constructor].
    split; [done|done|by simpl; lia|by simpl; lia|done]. }
  eapply wp_mono; [apply (wp_setup_all fuel segs m1 cx c1 Leaf ({[ cx ]} ∪ A) I ({[ d ]} ∪ D)); try done|].
  - by intros a Ha%not_elem_of_nil.
  - by intros a s Ha%not_elem_of_nil.
  - intros r m2 (new & (c2 & t2 & Har2 & [r2 ->] & Ep & Hnd & Hfr & Ho2 & He2 & Hk1 & Hk2 & Hk3) & Hlen & Hr).
    simpl in Ep. assert (∀ a, a ∈ inorder t → a ∉ new) as Hdis.
    { intros a Ha Hin'. apply (Hfr a Hin'). destruct (Hobj a Ha). set_solver. }
    exists (set_root r2 c1), t2, new. split.
    + split; try done. split; try done.
      apply (areas_frame m); [| |done].
      * rewrite Hk1; [intros ->; done|]. simpl. apply lookup_insert_ne. intros ->. done.
      * intros a Ha. split; [rewrite (Hk2 a); [|done]|rewrite (Hk3 a); [|done]].
        -- rewrite Ep. by apply Hdis.
        -- by apply Hdis.
    + done.
Qed.
(** Giving up: the new context is freed, with everything that was taken for
    it. *)
Lemma wp_unbuild m old c t A I D cx d c' t' new fuel :
  both_live m old c t A I D cx d c' t' new → (height t' < fuel)%nat →
  wp (mem_ctx_put fuel cx) (λ _ m', ctx_live m' old c t A D ∧ objs_live (mm_objs m') A ∧ env_ok (mm_env m') I D) m.
Proof.
  intros [Hold Hcx Hd Hnew [Hc1 Hc2] Hp Hfr Ho He] Hf.
  assert (∀ a, a ∈ inorder t' → a ∈ new) as Hin by (intros a; by rewrite Hp).
  eapply wp_mono; [apply (wp_mem_ctx_put fuel m cx c' t' (list_to_set new ∪ ({[ cx ]} ∪ A)) I ({[ d ]} ∪ D)); [|done|done|done|lia]|].
  - split; [done|set_solver| |rewrite Hc1; set_solver]. intros a Ha%Hin. split; [set_solver|]. specialize (Hfr a Ha). set_solver.
  - intros [] m' Hpost. rewrite /put_post Hc2 /= in Hpost. destruct Hpost as (Ho' & He' & _ & Hctx & Hothers).
    destruct Hold as [Har Hold Hobj Hpgd]. split; [split; [|done..]|split].
    + apply (areas_frame m); [|intros a Ha; apply Hothers|done].
      * apply Hctx. intros ->. done.
      * intros Ha'%Hin. apply (Hfr a Ha'). destruct (Hobj a Ha). set_solver.
    + replace ((list_to_set new ∪ ({[cx]} ∪ A)) ∖ list_to_set (inorder t') ∖ {[cx]}) with A in Ho'; [done|].
      rewrite (list_to_set_perm_L _ _ Hp). clear -Hfr Hcx. apply set_eq. intros a. split.
      * intros Ha. rewrite !elem_of_difference !elem_of_union elem_of_list_to_set elem_of_singleton.
        split; [split; [by right; right|]|by intros ->]. intros Hn. apply (Hfr a Hn). set_solver.
      * rewrite !elem_of_difference !elem_of_union elem_of_singleton. naive_solver.
    + rewrite Hc1 in He'. replace (({[d]} ∪ D) ∖ {[d]}) with D in He'; [done|]. set_solver.
Qed.

(** The objects and directories in use after a reference to the old context is
    dropped: all, or all but its own when it was the last. *)
Definition kept_objs (old : Z) (c : mem_ctx) t (A : gset Z) : gset Z :=
  if mc_count c =? 1 then A ∖ list_to_set (inorder t) ∖ {[ old ]} else A.
Definition kept_dirs (c : mem_ctx) (D : gset Z) : gset Z := if mc_count c =? 1 then D ∖ {[ mc_pgd c ]} else D.

(** Committing: the old context loses a reference, the new one is kept. *)
Lemma wp_commit m old c t A I D cx d c' t' new fuel :
  both_live m old c t A I D cx d c' t' new → (height t < fuel)%nat → 0 < mc_count c < 2 ^ 32 →
  wp (mem_ctx_put fuel old) (λ _ m', areas m' cx c' t' ∧ (∀ a, a ∈ new → mm_vmas m' !! a = mm_vmas m !! a) ∧
    mm_ctxs m' !! old = (if mc_count c =? 1 then None else Some (set_ctx_count (mc_count c - 1) c)) ∧
    objs_live (mm_objs m') (list_to_set new ∪ ({[ cx ]} ∪ kept_objs old c t A)) ∧ env_ok (mm_env m') I ({[ d ]} ∪ kept_dirs c D)) m.
Proof.
  intros [Hold Hcx Hd Hnew _ Hp Hfr Ho He] Hf Hcnt. pose proof Hold as [Har Hin Hobj Hpgd].
  assert (∀ a, a ∈ new → a ∉ inorder t) as Hdis.
  { intros a Ha Ht. apply (Hfr a Ha). destruct (Hobj a Ht). set_solver. }
  assert (old ≠ cx) as Hne by (intros ->; done).
  eapply wp_mono; [apply (wp_mem_ctx_put fuel m old c t (list_to_set new ∪ ({[ cx ]} ∪ A)) I ({[ d ]} ∪ D)); [|done|done|done|done]|].
  - split; [done|set_solver| |set_solver]. intros a Ha. destruct (Hobj a Ha). set_solver.
  - intros [] m' Hpost. rewrite /put_post in Hpost. rewrite /kept_objs /kept_dirs. destruct (mc_count c =? 1).
    + destruct Hpost as (Ho' & He' & Hgone & Hctx & Hothers). split_and!; [|by intros a Ha; apply Hothers, Hdis|done| |].
      * apply (areas_frame m); [|intros a Ha; apply Hothers|done]; [apply Hctx; congruence|]. apply Hdis. by rewrite -Hp.
      * refine (eq_ind _ (objs_live _) Ho' _ _). symmetry. apply set_eq. intros a. rewrite !elem_of_difference !elem_of_union !elem_of_difference !elem_of_list_to_set !elem_of_singleton.
        specialize (Hdis a). specialize (Hfr a). assert (a ∈ inorder t → a ∈ A) by (intros Ha; by apply Hobj).
        assert (a = cx → a ∉ A) by (by intros ->). rewrite elem_of_union elem_of_singleton in Hfr.
        assert (a = old → a ∈ A) by (by intros ->). assert (a = old → a ≠ cx) by congruence. clear -Hdis Hfr H H0 H1 H2.
        destruct (decide (a ∈ new)), (decide (a = cx)), (decide (a ∈ A)), (decide (a ∈ inorder t)), (decide (a = old)); tauto.
      * replace ({[d]} ∪ D ∖ {[mc_pgd c]}) with (({[d]} ∪ D) ∖ {[mc_pgd c]}); [done|]. set_solver.
    + subst m'. split_and!; [|done|apply lookup_insert_eq|done|done].
      apply (areas_frame m); [by apply lookup_insert_ne|done|done].
Qed.
Lemma segments_ino buf entsize n ph inode l :
  segments buf entsize n ph inode = Some l → Forall (λ x, sg_ino x = NULL ∨ sg_ino x = inode) l.
Proof.
  revert ph l. induction n as [|n IH]; intros ph l; simpl; [intros [= <-]; constructor|].
  destruct (phdr_seg buf ph inode) as [o|] eqn:Eo; [|done]. simpl.
  destruct (segments buf entsize n (ph + entsize) inode) as [r|] eqn:Er; [|done]. simpl. intros [= <-].
  specialize (IH _ _ Er). destruct o as [x|]; [|done]. constructor; [|done]. revert Eo. rewrite /phdr_seg.
  destruct (field_of Elf32_Phdr "p_type" buf ph) as [ty|]; [simpl|done].
  destruct (field_of Elf32_Phdr "p_filesz" buf ph) as [fs|]; [simpl|done].
  destruct (field_of Elf32_Phdr "p_vaddr" buf ph) as [va|]; [simpl|done].
  destruct (field_of Elf32_Phdr "p_memsz" buf ph) as [ms|]; [simpl|done].
  destruct (field_of Elf32_Phdr "p_offset" buf ph) as [off|]; [simpl|done].
  destruct (ty =? PT_LOAD); [|done]. destruct (ctrue fs); intros [= <-]; [by right|by left].
Qed.

End exec.

(** ** The whole call *)

Section files.
Context {P E : Type} `{!ObjOps P, !ObjSpec P, !MmuOps E, !ExecOps E}.
(** The laws of the environment while the buffers [H] of the heap are in use. *)
Context {heap : gset Z → MmuSpec E}.
Implicit Types (s : @exec_st P E) (t : tree).
Local Abbreviation hok H := (@env_ok E _ (heap H)).

(** What [exec] needs of the file system and of the heap: [file_bytes] are the
    contents of an inode, [resolves p i] says that the name at [p] is one of [i]. *)
Class ExecSpec := {
  file_bytes : Z → list Z;
  resolves : Z → Z → Prop;
  file_bytes_ok i : Forall (λ b, 0 ≤ b < 256) (file_bytes i);
  x_namei_ok e H I D p : hok H e I D →
    wp (x_namei p) (λ i e', (i = NULL ∧ hok H e' I D) ∨ (i ≠ NULL ∧ resolves p i ∧ hok H e' ({[ i ]} ∪ I) D)) e;
  x_pread_ok e H I D i len off : hok H e I D → i ∈ I → 0 ≤ len < 2 ^ 31 → 0 ≤ off →
    wp (x_pread i len off) (λ r e', hok H e' I D ∧
      (fst r < 0 ∨ snd r = take (Z.to_nat len) (drop (Z.to_nat off) (file_bytes i)) ∧ fst r = Z.of_nat (length (snd r)))) e;
  x_kmalloc_ok e H I D sz : hok H e I D →
    wp (x_kmalloc sz) (λ v e', (v = NULL ∧ hok H e' I D) ∨ (v ≠ NULL ∧ v ∉ H ∧ sz < 2 ^ 31 ∧ hok ({[ v ]} ∪ H) e' I D)) e;
  x_kfree_ok e H I D v : hok H e I D → v ∈ H → wp (x_kfree v) (λ _ e', hok (H ∖ {[ v ]}) e' I D) e;
  use_ctx_ok e H I D d : hok H e I D → d ∈ D → wp (use_ctx d) (λ _ e', hok H e' I D) e
}.
Context {files : ExecSpec}.

(** The calling task holds a reference to its context. *)
Record exec_pre s (c : mem_ctx) t (A H I D : gset Z) : Prop := {
  ep_live : ctx_live (x_mm s) (x_ctx s) c t A D;
  ep_count : 0 < mc_count c < 2 ^ 32;
  ep_objs : objs_live (mm_objs (x_mm s)) A;
  ep_env : hok H (mm_env (x_mm s)) I D
}.

(** The task runs in a new context; the old one has lost a reference.  Of
    objects, buffers and directories just those of the new context have been taken. *)
Definition exec_done s (c : mem_ctx) t (A H I D : gset Z) (entry : Z) (segs : list seg) (tss : ia32_tss) s' : Prop :=
  ∃ c' t' new, x_ctx s' ∉ A ∧ areas (x_mm s') (x_ctx s') c' t' ∧ mc_count c' = 1 ∧ inorder t' ≡ₚ new ∧
    Forall2 (seg_mapped (mm_vmas (x_mm s'))) new (segs ++ [stack_seg]) ∧
    tss = task_init_exec (x_this s) (mc_pgd c') entry USER_STACK_BASE ∧
    mm_ctxs (x_mm s') !! x_ctx s = (if mc_count c =? 1 then None else Some (set_ctx_count (mc_count c - 1) c)) ∧
    objs_live (mm_objs (x_mm s')) (list_to_set new ∪ ({[ x_ctx s' ]} ∪ kept_objs (x_ctx s) c t A)) ∧
    hok H (mm_env (x_mm s')) I ({[ mc_pgd c' ]} ∪ kept_dirs c D).

Definition exec_post s c t A H I D entry segs (r : exec_result) s' : Prop :=
  (r = ExecRet (-1) ∧ x_ctx s' = x_ctx s ∧ exec_pre s' c t A H I D) ∨
  (∃ tss, r = ExecUser tss ∧ exec_done s c t A H I D entry segs tss s').

(** An operation on files, for a state that is otherwise to be left alone. *)
Lemma wp_files s c t A H I D {B} (k : M E B) (Q : B → exec_st → Prop) (R : B → gset Z → gset Z → Prop) :
  exec_pre s c t A H I D → wp k (λ b e', ∃ H' I', R b H' I' ∧ hok H' e' I' D) (mm_env (x_mm s)) →
  (∀ b H' I' e', R b H' I' → exec_pre (set_x_mm (set_env e' (x_mm s)) s) c t A H' I' D →
     Q b (set_x_mm (set_env e' (x_mm s)) s)) →
  wp (on_files k) Q s.
Proof.
  intros [[Har H2 H3 H4] Hc Ho He] Hk HQ. apply wp_zoom, wp_zoom. eapply wp_mono; [exact Hk|]. intros b e' (H' & I' & HR & He').
  eapply HQ; [exact HR|]. split; [split|..]; try done. by apply (areas_frame (x_mm s)).
Qed.
Lemma wp_xfree s c t A H I D v (Q : unit → exec_st → Prop) :
  exec_pre s c t A H I D → v ∈ H →
  (∀ e, exec_pre (set_x_mm (set_env e (x_mm s)) s) c t A (H ∖ {[ v ]}) I D → Q tt (set_x_mm (set_env e (x_mm s)) s)) →
  wp (on_files (x_kfree v)) Q s.
Proof.
  intros Hp Hv HQ. eapply (wp_files s c t A H I D _ _ (λ _ H' I', H' = H ∖ {[ v ]} ∧ I' = I)); [exact Hp| |].
  - eapply wp_mono; [exact (x_kfree_ok _ _ _ _ v (ep_env _ _ _ _ _ _ _ Hp) Hv)|]. intros [] e' He'. by exists (H ∖ {[ v ]}), I.
  - intros [] H' I' e' [-> ->] Hp'. by apply HQ.
Qed.
Lemma wp_xread s c t A H I D i len off (Q : Z * list Z → exec_st → Prop) :
  exec_pre s c t A H I D → i ∈ I → 0 ≤ len < 2 ^ 31 → 0 ≤ off →
  (∀ rd e, exec_pre (set_x_mm (set_env e (x_mm s)) s) c t A H I D →
     (fst rd < 0 ∨ snd rd = take (Z.to_nat len) (drop (Z.to_nat off) (file_bytes i)) ∧ fst rd = Z.of_nat (length (snd rd))) →
     Q rd (set_x_mm (set_env e (x_mm s)) s)) →
  wp (on_files (x_pread i len off)) Q s.
Proof.
  intros Hp Hi Hl Ho HQ. eapply (wp_files s c t A H I D _ _ (λ rd H' I', H' = H ∧ I' = I ∧
    (fst rd < 0 ∨ snd rd = take (Z.to_nat len) (drop (Z.to_nat off) (file_bytes i)) ∧ fst rd = Z.of_nat (length (snd rd))))); [exact Hp| |].
  - eapply wp_mono; [exact (x_pread_ok _ _ _ _ i len off (ep_env _ _ _ _ _ _ _ Hp) Hi Hl Ho)|]. intros rd e' [He' Hr]. by exists H, I.
  - intros rd H' I' e' (-> & -> & Hr) Hp'. by apply HQ.
Qed.

(** The buffer of the program headers is freed on every path. *)
Lemma wp_exec_load s c t A H I D fuel buf entsize n inode phbuf entry segs :
  exec_pre s c t A H I D → phbuf ∈ H → inode ∈ I → segments buf entsize n 0 inode = Some segs →
  Forall seg_ok (segs ++ [stack_seg]) → StronglySorted disjoint_segs (segs ++ [stack_seg]) →
  (S (length segs) < fuel)%nat → (height t < fuel)%nat →
  wp (exec_load fuel buf entsize n inode phbuf entry) (exec_post s c t A (H ∖ {[ phbuf ]}) I D entry segs) s.
Proof.
  intros Hpre Hph Hi Hsegs Hok Hdj Hf Hft. pose proof Hpre as [Hlive Hcnt Ho He].
  assert (∀ s1, exec_pre s1 c t A H I D → x_ctx s1 = x_ctx s →
    wp (do! on_files (x_kfree phbuf) then ret (ExecRet (-1))) (exec_post s c t A (H ∖ {[ phbuf ]}) I D entry segs) s1) as Hfail.
  { intros s1 Hs1 Hx. apply wp_bind. eapply wp_xfree; [exact Hs1|done|]. intros e' Hp. apply wp_ret. left. by split_and!. }
  apply wp_bind, wp_zoom. eapply (wp_mem_ctx_new (spec := heap H)); [exact Ho|exact He| |].
  { intros p e Hop Hoe. simpl. apply Hfail; [|done]. destruct Hlive as [Har H2 H3 H4]. split; [split|..]; try done.
    by apply (areas_frame (x_mm s)). }
  intros cx d p e Hn Hcx Hop Hd Hoe. rewrite (proj2 (Z.eqb_neq _ _) Hn). apply wp_bind, wp_zoom. simpl.
  rewrite /wp (load_all_setup _ _ _ _ _ _ _ _ Hsegs). eapply wp_mono.
  { eapply (wp_build (spec := heap H) (x_mm s) (x_ctx s) c t A I D cx d p e fuel); try done; [|rewrite length_app /=; lia].
    apply Forall_app. split; [|by constructor; [left|constructor]].
    eapply Forall_impl; [exact (segments_ino _ _ _ _ _ _ Hsegs)|]. intros x [->| ->]; [by left|by right]. }
  intros r m1 (c' & t' & new & Hboth & Hlen & Hr). rewrite length_app /= in Hlen.
  destruct Hr as [->|[-> Hmap]]; simpl.
  - apply wp_bind, wp_zoom. simpl. eapply wp_mono; [eapply (wp_unbuild _ _ _ _ _ _ _ _ _ _ _ _ fuel Hboth)|].
    { pose proof (height_size t'). pose proof (Permutation_length (bl_perm _ _ _ _ _ _ _ _ _ _ _ _ Hboth)). lia. }
    intros [] m2 (Hl2 & Ho2 & He2). apply Hfail; [|done]. by split.
  - apply wp_bind, wp_zoom, wp_zoom. simpl. pose proof Hboth as [Hold _ _ Hnew [Hc1 Hc2] Hperm Hfr Ho1 He1].
    eapply wp_mono; [exact (x_kfree_ok _ _ _ _ phbuf He1 Hph)|]. intros [] e1 He1'.
    apply wp_bind, wp_zoom. eapply wp_ld_ctx; [exact (ar_ctx _ _ _ _ Hnew)|].
    apply wp_bind, wp_zoom, wp_zoom. simpl. eapply wp_mono; [apply (use_ctx_ok _ _ _ _ (mc_pgd c') He1'); rewrite Hc1; set_solver|].
    intros [] e2 He2. apply wp_bind, wp_gets. apply wp_bind, wp_zoom. simpl. eapply wp_mono.
    { eapply (wp_commit (spec := heap (H ∖ {[ phbuf ]})) _ (x_ctx s) c t A I D cx d c' t' new fuel); [|done|done].
      destruct Hboth as [Hold' B2 B3 B4 B5 B6 B7 B8 _]. destruct Hold' as [L1 L2 L3 L4].
      split; [split; [|done..]|done|done| |done|done|done|done|exact He2]; by apply (areas_frame m1). }
    intros [] m2 (Har2 & Hvm & Hold2 & Ho2 & He2'). apply wp_bind, wp_modify. apply wp_bind, wp_zoom.
    eapply wp_ld_ctx; [exact (ar_ctx _ _ _ _ Har2)|]. apply wp_ret. right. eexists. split; [reflexivity|].
    exists c', t', new. simpl. rewrite Hc1. split_and!; try done.
    apply Forall2_same_length_lookup. apply Forall2_same_length_lookup in Hmap as [Hl Hm]. split; [done|].
    intros i a x Ha Hx. destruct (Hm i a x Ha Hx) as (y & Hy & Hym). exists y. split; [|done].
    rewrite Hvm //. by apply list_elem_of_lookup_2 in Ha.
Qed.
(** ** The headers *)

(** The reference [namei] took is kept in either case. *)
Definition do_exec_post s c t A H I D (path : Z) (r : exec_result) s' : Prop :=
  (r = ExecRet (-1) ∧ x_ctx s' = x_ctx s ∧
     ∃ I', (I' = I ∨ ∃ i, resolves path i ∧ I' = {[ i ]} ∪ I) ∧ exec_pre s' c t A (H ∖ {[ path ]}) I' D) ∨
  (∃ i entry segs tss, resolves path i ∧ elf_segments (file_bytes i) i = Some (entry, segs) ∧
     r = ExecUser tss ∧ exec_done s c t A (H ∖ {[ path ]}) ({[ i ]} ∪ I) D entry segs tss s').

(** A read that was not refused has given all that was asked for. *)
Lemma read_whole (rd : Z * list Z) n l :
  0 ≤ n < 2 ^ 31 → (fst rd < 0 ∨ snd rd = l ∧ fst rd = Z.of_nat (length (snd rd))) → (length l ≤ Z.to_nat n)%nat →
  (fst rd <=? 0) || negb (u32 (fst rd) =? n) = false → snd rd = l ∧ Z.of_nat (length l) = n ∧ 0 < n.
Proof.
  destruct rd as [f b]. simpl. intros Hn Hr Hl [H1 H2]%orb_false_elim. apply Z.leb_gt in H1. apply negb_false_iff, Z.eqb_eq in H2.
  destruct Hr as [?|[-> Hf]]; [lia|]. rewrite u32_id in H2; [lia|]. split; [done|lia].
Qed.

Section body.
Context (s : @exec_st P E) (c : mem_ctx) (t : tree) (A H I D : gset Z) (fuel : nat) (path i : Z).
Hypothesis Hres : resolves path i.
Hypothesis Hft : (height t < fuel)%nat.
Hypothesis Hload : ∀ entry segs, elf_segments (file_bytes i) i = Some (entry, segs) → loadable segs ∧ (S (length segs) < fuel)%nat.
Let H1 := H ∖ {[ path ]}.
Let I1 := {[ i ]} ∪ I.

Lemma exec_fail_ret s1 : x_ctx s1 = x_ctx s → exec_pre s1 c t A H1 I1 D → wp (ret (ExecRet (-1))) (do_exec_post s c t A H I D path) s1.
Proof. intros Hx Hp. apply wp_ret. left. split_and!; [done|done|]. exists I1. split; [right; by exists i|done]. Qed.

(** From the buffer for the program headers on. *)
Lemma wp_exec_phdrs s1 ents num phoff entry :
  x_ctx s1 = x_ctx s → x_this s1 = x_this s → exec_pre s1 c t A H1 I1 D →
  32 ≤ ents < 65536 → 0 ≤ num < 65536 → 0 ≤ phoff →
  (∀ segs, let tbl := take (Z.to_nat (ents * num)) (drop (Z.to_nat phoff) (file_bytes i)) in
     0 < num → Z.of_nat (length tbl) = ents * num → segments tbl ents (Z.to_nat num) 0 i = Some segs →
     elf_segments (file_bytes i) i = Some (entry, segs)) →
  wp (let! phbuf := on_files (x_kmalloc (ents * num)) in
      if phbuf =? NULL then ret (ExecRet (-1)) else
      let! rd := on_files (x_pread i (ents * num) phoff) in
      if (fst rd <=? 0) || negb (u32 (fst rd) =? ents * num) then
        do! on_files (x_kfree phbuf) then ret (ExecRet (-1))
      else exec_load fuel (snd rd) ents (Z.to_nat num) i phbuf entry) (do_exec_post s c t A H I D path) s1.
Proof.
  intros Ex Et Hp3 Hents Hnum Hoff Helf. assert (i ∈ I1) as Hi by set_solver. apply wp_bind.
  eapply (wp_files _ c t A H1 I1 D _ _ (λ v H' I', I' = I1 ∧ (v = NULL ∧ H' = H1 ∨ v ≠ NULL ∧ v ∉ H1 ∧ ents * num < 2 ^ 31 ∧ H' = {[ v ]} ∪ H1))); [exact Hp3| |].
  { eapply wp_mono; [exact (x_kmalloc_ok _ _ _ _ _ (ep_env _ _ _ _ _ _ _ Hp3))|].
    intros v e' [[-> He]|(Hv & Hn & Hsz & He)]; [exists H1, I1|exists ({[ v ]} ∪ H1), I1]; naive_solver. }
  intros v H' I' e4 [-> [[-> ->]|(Hvn & Hv & Hsz & ->)]] Hp4; [by apply exec_fail_ret|]. rewrite (proj2 (Z.eqb_neq _ _) Hvn).
  assert (({[ v ]} ∪ H1) ∖ {[ v ]} = H1) as EH by set_solver. assert (v ∈ {[ v ]} ∪ H1) as Hvi by set_solver.
  apply wp_bind. eapply wp_xread; [exact Hp4|exact Hi|nia|done|]. intros rd2 e5 Hp5 Hrd2. cbn [set_x_mm x_mm set_env x_ctx x_this] in Hp5 |- *.
  destruct ((fst rd2 <=? 0) || negb (u32 (fst rd2) =? ents * num)) eqn:Erd2.
  { apply wp_bind. eapply wp_xfree; [exact Hp5|exact Hvi|]. intros e6 Hp6. rewrite EH in Hp6. by apply exec_fail_ret. }
  destruct (read_whole rd2 (ents * num) _ ltac:(nia) Hrd2 ltac:(rewrite length_take; lia) Erd2) as (Eb2 & Hlb2 & Hpos). rewrite Eb2.
  destruct (segments_total (take (Z.to_nat (ents * num)) (drop (Z.to_nat phoff) (file_bytes i))) ents (Z.to_nat num) 0 i)
    as [segs Hsegs]; [done|lia|rewrite Hlb2; nia|].
  specialize (Helf segs ltac:(nia) Hlb2 Hsegs). destruct (Hload entry segs Helf) as [[Hok Hdj] Hfl].
  eapply wp_mono; [eapply (wp_exec_load _ c t A _ I1 D fuel); [exact Hp5|exact Hvi|exact Hi|exact Hsegs| |exact Hdj|done|done]|].
  - apply Forall_app. split; [done|]. constructor; [exact stack_seg_ok|constructor].
  - rewrite EH. intros r s' [(-> & Hx & Hp)|(tss & -> & Hd)].
    + left. split_and!; [done|by rewrite Hx|]. exists I1. split; [right; by exists i|done].
    + right. exists i, entry, segs, tss. rewrite /exec_done /= Ex Et in Hd. done.
Qed.

(** From the ELF header on. *)
Lemma wp_exec_header after s1 : x_ctx s1 = x_ctx s → x_this s1 = x_this s → exec_pre s1 c t A H1 I1 D →
  wp (exec_file after fuel i) (do_exec_post s c t A H I D path) s1.
Proof.
  intros Ex Et Hp2. assert (i ∈ I1) as Hi by set_solver. rewrite /exec_file.
  apply wp_bind. eapply wp_xread; [exact Hp2|exact Hi|done|done|]. intros rd e3 Hp3 Hrd.
  set (s3 := set_x_mm _ _) in Hp3 |- *. assert (wp (ret (ExecRet (-1))) (do_exec_post s c t A H I D path) s3) as Hfail by (by apply exec_fail_ret).
  destruct ((fst rd <=? 0) || negb (u32 (fst rd) =? sizeof Elf32_Ehdr)) eqn:Erd; [exact Hfail|].
  destruct (read_whole rd (sizeof Elf32_Ehdr) _ ltac:(done) Hrd ltac:(rewrite length_take; lia) Erd) as (Eb & Hlb & _).
  rewrite drop_0 in Eb, Hlb. rewrite Eb. case_bool_decide; [exact Hfail|].
  destruct (ehdr_fields (take (Z.to_nat (sizeof Elf32_Ehdr)) (file_bytes i)))
    as (ty & mach & ents & num & phoff & entry & F1 & F2 & F3 & F4 & F5 & F6 & R1 & R2 & R3).
  { change (sizeof Elf32_Ehdr) with 52 in *. lia. }
  { apply Forall_take, file_bytes_ok. }
  apply wp_bind, (wp_deref _ ty); [exact F1|]. destruct (Z.eqb_spec ty ET_EXEC) as [Hty|]; [|exact Hfail]. simpl negb. cbv iota.
  apply wp_bind, (wp_deref _ mach); [exact F2|]. destruct (Z.eqb_spec mach EM_386) as [Hmach|]; [|exact Hfail]. simpl negb. cbv iota.
  apply wp_bind, (wp_deref _ ents); [exact F3|]. destruct (Z.ltb_spec ents (sizeof Elf32_Phdr)) as [|Hents]; [exact Hfail|].
  apply wp_bind, (wp_deref _ num); [exact F4|]. apply wp_bind, (wp_deref _ phoff); [exact F5|]. apply wp_bind, (wp_deref _ entry); [exact F6|].
  rewrite u32_id; [nia|]. change (sizeof Elf32_Phdr) with 32 in Hents.
  apply wp_exec_phdrs; [done|done|done|lia|done|done|]. intros segs tbl Hn Hl Hsegs.
  rewrite /elf_segments F1 F2 F3 F4 F5 F6. cbn [mbind option_bind]. rewrite Hty Hmach.
  rewrite (proj2 (Z.leb_le (sizeof Elf32_Phdr) ents) Hents) (proj2 (Z.ltb_lt 0 num)); [done|].
  rewrite bool_decide_true; [exact Hl|]. cbn [Z.eqb andb]. rewrite Hsegs. reflexivity.
Qed.
End body.

End files.

(** ** A program of two segments *)

Fixpoint le_bytes (w : nat) (v : Z) : list Z :=
  match w with O => [] | S w => v mod 256 :: le_bytes w (v / 256) end.
Definition demo_phdr (type off va filesz memsz : Z) : list Z :=
  mjoin (le_bytes 4 <$> [type; off; va; va; filesz; memsz; 5; 4096]).
Definition demo_elf (va2 : Z) : list Z :=
  [0x7f; 69; 76; 70; 1; 1; 1] ++ replicate 9 0 ++ le_bytes 2 ET_EXEC ++ le_bytes 2 EM_386 ++
  mjoin (le_bytes 4 <$> [1; 0x8048074; 52; 0; 0]) ++ mjoin (le_bytes 2 <$> [52; 32; 2; 0; 0; 0]) ++
  demo_phdr PT_LOAD 0x1074 0x8048074 0x500 0x500 ++ demo_phdr PT_LOAD 0 va2 0 0x2000.

(** An environment with one file, inode 0x900, a pool of directories and a
    heap whose buffers in use are known. *)
Record xenv := mk_xenv { xe_inodes : gset Z; xe_dirs : list Z; xe_heap : gset Z; xe_file : list Z }.
Definition set_xe_heap (h : gset Z) (e : xenv) : xenv := mk_xenv (xe_inodes e) (xe_dirs e) h (xe_file e).
#[export] Instance xenv_mmu : MmuOps xenv := {|
  iref i := λ e, if decide (i ∈ xe_inodes e) then Ret (i, e) else Fault;
  readpage _ _ := ret None;
  map_page_to_ctx _ _ _ _ := ret 0;
  clone_ctx p := ret None;
  setup_new_ctx := λ e, match xe_dirs e with
    | [] => Ret (None, e)
    | d :: l => Ret (Some d, mk_xenv (xe_inodes e) l (xe_heap e) (xe_file e))
    end;
  destroy_ctx d := λ e, Ret (tt, mk_xenv (xe_inodes e) (d :: xe_dirs e) (xe_heap e) (xe_file e))
|}.
#[export] Instance xenv_exec : ExecOps xenv := {|
  x_strdup_from_user p := ret p;
  x_strdup p := ret p;
  x_namei p := λ e, if p =? 0x40 then Ret (0x900, mk_xenv ({[ 0x900 ]} ∪ xe_inodes e) (xe_dirs e) (xe_heap e) (xe_file e)) else Ret (NULL, e);
  x_pread i len off := λ e, let b := take (Z.to_nat len) (drop (Z.to_nat off) (xe_file e)) in Ret ((Z.of_nat (length b), b), e);
  x_kmalloc sz := λ e, if (sz <=? 4096) && bool_decide (0x700 ∉ xe_heap e) then Ret (0x700, set_xe_heap ({[ 0x700 ]} ∪ xe_heap e) e) else Ret (NULL, e);
  x_kfree v := λ e, if decide (v ∈ xe_heap e) then Ret (tt, set_xe_heap (xe_heap e ∖ {[ v ]}) e) else Fault;
  use_ctx _ := ret tt
|}.

Section demo.
Context (f : list Z).

#[export] Program Instance xenv_mmu_spec (H : gset Z) : MmuSpec xenv := {|
  env_ok e I D := I ⊆ xe_inodes e ∧ NoDup (xe_dirs e) ∧ (∀ d, d ∈ xe_dirs e → d ∉ D) ∧ xe_heap e = H ∧ xe_file e = f
|}.
Next Obligation. intros H e I D i (HI & He) Hi. rewrite /wp /=. case_decide; [done|set_solver]. Qed.
Next Obligation.
  intros H [s [|d l] h g] I D (HI & Hnd & Hd & Hf); rewrite /wp /=; [done|]. simpl in *.
  apply NoDup_cons in Hnd as [Hn Hnd]. split; [apply Hd; set_solver|]. split; [done|]. split; [done|]. split; [|done].
  intros d' Hd'. rewrite elem_of_union elem_of_singleton. intros [->|HD]; [done|]. apply (Hd d'); set_solver.
Qed.
Next Obligation.
  intros H e I D d (HI & Hnd & Hd & Hf) Hin. rewrite /wp /=. split; [done|]. split.
  - apply NoDup_cons. split; [|done]. intros Hd'. by apply (Hd d).
  - split; [|done]. intros d' [->|Hd']%elem_of_cons; [set_solver|]. specialize (Hd d' Hd'). set_solver.
Qed.

Context (Hf : Forall (λ b, 0 ≤ b < 256) f).
#[export] Program Instance xenv_exec_spec : ExecSpec (heap := xenv_mmu_spec) := {|
  file_bytes i := f;
  resolves p i := p = 0x40 ∧ i = 0x900
|}.
Next Obligation. done. Qed.
Next Obligation.
  intros e H I D p (HI & He). rewrite /wp /=. destruct (Z.eqb_spec p 0x40); [right|left; done].
  split; [done|]. split; [done|]. split; [set_solver|done].
Qed.
Next Obligation.
  intros e H I D i len off (HI & Hnd & Hd & Hh & He) Hi Hl Ho. rewrite /wp /=. split; [done|]. right. rewrite He. done.
Qed.
Next Obligation.
  intros e H I D sz (HI & Hnd & Hd & Hh & He). rewrite /wp /=. destruct (Z.leb_spec sz 4096); simpl; [|by left].
  case_bool_decide; [|by left]. right. split_and!; [done|congruence|lia|done|done|done|simpl; congruence|done].
Qed.
Next Obligation. intros e H I D v (HI & Hnd & Hd & Hh & He) Hv. rewrite /wp /=. rewrite decide_True; [congruence|]. split_and!; try done. simpl. congruence. Qed.
Next Obligation. done. Qed.
End demo.

(** The path is in a buffer at 0x40. *)
Definition exec_st0 (f : list Z) : @exec_st opool xenv :=
  mk_exec_st (mk_mm ∅ ∅ {[ 64 := mk_mem_ctx NULL 0x1000 1 ]} [0x100; 0x200; 0x300; 0x400; 0x500]
    (mk_xenv ∅ [0x2000; 0x3000] {[ 0x40 ]} f) (mk_buddy ∅ {[ 1 := [] ]} 1 0 ∅) NULL) 64 0xc0200000.

Lemma exec_st0_pre f : exec_pre (heap := xenv_mmu_spec f) (exec_st0 f) (mk_mem_ctx NULL 0x1000 1) Leaf {[ 64 ]} {[ 0x40 ]} ∅ {[ 0x1000 ]}.
Proof.
  split.
  - split; [split|set_solver|by intros a Ha%not_elem_of_nil|set_solver].
    + reflexivity.
    + apply repb_rep. vm_compute. reflexivity.
    + split; [done|]. exists 0%nat. constructor.
    + split; constructor.
  - done.
  - split_and!; [decide_closed| |by intros v ->%elem_of_singleton].
    intros v Hv. split; [|revert v Hv; apply Forall_forall; decide_closed].
    assert (Forall obj_ok [0x100; 0x200; 0x300; 0x400; 0x500]) as HF by (repeat constructor). exact (proj1 (Forall_forall _ _) HF v Hv).
  - split; [done|]. split; [decide_closed|]. split; [|done]. apply Forall_forall. decide_closed.
Qed.

Lemma demo_elf_bytes : Forall (λ b, 0 ≤ b < 256) (demo_elf 0x804a000).
Proof. decide_closed. Qed.


(** Two segments that share a page stop the kernel. *)
Lemma exec_overlap_panics : do_exec (replicate 11 0) 8 0x40 (exec_st0 (demo_elf 0x8048600)) = Bug.
Proof. vm_compute. reflexivity. Qed.

(** The program above runs: it enters user mode at its entry point. *)
Lemma exec_enters_user :
  match do_exec (replicate 11 0) 8 0x40 (exec_st0 (demo_elf 0x804a000)) with
  | Ret (ExecUser tss, s) => (tss_eip tss, tss_esp tss, tss_cr3 tss, x_ctx s) = (0x8048074, 0x80000000, 0x2000, 0x100)
  | _ => False
  end.
Proof. vm_compute. reflexivity. Qed.
