(* ===== verification/Intr.v ===== *)
(** * Interrupt controllers and the interrupt descriptor table
      ([arch-ia32/8259a.c], [arch-ia32/irq.c], the tables of [arch-ia32/idt.c])

    The two controllers are reached through ports: the model keeps the
    sequence of bytes written to them, newest first.  The entry points of the
    assembly stubs are parameters.  The routines run with interrupts disabled
    ([lock_irq]), as one piece. *)
From S2P Require Import Prelude Regs.

(** ** The controllers *)

Definition NUM_PINS : Z := 8.
Definition ICW1_INITIALISE : Z := Z.shiftl 1 4.
Definition ICW1_ICW4 : Z := 1.
Definition ICW1 : Z := Z.lor ICW1_INITIALISE ICW1_ICW4.
Definition ICW4_8086 : Z := 1.
Definition ICW4 : Z := ICW4_8086.
Definition IVECTOR_M : Z := 0x20.
Definition IVECTOR_S : Z := 0x28.
Definition EOI_SPECIFIC : Z := 0x60.
Definition EOI : Z := 0x20.

(** [struct pic]; [p_master] is the index of the master in [pics], and
    [p_cascade] the union of [slave_pins] and [master_pin]. *)
Record pic := mk_pic {
  p_port : Z;
  p_port_imr : Z;
  p_imr : Z;
  p_vector : Z;
  p_master : option nat;
  p_cascade : Z
}.
Definition set_imr (v : Z) (p : pic) : pic :=
  mk_pic (p_port p) (p_port_imr p) v (p_vector p) (p_master p) (p_cascade p).

(** The value of [pics] at start. *)
Definition pics0 : list pic := [
  mk_pic 0x20 0x21 0xFF IVECTOR_M None (Z.shiftl 1 2);
  mk_pic 0xA0 0xA1 0xFF IVECTOR_S (Some 0%nat) 2 ].

(** ** The descriptor table *)

Definition D_INT : Z := 0x0E00.
Definition D_TRAP : Z := 0x0F00.
Definition D_DPL3 : Z := 0x6000.
Definition D_PRESENT : Z := 0x8000.

(** [struct ia32_gate] *)
Record ia32_gate := mk_gate {
  offset_low : Z;
  selector : Z;
  access : Z;
  offset_high : Z
}.

Record intr := mk_intr {
  pics : list pic;
  IDT : list ia32_gate;
  irq_fns : list Z;
  irq_priv : list Z;
  ports : list (Z * Z)
}.
Definition upd_pics (f : list pic → list pic) (s : intr) : intr :=
  mk_intr (f (pics s)) (IDT s) (irq_fns s) (irq_priv s) (ports s).
Definition upd_IDT (f : list ia32_gate → list ia32_gate) (s : intr) : intr :=
  mk_intr (pics s) (f (IDT s)) (irq_fns s) (irq_priv s) (ports s).
Definition upd_irqs (f g : list Z → list Z) (s : intr) : intr :=
  mk_intr (pics s) (IDT s) (f (irq_fns s)) (g (irq_priv s)) (ports s).
Definition upd_ports (f : list (Z * Z) → list (Z * Z)) (s : intr) : intr :=
  mk_intr (pics s) (IDT s) (irq_fns s) (irq_priv s) (f (ports s)).

Abbreviation I := (M intr).

Definition outb (port v : Z) : I unit := modify (upd_ports (cons (port, u8 v))).
Definition ld_pic (i : nat) : I pic := let! s := get in deref (pics s !! i).
Definition st_pic (i : nat) (p : pic) : I unit := modify (upd_pics (insert i p)).

(** The body of the loop of [pic_init]. *)
Definition pic_program (p : pic) : I unit :=
  do! outb (p_port p) ICW1 then
  do! outb (p_port_imr p) (p_vector p) then
  do! outb (p_port_imr p) (p_cascade p) then
  do! outb (p_port_imr p) ICW4 then
  outb (p_port_imr p) (p_imr p).
Definition pic_init : I unit :=
  let! s := get in foldr (λ p m, do! pic_program p then m) (ret tt) (pics s).

(** The recursion follows [master]: its depth is the number of controllers. *)
Fixpoint pic_unmask (fuel : nat) (i : nat) (bit : Z) : I unit :=
  match fuel with
  | O => nofuel
  | S fuel =>
    let! p := ld_pic i in
    do! st_pic i (set_imr (Z.land (p_imr p) (u8 (Z.lnot (Z.shiftl 1 bit)))) p) then
    match p_master p with Some j => pic_unmask fuel j (p_cascade p) | None => ret tt end
  end.
Fixpoint pic_mask (fuel : nat) (i : nat) (bit : Z) : I unit :=
  match fuel with
  | O => nofuel
  | S fuel =>
    let! p := ld_pic i in
    do! st_pic i (set_imr (u8 (Z.lor (p_imr p) (Z.shiftl 1 bit))) p) then
    match p_master p with Some j => pic_mask fuel j (p_cascade p) | None => ret tt end
  end.
Fixpoint pic_sync_imr (fuel : nat) (i : nat) : I unit :=
  match fuel with
  | O => nofuel
  | S fuel =>
    let! p := ld_pic i in
    do! outb (p_port_imr p) (p_imr p) then
    match p_master p with Some j => pic_sync_imr fuel j | None => ret tt end
  end.
Fixpoint pic_eoi_cascade (fuel : nat) (i : nat) (pin : Z) : I unit :=
  match fuel with
  | O => nofuel
  | S fuel =>
    let! p := ld_pic i in
    do! match p_master p with Some j => pic_eoi_cascade fuel j (p_cascade p) | None => ret tt end then
    outb (p_port p) (EOI_SPECIFIC + pin)
  end.
Definition pic_eoi (fuel : nat) (i : nat) : I unit :=
  let! p := ld_pic i in
  do! match p_master p with Some j => pic_eoi_cascade fuel j (p_cascade p) | None => ret tt end then
  outb (p_port p) EOI.

Definition nr_pics : nat := 2.
Definition irq_on (irq : Z) : I unit :=
  if irq <? NUM_PINS then
    do! pic_unmask nr_pics 0 irq then pic_sync_imr nr_pics 0
  else
    do! pic_unmask nr_pics 1 (irq - NUM_PINS) then pic_sync_imr nr_pics 1.
Definition irq_off (irq : Z) : I unit :=
  if irq <? NUM_PINS then
    do! pic_mask nr_pics 0 irq then pic_sync_imr nr_pics 0
  else
    do! pic_mask nr_pics 1 (irq - NUM_PINS) then pic_sync_imr nr_pics 1.
Definition irq_eoi (irq : Z) : I unit :=
  if irq <? NUM_PINS then pic_eoi nr_pics 0 else pic_eoi nr_pics 1.

(** ** Handlers ([arch-ia32/irq.c]) *)

Definition set_irq_handler (irq h priv : Z) : I unit :=
  if (0 <=? irq) && (irq <? 16) then
    modify (upd_irqs (insert (Z.to_nat irq) h) (insert (Z.to_nat irq) priv))
  else ret tt.

(** ** Gates *)

Definition gate_for (handler acc : Z) : ia32_gate :=
  mk_gate (Z.land handler 0xffff) __KERNEL_CS acc (Z.shiftr handler 16).
Definition set_gate (handler intr acc : Z) : I unit :=
  modify (upd_IDT (insert (Z.to_nat intr) (gate_for handler acc))).
Definition idt_exception (handler intr : Z) : I unit := set_gate handler intr (Z.lor D_PRESENT D_TRAP).
Definition idt_interrupt (handler intr : Z) : I unit := set_gate handler intr (Z.lor D_PRESENT D_INT).
Definition idt_user_interrupt (handler intr : Z) : I unit :=
  set_gate handler intr (Z.lor (Z.lor D_PRESENT D_TRAP) D_DPL3).

Section init.
(** The stubs of [intr.S]: [int_null], [_exc<n>], [_irq<n>], [_panic], [_syscall]. *)
Context (int_null : Z) (_exc _irq : Z → Z) (_panic _syscall : Z).

(** The stubs in the order of [idt_init], with the vectors they are given. *)
Definition exc_vectors : list (Z * Z) :=
  (λ n, (n, n)) <$> [0; 1; 2; 3; 4; 5; 6; 7; 8; 9; 10; 11; 12; 13; 14; 16; 17; 18; 19].
Definition irq_vectors : list (Z * Z) := [
  (0, 0x20); (1, 0x21); (2, 0x22); (3, 0x23); (4, 0x24); (5, 0x25); (6, 0x26); (7, 0x27);
  (8, 0x28); (9, 0x29); (10, 0x30); (11, 0x3a); (12, 0x3b); (13, 0x3c); (14, 0x3d); (15, 0x3e) ].

Definition idt_init : I unit :=
  do! foldr (λ count m, do! idt_exception int_null count then m) (ret tt) (seqZ 0 256) then
  do! foldr (λ x m, do! idt_exception (_exc (fst x)) (snd x) then m) (ret tt) exc_vectors then
  do! foldr (λ x m, do! idt_interrupt (_irq (fst x)) (snd x) then m) (ret tt) irq_vectors then
  do! idt_interrupt _panic 0xf0 then
  idt_user_interrupt _syscall 0xff.
End init.

(** ** What the hardware does *)

(** The mask a controller works with is the last byte written to its port. *)
Fixpoint hw_reg (port : Z) (l : list (Z * Z)) : option Z :=
  match l with
  | [] => None
  | (p, v) :: l => if p =? port then Some v else hw_reg port l
  end.

(** The controllers as the kernel has set them up, with masks [im] and [sl]
    that the hardware has, too. *)
Record pics_ok (s : intr) (im sl : Z) : Prop := {
  po_pics : pics s = [ mk_pic 0x20 0x21 im IVECTOR_M None (Z.shiftl 1 2);
                       mk_pic 0xA0 0xA1 sl IVECTOR_S (Some 0%nat) 2 ];
  po_im : 0 ≤ im < 256;
  po_is : 0 ≤ sl < 256;
  po_hw_m : hw_reg 0x21 (ports s) = Some im;
  po_hw_s : hw_reg 0xA1 (ports s) = Some sl
}.

(** The mask of a line, and whether its interrupts reach the processor: those
    of the second controller pass through pin 2 of the first. *)
Definition line_masked (im sl n : Z) : bool :=
  if n <? NUM_PINS then Z.testbit im n else Z.testbit sl (n - NUM_PINS).
Definition delivered (im sl n : Z) : bool :=
  if n <? NUM_PINS then negb (Z.testbit im n) else negb (Z.testbit sl (n - NUM_PINS)) && negb (Z.testbit im 2).
(** The vector the processor is given for a line. *)
Definition vector_of (n : Z) : Z :=
  if n <? NUM_PINS then IVECTOR_M + n else IVECTOR_S + (n - NUM_PINS).

Lemma u8_id x : 0 ≤ x < 256 → u8 x = x.
Proof. intros H. apply Z.mod_small. lia. Qed.
Lemma byte_bits x k : 0 ≤ k < 8 → Z.testbit (u8 x) k = Z.testbit x k.
Proof. intros H. rewrite /u8. apply Z.mod_pow2_bits_low. lia. Qed.
Lemma shift_bit n k : 0 ≤ n → 0 ≤ k → Z.testbit (Z.shiftl 1 n) k = (k =? n).
Proof.
  intros Hn Hk. rewrite Z.shiftl_spec //. destruct (Z.eqb_spec k n) as [->|Hne].
  - by rewrite Z.sub_diag.
  - destruct (decide (k < n)); [by rewrite Z.testbit_neg_r; [lia|]|]. apply (Z.bits_above_log2 1); simpl; lia.
Qed.
Lemma land_byte x y : 0 ≤ x < 256 → 0 ≤ Z.land x y < 256.
Proof.
  intros Hx. change 256 with (2 ^ 8) in *. replace x with (x mod 2 ^ 8) by (apply Z.mod_small; lia).
  rewrite -Z.land_ones // -Z.land_assoc (Z.land_comm (Z.ones 8)) Z.land_assoc Z.land_ones //. by apply Z.mod_pos_bound.
Qed.

Lemma unmask_bits im n : 0 ≤ im < 256 → 0 ≤ n < 8 →
  let v := Z.land im (u8 (Z.lnot (Z.shiftl 1 n))) in
  0 ≤ v < 256 ∧ ∀ k, 0 ≤ k < 8 → Z.testbit v k = Z.testbit im k && negb (k =? n).
Proof.
  intros Hi Hn v. split; [by apply land_byte|]. intros k Hk.
  rewrite /v Z.land_spec byte_bits // Z.lnot_spec; [lia|]. by rewrite shift_bit; [lia..|].
Qed.
Lemma mask_bits im n : 0 ≤ n < 8 →
  let v := u8 (Z.lor im (Z.shiftl 1 n)) in
  0 ≤ v < 256 ∧ ∀ k, 0 ≤ k < 8 → Z.testbit v k = Z.testbit im k || (k =? n).
Proof.
  intros Hn v. split; [apply (u8_range (Z.lor im (Z.shiftl 1 n)))|]. intros k Hk.
  rewrite /v byte_bits // Z.lor_spec. by rewrite shift_bit; [lia..|].
Qed.

(** ** Properties *)

(** Opening a line. *)
Lemma irq_on_line s im sl n :
  pics_ok s im sl → 0 ≤ n < 16 →
  ∃ s' im' sl', irq_on n s = Ret (tt, s') ∧ pics_ok s' im' sl' ∧ delivered im' sl' n = true ∧
    ∀ k, 0 ≤ k < 16 → k ≠ n → (n < 8 ∨ k ≠ 2) → line_masked im' sl' k = line_masked im sl k.
Proof.
  intros [Hp Hm Hs Hwm Hws] Hn. destruct s as [ps idt f pv log]. simpl in *. subst ps.
  rewrite /irq_on. destruct (Z.ltb_spec n NUM_PINS) as [Hlt|Hge]; unfold NUM_PINS in *.
  - destruct (unmask_bits im n Hm ltac:(lia)) as [Hr Hb].
    do 3 eexists. split; [reflexivity|]. split; [split; simpl; [reflexivity|done|done|by rewrite u8_id|done]|]. split.
    + rewrite /delivered (proj2 (Z.ltb_lt n NUM_PINS)) //. rewrite Hb; [lia|]. by rewrite Z.eqb_refl andb_false_r.
    + intros k Hk Hne _. rewrite /line_masked. destruct (Z.ltb_spec k NUM_PINS); [|done]. unfold NUM_PINS in *.
      rewrite Hb; [lia|]. rewrite (proj2 (Z.eqb_neq k n) Hne). apply andb_true_r.
  - destruct (unmask_bits sl (n - 8) Hs ltac:(lia)) as [Hr Hb]. destruct (unmask_bits im 2 Hm ltac:(lia)) as [Hrm Hbm].
    do 3 eexists. split; [reflexivity|]. split; [split; simpl; [reflexivity|done|done|by rewrite u8_id|by rewrite u8_id]|]. split.
    + rewrite /delivered (proj2 (Z.ltb_ge n NUM_PINS)) //. unfold NUM_PINS. rewrite Hb; [lia|]. rewrite Hbm; [lia|].
      by rewrite Z.eqb_refl !andb_false_r.
    + intros k Hk Hne [?|Hk2]; [lia|]. rewrite /line_masked. destruct (Z.ltb_spec k NUM_PINS); unfold NUM_PINS in *.
      * rewrite Hbm; [lia|]. rewrite (proj2 (Z.eqb_neq k 2) Hk2). apply andb_true_r.
      * rewrite Hb; [lia|]. rewrite (proj2 (Z.eqb_neq (k - 8) (n - 8))); [lia|]. apply andb_true_r.
Qed.

(** C37: After [pic_init] every line is masked.  [irq_on] of a line lets its
    interrupts through, the cascade included, and leaves the mask of every other line
    (of pin 2 too, if the line is one of the first controller); the
    controllers always hold the masks the kernel keeps. *)
Theorem irq_on_correct s im sl n :
  pics_ok s im sl → 0 ≤ n < 16 →
  ∃ s' im' sl', irq_on n s = Ret (tt, s') ∧ pics_ok s' im' sl' ∧ delivered im' sl' n = true ∧
    ∀ k, 0 ≤ k < 16 → k ≠ n → (n < 8 ∨ k ≠ 2) → line_masked im' sl' k = line_masked im sl k.
Proof. apply irq_on_line. Qed.

(** [irq_off] of a line of the second controller masks the cascade as
    well: afterwards no interrupt of that controller reaches the processor,
    whatever other lines were on. *)
Theorem irq_off_cascade s im sl n :
  pics_ok s im sl → 8 ≤ n < 16 →
  ∃ s' im' sl', irq_off n s = Ret (tt, s') ∧ pics_ok s' im' sl' ∧
    ∀ k, 8 ≤ k < 16 → delivered im' sl' k = false.
Proof.
  intros [Hp Hm Hs Hwm Hws] Hn. destruct s as [ps idt f pv log]. simpl in *. subst ps.
  rewrite /irq_off (proj2 (Z.ltb_ge n NUM_PINS)); [unfold NUM_PINS; lia|]. unfold NUM_PINS.
  destruct (mask_bits sl (n - 8) ltac:(lia)) as [Hr Hb]. destruct (mask_bits im 2 ltac:(lia)) as [Hrm Hbm].
  do 3 eexists. split; [reflexivity|]. split; [split; simpl; [reflexivity|done|done|by rewrite u8_id|by rewrite u8_id]|].
  intros k Hk. rewrite /delivered (proj2 (Z.ltb_ge k NUM_PINS)); [unfold NUM_PINS; lia|].
  rewrite Hbm; [lia|]. by rewrite orb_true_r andb_false_r.
Qed.

(** ** The descriptor table after [idt_init] *)

(** The address a gate leads to. *)
Definition gate_offset (g : ia32_gate) : Z := offset_low g + Z.shiftl (offset_high g) 16.

Lemma gate_offset_for h acc : gate_offset (gate_for h acc) = h.
Proof.
  rewrite /gate_offset /=. change 0xffff with (Z.ones 16). rewrite Z.land_ones // Z.shiftr_div_pow2 // Z.shiftl_mul_pow2 //.
  rewrite {3}(Z.div_mod h (2 ^ 16)) //. lia.
Qed.

Section idt.
Context (int_null : Z) (_exc _irq : Z → Z) (_panic _syscall : Z).

(** The gate each vector should have: the later assignments of [idt_init]
    win. *)
Definition idt_gate (v : Z) : ia32_gate :=
  if v =? 0xff then gate_for _syscall (Z.lor (Z.lor D_PRESENT D_TRAP) D_DPL3)
  else if v =? 0xf0 then gate_for _panic (Z.lor D_PRESENT D_INT)
  else match list_find (λ x, snd x = v) irq_vectors with
  | Some (_, (n, _)) => gate_for (_irq n) (Z.lor D_PRESENT D_INT)
  | None => match list_find (λ x, snd x = v) exc_vectors with
    | Some (_, (n, _)) => gate_for (_exc n) (Z.lor D_PRESENT D_TRAP)
    | None => gate_for int_null (Z.lor D_PRESENT D_TRAP)
    end
  end.

(** Installing a list of gates, one for a vector. *)
Lemma install_gates (h : Z → Z) acc (xs : list (Z * Z)) s :
  NoDup (snd <$> xs) → Forall (λ x, 0 ≤ snd x < 256) xs → length (IDT s) = 256%nat →
  ∃ s', foldr (λ x m, do! set_gate (h (fst x)) (snd x) acc then m) (ret tt) xs s = Ret (tt, s') ∧
    length (IDT s') = 256%nat ∧ pics s' = pics s ∧
    ∀ v, 0 ≤ v < 256 → IDT s' !! Z.to_nat v =
      match list_find (λ x, snd x = v) xs with
      | Some (_, (n, _)) => Some (gate_for (h n) acc)
      | None => IDT s !! Z.to_nat v
      end.
Proof.
  revert s. induction xs as [|[n w] xs IH]; intros s Hnd Hf Hl; [by exists s|].
  apply Forall_cons in Hf as [Hw Hf]. simpl in Hnd, Hw. apply NoDup_cons in Hnd as [Hni Hnd].
  set (s1 := upd_IDT (insert (Z.to_nat w) (gate_for (h n) acc)) s).
  destruct (IH s1) as (s' & E & Hl' & Hp & Hv); [done|done|simpl; by rewrite length_insert|].
  exists s'. split; [exact E|]. split; [done|]. split; [done|]. intros v Hvr. rewrite (Hv v Hvr).
  cbn [list_find fst snd]. destruct (decide (w = v)) as [->|Hne].
  - destruct (list_find (λ x, x.2 = v) xs) as [[i [n' w']]|] eqn:Ef.
    + apply list_find_Some in Ef as (Hi & Hw' & _). simpl in Hw'. subst w'. exfalso. apply Hni.
      apply list_elem_of_fmap. exists (n', v). split; [done|]. exact (list_elem_of_lookup_2 _ _ _ Hi).
    + simpl. apply list_lookup_insert_eq. lia.
  - destruct (list_find (λ x, x.2 = v) xs) as [[i [n' w']]|] eqn:Ef; [done|]. simpl. apply list_lookup_insert_ne. lia.
Qed.

Lemma install_all h acc s : length (IDT s) = 256%nat →
  ∃ s', foldr (λ c m, do! set_gate h c acc then m) (ret tt) (seqZ 0 256) s = Ret (tt, s') ∧
    length (IDT s') = 256%nat ∧ pics s' = pics s ∧
    ∀ v, 0 ≤ v < 256 → IDT s' !! Z.to_nat v = Some (gate_for h acc).
Proof.
  intros Hl. destruct (install_gates (λ _, h) acc ((λ c, (c, c)) <$> seqZ 0 256) s) as (s' & E & Hl' & Hp & Hv).
  - rewrite -list_fmap_compose. apply NoDup_fmap_2; [by intros ??|apply NoDup_seqZ].
  - apply Forall_fmap, Forall_forall. intros c Hc. apply elem_of_seqZ in Hc. simpl. lia.
  - done.
  - rewrite foldr_fmap in E. exists s'. split; [exact E|]. split; [done|]. split; [done|]. intros v Hvr. rewrite (Hv v Hvr).
    destruct (list_find _ _) as [[i [n w]]|] eqn:Ef; [done|]. apply list_find_None in Ef. rewrite Forall_forall in Ef.
    exfalso. apply (Ef (v, v)); [|done]. apply list_elem_of_fmap. exists v. split; [done|]. apply elem_of_seqZ. lia.
Qed.

Lemma idt_init_gates s : length (IDT s) = 256%nat →
  ∃ s', idt_init int_null _exc _irq _panic _syscall s = Ret (tt, s') ∧ pics s' = pics s ∧
    ∀ v, 0 ≤ v < 256 → IDT s' !! Z.to_nat v = Some (idt_gate v).
Proof.
  intros Hl. rewrite /idt_init /idt_exception /idt_interrupt /idt_user_interrupt.
  destruct (install_all int_null (Z.lor D_PRESENT D_TRAP) s Hl) as (s1 & E1 & Hl1 & Hp1 & H1).
  destruct (install_gates _exc (Z.lor D_PRESENT D_TRAP) exc_vectors s1) as (s2 & E2 & Hl2 & Hp2 & H2);
    [decide_closed|decide_closed|done|].
  destruct (install_gates _irq (Z.lor D_PRESENT D_INT) irq_vectors s2) as (s3 & E3 & Hl3 & Hp3 & H3);
    [decide_closed|decide_closed|done|].
  rewrite /bind E1 E2 E3 /set_gate /modify. eexists. split; [reflexivity|]. split; [simpl; congruence|].
  intros v Hv. simpl. rewrite /idt_gate. destruct (Z.eqb_spec v 0xff) as [->|Hne].
  { apply list_lookup_insert_eq. rewrite length_insert Hl3. apply Nat.ltb_lt. reflexivity. }
  rewrite list_lookup_insert_ne; [lia|]. destruct (Z.eqb_spec v 0xf0) as [->|Hne'].
  { apply list_lookup_insert_eq. rewrite Hl3. apply Nat.ltb_lt. reflexivity. }
  rewrite list_lookup_insert_ne; [lia|]. rewrite (H3 v Hv).
  destruct (list_find (λ x, x.2 = v) irq_vectors) as [[? [? ?]]|]; [done|]. rewrite (H2 v Hv).
  destruct (list_find (λ x, x.2 = v) exc_vectors) as [[? [? ?]]|]; [done|]. by apply H1.
Qed.

(** After [idt_init] the vector the controllers give for each of the lines 0
    to 9 leads to the stub of that line, through an interrupt gate; the
    vectors of the lines 10 to 15 still lead to [int_null], which returns
    without acknowledging the interrupt: the stubs were installed at other
    vectors. *)
Theorem idt_irq_vectors s : length (IDT s) = 256%nat →
  ∃ s', idt_init int_null _exc _irq _panic _syscall s = Ret (tt, s') ∧
    ∀ n, 0 ≤ n < 16 → ∃ g, IDT s' !! Z.to_nat (vector_of n) = Some g ∧ selector g = __KERNEL_CS ∧
      gate_offset g = (if n <=? 9 then _irq n else int_null) ∧
      access g = Z.lor D_PRESENT (if n <=? 9 then D_INT else D_TRAP).
Proof.
  intros Hl. destruct (idt_init_gates s Hl) as (s' & E & _ & Hg). exists s'. split; [exact E|]. intros n Hn.
  assert (n ∈ seqZ 0 16) as Hin by (apply elem_of_seqZ; lia).
  exists (idt_gate (vector_of n)).
  assert (0 ≤ vector_of n < 256) as Hv.
  { rewrite /vector_of /IVECTOR_M /IVECTOR_S /NUM_PINS. destruct (n <? 8); lia. }
  split; [by apply Hg|].
  assert (idt_gate (vector_of n) = gate_for (if n <=? 9 then _irq n else int_null) (Z.lor D_PRESENT (if n <=? 9 then D_INT else D_TRAP))) as ->.
  { clear -Hin. change (seqZ 0 16) with [0; 1; 2; 3; 4; 5; 6; 7; 8; 9; 10; 11; 12; 13; 14; 15] in Hin.
    repeat (apply elem_of_cons in Hin as [->|Hin]; [reflexivity|]). by apply not_elem_of_nil in Hin. }
  split; [reflexivity|]. split; [apply gate_offset_for|reflexivity].
Qed.
End idt.

(** ** The state at start *)

Definition intr0 : intr :=
  mk_intr pics0 (replicate 256 (mk_gate 0 0 0 0)) (replicate 16 0) (replicate 16 0) [].

(** [pic_init] masks every line. *)
Lemma pic_init_ok : ∃ s, pic_init intr0 = Ret (tt, s) ∧ pics_ok s 0xFF 0xFF.
Proof. eexists. split; [reflexivity|]. split; done. Qed.

Lemma irq_on_witness : ∃ s s' im sl, pic_init intr0 = Ret (tt, s) ∧ irq_on 14 s = Ret (tt, s') ∧
  pics_ok s' im sl ∧ delivered im sl 14 = true.
Proof.
  destruct pic_init_ok as (s & E & Hs).
  destruct (irq_on_correct s 0xFF 0xFF 14 Hs ltac:(lia)) as (s' & im & sl & E' & Hok & Hd & _).
  exists s, s', im, sl. done.
Defined.

Lemma irq_off_witness : ∃ s s' im sl, pic_init intr0 = Ret (tt, s) ∧ irq_off 12 s = Ret (tt, s') ∧
  pics_ok s' im sl ∧ delivered im sl 14 = false.
Proof.
  destruct pic_init_ok as (s & E & Hs).
  destruct (irq_off_cascade s 0xFF 0xFF 12 Hs ltac:(lia)) as (s' & im & sl & E' & Hok & Hd).
  exists s, s', im, sl. split; [done|]. split; [done|]. split; [done|]. apply Hd. lia.
Defined.

Lemma idt_irq_witness : ∃ s', idt_init 1 (Z.add 100) (Z.add 200) 2 3 intr0 = Ret (tt, s') ∧
  ∃ g, IDT s' !! 0x2e%nat = Some g ∧ gate_offset g = 1.
Proof.
  destruct (idt_irq_vectors 1 (Z.add 100) (Z.add 200) 2 3 intr0 ltac:(reflexivity)) as (s' & E & H).
  exists s'. split; [exact E|]. destruct (H 14 ltac:(lia)) as (g & Hg & _ & Ho & _). exists g. split; [exact Hg|exact Ho].
Defined.
