(* ===== verification/Boot.v ===== *)
(** * Memory at boot ([arch-ia32/mm.c] up to [ia32_mm_init], the memory map of
      [include/arch-ia32/multiboot.h])

    The kernel sizes up the memory from the map of the boot loader, takes its
    page tables and the page frame array from the boot allocator, marks the
    frames that are not to be used and gives all others to the page allocator.
    The map is a sequence of bytes at [mmap]; a page table is a page of 1024
    words; the page frame array comes into being with the frames of the page
    allocator. *)
From Stdlib Require Import String.
From stdpp Require Import strings.
From S2P Require Import Prelude PageAlloc Kmem Buddy Paging Ext2.

Open Scope string_scope.
Definition memory_map : layout := [
  Field "size" 4 1; Field "base_addr_low" 4 1; Field "base_addr_high" 4 1;
  Field "length_low" 4 1; Field "length_high" 4 1; Field "type" 4 1 ].
Close Scope string_scope.

Definition MBF_MEM : Z := 1.
Definition MBF_BOOTDEV : Z := 2.

(** The fields of an entry that the code uses. *)
Record e820_entry := mk_e820 { e_size : Z; e_base : Z; e_len : Z; e_kind : Z }.

(** The symbols of the linker script. *)
Record kimage := mk_kimage {
  k_begin : Z; k_rodata_end : Z; k_bootmem_begin : Z; k_init_pgd : Z; k_init_pgt : Z
}.

Record boot := mk_boot {
  bootmem_begin : Z;
  bootmem_end : Z;
  bootmem_ptr : Z;
  nr_physpages : Z;
  nr_reserved : Z;
  bt_tables : gmap Z (list Z);
  bt_bd : buddy;
  bt_cr3 : Z
}.
Definition set_bootmem (b e p : Z) (s : boot) : boot :=
  mk_boot b e p (nr_physpages s) (nr_reserved s) (bt_tables s) (bt_bd s) (bt_cr3 s).
Definition set_bootmem_end (e : Z) (s : boot) : boot := set_bootmem (bootmem_begin s) e (bootmem_ptr s) s.
Definition set_bootmem_ptr (p : Z) (s : boot) : boot := set_bootmem (bootmem_begin s) (bootmem_end s) p s.
Definition set_nr_physpages (v : Z) (s : boot) : boot :=
  mk_boot (bootmem_begin s) (bootmem_end s) (bootmem_ptr s) v (nr_reserved s) (bt_tables s) (bt_bd s) (bt_cr3 s).
Definition set_nr_reserved (v : Z) (s : boot) : boot :=
  mk_boot (bootmem_begin s) (bootmem_end s) (bootmem_ptr s) (nr_physpages s) v (bt_tables s) (bt_bd s) (bt_cr3 s).
Definition upd_bt_tables (f : gmap Z (list Z) → gmap Z (list Z)) (s : boot) : boot :=
  mk_boot (bootmem_begin s) (bootmem_end s) (bootmem_ptr s) (nr_physpages s) (nr_reserved s) (f (bt_tables s)) (bt_bd s) (bt_cr3 s).
Definition set_bt_bd (v : buddy) (s : boot) : boot :=
  mk_boot (bootmem_begin s) (bootmem_end s) (bootmem_ptr s) (nr_physpages s) (nr_reserved s) (bt_tables s) v (bt_cr3 s).
Definition set_bt_cr3 (v : Z) (s : boot) : boot :=
  mk_boot (bootmem_begin s) (bootmem_end s) (bootmem_ptr s) (nr_physpages s) (nr_reserved s) (bt_tables s) (bt_bd s) v.

Abbreviation BT := (M boot).
Definition on_bd {A} (m : M buddy A) : BT A := zoom bt_bd set_bt_bd m.

(** Word [i] of the tables that lie one after the other from [t] on. *)
Definition st_entry (t i v : Z) : BT unit :=
  let! s := get in
  let a := t + 4096 * (i / 1024) in
  let! l := deref (bt_tables s !! a) in
  let! _ := deref (l !! Z.to_nat (i mod 1024)) in
  modify (upd_bt_tables (insert a (<[Z.to_nat (i mod 1024) := v]> l))).

(** ** The boot allocator *)

Definition bootmem_alloc (pages : Z) : BT Z :=
  let! s := get in
  let sz := u32 (Z.shiftl pages PAGE_SHIFT) in
  if bootmem_end s <? u32 (bootmem_ptr s + sz) then ret NULL else
  do! modify (set_bootmem_ptr (u32 (bootmem_ptr s + sz))) then
  ret (bootmem_ptr s).

(** What the caller makes of the cleared pages: page tables, or the page frame array. *)
Definition as_tables (t pages : Z) : BT unit :=
  each (Z.to_nat pages) 0 (λ k, modify (upd_bt_tables (insert (t + 4096 * k) zero_table))).
Definition as_pfa : BT unit :=
  let! s := get in
  on_bd (modify (upd_pfa (λ _, list_to_map ((λ i, (i, mk_page 0 0 0)) <$> seqZ 0 (nr_physpages s))))).

(** ** Page tables *)

(** It runs before paging is on, on the physical addresses of the two
    tables. *)
Definition ia32_setup_initmem (pgd pgt : Z) : BT unit :=
  do! modify (upd_bt_tables (insert pgd zero_table)) then
  do! modify (upd_bt_tables (insert pgt zero_table)) then
  do! each (Z.to_nat NR_PTE) 0 (λ i,
    st_entry pgt i (Z.lor (Z.lor (Z.lor (Z.shiftl i PAGE_SHIFT) PTE_PRESENT) PTE_RW) PTE_USER)) then
  do! st_entry pgd 0 (Z.lor (Z.lor (__pa pgt) PDE_PRESENT) PDE_RW) then
  do! st_entry pgd (dir PAGE_OFFSET) (Z.lor (Z.lor (Z.lor (__pa pgt) PDE_PRESENT) PDE_RW) PDE_USER) then
  modify (set_bt_cr3 (__pa pgd)).

Definition map_ram (pgdir pgtbl : Z) : BT unit :=
  let! s := get in
  let n := Z.to_nat (nr_physpages s) in
  do! st_entry pgdir 0 0 then
  do! each n 0 (λ i, st_entry pgtbl i (Z.lor (Z.lor (Z.shiftl i PAGE_SHIFT) PTE_PRESENT) PTE_RW)) then
  do! each n 0 (λ i,
    if ctrue (Z.land i 0x3ff) then ret tt else
    st_entry pgdir (dir (__va (Z.shiftl i PAGE_SHIFT)))
      (Z.lor (Z.lor (__pa (pgtbl + 4 * i)) PDE_PRESENT) PDE_RW)) then
  modify (λ s, set_bt_cr3 (bt_cr3 s) s).

Definition write_protect (pgtbl vptr len : Z) : BT unit :=
  let pa_begin := Z.land (__pa vptr) (u32 (Z.lnot PAGE_MASK)) in
  let pa_end := Z.land (u32 (u32 (pa_begin + len) + PAGE_MASK)) (u32 (Z.lnot PAGE_MASK)) in
  let pb := Z.shiftr pa_begin PAGE_SHIFT in
  let pe := Z.shiftr pa_end PAGE_SHIFT in
  do! each (Z.to_nat (pe - pb)) pb (λ i, st_entry pgtbl i (Z.lor (Z.shiftl i PAGE_SHIFT) PTE_PRESENT)) then
  modify (λ s, set_bt_cr3 (bt_cr3 s) s).

(** ** The map of the boot loader *)

Section e820.
(** The bytes of the map, and their address. *)
Context (mmap : list Z) (base : Z).

(** The tests each of the loops begins with: none when it ends here. *)
Definition e820_next (addr fin : Z) : BT (option e820_entry) :=
  let fld x := deref (field_of memory_map x mmap (addr - base)) in
  if fin <? u32 (addr + 4) then ret None else
  let! size := fld "size"%string in
  if fin <? u32 (addr + size + 4) then ret None else
  let! b := fld "base_addr_low"%string in
  if u32 (-1 - PAGE_OFFSET) <? b then ret None else
  let! len := fld "length_low"%string in
  let! kind := fld "type"%string in
  ret (Some (mk_e820 size b len kind)).

(** [for(;;)] over the entries, with a local variable. *)
Fixpoint e820_loop (fuel : nat) (addr fin : Z) (step : e820_entry → Z → BT Z) (x : Z) : BT Z :=
  match fuel with
  | O => nofuel
  | S fuel =>
    let! e := e820_next addr fin in
    match e with
    | None => ret x
    | Some e => let! x := step e x in e820_loop fuel (u32 (addr + e_size e + 4)) fin step x
    end
  end.
(** An entry is at least four bytes long. *)
Definition e820_walk (len : Z) (step : e820_entry → Z → BT Z) (x : Z) : BT Z :=
  e820_loop (S (Z.to_nat len)) base (u32 (base + len)) step x.

Definition size_up_ram (len : Z) : BT Z :=
  e820_walk len (λ e tot,
    ret (if ctrue (Z.lor (e_kind e) (Z.lor MBF_MEM MBF_BOOTDEV)) then u32 (e_base e + e_len e) else tot)) 0.

Definition setup_max_bootmem (len : Z) : BT unit :=
  let! s := get in
  let! cur_end := e820_walk len (λ e cur_end,
    ret (if (cur_end <? u32 (e_base e + e_len e)) && (e_kind e =? MBF_MEM) then u32 (e_base e + e_len e) else cur_end))
    (__pa (bootmem_end s)) in
  modify (set_bootmem_end (__va cur_end)).

Definition reserve_page_range (first last : Z) : BT unit :=
  each (Z.to_nat (last + 1 - first)) first (λ i,
    do! on_bd (st_page i (λ p, set_type PG_reserved (set_count 1 p))) then
    modify (λ s, set_nr_reserved (u32 (nr_reserved s + 1)) s)).

Definition reserve_pages (vptr len : Z) : BT unit :=
  let len := u32 (len - 1) in
  let pa_begin := Z.land (__pa vptr) (u32 (Z.lnot PAGE_MASK)) in
  let pa_end := Z.land (u32 (__pa (u32 (vptr + len)) + PAGE_MASK)) (u32 (Z.lnot PAGE_MASK)) in
  reserve_page_range (Z.shiftr pa_begin PAGE_SHIFT) (Z.shiftr pa_end PAGE_SHIFT).

Definition reserve_from_e820 (len : Z) : BT unit :=
  let! _ := e820_walk len (λ e contig_end,
    let! contig_end := (if negb (e_base e =? contig_end) then
        do! reserve_pages (__va contig_end) (u32 (e_base e - contig_end)) then ret (e_base e)
      else ret contig_end) in
    do! when (negb (e_kind e =? MBF_MEM)) (reserve_pages (__va (e_base e)) (e_len e)) then
    ret (u32 (contig_end + e_len e))) 0 in
  ret tt.

(** The loop that gives the frames nobody has reserved to the allocator. *)
Definition free_frame (i : Z) : BT unit :=
  let! p := on_bd (ld_page i) in
  if ctrue (pg_count p) then ret tt else
  do! on_bd (st_page i (set_count 1)) then
  on_bd (free_page (page_address i)).
Definition free_frames : BT unit :=
  let! s := get in each (Z.to_nat (nr_physpages s)) 0 free_frame.

Definition sizeof_page : Z := 28.

Definition ia32_mm_init (img : kimage) (len : Z) : BT unit :=
  do! modify (set_bootmem (k_bootmem_begin img) (k_bootmem_begin img) (k_bootmem_begin img)) then
  let! tot_mem := size_up_ram len in
  do! modify (set_nr_physpages (Z.shiftr tot_mem PAGE_SHIFT)) then
  let nr_pgtbls := Z.shiftr tot_mem PDE_SHIFT in
  let nr_pgtbls := if nr_pgtbls =? 0 then 1 else nr_pgtbls in
  do! setup_max_bootmem len then
  let! tbls := bootmem_alloc nr_pgtbls in
  do! bug_on (tbls =? NULL) then
  do! as_tables tbls nr_pgtbls then
  do! map_ram (k_init_pgd img) tbls then
  do! write_protect tbls (k_begin img) (u32 (k_rodata_end img - k_begin img)) then
  do! on_bd buddy_init then
  let! s := get in
  let pfa_size := u32 (nr_physpages s * sizeof_page) in
  let pfa_size := Z.land (u32 (pfa_size + PAGE_MASK)) (u32 (Z.lnot PAGE_MASK)) in
  let! pfa := bootmem_alloc (Z.shiftr pfa_size PAGE_SHIFT) in
  do! bug_on (pfa =? NULL) then
  do! as_pfa then
  do! reserve_from_e820 len then
  let! s := get in
  do! modify (set_bootmem_end (bootmem_ptr s)) then
  do! reserve_pages (k_begin img) (u32 (bootmem_ptr s - k_begin img)) then
  free_frames.
End e820.
