(* ===== verification/BootProps.v ===== *)
(** * Memory at boot: which frames become free, and what is mapped *)
From S2P Require Import Prelude PageAlloc Kmem Buddy Paging PagingProps Vma VmaProps Boot.

(** ** Free frames *)

(** A frame that nobody has reserved. *)
Definition unused (b : buddy) (i : Z) : Prop := pg_count <$> pfa b !! i = Some 0.
#[export] Instance unused_dec b i : Decision (unused b i) := decide (pg_count <$> pfa b !! i = Some 0).

(** Giving a frame a reference keeps the allocator consistent. *)
Lemma buddy_inv_count b l i p c : buddy_inv b l → pfa b !! i = Some p → i ∉ l →
  buddy_inv (upd_pfa (insert i (set_count c p)) b) l.
Proof.
  intros Hb Hp Hi. split; try apply Hb; simpl.
  - intros j Hj. rewrite lookup_insert_ne; [intros ->; done|]. by apply (bi_free _ _ Hb).
  - intros j q [[<- _]|[_ H]]%lookup_insert_Some; eapply (bi_frame _ _ Hb); eassumption.
  - intros j q [[<- _]|[_ H]]%lookup_insert_Some; eapply (bi_mapped _ _ Hb); eassumption.
Qed.

(** The free list after the frames below [j] have been looked at. *)
Definition freed_below (b0 : buddy) (j : Z) (s : boot) : Prop :=
  buddy_inv (bt_bd s) (filter (unused b0) (seqZ 0 j)) ∧
  ∀ i, (j ≤ i ∨ ¬ unused b0 i) → pfa (bt_bd s) !! i = pfa b0 !! i.

Lemma wp_free_frame b0 j s : freed_below b0 j s → 0 ≤ j → is_Some (pfa b0 !! j) →
  wp (free_frame j) (λ _ s', freed_below b0 (j + 1) s') s.
Proof.
  intros [Hb Hsame] Hj [p Hp]. assert (pfa (bt_bd s) !! j = Some p) as Hp' by (rewrite Hsame; [by left; lia|done]).
  assert (seqZ 0 (j + 1) = seqZ 0 j ++ [j]) as Hseq by (rewrite seqZ_app; [done..|by rewrite Z.add_0_l]).
  apply wp_bind, wp_zoom. eapply wp_ld_page; [exact Hp'|]. rewrite /ctrue.
  destruct (Z.eqb_spec (pg_count p) 0) as [Hc|Hc]; simpl.
  - assert (unused b0 j) as Hu by (by rewrite /unused Hp /= Hc).
    assert (j ∉ filter (unused b0) (seqZ 0 j)) as Hn.
    { rewrite list_elem_of_filter elem_of_seqZ. lia. }
    apply wp_bind, wp_zoom. eapply wp_st_page; [exact Hp'|]. apply wp_zoom. simpl.
    pose proof (buddy_inv_count _ _ _ _ 1 Hb Hp' Hn) as Hb1.
    eapply (wp_free_pages _ _ Hb1 j (set_count 1 p)); [apply lookup_insert_eq|done|].
    split; simpl.
    + rewrite Hseq filter_app filter_cons_True // filter_nil.
      apply given_inv; [exact Hb1|apply lookup_insert_eq|done].
    + intros i Hi. assert (j ≠ i) by (intros ->; destruct Hi; [lia|done]).
      rewrite !lookup_insert_ne //. apply Hsame. destruct Hi; [left; lia|by right].
  - apply wp_ret. assert (¬ unused b0 j) as Hu by (rewrite /unused Hp /=; congruence). split; simpl.
    + rewrite Hseq filter_app filter_cons_False // filter_nil app_nil_r. destruct s. exact Hb.
    + intros i Hi. apply Hsame. destruct Hi; [left; lia|by right].
Qed.

Lemma wp_free_frames s : buddy_inv (bt_bd s) [] → 0 ≤ nr_physpages s →
  (∀ i, 0 ≤ i < nr_physpages s → is_Some (pfa (bt_bd s) !! i)) →
  wp free_frames (λ _ s', freed_below (bt_bd s) (nr_physpages s) s') s.
Proof.
  intros Hb Hn Hp. apply wp_bind, wp_gets. apply (wp_each _ _ _ (freed_below (bt_bd s))).
  - split; [exact Hb|done].
  - intros j s1 Hj Hs1. apply (wp_free_frame (bt_bd s) j s1 Hs1); [lia|]. apply Hp. lia.
  - intros s1. by rewrite Z2Nat.id.
Qed.

(** ** Reserved frames *)

Definition mark_reserved (p : page) : page := set_type PG_reserved (set_count 1 p).

Definition reserved_below (s0 : boot) (first j : Z) (s : boot) : Prop :=
  buddy_inv (bt_bd s) [] ∧ nr_physpages s = nr_physpages s0 ∧ bootmem_ptr s = bootmem_ptr s0 ∧
  ∀ i, pfa (bt_bd s) !! i = if decide (first ≤ i < j) then mark_reserved <$> pfa (bt_bd s0) !! i else pfa (bt_bd s0) !! i.

Lemma wp_reserve_range s first last : buddy_inv (bt_bd s) [] → 0 ≤ first →
  (∀ i, first ≤ i ≤ last → is_Some (pfa (bt_bd s) !! i)) →
  wp (reserve_page_range first last) (λ _ s', reserved_below s first (Z.max first (last + 1)) s') s.
Proof.
  intros Hb Hf Hp. apply (wp_each _ _ _ (reserved_below s first)).
  - split; [done|]. split; [done|]. split; [done|]. intros i. by rewrite decide_False; [lia|].
  - intros j s1 Hj (Hb1 & Hn1 & Hp1 & Hs1). destruct (Hp j) as [p Hpj]; [lia|].
    assert (pfa (bt_bd s1) !! j = Some p) as Hpj1 by (rewrite Hs1 decide_False; [lia|done]).
    apply wp_bind, wp_zoom. eapply wp_st_page; [exact Hpj1|]. apply wp_modify. split; [|split; [done|split; [done|]]]; simpl.
    + split; try apply Hb1; simpl.
      * intros q Hq. by apply not_elem_of_nil in Hq.
      * intros i q [[<- _]|[_ H]]%lookup_insert_Some; eapply (bi_frame _ _ Hb1); eassumption.
      * intros i q [[<- _]|[_ H]]%lookup_insert_Some; eapply (bi_mapped _ _ Hb1); eassumption.
    + intros i. destruct (decide (i = j)) as [->|Hne].
      * rewrite lookup_insert_eq decide_True; [lia|]. by rewrite Hpj.
      * rewrite lookup_insert_ne; [congruence|]. rewrite Hs1. apply decide_ext. lia.
  - intros s1. by replace (first + Z.of_nat (Z.to_nat (last + 1 - first))) with (Z.max first (last + 1)) by lia.
Qed.

(** The frame of an address of the linear mapping. *)
Definition frame_of (a : Z) : Z := (a - PAGE_OFFSET) / 4096.

Lemma shift_page x : 0 ≤ x < 2 ^ 32 → Z.shiftr (Z.land x (u32 (Z.lnot PAGE_MASK))) PAGE_SHIFT = x / 4096.
Proof.
  intros H. rewrite land_page_mask // /PAGE_SHIFT Z.shiftr_div_pow2 //. change (2 ^ 12) with 4096.
  replace (x - x mod 4096) with (x / 4096 * 4096) by (pose proof (Z.div_mod x 4096); lia). by rewrite Z.div_mul.
Qed.

(** The frame after the last byte is reserved as well, unless that byte is the
    first of its page. *)
Definition last_reserved (vptr len : Z) : Z := (vptr + len - 1 - PAGE_OFFSET + 4095) / 4096.

Lemma wp_reserve_pages s vptr len : buddy_inv (bt_bd s) [] →
  PAGE_OFFSET ≤ vptr → 0 < len → vptr + len ≤ 2 ^ 32 - 4096 →
  (∀ i, frame_of vptr ≤ i ≤ last_reserved vptr len → is_Some (pfa (bt_bd s) !! i)) →
  wp (reserve_pages vptr len) (λ _ s', reserved_below s (frame_of vptr) (last_reserved vptr len + 1) s') s.
Proof.
  intros Hb Hv Hl Hend Hp. rewrite /reserve_pages /__pa. unfold PAGE_OFFSET, last_reserved, frame_of in *.
  rewrite (u32_id (len - 1)); [lia|]. rewrite (u32_id (vptr + (len - 1))); [lia|].
  rewrite (u32_id (vptr - 0xc0000000)); [lia|]. rewrite (u32_id (vptr + (len - 1) - 0xc0000000)); [lia|].
  rewrite (u32_id (vptr + (len - 1) - 0xc0000000 + PAGE_MASK)); [unfold PAGE_MASK, PAGE_SIZE; lia|].
  rewrite !shift_page; [unfold PAGE_MASK, PAGE_SIZE; lia..|]. change PAGE_MASK with 4095.
  replace (vptr + (len - 1) - 0xc0000000 + 4095) with (vptr + len - 1 - 0xc0000000 + 4095) by lia.
  assert ((vptr - 0xc0000000) / 4096 ≤ (vptr + len - 1 - 0xc0000000 + 4095) / 4096) by (apply Z.div_le_mono; lia).
  eapply wp_mono; [apply wp_reserve_range; [done|apply Z.div_pos; lia|exact Hp]|]. intros [] s'.
  by replace (Z.max _ _) with ((vptr + len - 1 - 0xc0000000 + 4095) / 4096 + 1) by lia.
Qed.

(** ** Properties *)

(** C26: The end of [ia32_mm_init]: when the frames the boot loader's map excludes have been
    reserved and the free list is empty, reserving the kernel image with the boot memory behind it
    and giving away the rest makes a consistent page allocator.  Its free list
    are exactly the frames, in ascending order, that were not reserved before
    and that neither the image nor the boot memory reaches, except that the frame after
    them is held back too (unless they end with the first byte of a page). *)
Theorem boot_frames_correct s vptr len :
  buddy_inv (bt_bd s) [] → 0 ≤ nr_physpages s →
  (∀ i, 0 ≤ i < nr_physpages s → is_Some (pfa (bt_bd s) !! i)) →
  PAGE_OFFSET ≤ vptr → 0 < len → vptr + len ≤ 2 ^ 32 - 4096 → last_reserved vptr len < nr_physpages s →
  ∃ s' fl, (do! reserve_pages vptr len then free_frames) s = Ret (tt, s') ∧ buddy_inv (bt_bd s') fl ∧
    fl = filter (λ i, unused (bt_bd s) i ∧ ¬ (frame_of vptr ≤ i ≤ last_reserved vptr len)) (seqZ 0 (nr_physpages s)) ∧
    ∀ a, vptr ≤ a < vptr + len → frame_of a ∉ fl.
Proof.
  intros Hb Hn Hp Hv Hl Hend Hlast.
  assert (0 ≤ frame_of vptr) as Hf0 by (apply Z.div_pos; unfold PAGE_OFFSET in *; lia).
  destruct (wp_elim (do! reserve_pages vptr len then free_frames)
    (λ _ s', buddy_inv (bt_bd s') (filter (λ i, unused (bt_bd s) i ∧ ¬ (frame_of vptr ≤ i ≤ last_reserved vptr len)) (seqZ 0 (nr_physpages s)))) s)
    as ([] & s' & E & Hs').
  { apply wp_bind. eapply wp_mono; [apply wp_reserve_pages; [done..|]; intros i Hi; apply Hp; lia|].
    intros [] s1 (Hb1 & Hn1 & _ & Hs1). eapply wp_mono; [apply wp_free_frames; [done|by rewrite Hn1|]|].
    - rewrite Hn1. intros i Hi. rewrite Hs1. destruct (Hp i Hi) as [p Hpi]. rewrite Hpi. case_decide; by eexists.
    - intros [] s2 [Hb2 _]. rewrite Hn1 in Hb2.
      erewrite list_filter_iff; [exact Hb2|]. intros i. rewrite /unused Hs1. case_decide as Hd.
      + destruct (pfa (bt_bd s) !! i); simpl; split; [lia|done|lia|done].
      + split; [intros [? ?]; done|]. intros ?. split; [done|lia]. }
  exists s', (filter (λ i, unused (bt_bd s) i ∧ ¬ (frame_of vptr ≤ i ≤ last_reserved vptr len)) (seqZ 0 (nr_physpages s))).
  split; [exact E|]. split; [exact Hs'|]. split; [done|]. intros a Ha. rewrite list_elem_of_filter. intros [[_ Hno] _]. apply Hno.
  unfold frame_of, last_reserved. split; apply Z.div_le_mono; lia.
Qed.
