(* ===== verification/BootMap.v ===== *)
(** * Memory at boot: the kernel's page tables map all of the memory *)
From S2P Require Import Prelude PageAlloc Kmem Buddy Paging PagingProps Boot BootProps.

(** Word [i] of the tables from [t] on. *)
Definition entry (s : boot) (t i : Z) : option Z :=
  l ← bt_tables s !! (t + 4096 * (i / 1024)); l !! Z.to_nat (i mod 1024).

(** [K] tables lie one after the other from [t] on. *)
Definition tables_at (s : boot) (t K : Z) : Prop :=
  ∀ k, 0 ≤ k < K → ∃ l, bt_tables s !! (t + 4096 * k) = Some l ∧ length l = 1024%nat.

Lemma mod1024 i : 0 ≤ i mod 1024 < 1024.
Proof. by apply Z.mod_pos_bound. Qed.

Lemma wp_st_entry s t K i v (Q : unit → boot → Prop) :
  tables_at s t K → 0 ≤ i < 1024 * K →
  (∀ s', tables_at s' t K → (∀ j, entry s' t j = if decide (j = i) then Some v else entry s t j) →
     (∀ a, (∀ k, 0 ≤ k < K → a ≠ t + 4096 * k) → bt_tables s' !! a = bt_tables s !! a) →
     nr_physpages s' = nr_physpages s → Q tt s') →
  wp (st_entry t i v) Q s.
Proof.
  intros Ht Hi HQ. assert (0 ≤ i / 1024 < K) as Hk by (split; [apply Z.div_pos; lia|apply Z.div_lt_upper_bound; lia]).
  destruct (Ht _ Hk) as (l & Hl & Hlen). pose proof (mod1024 i) as Hm.
  destruct (lookup_lt_is_Some_2 l (Z.to_nat (i mod 1024))) as [w Hw]; [lia|].
  apply wp_bind, wp_gets. apply wp_bind, (wp_deref _ l); [exact Hl|]. apply wp_bind, (wp_deref _ w); [exact Hw|]. apply wp_modify.
  apply HQ; simpl.
  - intros k Hk'. destruct (decide (k = i / 1024)) as [->|Hne].
    + eexists. split; [apply lookup_insert_eq|]. by rewrite length_insert.
    + rewrite lookup_insert_ne; [lia|]. by apply Ht.
  - intros j. rewrite /entry /=. pose proof (mod1024 j) as Hmj.
    destruct (decide (j / 1024 = i / 1024)) as [Ej|Nj].
    + rewrite Ej lookup_insert_eq Hl. cbn [mbind option_bind]. case_decide as Hji.
      * subst j. apply list_lookup_insert_eq. lia.
      * apply list_lookup_insert_ne. intros Heq. apply Hji. rewrite (Z.div_mod j 1024) // (Z.div_mod i 1024) // Ej. lia.
    + rewrite lookup_insert_ne; [lia|]. rewrite decide_False; [intros ->; done|done].
  - intros a Ha. apply lookup_insert_ne. intros <-. by apply (Ha (i / 1024)).
  - done.
Qed.

Section map_ram.
(** The directory and the tables are pages of the kernel's own. *)
Context (pgd pgtbl K n : Z).
Hypothesis HK : 0 ≤ K ≤ 256.
Hypothesis Hn : 0 ≤ n ≤ 1024 * K.
Hypothesis Hpages : ∀ k, 0 ≤ k < K → page_ok (pgtbl + 4096 * k) ∧ pgd ≠ pgtbl + 4096 * k.

Lemma one_table s : tables_at s pgd 1 ↔ ∃ l, bt_tables s !! pgd = Some l ∧ length l = 1024%nat.
Proof.
  split.
  - intros H. destruct (H 0) as (l & Hl & Hlen); [lia|]. rewrite Z.add_0_r in Hl. by exists l.
  - intros (l & Hl & Hlen) k Hk. assert (k = 0) as -> by lia. rewrite Z.add_0_r. by exists l.
Qed.

Definition ram_pte (i : Z) : Z := Z.lor (4096 * i) 3.
Definition ram_pde (k : Z) : Z := Z.lor (__pa (pgtbl + 4096 * k)) 3.

(** The tables are there; the first [j] frames are in them, and the
    directory has the tables of the first [d]. *)
Definition ram_mapped (j d : Z) (s : boot) : Prop :=
  nr_physpages s = n ∧ tables_at s pgtbl K ∧ tables_at s pgd 1 ∧
  (∀ i, 0 ≤ i < j → entry s pgtbl i = Some (ram_pte i)) ∧
  (∀ k, 0 ≤ k → 1024 * k < d → entry s pgd (768 + k) = Some (ram_pde k)).

Lemma st_table s j d i v (Q : unit → boot → Prop) :
  ram_mapped j d s → 0 ≤ i < 1024 * K →
  (∀ s', nr_physpages s' = n → tables_at s' pgtbl K → tables_at s' pgd 1 → (∀ i, entry s' pgd i = entry s pgd i ∨ ¬ 0 ≤ i < 1024) →
     (∀ j, entry s' pgtbl j = if decide (j = i) then Some v else entry s pgtbl j) → Q tt s') →
  wp (st_entry pgtbl i v) Q s.
Proof.
  intros (H1 & H2 & H3 & _) Hi HQ. eapply wp_st_entry; [exact H2|exact Hi|]. intros s' Ht He Ho Hnr.
  assert (bt_tables s' !! pgd = bt_tables s !! pgd) as Hpgd by (apply Ho; intros k Hk; by apply Hpages).
  apply HQ; [congruence|done| | |done].
  - apply one_table. rewrite Hpgd. by apply one_table.
  - intros x. destruct (decide (0 ≤ x < 1024)) as [Hx|]; [left|by right]. rewrite /entry Z.div_small // Z.add_0_r. by rewrite Hpgd.
Qed.

Lemma st_dir s j d i v (Q : unit → boot → Prop) :
  ram_mapped j d s → 0 ≤ i < 1024 →
  (∀ s', nr_physpages s' = n → tables_at s' pgtbl K → tables_at s' pgd 1 → (∀ j, 0 ≤ j < 1024 * K → entry s' pgtbl j = entry s pgtbl j) →
     (∀ j, entry s' pgd j = if decide (j = i) then Some v else entry s pgd j) → Q tt s') →
  wp (st_entry pgd i v) Q s.
Proof.
  intros (H1 & H2 & H3 & _) Hi HQ. eapply wp_st_entry; [exact H3|lia|]. intros s' Ht He Ho Hnr.
  assert (∀ k, 0 ≤ k < K → bt_tables s' !! (pgtbl + 4096 * k) = bt_tables s !! (pgtbl + 4096 * k)) as Hk.
  { intros k Hk. apply Ho. intros k' Hk'. assert (k' = 0) as -> by lia. rewrite Z.add_0_r.
    destruct (Hpages k Hk) as [_ Hne]. congruence. }
  apply HQ; [congruence| |done| |done].
  - intros k Hk'. rewrite Hk //. by apply H2.
  - intros x Hx. rewrite /entry Hk //. split; [apply Z.div_pos; lia|apply Z.div_lt_upper_bound; lia].
Qed.
Lemma ram_dir i o : 0 ≤ i < 2 ^ 18 → 0 ≤ o < 4096 → dir (PAGE_OFFSET + 4096 * i + o) = 768 + i / 1024.
Proof.
  intros Hi Ho. unfold PAGE_OFFSET. destruct (dir_eq (0xc0000000 + 4096 * i + o)) as [-> _]; [lia|].
  change (2 ^ 22) with (4096 * 1024). rewrite -Z.div_div //.
  replace ((0xc0000000 + 4096 * i + o) / 4096) with (768 * 1024 + i).
  { by rewrite Z.div_add_l. }
  apply (Z.div_unique_pos _ _ _ o); lia.
Qed.

Lemma ram_tbl i o : 0 ≤ i → 0 ≤ o < 4096 → tbl (PAGE_OFFSET + 4096 * i + o) = i mod 1024.
Proof.
  intros Hi Ho. unfold PAGE_OFFSET. destruct (tbl_eq (0xc0000000 + 4096 * i + o)) as [-> _].
  change (2 ^ 12) with 4096. change (2 ^ 10) with 1024.
  replace ((0xc0000000 + 4096 * i + o) / 4096) with (i + 768 * 1024).
  { by rewrite Z.mod_add. }
  apply (Z.div_unique_pos _ _ _ o); lia.
Qed.

Lemma frame_va i : 0 ≤ i < 2 ^ 18 → __va (Z.shiftl i PAGE_SHIFT) = PAGE_OFFSET + 4096 * i + 0.
Proof. intros Hi. rewrite /__va /PAGE_SHIFT /PAGE_OFFSET Z.shiftl_mul_pow2 // u32_id; lia. Qed.

Lemma ram_pte_eq i : Z.lor (Z.lor (Z.shiftl i PAGE_SHIFT) PTE_PRESENT) PTE_RW = ram_pte i.
Proof. rewrite -Z.lor_assoc /PAGE_SHIFT Z.shiftl_mul_pow2 //. rewrite /ram_pte. f_equal. lia. Qed.
Lemma ram_pde_eq k : Z.lor (Z.lor (__pa (pgtbl + 4096 * k)) PDE_PRESENT) PDE_RW = ram_pde k.
Proof. by rewrite -Z.lor_assoc. Qed.

Lemma wp_map_tables s : ram_mapped 0 0 s →
  wp (each (Z.to_nat n) 0 (λ i, st_entry pgtbl i (Z.lor (Z.lor (Z.shiftl i PAGE_SHIFT) PTE_PRESENT) PTE_RW)))
    (λ _ s', ram_mapped n 0 s') s.
Proof.
  intros H0. apply (wp_each _ _ _ (λ j s, ram_mapped j 0 s)); [exact H0| |by rewrite Z2Nat.id; [lia|]].
  intros j s1 Hj Hs1. eapply st_table; [exact Hs1|lia|]. intros s2 A1 A2 A3 _ A5.
  split; [done|]. split; [done|]. split; [done|]. split; [|lia]. intros i Hi. rewrite A5 ram_pte_eq.
  case_decide; [by subst|]. destruct Hs1 as (_ & _ & _ & He & _). apply He. lia.
Qed.

Lemma wp_map_dir s : ram_mapped n 0 s →
  wp (each (Z.to_nat n) 0 (λ i,
    if ctrue (Z.land i 0x3ff) then ret tt else
    st_entry pgd (dir (__va (Z.shiftl i PAGE_SHIFT)))
      (Z.lor (Z.lor (__pa (pgtbl + 4 * i)) PDE_PRESENT) PDE_RW)))
    (λ _ s', ram_mapped n n s') s.
Proof.
  intros H0. apply (wp_each _ _ _ (λ j s, ram_mapped n j s)); [exact H0| |by rewrite Z2Nat.id; [lia|]].
  intros j s1 Hj Hs1. rewrite /ctrue. change 0x3ff with (Z.ones 10). rewrite Z.land_ones //. change (2 ^ 10) with 1024.
  pose proof (Z.div_mod j 1024 ltac:(lia)) as Hdm. destruct (Z.eqb_spec (j mod 1024) 0) as [Hm|Hm]; simpl.
  - rewrite frame_va; [lia|]. rewrite ram_dir; [lia|lia|].
    assert (0 ≤ j / 1024 < 256) as Hk by (split; [apply Z.div_pos; lia|apply Z.div_lt_upper_bound; lia]).
    eapply st_dir; [exact Hs1|lia|]. intros s2 A1 A2 A3 A4 A5. destruct Hs1 as (_ & _ & _ & He & Hd).
    split; [done|]. split; [done|]. split; [done|]. split; [intros i Hi; rewrite A4; [lia|]; by apply He|].
    intros k Hk0 Hk1. rewrite A5. case_decide as Heq.
    + assert (k = j / 1024) as -> by lia. rewrite -ram_pde_eq. by replace (4 * j) with (4096 * (j / 1024)) by lia.
    + apply Hd; [done|]. lia.
  - apply wp_ret. destruct Hs1 as (H1 & H2 & H3 & He & Hd). split; [done|]. split; [done|]. split; [done|]. split; [done|].
    intros k Hk0 Hk1. apply Hd; [done|]. destruct (decide (1024 * k = j)) as [Heq|]; [|lia].
    exfalso. apply Hm. rewrite -Heq Z.mul_comm. by apply Z.mod_mul.
Qed.

Lemma wp_map_ram s : nr_physpages s = n → tables_at s pgtbl K → tables_at s pgd 1 →
  wp (map_ram pgd pgtbl) (λ _ s', ram_mapped n n s') s.
Proof.
  intros H1 H2 H3. assert (ram_mapped 0 0 s) as H0 by (split; [done|]; split; [done|]; split; [done|]; split; lia).
  apply wp_bind, wp_gets. rewrite H1. apply wp_bind. eapply st_dir; [exact H0|lia|]. intros s1 A1 A2 A3 _ _.
  apply wp_bind. eapply wp_mono; [apply wp_map_tables; split; [done|]; split; [done|]; split; [done|]; split; lia|].
  intros [] s2 Hs2. apply wp_bind. eapply wp_mono; [by apply wp_map_dir|]. intros [] s3 Hs3. by apply wp_modify.
Qed.

(** C27: When the boot allocator has given enough tables for all of the memory,
    [map_ram] maps every byte of it: the address [PAGE_OFFSET + p] is
    translated to the physical address [p], writable and for the kernel
    only. *)
Theorem map_ram_correct {P} (pages : P) s i o :
  nr_physpages s = n → tables_at s pgtbl K → tables_at s pgd 1 → 0 ≤ i < n → 0 ≤ o < 4096 →
  ∃ s', map_ram pgd pgtbl s = Ret (tt, s') ∧
    translate (mk_paging (bt_tables s') pages (bt_cr3 s')) pgd (PAGE_OFFSET + 4096 * i + o) = Some (Z.lor (4096 * i) 3).
Proof.
  intros H1 H2 H3 Hi Ho. destruct (wp_elim _ _ _ (wp_map_ram s H1 H2 H3)) as ([] & s' & E & Hs'). exists s'. split; [exact E|].
  destruct Hs' as (_ & _ & _ & He & Hd). assert (0 ≤ i / 1024 < K) as Hk by (split; [apply Z.div_pos; lia|apply Z.div_lt_upper_bound; lia]).
  pose proof (Z.div_mod i 1024 ltac:(lia)) as Hdm. pose proof (mod1024 i) as Hm.
  specialize (He i Hi). specialize (Hd (i / 1024) ltac:(lia) ltac:(lia)). rewrite /entry in He. rewrite /entry (Z.div_small (768 + i / 1024)) in Hd; [lia|].
  rewrite Z.add_0_r (Z.mod_small (768 + i / 1024)) in Hd; [lia|].
  destruct (bt_tables s' !! pgd) as [ld|] eqn:Eld; [|done]. destruct (bt_tables s' !! (pgtbl + 4096 * (i / 1024))) as [lt|] eqn:Elt; [|done].
  cbn [mbind option_bind] in He, Hd. destruct (Hpages (i / 1024) Hk) as [Hpg _].
  destruct (page_pa _ Hpg) as (Epa & Hr & Hva).
  assert (present (ram_pde (i / 1024)) = true) as Hpr by (rewrite /present; change PDE_PRESENT with 1; by apply flag_present).
  assert (table_of (ram_pde (i / 1024)) = pgtbl + 4096 * (i / 1024)) as Htab.
  { rewrite /table_of /ram_pde {1}Epa pg_val_flags; [lia|lia|]. by rewrite -Epa. }
  rewrite -Htab in Elt. rewrite -(ram_dir i o) in Hd; [lia|done|].
  rewrite (translate_present (mk_paging (bt_tables s') pages (bt_cr3 s')) pgd ld _ (ram_pde (i / 1024)) lt Eld Hd Hpr Elt).
  rewrite /entry_in ram_tbl; [lia|done|]. rewrite He. cbn [mbind option_bind].
  rewrite /present. change PDE_PRESENT with 1. by rewrite flag_present.
Qed.
End map_ram.

(** ** Too few tables *)

Lemma each_fault n i k f (Inv : Z → boot → Prop) s :
  Inv i s → i ≤ k < i + Z.of_nat n →
  (∀ j s, i ≤ j < k → Inv j s → wp (f j) (λ _ s', Inv (j + 1) s') s) →
  (∀ s, Inv k s → f k s = Fault) → each n i f s = Fault.
Proof.
  revert i s. induction n as [|n IH]; intros i s Hi Hk Hstep Hf; [lia|]. cbn [each]. rewrite /bind.
  destruct (decide (i = k)) as [->|Hne]; [by rewrite Hf|].
  destruct (wp_elim _ _ _ (Hstep i s ltac:(lia) Hi)) as ([] & s' & -> & Hs'). apply IH; [done|lia| |done].
  intros j s1 Hj. apply Hstep. lia.
Qed.

(** [ia32_mm_init] rounds the number of tables down: with more than four
    megabytes of memory that are not a multiple of four megabytes, [map_ram]
    writes behind the last table it was given. *)
Theorem map_ram_overrun s pgd pgtbl tot :
  2 ^ 22 ≤ tot < 2 ^ 30 → 4096 ≤ tot mod 2 ^ 22 →
  nr_physpages s = Z.shiftr tot PAGE_SHIFT → let nr_pgtbls := Z.shiftr tot PDE_SHIFT in
  tables_at s pgtbl nr_pgtbls → tables_at s pgd 1 → (∀ k, 0 ≤ k ≤ nr_pgtbls → pgd ≠ pgtbl + 4096 * k) →
  bt_tables s !! (pgtbl + 4096 * nr_pgtbls) = None →
  map_ram pgd pgtbl s = Fault.
Proof.
  intros Ht Hm Hn K HK H1 Hne Hnone. assert (K = tot / 2 ^ 22) as EK by (apply Z.shiftr_div_pow2; done). clearbody K.
  assert (1 ≤ K) as HK1 by (rewrite EK; apply Z.div_le_lower_bound; lia).
  rewrite /PAGE_SHIFT Z.shiftr_div_pow2 // in Hn. pose proof (Z.div_mod tot (2 ^ 22) ltac:(lia)) as Hdm. rewrite -EK in Hdm.
  assert (1024 * K < tot / 2 ^ 12) as Hlt.
  { apply Z.lt_le_trans with (1024 * K + 1); [lia|]. apply Z.div_le_lower_bound; lia. }
  set (Inv := λ (_ : Z) s, tables_at s pgtbl K ∧ bt_tables s !! (pgtbl + 4096 * K) = None).
  rewrite /map_ram /bind /get /=. rewrite Hn.
  destruct (wp_elim (st_entry pgd 0 0) (λ _ s', Inv 0 s') s) as ([] & s1 & -> & Hs1).
  { eapply wp_st_entry; [exact H1|lia|]. intros s' _ _ Ho _.
    assert (∀ k, 0 ≤ k ≤ K → bt_tables s' !! (pgtbl + 4096 * k) = bt_tables s !! (pgtbl + 4096 * k)) as Hk.
    { intros k Hk. apply Ho. intros k' Hk'. assert (k' = 0) as -> by lia. rewrite Z.add_0_r. specialize (Hne k Hk). congruence. }
    split; [intros k Hk'; rewrite Hk; [lia|]; by apply HK|]. rewrite Hk; [lia|done]. }
  match goal with |- context [each ?n ?i ?f s1] => assert (each n i f s1 = Fault) as ->; [|done] end.
  apply (each_fault _ 0 (1024 * K) _ Inv); [exact Hs1|lia| |].
  - intros j s2 Hj [T1 T2]. eapply wp_st_entry; [exact T1|lia|]. intros s3 T3 _ Ho _. split; [done|].
    rewrite Ho; [intros k Hk; lia|done].
  - intros s2 [T1 T2]. rewrite /st_entry /bind /get. by rewrite (Z.mul_comm 1024 K) Z.div_mul // T2.
Qed.

(** ** Four frames *)

Definition boot_bd : buddy :=
  mk_buddy (list_to_map [(0, mk_page 0 0 0); (1, mk_page 0 0 0); (2, mk_page 0 0 0); (3, mk_page 0 0 0)])
    {[ 1 := [] ]} 1 0 (fill PAGE_OFFSET 0 (Z.to_nat (4 * 4096)) ∅).
Definition boot_st : boot :=
  mk_boot 0 0 0 4 0 {[ 0xc0100000 := zero_table; 0xc0200000 := zero_table ]} boot_bd 0.

Lemma boot_bd_inv : buddy_inv boot_bd [].
Proof.
  split.
  - done.
  - done.
  - constructor.
  - intros pfn H. by apply not_elem_of_nil in H.
  - done.
  - intros pfn p H. apply elem_of_list_to_map_2 in H.
    rewrite !elem_of_cons elem_of_nil in H. destruct H as [[= -> ->]|[[= -> ->]|[[= -> ->]|[[= -> ->]|[]]]]];
      rewrite /frame_ok; lia.
  - intros pfn p H. apply elem_of_list_to_map_2 in H.
    rewrite !elem_of_cons elem_of_nil in H. destruct H as [[= -> ->]|[[= -> ->]|[[= -> ->]|[[= -> ->]|[]]]]];
      (apply fill_owned; [done|apply Z.leb_le; reflexivity]).
Qed.

Lemma boot_pfa i : 0 ≤ i < 4 → is_Some (pfa (bt_bd boot_st) !! i).
Proof.
  intros Hi. assert (i = 0 ∨ i = 1 ∨ i = 2 ∨ i = 3) as [->|[->|[->| ->]]] by lia; eexists; reflexivity.
Qed.

(** The kernel in the second frame: the third is held back as well. *)
Lemma boot_frames_witness : ∃ s', (do! reserve_pages 0xc0001000 0x800 then free_frames) boot_st = Ret (tt, s') ∧
  buddy_inv (bt_bd s') [0; 3].
Proof.
  destruct (boot_frames_correct boot_st 0xc0001000 0x800) as (s' & fl & E & Hb & -> & _).
  - exact boot_bd_inv.
  - simpl. lia.
  - exact boot_pfa.
  - unfold PAGE_OFFSET. lia.
  - lia.
  - lia.
  - reflexivity.
  - exists s'. split; [exact E|exact Hb].
Defined.

Lemma map_ram_witness : ∃ s', map_ram 0xc0100000 0xc0200000 boot_st = Ret (tt, s') ∧
  translate (mk_paging (bt_tables s') tt (bt_cr3 s')) 0xc0100000 0xc0003010 = Some 0x3003.
Proof.
  apply (map_ram_correct 0xc0100000 0xc0200000 1 4) with (i := 3) (o := 16).
  - lia.
  - lia.
  - intros k Hk. assert (k = 0) as -> by lia. split; [by vm_compute|done].
  - reflexivity.
  - intros k Hk. assert (k = 0) as -> by lia. exists zero_table. split; [reflexivity|apply length_replicate].
  - intros k Hk. assert (k = 0) as -> by lia. exists zero_table. split; [reflexivity|apply length_replicate].
  - lia.
  - lia.
Defined.
