(* ===== verification/Io.v ===== *)
(** * Port input and output ([arch-ia32/io.S])

    The device behind the ports is not part of the kernel: it is a state [D]
    with two operations, one for a read (which may change it) and one for a
    write, given the width of the access in bytes.  A driver runs on its own
    data and on the device; its theorems assume of the device what its manual
    says, or hold for every device and say which writes it receives. *)
From stdpp Require Import strings.
From S2P Require Import Prelude.

Class PortDev (D : Type) := {
  dev_in : Z → Z → D → Z * D;
  dev_out : Z → Z → Z → D → D
}.

Section io.
Context `{PortDev D}.

(** The port is taken from [%dx], the value from [%al], [%ax] or [%eax]. *)
Definition port_in (w port : Z) : M D Z := λ d,
  let r := dev_in w (u16 port) d in Ret (fst r mod 2 ^ (8 * w), snd r).
Definition port_out (w port v : Z) : M D unit := modify (dev_out w (u16 port) (v mod 2 ^ (8 * w))).

Definition inb (port : Z) : M D Z := port_in 1 port.
Definition inw (port : Z) : M D Z := port_in 2 port.
Definition inl (port : Z) : M D Z := port_in 4 port.
Definition outb (port v : Z) : M D unit := port_out 1 port v.
Definition outw (port v : Z) : M D unit := port_out 2 port v.
Definition outl (port v : Z) : M D unit := port_out 4 port v.

(** The pausing variants write [%al] to port 0x80 after the access. *)
Definition inb_p (port : Z) : M D Z :=
  let! v := inb port in do! outb 0x80 v then ret v.
Definition outb_p (port v : Z) : M D unit := do! outb port v then outb 0x80 v.

(** A sequence of writes: width, port and value. *)
Definition outs (l : list (Z * Z * Z)) (d : D) : D :=
  foldl (λ d e, dev_out (fst (fst e)) (snd (fst e)) (snd e) d) d l.

Lemma outs_app l k d : outs (l ++ k) d = outs k (outs l d).
Proof. apply foldl_app. Qed.

Lemma wp_port_in w port Q d :
  (let r := dev_in w (u16 port) d in Q (fst r mod 2 ^ (8 * w)) (snd r)) → wp (port_in w port) Q d.
Proof. done. Qed.
Lemma wp_port_out w port v (Q : unit → D → Prop) d :
  Q tt (outs [(w, u16 port, v mod 2 ^ (8 * w))] d) → wp (port_out w port v) Q d.
Proof. done. Qed.
End io.

(** A device that ignores what it is told and answers with zero: writes are
    recorded, newest first. *)
Definition trace : Type := list (Z * Z * Z).
#[export] Instance trace_dev : PortDev trace := {|
  dev_in w port d := (0, d);
  dev_out w port v d := (w, port, v) :: d
|}.

Lemma outs_trace l (d : trace) : outs l d = rev l ++ d.
Proof.
  revert d. induction l as [|[[w p] v] l IH]; intros d; [done|].
  change (outs ((w, p, v) :: l) d) with (outs l ((w, p, v) :: d)). rewrite IH /=. by rewrite -app_assoc.
Qed.

(** ** Messages

    What drivers report with [printk], as the format and the arguments (the
    formatting and the console are in [Vsprintf] and [Vga]), newest first. *)
Inductive parg := PZ (v : Z) | PS (s : string).
Abbreviation msg := (string * list parg)%type.
