(* ===== verification/Vga.v ===== *)
(** * The console ([arch-ia32/vga.c], [arch-ia32/serio.c], [kernel/printk.c])

    The screen is 25 rows of 80 cells of two bytes, a character and an
    attribute; the driver keeps the position of the next character.  [printk]
    formats into a buffer and gives every character to the serial line and to
    the screen.  [VgaProps] has the theorems.  The routines run with
    interrupts disabled ([lock_irq]), as one piece. *)
From S2P Require Import Prelude Kmem Ctype Vsprintf Io.

(** ** The screen *)

Definition COLS : Z := 80.
Definition ROWS : Z := 25.
Definition MONITOR_NONE : Z := 0.
Definition MONITOR_COLOUR : Z := 1.
Definition MONITOR_MONO : Z := 2.
Definition MONITOR_UNKNOWN : Z := 3.
Definition CRTC_INDEX_REG : Z := 0x3d4.
Definition CRTC_DATA_REG : Z := 0x3d5.

Record vga {D : Type} := mk_vga {
  vidmem : list Z;
  attrib : Z;
  xpos : Z;
  ypos : Z;
  monitor : Z;
  vdev : D
}.
Arguments vga : clear implicits.

Section vga.
Context `{PortDev D}.
Abbreviation V := (M (vga D)).

Definition upd_vidmem (f : list Z → list Z) (s : vga D) : vga D :=
  mk_vga D (f (vidmem s)) (attrib s) (xpos s) (ypos s) (monitor s) (vdev s).
Definition set_pos (x y : Z) (s : vga D) : vga D :=
  mk_vga D (vidmem s) (attrib s) x y (monitor s) (vdev s).
Definition set_monitor (mon att : Z) (s : vga D) : vga D :=
  mk_vga D (vidmem s) att (xpos s) (ypos s) mon (vdev s).
Definition set_vdev (d : D) (s : vga D) : vga D :=
  mk_vga D (vidmem s) (attrib s) (xpos s) (ypos s) (monitor s) d.

Definition on_vdev {A} (m : M D A) : V A := zoom vdev set_vdev m.

(** Access to video memory; outside of the screen it is a fault. *)
Definition ld_vid (i : Z) : V Z :=
  let! s := get in if i <? 0 then fault else deref (vidmem s !! Z.to_nat i).
Definition st_vid (i v : Z) : V unit :=
  do! ld_vid i then modify (upd_vidmem (insert (Z.to_nat i) (u8 v))).

Definition vga_curs (x y : Z) : V unit :=
  let! s := get in
  let x := if x <? 0 then xpos s else x in
  let y := if y <? 0 then ypos s else y in
  let vid_off := u32 ((x + y * COLS) * 2) in
  let vid_off := Z.shiftr vid_off 1 in
  do! on_vdev (outb CRTC_INDEX_REG 0x0f) then
  do! on_vdev (outb CRTC_DATA_REG (Z.land vid_off 0xfff)) then
  do! on_vdev (outw CRTC_INDEX_REG 0x0e) then
  on_vdev (outb CRTC_DATA_REG (Z.shiftr vid_off 8)).

(** [equip] is the byte of the BIOS data area at 0x410. *)
Definition vga_preinit (equip : Z) : V unit :=
  let e := Z.land equip 0x30 in
  do! modify (λ s,
    if e =? 0 then set_monitor MONITOR_NONE (attrib s) s
    else if e =? 0x20 then set_monitor MONITOR_COLOUR (attrib s) s
    else if e =? 0x30 then set_monitor MONITOR_MONO (u16 (0 - 7)) s
    else set_monitor MONITOR_UNKNOWN (attrib s) s) then
  do! each (Z.to_nat (COLS * ROWS)) 0 (λ k,
    let! s := get in
    do! st_vid (2 * k) 0 then
    st_vid (2 * k + 1) (attrib s)) then
  vga_curs 0 0.

(** Writing the cell at the position, as both the characters and the deletion do. *)
Definition st_cell (c : Z) : V unit :=
  let! s := get in
  do! st_vid ((xpos s + ypos s * COLS) * 2) c then
  st_vid ((xpos s + ypos s * COLS) * 2 + 1) (attrib s).

(** The code at the label [newline]. *)
Definition newline : V unit :=
  do! modify (λ s, set_pos 0 (u8 (ypos s + 1)) s) then
  let! s := get in
  when (ROWS <=? ypos s) (
    do! each (Z.to_nat (ROWS * COLS - COLS)) COLS (λ i,
      let! c := ld_vid (i * 2) in st_vid ((i - COLS) * 2) c) then
    do! each (Z.to_nat COLS) 0 (λ i,
      let! s := get in
      do! st_vid ((ROWS * COLS - COLS + i) * 2) 32 then
      st_vid ((ROWS * COLS - COLS + i) * 2 + 1) (attrib s)) then
    modify (λ s, set_pos (xpos s) (u8 (ypos s - 1)) s)).

Definition vga_put (c : Z) : V unit :=
  if c =? 8 then
    do! modify (λ s,
      if xpos s =? 0 then set_pos (COLS - 1) (if ctrue (ypos s) then ypos s - 1 else ypos s) s
      else set_pos (xpos s - 1) (ypos s) s) then
    st_cell 32
  else if (c =? 10) || (c =? 13) then newline
  else
    do! st_cell c then
    do! modify (λ s, set_pos (u8 (xpos s + 1)) (ypos s) s) then
    let! s := get in
    when (COLS <=? xpos s) newline.

(** ** The serial line *)

Definition COM1 : Z := 0x3f8.
Definition serio_init : M D unit :=
  do! outb (COM1 + 1) 0 then
  let! lcr := inb (COM1 + 3) in
  let lcr := Z.lor lcr 0x3 in
  let lcr := u8 (Z.land lcr (Z.lnot (Z.shiftl 1 2))) in
  let lcr := u8 (Z.land lcr (Z.lnot (Z.shiftl 1 3))) in
  do! outb (COM1 + 3) (Z.lor lcr 0x80) then
  do! outb (COM1 + 0) 0 then
  do! outb (COM1 + 1) 1 then
  outb (COM1 + 3) lcr.
Definition serio_put (c : Z) : M D unit := outb (COM1 + 0) c.
End vga.

(** ** The kernel log *)

Record console {D : Type} := mk_console { con_vga : vga D; con_vs : vs }.
Arguments console : clear implicits.

Section printk.
Context `{PortDev D}.
Abbreviation C := (M (console D)).

Definition set_con_vga (v : vga D) (s : console D) : console D := mk_console D v (con_vs s).
Definition set_con_vs (v : vs) (s : console D) : console D := mk_console D (con_vga s) v.
Definition on_vga {A} (m : M (vga D) A) : C A := zoom con_vga set_con_vga m.
Definition on_vs {A} (m : M vs A) : C A := zoom con_vs set_con_vs m.

(** The addresses of [printkv_unlocked]'s static buffer and of the constant
    ["<NULL>"] of [vsnprintf]; the bound on formats and strings. *)
Context (buf null_str : Z) (fuel : nat).
Definition BUFSZ : Z := 512.

(** One round of the loop. *)
Definition print_char (i : Z) : C unit :=
  let! c := on_vs (on_mem (ldc (buf + i))) in
  do! on_vga (on_vdev (serio_put (u8 c))) then
  on_vga (vga_put (u8 c)).

(** The arguments are those of the state. *)
Definition printkv_unlocked (format : Z) : C unit :=
  let! len := on_vs (vsnprintf null_str fuel buf BUFSZ format) in
  do! each (Z.to_nat len) 0 print_char then
  on_vga (vga_curs (-1) (-1)).

(** [va_start], the call, [va_end]; the two differ in [lock_irq]. *)
Definition printk_unlocked (format : Z) (args : list Z) : C unit :=
  do! on_vs (modify (set_vs_args args)) then printkv_unlocked format.
Definition printk (format : Z) (args : list Z) : C unit := printk_unlocked format args.

(** The formats of [hex_dumpk] and [serio_isr] in memory. *)
Record dump_fmts := mk_fmts {
  f_offset : Z; (* [" | %05x : "] *)
  f_char : Z; (* ["%c"] *)
  f_dot : Z; (* ["."] *)
  f_space : Z; (* [" "] *)
  f_hex : Z; (* [" %02x"] *)
  f_newline : Z (* ["\n"] *)
}.
Context (F : dump_fmts).

(** One row: [line] bytes at [tmp], shown in [llen] columns. *)
Definition hex_line (tmp j line llen : Z) : C unit :=
  do! printk_unlocked (f_offset F) [j] then
  do! each (Z.to_nat line) 0 (λ i,
    let! b := on_vs (on_mem (ld8 (tmp + i))) in
    if isprint b then printk_unlocked (f_char F) [b] else printk_unlocked (f_dot F) []) then
  do! each (Z.to_nat (llen - line)) line (λ _, printk_unlocked (f_space F) []) then
  do! each (Z.to_nat line) 0 (λ i,
    let! b := on_vs (on_mem (ld8 (tmp + i))) in printk_unlocked (f_hex F) [b]) then
  printk_unlocked (f_newline F) [].

Fixpoint hex_loop (n : nat) (tmp j len llen : Z) : C unit :=
  match n with
  | O => nofuel
  | S n =>
    if j <? len then
      let line := if len <? u32 (j + llen) then len - j else llen in
      do! hex_line tmp j line llen then
      hex_loop n (tmp + line) (u32 (j + line)) len llen
    else ret tt
  end.

Definition hex_dumpk (n : nat) (tmp len llen : Z) : C unit :=
  if len =? 0 then ret tt else
  do! hex_loop n tmp 0 len llen then printk_unlocked (f_newline F) [].

(** The loop runs while the line has a character. *)
Fixpoint serio_drain (n : nat) (base : Z) : C unit :=
  match n with
  | O => nofuel
  | S n =>
    let! c := on_vga (on_vdev (inb (base + 5))) in
    if ctrue (Z.land c 1) then
      let! k := on_vga (on_vdev (inb (base + 0))) in
      do! printk (f_char F) [if k =? 13 then 10 else k] then
      serio_drain n base
    else ret tt
  end.
Definition serio_isr (n : nat) (irq : Z) : C unit :=
  if irq =? 4 then serio_drain n COM1 else ret tt.
End printk.
