(* ===== verification/VgaProps.v ===== *)
(** * What the console shows *)
From S2P Require Import Prelude Kmem Ctype Vsprintf VsprintfProps Io Vga.

(** ** Cells

    [paint a cs]: the bytes of the cells [cs], all with attribute [a]. *)
Definition paint (a : Z) (cs : list Z) : list Z := cs ≫= λ c, [c; a].

Lemma length_paint a cs : length (paint a cs) = (2 * length cs)%nat.
Proof. induction cs as [|c cs IH]; [done|]. cbn. rewrite -/(paint a cs) IH. lia. Qed.

Lemma paint_app a cs ds : paint a (cs ++ ds) = paint a cs ++ paint a ds.
Proof. apply bind_app. Qed.

Lemma lookup_paint a cs i : paint a cs !! (2 * i)%nat = cs !! i.
Proof.
  revert i. induction cs as [|c cs IH]; intros [|i]; try done.
  replace (2 * S i)%nat with (S (S (2 * i))) by lia. apply IH.
Qed.

Lemma insert_paint a cs i c : <[(2 * i)%nat := c]> (paint a cs) = paint a (<[i := c]> cs).
Proof.
  revert i. induction cs as [|d cs IH]; intros [|i]; try done.
  replace (2 * S i)%nat with (S (S (2 * i))) by lia. cbn. f_equal. f_equal. apply IH.
Qed.

Lemma insert_paint_attr a cs i : <[(2 * i + 1)%nat := a]> (paint a cs) = paint a cs.
Proof.
  revert i. induction cs as [|d cs IH]; intros [|i]; try done.
  replace (2 * S i + 1)%nat with (S (S (2 * i + 1))) by lia. cbn. f_equal. f_equal. apply IH.
Qed.

(** ** The terminal

    What the driver implements: cells in reading order and a position. *)
Record term := mk_term { t_cells : list Z; t_x : Z; t_y : Z }.

Definition blank_row : list Z := replicate (Z.to_nat COLS) 32.
Definition scroll (cs : list Z) : list Z := drop (Z.to_nat COLS) cs ++ blank_row.
Definition t_at (t : term) : nat := Z.to_nat (t_x t + t_y t * COLS).
Definition term_newline (t : term) : term :=
  if t_y t + 1 <? ROWS then mk_term (t_cells t) 0 (t_y t + 1)
  else mk_term (scroll (t_cells t)) 0 (t_y t).
Definition term_back (t : term) : term :=
  let t' := if t_x t =? 0 then mk_term (t_cells t) (COLS - 1) (Z.max 0 (t_y t - 1))
            else mk_term (t_cells t) (t_x t - 1) (t_y t) in
  mk_term (<[t_at t' := 32]> (t_cells t')) (t_x t') (t_y t').
Definition term_char (c : Z) (t : term) : term :=
  let t' := mk_term (<[t_at t := c]> (t_cells t)) (t_x t + 1) (t_y t) in
  if t_x t' <? COLS then t' else term_newline t'.
Definition term_put (c : Z) (t : term) : term :=
  if c =? 8 then term_back t
  else if (c =? 10) || (c =? 13) then term_newline t
  else term_char c t.

Definition byte (c : Z) : Prop := 0 ≤ c < 256.
Definition cells_ok (cs : list Z) : Prop :=
  length cs = Z.to_nat (ROWS * COLS) ∧ Forall byte cs.
Definition term_ok (t : term) : Prop :=
  cells_ok (t_cells t) ∧ 0 ≤ t_x t < COLS ∧ 0 ≤ t_y t < ROWS.

Lemma cells_ok_insert i c cs : cells_ok cs → byte c → cells_ok (<[i := c]> cs).
Proof. intros [Hl Hb] Hc. split; [by rewrite length_insert|by apply Forall_insert]. Qed.

(** The driver's state shows a terminal: the position is inside the screen
    and all the cells have the current attribute. *)
Record shows {D} (s : vga D) (t : term) : Prop := {
  sh_ok : term_ok t;
  sh_mem : vidmem s = paint (u8 (attrib s)) (t_cells t);
  sh_x : xpos s = t_x t;
  sh_y : ypos s = t_y t
}.

(** The part of the state that putting characters leaves alone. *)
Definition same_dev {D} (s s' : vga D) : Prop :=
  attrib s' = attrib s ∧ monitor s' = monitor s ∧ vdev s' = vdev s.

Ltac term_lia := unfold COLS, ROWS in *; cbn [t_x t_y t_cells] in *; lia.

Section proofs.
Context `{PortDev D}.
Implicit Types s : vga D.

(** A state with the cells [cs] and the rest of [s0]. *)
Definition with_cells (s0 : vga D) (cs : list Z) s : Prop :=
  s = upd_vidmem (λ _, paint (u8 (attrib s0)) cs) s0.

Lemma wp_ld_vid i c s0 cs s (Q : Z → vga D → Prop) :
  with_cells s0 cs s → 0 ≤ i → cs !! Z.to_nat i = Some c → Q c s → wp (ld_vid (i * 2)) Q s.
Proof.
  intros -> Hi Hc HQ. rewrite /ld_vid. apply wp_bind, wp_gets. destruct (Z.ltb_spec (i * 2) 0); [lia|].
  eapply wp_deref; [|exact HQ]. simpl. rewrite (_ : Z.to_nat (i * 2) = (2 * Z.to_nat i)%nat); [lia|].
  by rewrite lookup_paint.
Qed.

Lemma wp_st_vid i c s0 cs s (Q : unit → vga D → Prop) :
  with_cells s0 cs s → 0 ≤ i → (Z.to_nat i < length cs)%nat → byte c →
  (∀ s', with_cells s0 (<[Z.to_nat i := c]> cs) s' → Q tt s') → wp (st_vid (i * 2) c) Q s.
Proof.
  intros Hs Hi Hl Hc HQ. destruct (lookup_lt_is_Some_2 cs _ Hl) as [x Hx].
  apply wp_bind. eapply wp_ld_vid; [exact Hs|done|exact Hx|]. apply wp_modify, HQ. rewrite Hs.
  rewrite /with_cells /upd_vidmem /= /u8 (Z.mod_small c) //.
  rewrite (_ : Z.to_nat (i * 2) = (2 * Z.to_nat i)%nat); [lia|]. by rewrite insert_paint.
Qed.

Lemma wp_st_attr i s0 cs s (Q : unit → vga D → Prop) :
  with_cells s0 cs s → 0 ≤ i → (Z.to_nat i < length cs)%nat → Q tt s →
  wp (st_vid (i * 2 + 1) (attrib s)) Q s.
Proof.
  intros -> Hi Hl HQ. rewrite /st_vid /ld_vid. apply wp_bind, wp_bind, wp_gets.
  destruct (Z.ltb_spec (i * 2 + 1) 0); [lia|].
  destruct (lookup_lt_is_Some_2 (paint (u8 (attrib s0)) cs) (Z.to_nat (i * 2 + 1))) as [x Hx].
  { rewrite length_paint. lia. }
  eapply wp_deref; [exact Hx|]. apply wp_modify. simpl.
  rewrite (_ : Z.to_nat (i * 2 + 1) = (2 * Z.to_nat i + 1)%nat); [lia|].
  unfold upd_vidmem in *. simpl. by rewrite insert_paint_attr.
Qed.

(** Both bytes of a cell. *)
Lemma wp_cell i c s0 cs s (Q : unit → vga D → Prop) :
  with_cells s0 cs s → 0 ≤ i → (Z.to_nat i < length cs)%nat → byte c →
  (∀ s', with_cells s0 (<[Z.to_nat i := c]> cs) s' → Q tt s') →
  wp (do! st_vid (i * 2) c then st_vid (i * 2 + 1) (attrib s)) Q s.
Proof.
  intros Hs Hi Hl Hc HQ. apply wp_bind. eapply wp_st_vid; [exact Hs|done|done|done|]. intros s' Hs'.
  replace (attrib s) with (attrib s') by (by rewrite Hs Hs').
  eapply wp_st_attr; [exact Hs'|done|by rewrite length_insert|by apply HQ].
Qed.

Lemma wp_st_cell c s t (Q : unit → vga D → Prop) : shows s t → byte c →
  (∀ s', shows s' (mk_term (<[t_at t := c]> (t_cells t)) (t_x t) (t_y t)) → same_dev s s' → Q tt s') →
  wp (st_cell c) Q s.
Proof.
  intros [(Hk & Hx0 & Hy0) Hm Hx Hy] Hc HQ. apply wp_bind, wp_gets. rewrite Hx Hy.
  apply (wp_cell _ c s (t_cells t)).
  - rewrite /with_cells -Hm. by destruct s.
  - term_lia.
  - rewrite (proj1 Hk). term_lia.
  - done.
  - intros s' ->. apply HQ; [|done]. split; [split; [by apply cells_ok_insert|done]|done|done|done].
Qed.

(** ** Scrolling *)

Lemma insert_middle {A} (p q : list A) (x c : A) (n : nat) :
  n = length p → <[n := c]> (p ++ x :: q) = (p ++ [c]) ++ q.
Proof. intros ->. rewrite insert_app_r_alt // Nat.sub_diag /= -app_assoc //. Qed.

Lemma take_snoc {A} (l : list A) (c : A) n : l !! n = Some c → take (S n) l = take n l ++ [c].
Proof. intros Hc. by rewrite (take_S_r l n c). Qed.

(** The cells while the rows move up, and while the last row is blanked. *)
Definition moved (w : nat) (cs : list Z) (j : nat) : list Z := take j (drop w cs) ++ drop j cs.
Definition blanked (w : nat) (cs : list Z) (j : nat) : list Z :=
  drop w cs ++ replicate j 32 ++ drop (length cs - w + j) cs.

Lemma moved_lookup w cs j : (w ≤ length cs)%nat → (j + w < length cs)%nat →
  ∃ c, cs !! (j + w)%nat = Some c ∧ moved w cs j !! (j + w)%nat = Some c ∧
    <[j := c]> (moved w cs j) = moved w cs (S j).
Proof.
  intros Hw Hj. destruct (lookup_lt_is_Some_2 cs _ Hj) as [c Hc]. exists c.
  assert (length (take j (drop w cs)) = j) as Hlt by (rewrite length_take length_drop; lia).
  split_and!; [done| |].
  - rewrite /moved lookup_app_r Hlt; [lia|]. rewrite lookup_drop -Hc. f_equal. lia.
  - destruct (lookup_lt_is_Some_2 cs j ltac:(lia)) as [x Hx]. rewrite /moved (drop_S cs x j Hx).
    rewrite insert_middle //. f_equal. rewrite (take_snoc (drop w cs) c j) //.
    rewrite lookup_drop -Hc. f_equal. lia.
Qed.

Lemma blanked_step w cs j : (w ≤ length cs)%nat → (j < w)%nat →
  <[(length cs - w + j)%nat := 32]> (blanked w cs j) = blanked w cs (S j).
Proof.
  intros Hw Hj. rewrite /blanked.
  destruct (lookup_lt_is_Some_2 cs (length cs - w + j) ltac:(lia)) as [x Hx]. rewrite (drop_S cs x _ Hx).
  rewrite app_assoc insert_middle; [rewrite length_app length_drop length_replicate; lia|].
  rewrite -!app_assoc. f_equal. rewrite replicate_S_end -app_assoc. f_equal. simpl. f_equal. f_equal. lia.
Qed.

Lemma moved_all w cs : (w ≤ length cs)%nat → moved w cs (length cs - w) = blanked w cs 0.
Proof. intros Hw. rewrite /moved /blanked Nat.add_0_r firstn_all2 ?length_drop //. Qed.

Lemma blanked_all w cs : (w ≤ length cs)%nat → blanked w cs w = drop w cs ++ replicate w 32.
Proof. intros Hw. rewrite /blanked (drop_ge cs (length cs - w + w)); [lia|]. by rewrite app_nil_r. Qed.

Lemma length_moved w cs j : (w ≤ length cs)%nat → (j + w ≤ length cs)%nat → length (moved w cs j) = length cs.
Proof. intros. rewrite /moved length_app length_take !length_drop. lia. Qed.
Lemma length_blanked w cs j : (w ≤ length cs)%nat → (j ≤ w)%nat → length (blanked w cs j) = length cs.
Proof. intros. rewrite /blanked !length_app !length_drop length_replicate. lia. Qed.


Lemma wp_rows_up s0 cs s (Q : unit → vga D → Prop) :
  with_cells s0 cs s → cells_ok cs →
  (∀ s', with_cells s0 (blanked (Z.to_nat COLS) cs 0) s' → Q tt s') →
  wp (each (Z.to_nat (ROWS * COLS - COLS)) COLS (λ i,
      let! c := ld_vid (i * 2) in st_vid ((i - COLS) * 2) c)) Q s.
Proof.
  intros Hs [Hl Hb] HQ. assert (Z.to_nat COLS ≤ length cs)%nat as Hw by (rewrite Hl; term_lia).
  apply (wp_each _ _ _ (λ j, with_cells s0 (moved (Z.to_nat COLS) cs (Z.to_nat (j - COLS))))).
  - by rewrite Z.sub_diag.
  - intros j s1 Hj Hs1. assert (0 ≤ j - COLS) as Hj0 by lia.
    assert (Z.to_nat (j - COLS) + Z.to_nat COLS < length cs)%nat as Hjl by (rewrite Hl; term_lia).
    destruct (moved_lookup _ cs _ Hw Hjl) as (c & Hc & Hm & Hi).
    apply wp_bind. apply (wp_ld_vid j c s0 _ s1 _ Hs1); [term_lia|by rewrite -Hm; f_equal; term_lia|].
    apply (wp_st_vid _ c s0 _ s1 _ Hs1); [lia|rewrite length_moved; lia|exact (Forall_lookup_1 _ _ _ _ Hb Hc)|].
    intros s2 Hs2. rewrite Hi in Hs2. by rewrite (_ : Z.to_nat (j + 1 - COLS) = S (Z.to_nat (j - COLS))); [lia|].
  - intros s1 Hs1. apply HQ. rewrite -moved_all //.
    by rewrite (_ : (length cs - Z.to_nat COLS)%nat = Z.to_nat (COLS + Z.of_nat (Z.to_nat (ROWS * COLS - COLS)) - COLS)); [rewrite Hl; term_lia|].
Qed.

Lemma wp_blank_row s0 cs s (Q : unit → vga D → Prop) :
  with_cells s0 (blanked (Z.to_nat COLS) cs 0) s → cells_ok cs →
  (∀ s', with_cells s0 (scroll cs) s' → Q tt s') →
  wp (each (Z.to_nat COLS) 0 (λ i,
      let! s := get in
      do! st_vid ((ROWS * COLS - COLS + i) * 2) 32 then
      st_vid ((ROWS * COLS - COLS + i) * 2 + 1) (attrib s))) Q s.
Proof.
  intros Hs [Hl Hb] HQ. assert (Z.to_nat COLS ≤ length cs)%nat as Hw by (rewrite Hl; term_lia).
  apply (wp_each _ _ _ (λ j, with_cells s0 (blanked (Z.to_nat COLS) cs (Z.to_nat j)))); [exact Hs| |].
  - intros j s1 Hj Hs1. apply wp_bind, wp_gets.
    assert (Z.to_nat (ROWS * COLS - COLS + j) = (length cs - Z.to_nat COLS + Z.to_nat j)%nat) as Ej by (rewrite Hl; term_lia).
    apply (wp_cell _ 32 s0 _ s1 _ Hs1); [term_lia|rewrite length_blanked; [lia|lia|rewrite Ej; lia]|done|].
    intros s2. rewrite Ej blanked_step; [done|lia|]. by rewrite (_ : Z.to_nat (j + 1) = S (Z.to_nat j)); [lia|].
  - intros s1 Hs1. apply HQ. rewrite Z.add_0_l Nat2Z.id blanked_all // in Hs1.
Qed.

Lemma cells_ok_scroll cs : cells_ok cs → cells_ok (scroll cs).
Proof.
  intros [Hl Hb]. split.
  - rewrite length_app length_drop length_replicate Hl. term_lia.
  - apply Forall_app. split; [by apply Forall_drop|by apply Forall_replicate].
Qed.

Lemma wp_newline s t (Q : unit → vga D → Prop) :
  cells_ok (t_cells t) → vidmem s = paint (u8 (attrib s)) (t_cells t) → ypos s = t_y t → 0 ≤ t_y t < ROWS →
  (∀ s', shows s' (term_newline t) → same_dev s s' → Q tt s') → wp newline Q s.
Proof.
  intros Hk Hm Hy Hy0 HQ. rewrite /newline. apply wp_bind, wp_modify. apply wp_bind, wp_gets.
  rewrite /term_newline in HQ. cbn [ypos set_pos]. rewrite Hy. assert (u8 (t_y t + 1) = t_y t + 1) as -> by (apply Z.mod_small; term_lia).
  destruct (Z.ltb_spec (t_y t + 1) ROWS) as [Hlt|Hge].
  - destruct (Z.leb_spec ROWS (t_y t + 1)) as [|_]; [lia|]. apply wp_ret, HQ; [|done].
    split; [split; [done|term_lia]|done|done|done].
  - destruct (Z.leb_spec ROWS (t_y t + 1)) as [_|]; [|lia]. cbn [when].
    set (s1 := set_pos 0 (t_y t + 1) s). apply wp_bind. apply (wp_rows_up s1 (t_cells t)); [|done|].
    { rewrite /with_cells -Hm. by destruct s. }
    intros s2 Hs2. apply wp_bind. apply (wp_blank_row s1 (t_cells t)); [done|done|]. intros s3 ->.
    apply wp_modify, HQ; [|done]. rewrite /s1 /u8 /=.
    split; [split; [by apply cells_ok_scroll|term_lia]|done|done|].
    simpl. rewrite Z.add_simpl_r Z.mod_small; [term_lia|done].
Qed.

Lemma wp_vga_put c s t (Q : unit → vga D → Prop) : shows s t → byte c →
  (∀ s', shows s' (term_put c t) → same_dev s s' → Q tt s') → wp (vga_put c) Q s.
Proof.
  intros Hs Hc HQ. pose proof Hs as [(Hk & Hx0 & Hy0) Hm Hx Hy]. rewrite /vga_put.
  rewrite /term_put in HQ. destruct (Z.eqb_spec c 8) as [->|_].
  - apply wp_bind, wp_modify. rewrite Hx Hy.
    set (t' := if t_x t =? 0 then mk_term (t_cells t) (COLS - 1) (Z.max 0 (t_y t - 1))
            else mk_term (t_cells t) (t_x t - 1) (t_y t)).
    apply (wp_st_cell 32 _ t'); [|done|].
    + rewrite /t' /ctrue. destruct (Z.eqb_spec (t_x t) 0); [|split; [split; [done|term_lia]|done|done|done]].
      split; [split; [done|term_lia]|done|done|]. simpl. destruct (Z.eqb_spec (t_y t) 0); simpl; lia.
    + intros s' Hs' Hd. apply HQ; [done|]. destruct Hd as (Ha & Hb & Hd). rewrite /same_dev Ha Hb Hd.
      by destruct (t_x t =? 0).
  - destruct ((c =? 10) || (c =? 13)).
    + apply (wp_newline s t); done.
    + apply wp_bind. apply (wp_st_cell c s t _ Hs Hc). intros s1 [(Hk1 & _) Hm1 Hx1 Hy1] Hd1.
      apply wp_bind, wp_modify, wp_bind, wp_gets. simpl. rewrite /u8 Hx1 Z.mod_small; [simpl; term_lia|].
      rewrite /term_char in HQ. simpl in *. destruct (Z.ltb_spec (t_x t + 1) COLS) as [Hlt|Hge].
      * destruct (Z.leb_spec COLS (t_x t + 1)) as [|_]; [lia|]. apply wp_ret, HQ; [|done].
        split; [split; [done|simpl; term_lia]|done|done|done].
      * destruct (Z.leb_spec COLS (t_x t + 1)) as [_|]; [|lia]. cbn [when].
        eapply (wp_newline _ (mk_term _ (t_x t + 1) _)); [exact Hk1|exact Hm1|exact Hy1|done|].
        intros s2 Hs2 (Ha & Hb & Hd). apply HQ; [done|]. by rewrite /same_dev Ha Hb Hd.
Qed.
End proofs.

(** ** The text on the screen

    A text without deletions, cut into lines at line breaks and after 80
    characters: the complete lines and the one being written. *)
Definition layout_step (st : list (list Z) * list Z) (c : Z) : list (list Z) * list Z :=
  if (c =? 10) || (c =? 13) then (fst st ++ [snd st], [])
  else if Z.of_nat (length (snd st)) + 1 <? COLS then (fst st, snd st ++ [c])
  else (fst st ++ [snd st ++ [c]], []).
Definition layout (txt : list Z) : list (list Z) * list Z := foldl layout_step ([], []) txt.

(** The lines the screen has room for: the last 25, or all and empty ones. *)
Definition LAST : nat := Z.to_nat (ROWS - 1).
Definition window (st : list (list Z) * list Z) : list (list Z) :=
  drop (length (fst st) - LAST) (fst st) ++ snd st :: replicate (LAST - length (fst st)) [].

(** A row shows a line: the characters of the line, then blanks. *)
Definition blank (c : Z) : Prop := c = 0 ∨ c = 32.
Definition shows_line (r l : list Z) : Prop :=
  length r = Z.to_nat COLS ∧ ∃ pad, r = l ++ pad ∧ Forall blank pad.

Record displays (st : list (list Z) * list Z) (t : term) : Prop := {
  ds_rows : ∃ rows, t_cells t = mjoin rows ∧ Forall2 shows_line rows (window st);
  ds_cur : (length (snd st) < Z.to_nat COLS)%nat;
  ds_x : t_x t = Z.of_nat (length (snd st));
  ds_y : t_y t = Z.of_nat (length (fst st) `min` LAST)
}.

Lemma insert_mjoin {A} (w x y : nat) (c : A) rows r : Forall (λ r, length r = w) rows → (x < w)%nat →
  rows !! y = Some r → <[(x + y * w)%nat := c]> (mjoin rows) = mjoin (<[y := <[x := c]> r]> rows).
Proof.
  intros Hr Hx. revert y. induction Hr as [|r' rows Hr' Hr IH]; intros [|y] Hy; simplify_eq/=.
  - rewrite Nat.add_0_r insert_app_l //. 
  - rewrite insert_app_r_alt; [lia|]. rewrite -IH //. f_equal. f_equal. lia.
Qed.

Lemma drop_mjoin {A} (w : nat) (rows : list (list A)) : Forall (λ r, length r = w) rows →
  drop w (mjoin rows) = mjoin (tail rows).
Proof. destruct 1 as [|r rows Hr Hrs]; [by rewrite drop_nil|]. simpl. by rewrite drop_app_length'. Qed.

Lemma rows_length rows ls : Forall2 shows_line rows ls → Forall (λ r, length r = Z.to_nat COLS) rows.
Proof. intros H. eapply Forall2_Forall_l; [exact H|]. by apply Forall_true; intros ? ? []. Qed.

Lemma shows_line_snoc r l c : shows_line r l → (length l < Z.to_nat COLS)%nat →
  shows_line (<[length l := c]> r) (l ++ [c]).
Proof.
  intros [Hr (pad & -> & Hp)] Hl. split; [by rewrite length_insert|].
  destruct Hp as [|p pad _ Hp]; [rewrite app_nil_r in Hr; lia|].
  exists pad. split; [by rewrite insert_middle|done].
Qed.

Lemma window_cur st : window st !! (length (fst st) `min` LAST)%nat = Some (snd st).
Proof.
  rewrite /window lookup_app_r length_drop; [lia|].
  by rewrite (_ : (length (fst st) `min` LAST - (length (fst st) - (length (fst st) - LAST)))%nat = 0%nat); [lia|].
Qed.

Lemma window_insert ls cur cur' :
  <[(length ls `min` LAST)%nat := cur']> (window (ls, cur)) = window (ls, cur').
Proof.
  rewrite /window insert_middle /=; [rewrite length_drop; lia|]. by rewrite -app_assoc.
Qed.

Lemma window_next ls cur : (length ls < LAST)%nat → window (ls ++ [cur], []) = window (ls, cur).
Proof.
  intros Hl. rewrite /window length_app /=.
  rewrite (_ : (length ls + 1 - LAST)%nat = 0%nat); [lia|]. rewrite (_ : (length ls - LAST)%nat = 0%nat); [lia|].
  rewrite (_ : (LAST - length ls)%nat = S (LAST - (length ls + 1))); [lia|]. by rewrite /= -app_assoc.
Qed.

Lemma window_scroll ls cur : (LAST ≤ length ls)%nat → window (ls ++ [cur], []) = tail (window (ls, cur)) ++ [[]].
Proof.
  intros Hl. rewrite /window length_app /=.
  rewrite (_ : (LAST - (length ls + 1))%nat = 0%nat); [lia|]. rewrite (_ : (LAST - length ls)%nat = 0%nat); [lia|].
  rewrite drop_app_le; [rewrite /LAST; term_lia|]. simpl. 
  rewrite (_ : (length ls + 1 - LAST)%nat = S (length ls - LAST)); [lia|].
  assert (length ls - LAST < length ls)%nat as Hlt by (rewrite /LAST; rewrite /LAST in Hl; term_lia).
  destruct (lookup_lt_is_Some_2 ls _ Hlt) as [x Hx]. by rewrite (drop_S ls x _ Hx).
Qed.

Lemma displays_newline ls cur t :
  (∃ rows, t_cells t = mjoin rows ∧ Forall2 shows_line rows (window (ls, cur))) →
  t_y t = Z.of_nat (length ls `min` LAST) → displays (ls ++ [cur], []) (term_newline t).
Proof.
  intros (rows & Hc & Hr) Hy. rewrite /term_newline Hy.
  assert (LAST = 24%nat) as HL by done.
  destruct (Z.ltb_spec (Z.of_nat (length ls `min` LAST) + 1) ROWS) as [Hlt|Hge]; split; cbn [t_cells t_x t_y fst snd].
  - exists rows. rewrite window_next //. rewrite HL. term_lia.
  - rewrite /COLS. simpl. lia.
  - done.
  - rewrite length_app HL /=. term_lia.
  - exists (tail rows ++ [blank_row]). split.
    + rewrite join_app /scroll Hc (drop_mjoin _ rows); [exact (rows_length _ _ Hr)|]. cbn [mjoin list_join]; by rewrite app_nil_r.
    + rewrite window_scroll; [rewrite HL; term_lia|]. apply Forall2_app; [by destruct Hr|].
      constructor; [|constructor]. split; [apply length_replicate|]. exists blank_row. split; [done|].
      apply Forall_replicate. by right.
  - rewrite /COLS. simpl. lia.
  - done.
  - rewrite length_app HL /=. term_lia.
Qed.

Lemma displays_put st t c : displays st t → c ≠ 8 → displays (layout_step st c) (term_put c t).
Proof.
  destruct st as [ls cur]. intros Hd Hc. rewrite /layout_step /term_put (proj2 (Z.eqb_neq c 8)) //.
  destruct ((c =? 10) || (c =? 13)); [by apply displays_newline; apply Hd|].
  rewrite /term_char. cbn [fst snd t_x].
  assert (∃ rows, <[t_at t := c]> (t_cells t) = mjoin rows ∧ Forall2 shows_line rows (window (ls, cur ++ [c]))) as Hins.
  { destruct Hd as [(rows & Hcs & Hr) Hcur Hx Hy]. cbn [fst snd] in *.
    destruct (Forall2_lookup_r _ _ _ _ _ Hr (window_cur (ls, cur))) as (r & Hrow & Hsl).
    exists (<[(length ls `min` LAST)%nat := <[length cur := c]> r]> rows). split.
    - rewrite Hcs -(insert_mjoin (Z.to_nat COLS)) //; [exact (rows_length _ _ Hr)|]. f_equal. rewrite /t_at Hx Hy. term_lia.
    - rewrite -(window_insert ls cur). apply Forall2_insert; [exact Hr|by apply shows_line_snoc]. }
  destruct Hd as [_ Hcur Hx Hy]. cbn [fst snd] in *. rewrite Hx.
  destruct (Z.ltb_spec (Z.of_nat (length cur) + 1) COLS) as [Hlt|Hge].
  - split; cbn [fst snd t_cells t_x t_y]; [exact Hins| | |exact Hy]; rewrite length_app /=; term_lia.
  - by apply displays_newline.
Qed.

Lemma displays_text st t txt : displays st t → Forall (λ c, c ≠ 8) txt →
  displays (foldl layout_step st txt) (foldl (λ t c, term_put c t) t txt).
Proof.
  intros Hd Ht. revert st t Hd. induction Ht as [|c txt Hc Ht IH]; intros st t Hd; [done|].
  cbn [foldl]. by apply IH, displays_put.
Qed.

(** The clear screen. *)
Definition clear_term : term := mk_term (replicate (Z.to_nat (ROWS * COLS)) 0) 0 0.

Lemma mjoin_replicate {A} (n w : nat) (x : A) : mjoin (replicate n (replicate w x)) = replicate (n * w) x.
Proof. induction n as [|n IH]; [done|]. by rewrite /= IH -replicate_add. Qed.

Lemma displays_clear : displays ([], []) clear_term.
Proof.
  split; [|by apply Nat.ltb_lt|done|done]. 
  exists (replicate (Z.to_nat ROWS) (replicate (Z.to_nat COLS) 0)). split.
  - rewrite mjoin_replicate /clear_term. cbn [t_cells]. by f_equal.
  - change (window ([], [])) with (replicate (Z.to_nat ROWS) ([] : list Z)). apply Forall2_replicate.
    split; [apply length_replicate|]. exists (replicate (Z.to_nat COLS) 0). split; [done|].
    apply Forall_replicate. by left.
Qed.

Section screen.
Context `{PortDev D}.
Implicit Types s : vga D.

(** Characters one after the other. *)
Fixpoint vga_puts (txt : list Z) : M (vga D) unit :=
  match txt with [] => ret tt | c :: txt => do! vga_put c then vga_puts txt end.

Lemma wp_vga_puts txt s t (Q : unit → vga D → Prop) : shows s t → Forall byte txt →
  (∀ s', shows s' (foldl (λ t c, term_put c t) t txt) → same_dev s s' → Q tt s') → wp (vga_puts txt) Q s.
Proof.
  intros Hs Ht. revert s t Hs. induction Ht as [|c txt Hc Ht IH]; intros s t Hs HQ.
  - by apply HQ.
  - apply wp_bind. apply (wp_vga_put c s t _ Hs Hc). intros s1 Hs1 (Ha & Hm & Hd).
    apply (IH s1 _ Hs1). intros s2 Hs2 (Ha2 & Hm2 & Hd2). apply HQ; [done|]. split_and!; congruence.
Qed.

(** The writes [vga_curs] makes. *)
Definition curs_events (x y : Z) : list (Z * Z * Z) :=
  [(1, CRTC_INDEX_REG, 0x0f); (1, CRTC_DATA_REG, (x + y * COLS) mod 256);
   (2, CRTC_INDEX_REG, 0x0e); (1, CRTC_DATA_REG, (x + y * COLS) / 256)].

Lemma curs_low v : 0 ≤ v < 2048 → Z.land v 0xfff mod 2 ^ 8 = v mod 256.
Proof.
  intros Hv. change 0xfff with (Z.ones 12). rewrite Z.land_ones // (Z.mod_small v (2 ^ 12)); [lia|done].
Qed.

Lemma wp_vga_curs x y s (Q : unit → vga D → Prop) :
  let x' := if x <? 0 then xpos s else x in let y' := if y <? 0 then ypos s else y in
  0 ≤ x' < COLS → 0 ≤ y' < ROWS →
  (∀ s', s' = set_vdev (outs (curs_events x' y') (vdev s)) s → Q tt s') → wp (vga_curs x y) Q s.
Proof.
  intros x' y' Hx Hy HQ. rewrite /vga_curs. apply wp_bind, wp_gets. fold x' y'. clearbody x' y'.
  assert (Z.shiftr (u32 ((x' + y' * COLS) * 2)) 1 = x' + y' * COLS) as ->.
  { rewrite u32_id; [term_lia|]. rewrite Z.shiftr_div_pow2 // Z.div_mul //. }
  assert (0 ≤ x' + y' * COLS < 2048) as Hv by term_lia.
  apply wp_bind, wp_zoom, wp_port_out. apply wp_bind, wp_zoom, wp_port_out.
  apply wp_bind, wp_zoom, wp_port_out. apply wp_zoom, wp_port_out. apply HQ.
  change (8 * 1) with 8. rewrite (curs_low _ Hv) Z.shiftr_div_pow2 //.
  rewrite (Z.mod_small (_ / 2 ^ 8)); [|done]. split; [apply Z.div_pos; lia|].
  apply Z.div_lt_upper_bound; lia.
Qed.

(** The attribute [vga_preinit] leaves for the kind of monitor. *)
Definition boot_attrib (equip : Z) (s : vga D) : Z :=
  if Z.land equip 0x30 =? 0x30 then 0xfff9 else attrib s.

Lemma clear_step a (m : list Z) k : (2 * k + 1 < length m)%nat →
  <[(2 * k + 1)%nat := a]> (<[(2 * k)%nat := 0]> (paint a (replicate k 0) ++ drop (2 * k) m)) =
  paint a (replicate (S k) 0) ++ drop (2 * S k) m.
Proof.
  intros Hk. destruct (lookup_lt_is_Some_2 m (2 * k) ltac:(lia)) as [x Hx].
  destruct (lookup_lt_is_Some_2 m (S (2 * k)) ltac:(lia)) as [y Hy].
  rewrite (drop_S m x _ Hx) (drop_S m y _ Hy).
  rewrite insert_middle; [by rewrite length_paint length_replicate|].
  rewrite insert_middle; [rewrite length_app length_paint length_replicate /=; lia|].
  rewrite replicate_S_end paint_app -!app_assoc. cbn [app paint mbind list_bind]. do 4 f_equal. lia.
Qed.

Lemma wp_vga_preinit equip s (Q : unit → vga D → Prop) :
  length (vidmem s) = Z.to_nat (2 * (ROWS * COLS)) → xpos s = 0 → ypos s = 0 →
  (∀ s', shows s' clear_term → attrib s' = boot_attrib equip s →
     vdev s' = outs (curs_events 0 0) (vdev s) → Q tt s') → wp (vga_preinit equip) Q s.
Proof.
  intros Hl Hx Hy HQ. rewrite /vga_preinit. apply wp_bind, wp_modify. 
  match goal with |- wp _ _ ?x => set (s0 := x) end.
  assert (vidmem s0 = vidmem s ∧ xpos s0 = 0 ∧ ypos s0 = 0 ∧ attrib s0 = boot_attrib equip s ∧ vdev s0 = vdev s)
    as (Hm0 & Hx0 & Hy0 & Ha0 & Hd0).
  { rewrite /s0 /boot_attrib. destruct (Z.eqb_spec (Z.land equip 48) 0) as [->|_]; [done|].
    destruct (Z.eqb_spec (Z.land equip 48) 32) as [->|_]; [done|]. by destruct (Z.land equip 48 =? 48). }
  clearbody s0. apply wp_bind.
  apply (wp_each _ _ _ (λ k s1, s1 = upd_vidmem (λ m,
     paint (u8 (attrib s0)) (replicate (Z.to_nat k) 0) ++ drop (2 * Z.to_nat k) m) s0)).
  - by destruct s0.
  - intros k s1 Hk ->. apply wp_bind, wp_gets. rewrite /st_vid /ld_vid.
    assert (2 * Z.to_nat k + 1 < length (vidmem s0))%nat as Hkl by (rewrite Hm0 Hl; term_lia).
    assert (∀ i, (i < length (vidmem s0))%nat →
      is_Some ((paint (u8 (attrib s0)) (replicate (Z.to_nat k) 0) ++ drop (2 * Z.to_nat k) (vidmem s0)) !! i)) as Hsome.
    { intros i Hi. apply lookup_lt_is_Some. rewrite length_app length_paint length_replicate length_drop. lia. }
    destruct (Z.ltb_spec (2 * k) 0); [lia|]. destruct (Z.ltb_spec (2 * k + 1) 0); [lia|].
    rewrite (_ : Z.to_nat (2 * k) = (2 * Z.to_nat k)%nat); [lia|].
    rewrite (_ : Z.to_nat (2 * k + 1) = (2 * Z.to_nat k + 1)%nat); [lia|].
    apply wp_bind, wp_bind, wp_bind, wp_gets. destruct (Hsome (2 * Z.to_nat k)%nat) as [x0 Hx1]; [lia|].
    eapply wp_deref; [exact Hx1|]. apply wp_modify. apply wp_bind, wp_bind, wp_gets.
    destruct (Hsome (2 * Z.to_nat k + 1)%nat) as [x1 Hx2]; [lia|].
    eapply wp_deref; [cbn [vidmem upd_vidmem]; rewrite list_lookup_insert_ne; [lia|exact Hx2]|].
    apply wp_modify. rewrite /upd_vidmem. cbn [vidmem attrib xpos ypos monitor vdev].
    change (u8 0) with 0. rewrite clear_step //. by rewrite (_ : Z.to_nat (k + 1) = S (Z.to_nat k)); [lia|].
  - intros s1 ->. apply wp_vga_curs; [done|done|]. intros s2 ->. apply HQ.
    + split; cbn [vidmem attrib xpos ypos upd_vidmem set_vdev]; [|rewrite drop_ge|done|done].
      * split; [|done]. split; [apply length_replicate|by apply Forall_replicate].
      * rewrite Hm0 Hl. term_lia.
      * rewrite app_nil_r. by rewrite Z.add_0_l Nat2Z.id Z.mul_comm.
    + done.
    + by rewrite -Hd0.
Qed.

(** C29: The console shows its text: after the driver's initialisation,
    whatever was in video memory, and any text without deletions written
    character by character, the screen shows exactly the last 25 lines of the
    text, cut at line breaks and after 80 characters, the position is after
    the last line, and no byte outside of the screen was touched. *)
Theorem console_shows_text equip txt s :
  length (vidmem s) = Z.to_nat (2 * (ROWS * COLS)) → xpos s = 0 → ypos s = 0 →
  Forall (λ c, byte c ∧ c ≠ 8) txt →
  ∃ s' t, (do! vga_preinit equip then vga_puts txt) s = Ret (tt, s') ∧ shows s' t ∧ displays (layout txt) t.
Proof.
  intros Hl Hx Hy Ht. apply Forall_and in Ht as [Hb Hn].
  destruct (wp_elim (do! vga_preinit equip then vga_puts txt)
    (λ _ s', shows s' (foldl (λ t c, term_put c t) clear_term txt)) s) as ([] & s' & E & Hs).
  - apply wp_bind, wp_vga_preinit; try done. intros s1 Hs1 _ _. by apply (wp_vga_puts txt s1 clear_term).
  - exists s', (foldl (λ t c, term_put c t) clear_term txt). split_and!; [done|done|].
    by apply displays_text; [apply displays_clear|].
Qed.

(** The well-formed states of the driver: video memory is 2000 cells, each a
    character and the current attribute, and the position is on the screen. *)
Definition vga_wf (s : vga D) : Prop :=
  (∃ cells, length cells = Z.to_nat (ROWS * COLS) ∧ Forall byte cells ∧ vidmem s = cells ≫= (λ c, [c; u8 (attrib s)])) ∧
  0 ≤ xpos s < COLS ∧ 0 ≤ ypos s < ROWS.

Lemma vga_wf_shows s : vga_wf s ↔ ∃ t, shows s t.
Proof.
  split.
  - intros ((cs & Hl & Hb & Hm) & Hx & Hy). exists (mk_term cs (xpos s) (ypos s)). by split.
  - intros [t [((Hl & Hb) & Hx & Hy) Hm Ex Ey]]. rewrite /vga_wf Ex Ey. split; [|done]. by exists (t_cells t).
Qed.

(** C38: The console stays well formed: from a well-formed state every
    sequence of bytes, deletions at the top of the screen and line breaks at
    its bottom included, is put without an access outside of video memory, and
    leaves a well-formed state, the ports untouched. *)
Theorem console_wf txt s :
  vga_wf s → Forall byte txt → ∃ s', vga_puts txt s = Ret (tt, s') ∧ vga_wf s' ∧ vdev s' = vdev s.
Proof.
  intros [t Hs]%vga_wf_shows Hb.
  destruct (wp_elim (vga_puts txt) (λ _ s', vga_wf s' ∧ vdev s' = vdev s) s) as ([] & s' & E & Hs').
  - apply (wp_vga_puts txt s t); [done|done|]. intros s' Hs' (_ & _ & Hd). split; [|done]. apply vga_wf_shows. eexists. exact Hs'.
  - by exists s'.
Qed.
End screen.
