(* ===== verification/PrintkProps.v ===== *)
(** * What the kernel log prints *)
From S2P Require Import Prelude Kmem Ctype Vsprintf VsprintfProps Io Vga VgaProps.

(** The writes of characters to the serial line. *)
Definition serial (l : list Z) : list (Z * Z * Z) := (λ c, (1, COM1, c)) <$> l.

(** A terminal after a text. *)
Definition term_text (t : term) (l : list Z) : term := foldl (λ t c, term_put c t) t l.

Lemma term_text_snoc t l c : term_text t (l ++ [c]) = term_put c (term_text t l).
Proof. by rewrite /term_text foldl_app. Qed.

Lemma byte_u8 c : byte (u8 c).
Proof. apply u8_range. Qed.

Lemma u8_s8_id c : u8 (s8 c) = u8 c.
Proof.
  rewrite /u8 /s8 /sign. destruct (c mod 2 ^ 8 <? 2 ^ (8 - 1)); [by rewrite Zmod_mod|].
  by rewrite Zminus_mod Z_mod_same_full Z.sub_0_r !Zmod_mod.
Qed.

Section printk.
Context `{PortDev D}.
Implicit Types s : console D.
Context (buf null_str : Z) (fuel : nat).

Lemma wp_print_char i v s t (Q : unit → console D → Prop) :
  shows (con_vga s) t → vs_mem (con_vs s) !! (buf + i) = Some v →
  (∀ s', con_vs s' = con_vs s → shows (con_vga s') (term_put (u8 v) t) →
     vdev (con_vga s') = outs (serial [u8 v]) (vdev (con_vga s)) → Q tt s') →
  wp (print_char buf i) Q s.
Proof.
  intros Hs Hv HQ. apply wp_bind, wp_zoom, wp_zoom. eapply wp_ldc; [exact Hv|]. rewrite !u8_s8_id.
  apply wp_bind, wp_zoom, wp_zoom. apply wp_port_out. apply wp_zoom.
  apply (wp_vga_put (u8 v) _ t); [|apply byte_u8|].
  - destruct Hs as [H1 H2 H3 H4]. by split.
  - intros v1 Hv1 (_ & _ & Hd). apply HQ; [|exact Hv1|].
    + simpl. by destruct (con_vs s) as [].
    + simpl. rewrite Hd. simpl. rewrite /u8 Zmod_mod. done.
Qed.

Lemma wp_print_chars l s t (Q : unit → console D → Prop) :
  shows (con_vga s) t → bytes (vs_mem (con_vs s)) buf l →
  (∀ s', con_vs s' = con_vs s → shows (con_vga s') (term_text t (u8 <$> l)) →
     vdev (con_vga s') = outs (serial (u8 <$> l)) (vdev (con_vga s)) → Q tt s') →
  wp (each (length l) 0 (print_char buf)) Q s.
Proof.
  intros Hs Hb HQ.
  apply (wp_each _ _ _ (λ j s', con_vs s' = con_vs s ∧
    shows (con_vga s') (term_text t (u8 <$> take (Z.to_nat j) l)) ∧
    vdev (con_vga s') = outs (serial (u8 <$> take (Z.to_nat j) l)) (vdev (con_vga s)))).
  - split_and!; [done|exact Hs|done].
  - intros j s1 Hj (Hv1 & Hs1 & Hd1). destruct (lookup_lt_is_Some_2 l (Z.to_nat j)) as [v Hv]; [lia|].
    destruct (bytes_lookup _ buf l (Z.to_nat j) Hb) as [Hm|Hn]; [|congruence].
    apply (wp_print_char j v s1 _ _ Hs1); [rewrite Hv1 -Hv -Hm; f_equal; lia|]. intros s2 Hv2 Hs2 Hd2.
    rewrite (_ : Z.to_nat (j + 1) = S (Z.to_nat j)); [lia|]. rewrite (take_snoc l v) // fmap_app.
    split_and!; [congruence|by rewrite term_text_snoc|].
    by rewrite Hd2 Hd1 -outs_app /serial -fmap_app.
  - intros s1. rewrite Z.add_0_l Nat2Z.id firstn_all. intros (? & ? & ?). by apply HQ.
Qed.

(** The characters printed for the text [res], [after] being what follows
    the buffer in memory: the text itself when it fits. *)
Definition printed (res after : list Z) : list Z :=
  u8 <$> take (length res) (take (Z.to_nat (BUFSZ - 1)) res ++ 0 :: after).

Lemma printed_fits res after : len res < BUFSZ → printed res after = u8 <$> res.
Proof.
  rewrite /len /BUFSZ /printed. intros Hl. f_equal.
  rewrite (firstn_all2 (n := Z.to_nat (512 - 1)) res); [lia|]. by rewrite take_app_length.
Qed.

Lemma bytes_prefix m a l k : bytes m a (l ++ k) → bytes m a l.
Proof. by intros [H1 _]%bytes_app. Qed.

(** These characters are in memory after the formatting. *)
Lemma bytes_printed m0 m res after :
  buffer_holds m0 m buf BUFSZ res → bytes m0 (buf + BUFSZ) after →
  bytes m buf (take (length res) (take (Z.to_nat (BUFSZ - 1)) res ++ 0 :: after)).
Proof.
  intros [Hh1 Hh2] Ha. specialize (Hh1 eq_refl). destruct (Z.ltb_spec (len res) BUFSZ) as [Hlt|Hge].
  - rewrite /len /BUFSZ in Hlt. rewrite (firstn_all2 res) in Hh1 |- *; [rewrite /BUFSZ; lia..|].
    rewrite take_app_length. exact (bytes_prefix _ _ _ _ Hh1).
  - apply (bytes_prefix _ _ _ (drop (length res) (take (Z.to_nat (BUFSZ - 1)) res ++ 0 :: after))).
    rewrite take_drop cons_middle app_assoc. apply bytes_app. split; [exact Hh1|].
    rewrite /len /BUFSZ in Hge. rewrite length_app length_take Nat.min_l; [rewrite /BUFSZ; lia|].
    change (Z.of_nat (Z.to_nat (BUFSZ - 1) + length [0])) with BUFSZ.
    eapply bytes_cong; [|exact Ha]. intros b Hb. apply Hh2. lia.
Qed.

Lemma wp_printkv strs K n m0 format f args res after s t (Q : unit → console D → Prop) :
  0 < buf → buf + BUFSZ ≤ 2 ^ 32 → owned m0 buf (Z.to_nat BUFSZ) → words args →
  fixed m0 buf (buf + BUFSZ - 1) format f →
  (∀ a l, strs a = Some l → fixed m0 buf (buf + BUFSZ - 1) (if a =? NULL then null_str else a) l ∧
     (length l ≤ K)%nat ∧ len l < 2 ^ 31) →
  (length f + K < fuel)%nat → render strs (cut_prefix BUFSZ) n f args [] = Some res →
  buf + len res + 2 < 2 ^ 32 → len res < 2 ^ 31 →
  bytes m0 (buf + BUFSZ) after → (length res ≤ Z.to_nat BUFSZ + length after)%nat →
  shows (con_vga s) t → con_vs s = mk_vs m0 args →
  let txt := printed res after in
  (∀ s', shows (con_vga s') (term_text t txt) →
    vdev (con_vga s') = outs (serial txt ++ curs_events (t_x (term_text t txt)) (t_y (term_text t txt))) (vdev (con_vga s)) →
    buffer_holds m0 (vs_mem (con_vs s')) buf BUFSZ res → Q tt s') →
  wp (printkv_unlocked buf null_str fuel format) Q s.
Proof.
  intros Hb0 Hb1 Ho Hw Hf Hst Hfl Hr Hb2 H31 Ha Hal Hs Hvs txt HQ.
  apply wp_bind, wp_zoom. rewrite Hvs. eapply wp_mono.
  { eapply (wp_vsnprintf null_str strs K n fuel m0 buf BUFSZ format f args res); done || (rewrite /BUFSZ; lia). }
  intros r v1 [-> Hh]. pose proof (bytes_printed _ _ _ _ Hh Ha) as Hby.
  assert (length (take (length res) (take (Z.to_nat (BUFSZ - 1)) res ++ 0 :: after)) = length res) as Hlen.
  { rewrite length_take length_app length_take length_cons. unfold BUFSZ in *. lia. }
  apply wp_bind. rewrite /len Nat2Z.id -{1}Hlen.
  apply (wp_print_chars _ (set_con_vs v1 s) t _ Hs Hby). fold (printed res after). fold txt.
  intros s1 Hv1 Hs1 Hd1. apply wp_zoom. pose proof Hs1 as [(_ & Hx & Hy) _ Hx1 Hy1].
  apply wp_vga_curs; cbn [Z.ltb Z.compare]; [by rewrite Hx1|by rewrite Hy1|]. intros v2 ->. apply HQ.
  - by destruct Hs1.
  - rewrite outs_app. cbn [vdev con_vga set_con_vga set_vdev]. by rewrite Hx1 Hy1 Hd1.
  - by rewrite /= Hv1.
Qed.

(** C30: [printk] prints its text: it returns, and the characters of the
    formatted text go to the serial line and to the screen, in order, and the
    cursor of the screen is set behind them.  When the text does not fit into
    the buffer of 512 bytes its first 511 characters are printed, then the
    terminator and the memory that follows the buffer. *)
Theorem printk_correct strs K n m0 format f args res after s t :
  0 < buf → buf + BUFSZ ≤ 2 ^ 32 → owned m0 buf (Z.to_nat BUFSZ) → words args →
  fixed m0 buf (buf + BUFSZ - 1) format f →
  (∀ a l, strs a = Some l → fixed m0 buf (buf + BUFSZ - 1) (if a =? NULL then null_str else a) l ∧
     (length l ≤ K)%nat ∧ len l < 2 ^ 31) →
  (length f + K < fuel)%nat → render strs (cut_prefix BUFSZ) n f args [] = Some res →
  buf + len res + 2 < 2 ^ 32 → len res < 2 ^ 31 →
  bytes m0 (buf + BUFSZ) after → (length res ≤ Z.to_nat BUFSZ + length after)%nat →
  shows (con_vga s) t → vs_mem (con_vs s) = m0 →
  let txt := if len res <? BUFSZ then u8 <$> res else printed res after in
  ∃ s', printk buf null_str fuel format args s = Ret (tt, s') ∧
    shows (con_vga s') (term_text t txt) ∧
    vdev (con_vga s') =
      outs (serial txt ++ curs_events (t_x (term_text t txt)) (t_y (term_text t txt))) (vdev (con_vga s)).
Proof.
  intros Hb0 Hb1 Ho Hw Hf Hst Hfl Hr Hb2 H31 Ha Hal Hs Hvs txt.
  assert (txt = printed res after) as ->.
  { rewrite /txt. destruct (Z.ltb_spec (len res) BUFSZ); [by rewrite printed_fits|done]. }
  match goal with |- ∃ s', ?m s = _ ∧ @?P s' => destruct (wp_elim m (λ _ s', P s') s) as ([] & s' & E & HP) end; [|by exists s'].
  apply wp_bind, wp_zoom, wp_modify.
  apply (wp_printkv strs K n m0 format f args res after _ t); try done. simpl. by rewrite -Hvs.
Qed.
End printk.

(** The buffer at 1000, the format "%d\n" at 2000, a clear screen. *)
Definition ex_log_fmt : list Z := [37; 100; 10].
Definition ex_log_mem : mem := fill 1000 0 (Z.to_nat BUFSZ) (list_to_map (zip (seqZ 2000 4) (ex_log_fmt ++ [0]))).
Definition ex_screen : vga trace := mk_vga trace (paint 0x17 (t_cells clear_term)) 0x17 0 0 MONITOR_COLOUR [].
Definition ex_console : console trace := mk_console trace ex_screen (mk_vs ex_log_mem []).

Lemma ex_screen_shows : shows ex_screen clear_term.
Proof. split; [|done|done|done]. split; [|done]. split; [apply length_replicate|by apply Forall_replicate]. Qed.

Lemma ex_log_fixed : fixed ex_log_mem 1000 (1000 + BUFSZ - 1) 2000 ex_log_fmt.
Proof.
  split; [split|by right].
  - apply (bytes_cong (list_to_map (zip (seqZ 2000 4) (ex_log_fmt ++ [0])))); [|by vm_compute].
    intros b Hb. simpl in Hb. rewrite lookup_fill decide_False //. rewrite /BUFSZ. lia.
  - repeat (apply Forall_cons; split; [lia|]). by apply Forall_nil.
Qed.

(** The text "42\n". *)
Lemma printk_witness : let txt := u8 <$> [52; 50; 10] in
  ∃ s', printk 1000 500 20 2000 [42] ex_console = Ret (tt, s') ∧
    shows (con_vga s') (term_text clear_term txt) ∧
    vdev (con_vga s') = outs (serial txt ++ curs_events (t_x (term_text clear_term txt)) (t_y (term_text clear_term txt))) [].
Proof.
  apply (printk_correct 1000 500 20 (λ _, None) 0 8 ex_log_mem 2000 ex_log_fmt [42] [52; 50; 10] [] ex_console clear_term).
  - lia.
  - rewrite /BUFSZ. lia.
  - by apply fill_owned.
  - repeat constructor; lia.
  - exact ex_log_fixed.
  - intros a l Ha. discriminate Ha.
  - simpl. lia.
  - reflexivity.
  - vm_compute. reflexivity.
  - vm_compute. reflexivity.
  - exact I.
  - simpl. lia.
  - exact ex_screen_shows.
  - reflexivity.
Defined.

(** The initialisation on a screen full of the letter A, then two lines. *)
Lemma console_shows_text_witness :
  let s := mk_vga trace (replicate (Z.to_nat (2 * (ROWS * COLS))) 65) 0x17 0 0 MONITOR_NONE [] in
  ∃ s' t, (do! vga_preinit 0x20 then vga_puts [79; 75; 10; 33]) s = Ret (tt, s') ∧ shows s' t ∧
    displays ([[79; 75]], [33]) t.
Proof.
  intros s. apply (console_shows_text 0x20 [79; 75; 10; 33] s).
  - apply length_replicate.
  - reflexivity.
  - reflexivity.
  - apply Forall_forall. intros c Hc. rewrite /byte. repeat (apply elem_of_cons in Hc as [->|Hc]; [lia|]). by apply elem_of_nil in Hc.
Defined.

(** A deletion at the start of an empty screen. *)
Lemma console_wf_witness :
  let s := mk_vga trace (replicate 2000 32 ≫= (λ c, [c; 0x17])) 0x17 0 0 MONITOR_COLOUR [] in
  ∃ s', vga_puts [8; 10; 65] s = Ret (tt, s') ∧ vga_wf s' ∧ vdev s' = [].
Proof.
  intros s. apply (console_wf [8; 10; 65] s).
  - split; [|by split; cbn]. exists (replicate 2000 32). split; [apply length_replicate|]. split; [by apply Forall_replicate|reflexivity].
  - apply Forall_forall. intros c Hc. rewrite /byte. repeat (apply elem_of_cons in Hc as [->|Hc]; [lia|]). by apply elem_of_nil in Hc.
Defined.
