(* ===== verification/Pci.v ===== *)
(** * PCI devices ([drivers/pci.c], [arch-ia32/pci.c], [include/scaraOS/pci.h])

    The generic part reads and writes the configuration space of a domain
    through the operations of the domain; the only domain is the one of
    configuration mechanism 1.  Probing walks over all busses, devices and
    functions.  [PciProps] has the theorems. *)
From stdpp Require Import strings.
From S2P Require Import Prelude ObjAlloc Blk Io.
Local Open Scope string_scope.
Local Open Scope Z_scope.

Definition PCI_NUM_BARS : Z := 6.
Definition PCI_CONF_ID : Z := 0x00.
Definition PCI_CONF_CLASSREV : Z := 0x08.
Definition PCI_CONF_HDRTYPE : Z := 0x0e.
Definition PCI_CONF0_BAR0 : Z := 0x10.
Definition PCI_CONF0_IRQ : Z := 0x3c.
Definition PCI_NUM_BUSSES : Z := 0x100.
Definition PCI_NUM_DEVS : Z := 0x20.
Definition PCI_NUM_FUNCS : Z := 0x08.
Definition PCI_BUS_MASK : Z := PCI_NUM_BUSSES - 1.
Definition PCI_DEV_MASK : Z := PCI_NUM_DEVS - 1.
Definition PCI_FUNC_MASK : Z := PCI_NUM_FUNCS - 1.
Definition PCI_FUNC_SHIFT : Z := 0.
Definition PCI_DEV_SHIFT : Z := 3.
Definition PCI_BUS_SHIFT : Z := 8.
Definition PCI_BDF (bus dev fn : Z) : Z :=
  Z.lor (Z.lor (Z.shiftl (Z.land bus PCI_BUS_MASK) PCI_BUS_SHIFT)
               (Z.shiftl (Z.land dev PCI_DEV_MASK) PCI_DEV_SHIFT))
        (Z.shiftl (Z.land fn PCI_FUNC_MASK) PCI_FUNC_SHIFT).
Definition CONF_LOC (bdf ofs : Z) : Z :=
  u32 (Z.lor (Z.lor 0x80000000 (Z.shiftl bdf 8)) (Z.land ofs 0xff)).

Definition cls_str : list string := [
  "PCI-1.x"; "Mass Storage"; "Network Controller"; "Display Controller";
  "Multimedia Controller"; "Memory Controller"; "Bridge";
  "Simple Comms Controller"; "Base system peripherals"; "Input";
  "Docking Station"; "Processor"; "Serial bus" ].
Definition bridge_str : list string := [
  "Host/PCI bridge"; "PCI/ISA bridge"; "PCI/EISA bridge";
  "PCI/Micro Channel bridge"; "PCI/PCI bridge"; "PCI/PCMCIA bridge";
  "PCI/NuBus bridge"; "PCI/CardBus bridge" ].

(** The 32-bit constants [~0UL], [~0x3] and [~0xfUL]. *)
Definition ALL_ONES : Z := 0xffffffff.
Definition IO_MASK : Z := 0xfffffffc.
Definition MEM_MASK : Z := 0xfffffff0.

(** [struct pci_dom_ops], over the state [S] of the domains. *)
Record pci_dom_ops {S : Type} := mk_dom_ops {
  read_conf32 : Z → M S Z;
  write_conf32 : Z → Z → M S unit;
  read_conf16 : Z → M S Z;
  write_conf16 : Z → Z → M S unit;
  read_conf8 : Z → M S Z;
  write_conf8 : Z → Z → M S unit
}.
Arguments pci_dom_ops : clear implicits.

Record pci_dev := mk_pci_dev { pci_driver : Z; pci_domain : Z; pci_bdf : Z }.
Definition set_pci_driver (v : Z) (d : pci_dev) : pci_dev := mk_pci_dev v (pci_domain d) (pci_bdf d).

(** [struct pci_dom], less its constant [d_ops]. *)
Record pci_dom := mk_pci_dom { d_devices : list Z; d_domain : Z }.

(** [struct pci_cls_tbl] *)
Record pci_cls_tbl := mk_cls { cls_driver : Z; cls_mask : Z; cls_val : Z }.

(** The table is the section of the class drivers of the kernel image. *)
Fixpoint pci_arch_scan_cls (tbl : list pci_cls_tbl) (cls : Z) : Z :=
  match tbl with
  | [] => NULL
  | p :: tbl => if Z.land cls (cls_mask p) =? cls_val p then cls_driver p else pci_arch_scan_cls tbl cls
  end.

Section pci.
Context {S P : Type} `{!ObjOps P}.

Record pci := mk_pci {
  cfg : S;
  pdoms : gmap Z pci_dom;
  pci_domains : list Z;
  num_domains : Z;
  pdevs : gmap Z pci_dev;
  pk_objs : P;
  pk_log : list msg
}.
Definition set_cfg (v : S) (s : pci) : pci :=
  mk_pci v (pdoms s) (pci_domains s) (num_domains s) (pdevs s) (pk_objs s) (pk_log s).
Definition upd_pdoms (f : gmap Z pci_dom → gmap Z pci_dom) (s : pci) : pci :=
  mk_pci (cfg s) (f (pdoms s)) (pci_domains s) (num_domains s) (pdevs s) (pk_objs s) (pk_log s).
Definition set_domains (l : list Z) (n : Z) (s : pci) : pci :=
  mk_pci (cfg s) (pdoms s) l n (pdevs s) (pk_objs s) (pk_log s).
Definition upd_pdevs (f : gmap Z pci_dev → gmap Z pci_dev) (s : pci) : pci :=
  mk_pci (cfg s) (pdoms s) (pci_domains s) (num_domains s) (f (pdevs s)) (pk_objs s) (pk_log s).
Definition set_pk_objs (v : P) (s : pci) : pci :=
  mk_pci (cfg s) (pdoms s) (pci_domains s) (num_domains s) (pdevs s) v (pk_log s).
Definition add_msg (m : msg) (s : pci) : pci :=
  mk_pci (cfg s) (pdoms s) (pci_domains s) (num_domains s) (pdevs s) (pk_objs s) (m :: pk_log s).

Abbreviation C := (M pci).

Definition on_cfg {A} (m : M S A) : C A := zoom cfg set_cfg m.
Definition pci_printk (fmt : string) (args : list parg) : C unit := modify (add_msg (fmt, args)).
Definition ld_pdev (a : Z) : C pci_dev := let! s := get in deref (pdevs s !! a).
Definition st_pdev (a : Z) (d : pci_dev) : C unit := modify (upd_pdevs (insert a d)).
Definition ld_pdom (a : Z) : C pci_dom := let! s := get in deref (pdoms s !! a).
Definition st_pdom (a : Z) (d : pci_dom) : C unit := modify (upd_pdoms (insert a d)).

(** The operations of a domain, the class drivers, and a driver's [attach],
    which is given the device. *)
Context (d_ops : Z → pci_dom_ops S) (tbl : list pci_cls_tbl).
Context (driver_name : Z → string) (attach : Z → Z → C Z).

Definition pcidev_conf_read32 (dev addr : Z) : C Z :=
  let! d := ld_pdev dev in
  on_cfg (read_conf32 (d_ops (pci_domain d)) (CONF_LOC (pci_bdf d) addr)).
Definition pcidev_conf_write32 (dev addr v : Z) : C unit :=
  let! d := ld_pdev dev in
  on_cfg (write_conf32 (d_ops (pci_domain d)) (CONF_LOC (pci_bdf d) addr) v).
Definition pcidev_conf_read16 (dev addr : Z) : C Z :=
  let! d := ld_pdev dev in
  on_cfg (read_conf16 (d_ops (pci_domain d)) (CONF_LOC (pci_bdf d) addr)).
Definition pcidev_conf_write16 (dev addr v : Z) : C unit :=
  let! d := ld_pdev dev in
  on_cfg (write_conf8 (d_ops (pci_domain d)) (CONF_LOC (pci_bdf d) addr) (u8 v)).
Definition pcidev_conf_read8 (dev addr : Z) : C Z :=
  let! d := ld_pdev dev in
  on_cfg (read_conf8 (d_ops (pci_domain d)) (CONF_LOC (pci_bdf d) addr)).
Definition pcidev_conf_write8 (dev addr v : Z) : C unit :=
  let! d := ld_pdev dev in
  on_cfg (write_conf8 (d_ops (pci_domain d)) (CONF_LOC (pci_bdf d) addr) v).

Definition pci_driver_lookup (id cls : Z) : Z := pci_arch_scan_cls tbl cls.

Definition bar_msg (io : bool) (i sz bar : Z) : C unit :=
  pci_printk " - %s BAR%d (%8lu @ 0x%.8lx)\n" [PS (if io then "I/O" else "MEM"); PZ i; PZ sz; PZ bar].

(** The loop over the address registers; [n] bounds the rounds. *)
Fixpoint scan_bars_loop (n : nat) (dev i : Z) : C unit :=
  match n with
  | O => ret tt
  | Datatypes.S n =>
    if i <? PCI_NUM_BARS then
      let reg := PCI_CONF0_BAR0 + Z.shiftl i 2 in
      let! bar := pcidev_conf_read32 dev reg in
      do! pcidev_conf_write32 dev reg ALL_ONES then
      let! sz := pcidev_conf_read32 dev reg in
      if bar =? 0 then scan_bars_loop n dev (i + 1) else
      if ctrue (Z.land bar 1) then
        do! bar_msg true i (u32 (u32 (Z.lnot (Z.land sz IO_MASK)) + 1)) (Z.land bar IO_MASK) then
        scan_bars_loop n dev (i + 1)
      else
        let k := Z.shiftr (Z.land bar 0x3) 1 in
        if (k =? 0) || (k =? 1) then
          do! bar_msg false i (u32 (u32 (Z.lnot (Z.land sz MEM_MASK)) + 1)) (Z.land bar MEM_MASK) then
          scan_bars_loop n dev (i + 1)
        else if k =? 2 then scan_bars_loop n dev (i + 2)
        else scan_bars_loop n dev (i + 1)
    else ret tt
  end.

Definition pcidev_scan_bars (dev : Z) : C unit :=
  do! scan_bars_loop (Z.to_nat PCI_NUM_BARS) dev 0 then
  let! irq := pcidev_conf_read32 dev PCI_CONF0_IRQ in
  when (ctrue (Z.land irq 0xff))
    (pci_printk " - IRQ line %ld, #INT%c pin\n" [PZ (Z.land irq 0xff); PZ (65 + Z.land (Z.shiftr irq 8) 0xff)]).

(** The text for a class: a name, or the three numbers. *)
Definition class_args (cls : Z) : list parg :=
  let c := Z.shiftr cls 24 in
  let sub := Z.land (Z.shiftr cls 16) 0xff in
  if c <? Z.of_nat (length cls_str) then
    if (c =? 6) && (sub <? Z.of_nat (length bridge_str)) then
      [PS (default "" (bridge_str !! Z.to_nat sub))]
    else [PS (default "" (cls_str !! Z.to_nat c))]
  else [PS "%.2lx.%.2lx.%.2lx"; PZ c; PZ sub; PZ (Z.land (Z.shiftr cls 8) 0xff)].

Definition sizeof_pci_dev : Z := 24.
Definition pcidev_add (dom b d f : Z) : C unit :=
  let! dev := zoom pk_objs set_pk_objs (obj_alloc (general_cache_of sizeof_pci_dev)) in
  if dev =? NULL then ret tt else
  do! st_pdev dev (mk_pci_dev NULL dom (PCI_BDF b d f)) then
  let! dm := ld_pdom dom in
  do! st_pdom dom (mk_pci_dom (d_devices dm ++ [dev]) (d_domain dm)) then
  let! id := pcidev_conf_read32 dev PCI_CONF_ID in
  let! cls := pcidev_conf_read32 dev PCI_CONF_CLASSREV in
  do! pci_printk "pci-dev: %i:%i.%i vendor=%.4lx device=%.4lx %s rev=%ld\n"
    ([PZ b; PZ d; PZ f; PZ (Z.land id 0xffff); PZ (Z.shiftr id 16)] ++ class_args cls ++ [PZ (Z.land cls 0xff)]) then
  do! pcidev_scan_bars dev then
  let drv := pci_driver_lookup id cls in
  let! x := ld_pdev dev in
  do! st_pdev dev (set_pci_driver drv x) then
  when (negb (drv =? NULL))
    (do! pci_printk " - DRIVER: %s\n" [PS (driver_name drv)] then
     let! _ := attach drv dev in ret tt).

(** The loop over the functions from [f] on, [n] of them. *)
Fixpoint probe_funcs (n : nat) (dom b d f : Z) : C unit :=
  match n with
  | O => ret tt
  | Datatypes.S n =>
    let bdf := PCI_BDF b d f in
    let! id := on_cfg (read_conf32 (d_ops dom) (CONF_LOC bdf PCI_CONF_ID)) in
    if id =? ALL_ONES then
      if f =? 0 then ret tt else probe_funcs n dom b d (f + 1)
    else
    let! type := on_cfg (read_conf8 (d_ops dom) (CONF_LOC bdf PCI_CONF_HDRTYPE)) in
    do! (if Z.land type 0x7f =? 0 then pcidev_add dom b d f
         else if Z.land type 0x7f =? 1 then ret tt
         else pci_printk " - UNSUPPORTED HEADER TYPE: %d\n" [PZ type]) then
    if (f =? 0) && negb (ctrue (Z.land type 0x80)) then ret tt
    else probe_funcs n dom b d (f + 1)
  end.
Definition probe_dev (dom b d : Z) : C unit := probe_funcs (Z.to_nat PCI_NUM_FUNCS) dom b d 0.
Definition probe_bus (dom b : Z) : C unit := each (Z.to_nat PCI_NUM_DEVS) 0 (probe_dev dom b).
Definition probe_domain (dom : Z) : C unit := each (Z.to_nat PCI_NUM_BUSSES) 0 (probe_bus dom).

Definition pci_domain_add (dom : Z) : C unit :=
  let! s := get in
  do! modify (set_domains (pci_domains s ++ [dom]) (u32 (num_domains s + 1))) then
  st_pdom dom (mk_pci_dom [] (num_domains s)).

Fixpoint probe_domains (l : list Z) : C unit :=
  match l with [] => ret tt | dom :: l => do! probe_domain dom then probe_domains l end.
End pci.

(** ** Configuration mechanism 1 *)

Definition PCI_CONFREG : Z := 0x0cf8.
Definition PCI_CONF_MODE : Z := 0x0cfb.
Definition PCI_CONFDATA : Z := 0x0cfc.

(** [struct pci_dom_conf1] beside the generic part, and the ports. *)
Record conf1 {D : Type} := mk_conf1 { confreg : Z; cdev : D }.
Arguments conf1 : clear implicits.

Section conf1.
Context `{PortDev D}.
Definition set_confreg (v : Z) (s : conf1 D) : conf1 D := mk_conf1 D v (cdev s).
Definition set_cdev (d : D) (s : conf1 D) : conf1 D := mk_conf1 D (confreg s) d.
Definition on_cdev {A} (m : M D A) : M (conf1 D) A := zoom cdev set_cdev m.

Definition pci_probe : M (conf1 D) Z :=
  do! on_cdev (outb PCI_CONF_MODE 0x01) then
  let! tmp := on_cdev (inl PCI_CONFREG) in
  do! on_cdev (outl PCI_CONFREG 0x80000000) then
  let! v := on_cdev (inl PCI_CONFREG) in
  if v =? 0x80000000 then
    do! on_cdev (outl PCI_CONFREG tmp) then ret 1
  else
  do! on_cdev (outl PCI_CONFREG tmp) then
  do! on_cdev (outb PCI_CONF_MODE 0x00) then
  do! on_cdev (outb PCI_CONFREG 0x00) then
  do! on_cdev (outb 0x0cfa 0x00) then
  let! a := on_cdev (inb PCI_CONFREG) in
  if a =? 0 then
    let! b := on_cdev (inb 0xCFA) in
    if b =? 0 then ret 2 else ret 0
  else ret 0.

Definition conf_latch (latch : Z) : M (conf1 D) unit :=
  let! s := get in
  when (negb (confreg s =? latch))
    (do! modify (set_confreg latch) then on_cdev (outl PCI_CONFREG latch)).

Definition read_conf1_32 (addr : Z) : M (conf1 D) Z :=
  do! conf_latch addr then on_cdev (inl PCI_CONFDATA).
Definition write_conf1_32 (addr w : Z) : M (conf1 D) unit :=
  do! conf_latch addr then on_cdev (outl PCI_CONFDATA w).
Definition read_conf1_16 (addr : Z) : M (conf1 D) Z :=
  do! conf_latch addr then on_cdev (inw (PCI_CONFDATA + Z.land addr 0x2)).
Definition write_conf1_16 (addr w : Z) : M (conf1 D) unit :=
  do! conf_latch addr then on_cdev (outw PCI_CONFDATA (w + Z.land addr 0x2)).
Definition read_conf1_8 (addr : Z) : M (conf1 D) Z :=
  do! conf_latch addr then on_cdev (inb (PCI_CONFDATA + Z.land addr 0x3)).
Definition write_conf1_8 (addr w : Z) : M (conf1 D) unit :=
  do! conf_latch addr then on_cdev (outb PCI_CONFDATA (w + Z.land addr 0x3)).

Definition pci_conf1_ops : pci_dom_ops (conf1 D) :=
  mk_dom_ops _ read_conf1_32 write_conf1_32 read_conf1_16 write_conf1_16 read_conf1_8 write_conf1_8.

Context {P : Type} `{!ObjOps P}.
(** The address of [pci_conf1]. *)
Context (pci_conf1 : Z) (tbl : list pci_cls_tbl).
Context (driver_name : Z → string) (attach : Z → Z → M (pci (S := conf1 D) (P := P)) Z).

Definition pci_arch_init : M (pci (S := conf1 D) (P := P)) unit :=
  let! c := on_cfg pci_probe in
  if c =? 1 then
    do! pci_printk "pci: Using configuration 1\n" [] then
    pci_domain_add pci_conf1
  else pci_printk "pci: Using configuration %d (deprecated)\n" [PZ c].

Definition pci_init : M (pci (S := conf1 D) (P := P)) unit :=
  do! pci_arch_init then
  let! s := get in
  probe_domains (λ _, pci_conf1_ops) tbl driver_name attach (pci_domains s).
End conf1.
