(* ===== verification/PciProps.v ===== *)
(** * Configuration space and the enumeration of PCI devices *)
From stdpp Require Import strings.
From S2P Require Import Prelude ObjAlloc Blk Io Pci.
Local Open Scope Z_scope.

(** ** Locations *)

(** A function: bus, device and function numbers in range. *)
Definition bdf_ok (x : Z) : Prop := 0 ≤ x < 2 ^ 16.
(** The aligned word that holds a location. *)
Definition word_of (a : Z) : Z := a - a mod 4.

(** Numbers with no bit in common. *)
Lemma lor_shifted a b n : 0 ≤ n → 0 ≤ b < 2 ^ n → Z.lor (Z.shiftl a n) b = a * 2 ^ n + b.
Proof.
  intros Hn Hb. rewrite Z.shiftl_mul_pow2 //. rewrite -Z.add_lor_land.
  rewrite (_ : Z.land (a * 2 ^ n) b = 0); [|lia]. apply Z.bits_inj'. intros i Hi.
  rewrite Z.land_spec Z.bits_0. destruct (Z.ltb_spec i n).
  - rewrite Z.mul_pow2_bits_low //.
  - assert (b < 2 ^ i) by (eapply Z.lt_le_trans; [apply Hb|]; by apply Z.pow_le_mono_r).
    assert (Z.testbit b i = false) as ->; [|by rewrite andb_false_r].
    destruct (Z.eq_dec b 0) as [->|]; [apply Z.bits_0|]. apply Z.bits_above_log2; [lia|]. apply Z.log2_lt_pow2; lia.
Qed.

Lemma conf_loc_eq bdf ofs : bdf_ok bdf → 0 ≤ ofs < 256 → CONF_LOC bdf ofs = 2 ^ 31 + bdf * 256 + ofs.
Proof.
  intros Hb Ho. rewrite /bdf_ok in Hb. rewrite /CONF_LOC. change 0xff with (Z.ones 8).
  rewrite Z.land_ones // (Z.mod_small ofs) //.
  change 0x80000000 with (Z.shiftl 0x800000 8). rewrite -Z.shiftl_lor lor_shifted //.
  change 0x800000 with (Z.shiftl 0x80 16). rewrite lor_shifted; [lia|lia|].
  rewrite u32_id; lia.
Qed.

Lemma pci_bdf_eq b d f : 0 ≤ b < 256 → 0 ≤ d < 32 → 0 ≤ f < 8 → PCI_BDF b d f = b * 256 + d * 8 + f.
Proof.
  intros Hb Hd Hf. rewrite /PCI_BDF.
  change PCI_BUS_MASK with (Z.ones 8). change PCI_DEV_MASK with (Z.ones 5). change PCI_FUNC_MASK with (Z.ones 3).
  rewrite !Z.land_ones // !Z.mod_small // /PCI_FUNC_SHIFT /PCI_DEV_SHIFT /PCI_BUS_SHIFT Z.shiftl_0_r.
  rewrite -(Z.shiftl_shiftl b 5 3) // -Z.shiftl_lor lor_shifted // lor_shifted //. lia.
Qed.

Lemma pci_bdf_ok b d f : 0 ≤ b < 256 → 0 ≤ d < 32 → 0 ≤ f < 8 → bdf_ok (PCI_BDF b d f).
Proof. intros. rewrite pci_bdf_eq // /bdf_ok. lia. Qed.

(** ** What a domain promises

    [conf s l] is the word of configuration space at the aligned location
    [l]; [wr l w] the bits of [w] that stick when it is written there, given
    the word before. *)
Class DomSpec {S} (ops : pci_dom_ops S) := {
  dom_ok : S → Prop;
  conf : S → Z → Z;
  wr : Z → Z → Z → Z;
  ds_read32 s a : dom_ok s → 2 ^ 31 ≤ a < 2 ^ 31 + 2 ^ 24 →
    wp (read_conf32 ops a) (λ v s', v = conf s (word_of a) ∧ dom_ok s' ∧ ∀ l, conf s' l = conf s l) s;
  ds_read8 s a : dom_ok s → 2 ^ 31 ≤ a < 2 ^ 31 + 2 ^ 24 →
    wp (read_conf8 ops a) (λ v s', v = (conf s (word_of a) / 2 ^ (8 * (a mod 4))) mod 256 ∧ dom_ok s' ∧
      ∀ l, conf s' l = conf s l) s;
  ds_write32 s a w : dom_ok s → 2 ^ 31 ≤ a < 2 ^ 31 + 2 ^ 24 → 0 ≤ w < 2 ^ 32 →
    wp (write_conf32 ops a w) (λ _ s', dom_ok s' ∧
      ∀ l, conf s' l = if decide (l = word_of a) then wr l w (conf s l) else conf s l) s
}.

(** ** Mechanism 1 implements it *)

(** The host bridge as its manual describes it: the register at 0xcf8 keeps
    the location, the port 0xcfc gives access to the word there, and its bytes
    are at the ports from 0xcfc on.  Reading has no effect that is seen in
    configuration space. *)
Class Conf1Dev (D : Type) `{!PortDev D} := {
  c1_latch : D → Z;
  c1_conf : D → Z → Z;
  c1_wr : Z → Z → Z → Z;
  c1_addr d v : 0 ≤ v < 2 ^ 32 → c1_latch (dev_out 4 PCI_CONFREG v d) = v ∧
    ∀ l, c1_conf (dev_out 4 PCI_CONFREG v d) l = c1_conf d l;
  c1_in32 d : fst (dev_in 4 PCI_CONFDATA d) = c1_conf d (word_of (c1_latch d));
  c1_in8 d k : 0 ≤ k < 4 →
    fst (dev_in 1 (PCI_CONFDATA + k) d) = (c1_conf d (word_of (c1_latch d)) / 2 ^ (8 * k)) mod 256;
  c1_in w k d : 0 ≤ k < 4 → c1_latch (snd (dev_in w (PCI_CONFDATA + k) d)) = c1_latch d ∧
    ∀ l, c1_conf (snd (dev_in w (PCI_CONFDATA + k) d)) l = c1_conf d l;
  c1_word d l : 0 ≤ c1_conf d l < 2 ^ 32;
  c1_out32 d v : c1_latch (dev_out 4 PCI_CONFDATA v d) = c1_latch d ∧
    ∀ l, c1_conf (dev_out 4 PCI_CONFDATA v d) l =
      if decide (l = word_of (c1_latch d)) then c1_wr l v (c1_conf d l) else c1_conf d l
}.

Section conf1.
Context `{Conf1Dev D}.
Implicit Types s : conf1 D.

(** The driver's copy is the register's value, once it has written it. *)
Definition latched s : Prop := confreg s = ALL_ONES ∨ c1_latch (cdev s) = confreg s.

Lemma wp_conf_latch a s (Q : unit → conf1 D → Prop) : latched s → 2 ^ 31 ≤ a < 2 ^ 31 + 2 ^ 24 →
  (∀ s', confreg s' = a → c1_latch (cdev s') = a → (∀ l, c1_conf (cdev s') l = c1_conf (cdev s) l) → Q tt s') →
  wp (conf_latch a) Q s.
Proof.
  intros Hs Ha HQ. apply wp_bind, wp_gets. destruct (Z.eqb_spec (confreg s) a) as [E|E]; cbn [negb when].
  - apply wp_ret, HQ; [done| |done]. destruct Hs as [Hs|Hs]; [|congruence]. rewrite /ALL_ONES in Hs. lia.
  - apply wp_bind, wp_modify, wp_zoom, wp_port_out.
    rewrite /outs /=. rewrite (Z.mod_small a); [lia|].
    destruct (c1_addr (cdev s) a) as [H1 H2]; [lia|]. by apply HQ.
Qed.

Lemma u16_data k : 0 ≤ k < 4 → u16 (PCI_CONFDATA + k) = PCI_CONFDATA + k.
Proof. intros Hk. apply Z.mod_small. rewrite /PCI_CONFDATA. lia. Qed.

#[export] Program Instance conf1_spec : DomSpec (pci_conf1_ops (D := D)) := {|
  dom_ok := latched;
  conf s := c1_conf (cdev s);
  wr := c1_wr
|}.
Next Obligation.
  intros s a Hs Ha. apply wp_bind, (wp_conf_latch a s _ Hs Ha). intros s1 Hc Hl Hcf.
  apply wp_zoom, wp_port_in. cbv zeta. change (u16 PCI_CONFDATA) with (PCI_CONFDATA + 0).
  destruct (c1_in 4 0 (cdev s1)) as [H1 H2]; [lia|]. rewrite {1}Z.add_0_r c1_in32 Hl Hcf Z.mod_small; [apply c1_word|].
  split; [done|]. split; [right; simpl; congruence|]. intros l. simpl. by rewrite H2 Hcf.
Qed.
Next Obligation.
  intros s a Hs Ha. apply wp_bind, (wp_conf_latch a s _ Hs Ha). intros s1 Hc Hl Hcf.
  apply wp_zoom, wp_port_in. cbv zeta. change 0x3 with (Z.ones 2). rewrite Z.land_ones // (_ : 2 ^ 2 = 4) //.
  pose proof (Z.mod_pos_bound a 4 ltac:(lia)) as Hm. rewrite u16_data //.
  destruct (c1_in 1 (a mod 4) (cdev s1)) as [H1 H2]; [lia|].
  rewrite (c1_in8 (cdev s1) (a mod 4)) // Hl Hcf Z.mod_small; [apply Z.mod_pos_bound; lia|].
  split; [done|]. split; [right; simpl; congruence|]. intros l. simpl. by rewrite H2 Hcf.
Qed.
Next Obligation.
  intros s a w Hs Ha Hw. apply wp_bind, (wp_conf_latch a s _ Hs Ha). intros s1 Hc Hl Hcf.
  apply wp_zoom, wp_port_out. rewrite /outs /=. rewrite (Z.mod_small w) //.
  destruct (c1_out32 (cdev s1) w) as [H1 H2]. change (u16 PCI_CONFDATA) with PCI_CONFDATA.
  split; [right; simpl; congruence|]. intros l. simpl. by rewrite H2 Hl Hcf.
Qed.
End conf1.

(** ** Devices

    The laws of a domain [dom] with the operations [ops]. *)
Section probe.
Context {S P : Type} `{!ObjOps P, !ObjSpec P} (ops : pci_dom_ops S) `{!DomSpec ops}.
Context (dom_ : Z) (tbl : list pci_cls_tbl) (driver_name : Z → string).
Context (attach : Z → Z → M (pci (S := S) (P := P)) Z).
Implicit Types s : pci (S := S) (P := P).

(** Only the configuration space and the messages differ. *)
Definition same_lists s s' : Prop :=
  pdoms s' = pdoms s ∧ pdevs s' = pdevs s ∧ pk_objs s' = pk_objs s ∧
  pci_domains s' = pci_domains s ∧ num_domains s' = num_domains s.

Lemma same_lists_trans s s1 s2 : same_lists s s1 → same_lists s1 s2 → same_lists s s2.
Proof. intros (?&?&?&?&?) (?&?&?&?&?). split_and!; congruence. Qed.

Definition loc (bdf ofs : Z) : Z := 2 ^ 31 + bdf * 256 + ofs.

Lemma word_of_loc bdf ofs : bdf_ok bdf → 0 ≤ ofs < 256 → word_of (CONF_LOC bdf ofs) = loc bdf (ofs - ofs mod 4).
Proof.
  intros Hb Ho. rewrite conf_loc_eq // /word_of /loc.
  rewrite (_ : 2 ^ 31 + bdf * 256 + ofs = ofs + (2 ^ 29 + bdf * 64) * 4); [lia|]. rewrite Z_mod_plus_full. lia.
Qed.

Lemma conf_loc_range bdf ofs : bdf_ok bdf → 0 ≤ ofs < 256 → 2 ^ 31 ≤ CONF_LOC bdf ofs < 2 ^ 31 + 2 ^ 24.
Proof. intros Hb Ho. rewrite conf_loc_eq //. rewrite /bdf_ok in Hb. lia. Qed.

Lemma wp_read32 dev x ofs s (Q : Z → pci (S := S) (P := P) → Prop) :
  pdevs s !! dev = Some x → bdf_ok (pci_bdf x) → 0 ≤ ofs < 256 → dom_ok (cfg s) →
  (∀ c, dom_ok c → (∀ l, conf c l = conf (cfg s) l) →
     Q (conf (cfg s) (loc (pci_bdf x) (ofs - ofs mod 4))) (set_cfg c s)) →
  wp (pcidev_conf_read32 (λ _, ops) dev ofs) Q s.
Proof.
  intros Hx Hb Ho Hs HQ. apply wp_bind, wp_bind, wp_gets. eapply wp_deref; [exact Hx|]. apply wp_zoom.
  eapply wp_mono; [apply ds_read32; [done|by apply conf_loc_range]|]. intros v c (-> & Hc & Hcf).
  rewrite word_of_loc //. by apply HQ.
Qed.

Lemma wp_write32 dev x ofs w s (Q : unit → pci (S := S) (P := P) → Prop) :
  pdevs s !! dev = Some x → bdf_ok (pci_bdf x) → 0 ≤ ofs < 256 → 0 ≤ w < 2 ^ 32 → dom_ok (cfg s) →
  (∀ c, dom_ok c → (∀ l, conf c l = if decide (l = loc (pci_bdf x) (ofs - ofs mod 4)) then wr l w (conf (cfg s) l)
     else conf (cfg s) l) → Q tt (set_cfg c s)) →
  wp (pcidev_conf_write32 (λ _, ops) dev ofs w) Q s.
Proof.
  intros Hx Hb Ho Hw Hs HQ. apply wp_bind, wp_bind, wp_gets. eapply wp_deref; [exact Hx|]. apply wp_zoom.
  eapply wp_mono; [apply ds_write32; [done|by apply conf_loc_range|done]|]. intros [] c (Hc & Hcf).
  rewrite word_of_loc // in Hcf. by apply HQ.
Qed.

(** *** Address registers *)

(** The configuration space when the registers below [i] of a function have
    been overwritten with ones. *)
Definition bars_written (bdf i : Z) (c0 c : Z → Z) : Prop := ∀ l,
  c l = if decide (loc bdf 16 ≤ l < loc bdf (16 + 4 * i) ∧ l mod 4 = 0) then wr l ALL_ONES (c0 l) else c0 l.

Lemma bars_written_next bdf i c0 c c' : bdf_ok bdf → 0 ≤ i < 6 → bars_written bdf i c0 c →
  (∀ l, c' l = if decide (l = loc bdf (16 + 4 * i)) then wr l ALL_ONES (c l) else c l) →
  bars_written bdf (i + 1) c0 c'.
Proof.
  intros Hb Hi Hw Hc' l. rewrite Hc'. destruct (decide (l = loc bdf (16 + 4 * i))) as [->|Hne].
  - rewrite Hw decide_False; [lia|]. rewrite decide_True //. rewrite /loc. split; [lia|].
    rewrite (_ : 2 ^ 31 + bdf * 256 + (16 + 4 * i) = (2 ^ 29 + bdf * 64 + 4 + i) * 4); [lia|]. apply Z_mod_mult.
  - rewrite Hw. rewrite /loc in Hne |- *. apply decide_ext. split; [intros [? ?]; split; [lia|done]|].
    intros [Hl Hm]. split; [|done]. apply Z.div_exact in Hm; [|lia]. lia.
Qed.

Lemma wp_scan_bars_loop n dev x i s0 s (Q : unit → pci (S := S) (P := P) → Prop) :
  pdevs s0 !! dev = Some x → bdf_ok (pci_bdf x) → i + Z.of_nat n = PCI_NUM_BARS → 0 ≤ i →
  same_lists s0 s → dom_ok (cfg s) → bars_written (pci_bdf x) i (conf (cfg s0)) (conf (cfg s)) →
  (∀ s', same_lists s0 s' → dom_ok (cfg s') →
     bars_written (pci_bdf x) PCI_NUM_BARS (conf (cfg s0)) (conf (cfg s')) → Q tt s') →
  wp (scan_bars_loop (λ _, ops) n dev i) Q s.
Proof.
  intros Hx Hb. revert i s. induction n as [|n IH]; intros i s Hn Hi Hsl Hok Hw HQ; cbn [scan_bars_loop].
  { apply wp_ret, HQ; [done|done|]. by replace PCI_NUM_BARS with i by lia. }
  rewrite /PCI_NUM_BARS in Hn. destruct (Z.ltb_spec i PCI_NUM_BARS) as [_|]; [|rewrite /PCI_NUM_BARS in H; lia].
  assert (PCI_CONF0_BAR0 + Z.shiftl i 2 = 16 + 4 * i) as -> by (rewrite Z.shiftl_mul_pow2 // /PCI_CONF0_BAR0; lia).
  assert ((16 + 4 * i) - (16 + 4 * i) mod 4 = 16 + 4 * i) as Hal.
  { rewrite (_ : 16 + 4 * i = (4 + i) * 4); [lia|]. rewrite Z_mod_mult. lia. }
  assert (pdevs s !! dev = Some x) as Hx1 by (by destruct Hsl as (_ & -> & _)).
  apply wp_bind, (wp_read32 dev x _ s); [done|done|lia|done|]. rewrite Hal. intros c1 Hc1 Hcf1.
  apply wp_bind, (wp_write32 dev x _ _ _); [done|done|lia|done|done|]. rewrite Hal. intros c2 Hc2 Hcf2.
  apply wp_bind, (wp_read32 dev x); [done|done|lia|done|]. rewrite Hal. intros c3 Hc3 Hcf3.
  cbn [cfg set_cfg] in *. set (s3 := set_cfg c3 _).
  assert (∀ s4, same_lists s3 s4 → cfg s4 = c3 → wp (scan_bars_loop (λ _, ops) n dev (i + 1)) Q s4) as Hnext.
  { intros s4 Hs4 Hc4. apply IH; [rewrite /PCI_NUM_BARS; lia|lia|exact (same_lists_trans _ _ _ Hsl Hs4)|by rewrite Hc4| |done].
    rewrite Hc4. eapply bars_written_next; [done|lia|exact Hw|]. intros l. by rewrite Hcf3 Hcf2 Hcf1. }
  destruct (_ =? 0); [by apply Hnext|]. destruct (ctrue _); [by apply wp_bind, wp_modify, Hnext|].
  destruct (_ || _) eqn:Ek; [by apply wp_bind, wp_modify, Hnext|].
  destruct (_ =? 2) eqn:E2; [|by apply Hnext].
  exfalso. apply Z.eqb_eq in E2. change 0x3 with (Z.ones 2) in E2. rewrite Z.land_ones // Z.shiftr_div_pow2 // in E2.
  pose proof (Z.mod_pos_bound (conf (cfg s) (loc (pci_bdf x) (16 + 4 * i))) (2 ^ 2) ltac:(lia)) as Hm.
  match type of E2 with ?a / _ = _ => pose proof (Z.div_lt_upper_bound a (2 ^ 1) 2 ltac:(lia)) end. lia.
Qed.

Lemma wp_scan_bars dev x s (Q : unit → pci (S := S) (P := P) → Prop) :
  pdevs s !! dev = Some x → bdf_ok (pci_bdf x) → dom_ok (cfg s) →
  (∀ s', same_lists s s' → dom_ok (cfg s') →
     bars_written (pci_bdf x) PCI_NUM_BARS (conf (cfg s)) (conf (cfg s')) → Q tt s') →
  wp (pcidev_scan_bars (λ _, ops) dev) Q s.
Proof.
  intros Hx Hb Hok HQ. apply wp_bind.
  apply (wp_scan_bars_loop _ dev x 0 s s); [done|done|done|lia|done|done| |].
  { intros l. rewrite decide_False //. rewrite /loc. lia. }
  intros s1 Hs1 Hok1 Hw1. apply wp_bind, (wp_read32 dev x).
  { by destruct Hs1 as (_ & -> & _). }
  { done. }
  { rewrite /PCI_CONF0_IRQ. lia. }
  { done. }
  intros c Hc Hcf. destruct (ctrue _); cbn [when]; [apply wp_modify|apply wp_ret]; apply HQ; try done.
  - intros l. cbn. by rewrite Hcf Hw1.
  - intros l. cbn. by rewrite Hcf Hw1.
Qed.

(** *** Enumeration

    [c0] is the configuration space before probing.  A function is there when
    its first word is not all ones; function 0 tells whether to look at the
    others; an ordinary device has header type 0. *)
Context (c0 : Z → Z).

Definition fid (b : Z) : Z := c0 (loc b PCI_CONF_ID).
Definition ftype (b : Z) : Z := (c0 (loc b 0x0c) / 2 ^ 16) mod 256.
Definition ordinary (b : Z) : bool := negb (fid b =? ALL_ONES) && (Z.land (ftype b) 0x7f =? 0).
Definition functions (b d : Z) : list Z :=
  if fid (PCI_BDF b d 0) =? ALL_ONES then []
  else if ctrue (Z.land (ftype (PCI_BDF b d 0)) 0x80) then seqZ 0 PCI_NUM_FUNCS
  else [0].
Definition found_dev (b d : Z) : list Z := filter ordinary (PCI_BDF b d <$> functions b d).
Definition found_bus (b : Z) : list Z := mjoin (found_dev b <$> seqZ 0 PCI_NUM_DEVS).
Definition found : list Z := mjoin (found_bus <$> seqZ 0 PCI_NUM_BUSSES).

(** The driver of a function: the first whose class matches. *)
Definition driver_of (b : Z) : Z := pci_arch_scan_cls tbl (c0 (loc b PCI_CONF_CLASSREV)).

(** What a driver allocates in [attach], and what adding the function [b]
    takes: its structure, and what its driver needs. *)
Context (needs : Z → list Z).
Definition supply_of (b : Z) : list Z :=
  general_cache_of sizeof_pci_dev :: (if driver_of b =? NULL then [] else needs (driver_of b)).

(** The functions [l] have been found, there is memory for [rest]; the
    headers are as before. *)
Record scanned (l rest : list Z) s : Prop := {
  sc_ok : dom_ok (cfg s);
  sc_hdr : ∀ b o, bdf_ok b → 0 ≤ o < 16 → conf (cfg s) (loc b o) = c0 (loc b o);
  sc_list : ∃ ptrs n, pdoms s !! dom_ = Some (mk_pci_dom ptrs n) ∧
    Forall2 (λ p b, pdevs s !! p = Some (mk_pci_dev (driver_of b) dom_ b)) ptrs l;
  sc_pool : ∃ A, objs_live (pk_objs s) A ∧ dom (pdevs s) ⊆ A;
  sc_enough : objs_avail (pk_objs s) (rest ≫= supply_of)
}.

(** What is asked of a driver: given a device of its own and the memory it
    needs, [attach] returns, with any result; it may keep what it allocated, and
    it leaves the headers of all functions, the devices and their list alone. *)
Definition attach_law : Prop := ∀ drv dev b s A k,
  pdevs s !! dev = Some (mk_pci_dev drv dom_ b) → dom_ok (cfg s) →
  objs_live (pk_objs s) A → objs_avail (pk_objs s) (needs drv ++ k) →
  wp (attach drv dev) (λ _ s', dom_ok (cfg s') ∧ pdoms s' = pdoms s ∧ pdevs s' = pdevs s ∧
    (∀ b o, bdf_ok b → 0 ≤ o < 16 → conf (cfg s') (loc b o) = conf (cfg s) (loc b o)) ∧
    (∃ A', A ⊆ A' ∧ objs_live (pk_objs s') A') ∧ objs_avail (pk_objs s') k) s.
Hypothesis attach_ok : attach_law.

(** Probing a part of the bus whose functions are [new]. *)
Definition probes (m : M (pci (S := S) (P := P)) unit) (new : list Z) : Prop :=
  ∀ l rest s, scanned l (new ++ rest) s → wp m (λ _ s', scanned (l ++ new) rest s') s.

Lemma probes_nil : probes (ret tt) [].
Proof. intros l rest s Hs. apply wp_ret. by rewrite app_nil_r. Qed.

Lemma probes_bind m k l1 l2 : probes m l1 → probes k l2 → probes (do! m then k) (l1 ++ l2).
Proof.
  intros Hm Hk l rest s Hs. rewrite -app_assoc in Hs. apply wp_bind. eapply wp_mono; [exact (Hm _ _ _ Hs)|].
  intros [] s1 Hs1. eapply wp_mono; [exact (Hk _ _ _ Hs1)|]. intros [] s2. by rewrite app_assoc.
Qed.

Lemma probes_each n i f g : (∀ j, i ≤ j < i + Z.of_nat n → probes (f j) (g j)) →
  probes (each n i f) (mjoin (g <$> seqZ i (Z.of_nat n))).
Proof.
  revert i. induction n as [|n IH]; intros i Hf; [apply probes_nil|].
  rewrite seqZ_cons; [lia|]. cbn [each fmap list_fmap mjoin list_join]. apply probes_bind; [apply Hf; lia|].
  rewrite (_ : Z.pred (Z.of_nat (Datatypes.S n)) = Z.of_nat n); [lia|]. apply IH. intros j Hj. apply Hf. lia.
Qed.

(** Overwriting the address registers leaves the headers alone. *)
Lemma hdr_bars b i c c' l o : bars_written b i c c' → bdf_ok b → 0 ≤ i ≤ PCI_NUM_BARS → bdf_ok l → 0 ≤ o < 16 →
  c' (loc l o) = c (loc l o).
Proof.
  intros Hw Hb Hi Hl Ho. rewrite Hw decide_False //. rewrite /loc. rewrite /PCI_NUM_BARS in Hi. intros [H1 H2]. lia.
Qed.

Lemma probes_add b d f : bdf_ok (PCI_BDF b d f) →
  probes (pcidev_add (λ _, ops) tbl driver_name attach dom_ b d f) [PCI_BDF b d f].
Proof.
  intros Hb l rest s [Hok Hhdr (ptrs & n & Hdm & Hfa) (A & HA & Hsub) Hen]. apply wp_bind, wp_zoom.
  change (([PCI_BDF b d f] ++ rest) ≫= supply_of) with (supply_of (PCI_BDF b d f) ++ (rest ≫= supply_of)) in Hen.
  rewrite /supply_of in Hen. cbn [app] in Hen. fold (supply_of) in Hen.
  eapply wp_mono; [exact (objs_alloc_avail _ _ _ HA)|]. intros dev p1 [Hal Hav].
  destruct (Hav _ Hen) as [Hnn Hen1]. destruct Hal as [[-> _]|(_ & _ & Hf & HA1)]; [done|]. rewrite (proj2 (Z.eqb_neq _ _)) //.
  apply wp_bind, wp_modify. apply wp_bind, wp_bind, wp_gets. eapply wp_deref; [exact Hdm|].
  apply wp_bind, wp_modify. set (x := mk_pci_dev NULL dom_ (PCI_BDF b d f)).
  match goal with |- wp _ _ ?t => set (s1 := t) end.
  assert (pdevs s1 !! dev = Some x) as Hx by apply lookup_insert_eq.
  apply wp_bind, (wp_read32 dev x); [done|done|done|done|]. intros c1 Hc1 Hcf1.
  apply wp_bind, (wp_read32 dev x); [done|done|done|done|]. intros c2 Hc2 Hcf2. cbn [cfg set_cfg] in *.
  apply wp_bind, wp_modify. apply wp_bind, (wp_scan_bars dev x); [done|done|done|].
  intros s2 (Hdm2 & Hdv2 & Hob2 & _) Hok2 Hw2. cbn in Hdm2, Hdv2, Hob2, Hw2.
  apply wp_bind, wp_bind, wp_gets. eapply wp_deref; [rewrite Hdv2; apply lookup_insert_eq|]. apply wp_bind, wp_modify.
  change (PCI_CONF_CLASSREV - PCI_CONF_CLASSREV mod 4) with PCI_CONF_CLASSREV.
  assert (pci_driver_lookup tbl (conf (cfg s1) (loc (pci_bdf x) (PCI_CONF_ID - PCI_CONF_ID mod 4)))
    (conf c1 (loc (pci_bdf x) PCI_CONF_CLASSREV)) = driver_of (PCI_BDF b d f)) as ->.
  { rewrite /pci_driver_lookup /driver_of Hcf1. by rewrite -Hhdr. }
  match goal with |- wp _ _ ?t => set (s3 := t) end.
  assert (∀ s4, dom_ok (cfg s4) → pdoms s4 = pdoms s3 → pdevs s4 = pdevs s3 →
    (∀ b o, bdf_ok b → 0 ≤ o < 16 → conf (cfg s4) (loc b o) = conf (cfg s3) (loc b o)) →
    (∃ A', {[ dev ]} ∪ A ⊆ A' ∧ objs_live (pk_objs s4) A') → objs_avail (pk_objs s4) (rest ≫= supply_of) →
    scanned (l ++ [PCI_BDF b d f]) rest s4) as Hend.
  { intros s4 Hok4 Hdm4 Hdv4 Hcf4 (A' & HA' & Hlv') Hav4. split; [done| | | |done].
    - intros l' o Hl' Ho. rewrite Hcf4 //. cbn. rewrite (hdr_bars _ _ _ _ _ _ Hw2) // Hcf2 Hcf1. by apply Hhdr.
    - exists (ptrs ++ [dev]), n. rewrite Hdm4 Hdv4. cbn. rewrite Hdm2 Hdv2. split; [apply lookup_insert_eq|].
      apply Forall2_app; [|constructor; [by rewrite lookup_insert_eq|constructor]].
      eapply Forall2_impl; [exact Hfa|]. intros p b' Hp. rewrite insert_insert_eq lookup_insert_ne //.
      intros ->. apply Hf, Hsub. by apply elem_of_dom_2 in Hp.
    - exists A'. split; [exact Hlv'|]. rewrite Hdv4. cbn. rewrite Hdv2 !dom_insert_L. set_solver. }
  assert (pk_objs s3 = p1) as Hp3 by exact Hob2.
  destruct (driver_of _ =? NULL) eqn:Edrv; cbn [negb when].
  { apply wp_ret, Hend; try done; rewrite Hp3; [by exists ({[ dev ]} ∪ A)|exact Hen1]. }
  apply wp_bind, wp_modify. apply wp_bind.
  eapply wp_mono; [apply (attach_ok _ _ (PCI_BDF b d f) _ ({[ dev ]} ∪ A) (rest ≫= supply_of))|].
  - cbn. by rewrite lookup_insert_eq.
  - exact Hok2.
  - cbn. by rewrite Hob2.
  - cbn. rewrite Hob2. exact Hen1.
  - intros r s4 (H1 & H2 & H3 & H4 & H5 & H6). by apply wp_ret, Hend.
Qed.

(** Reading the two words the walk depends on. *)
Lemma wp_fid b l rest s (Q : Z → pci (S := S) (P := P) → Prop) : bdf_ok b → scanned l rest s →
  (∀ s', scanned l rest s' → Q (fid b) s') → wp (on_cfg (read_conf32 ops (CONF_LOC b PCI_CONF_ID))) Q s.
Proof.
  intros Hb [Hok Hhdr Hl Hp He] HQ. apply wp_zoom.
  eapply wp_mono; [apply ds_read32; [done|by apply conf_loc_range]|]. intros v c (-> & Hc & Hcf).
  rewrite word_of_loc // Hhdr //. apply HQ. split; try done. intros b' o Hb' Ho. cbn. rewrite Hcf. by apply Hhdr.
Qed.

Lemma wp_ftype b l rest s (Q : Z → pci (S := S) (P := P) → Prop) : bdf_ok b → scanned l rest s →
  (∀ s', scanned l rest s' → Q (ftype b) s') → wp (on_cfg (read_conf8 ops (CONF_LOC b PCI_CONF_HDRTYPE))) Q s.
Proof.
  intros Hb [Hok Hhdr Hl Hp He] HQ. apply wp_zoom.
  eapply wp_mono; [apply ds_read8; [done|by apply conf_loc_range]|]. intros v c (-> & Hc & Hcf).
  rewrite word_of_loc //. change (PCI_CONF_HDRTYPE - PCI_CONF_HDRTYPE mod 4) with 0x0c. rewrite Hhdr //.
  rewrite (_ : CONF_LOC b PCI_CONF_HDRTYPE mod 4 = 2).
  { rewrite conf_loc_eq // (_ : 2 ^ 31 + b * 256 + PCI_CONF_HDRTYPE = 2 + (2 ^ 29 + b * 64 + 3) * 4); [rewrite /PCI_CONF_HDRTYPE; lia|].
    by rewrite Z_mod_plus_full. }
  apply HQ. split; try done. intros b' o Hb' Ho. cbn. rewrite Hcf. by apply Hhdr.
Qed.

Lemma ordinary_absent b : fid b = ALL_ONES → filter ordinary [b] = [].
Proof. intros E. by rewrite /filter /= /ordinary E Z.eqb_refl. Qed.

(** What is done for a function that is there. *)
Lemma probes_func b d f (type := ftype (PCI_BDF b d f)) :
  bdf_ok (PCI_BDF b d f) → fid (PCI_BDF b d f) ≠ ALL_ONES →
  probes (if Z.land type 0x7f =? 0 then pcidev_add (λ _, ops) tbl driver_name attach dom_ b d f
         else if Z.land type 0x7f =? 1 then ret tt
         else pci_printk " - UNSUPPORTED HEADER TYPE: %d\n" [PZ type])
    (filter ordinary [PCI_BDF b d f]).
Proof.
  intros Hb Hid. rewrite /filter /= /ordinary (proj2 (Z.eqb_neq _ _) Hid). fold type. simpl.
  destruct (Z.land type 127 =? 0).
  - by apply probes_add.
  - cbn. destruct (_ =? 1); [apply probes_nil|].
    intros l rest s Hs. apply wp_modify. rewrite app_nil_r. destruct Hs. split; cbn; eassumption.
Qed.

Lemma probes_rest n b d f : 0 ≤ b < 256 → 0 ≤ d < 32 → 1 ≤ f → f + Z.of_nat n = PCI_NUM_FUNCS →
  probes (probe_funcs (λ _, ops) tbl driver_name attach n dom_ b d f)
    (filter ordinary (PCI_BDF b d <$> seqZ f (Z.of_nat n))).
Proof.
  intros Hb Hd. revert f. induction n as [|n IH]; intros f Hf Hn; [apply probes_nil|].
  rewrite /PCI_NUM_FUNCS in Hn. rewrite seqZ_cons; [lia|].
  rewrite (_ : Z.pred (Z.of_nat (Datatypes.S n)) = Z.of_nat n); [lia|].
  change (PCI_BDF b d <$> f :: ?k) with ([PCI_BDF b d f] ++ (PCI_BDF b d <$> k)). rewrite filter_app.
  assert (bdf_ok (PCI_BDF b d f)) as Hok by (apply pci_bdf_ok; lia).
  specialize (IH (Z.succ f) ltac:(lia) ltac:(rewrite /PCI_NUM_FUNCS; lia)).
  intros l rest s Hs. cbn [probe_funcs]. apply wp_bind. apply (wp_fid _ _ _ _ _ Hok Hs). intros s1 Hs1.
  destruct (Z.eqb_spec (fid (PCI_BDF b d f)) ALL_ONES) as [E|E].
  - destruct (Z.eqb_spec f 0); [lia|].
    rewrite (ordinary_absent _ E) app_nil_l in Hs1 |- *. exact (IH _ _ _ Hs1).
  - apply wp_bind. apply (wp_ftype _ _ _ _ _ Hok Hs1). intros s2 Hs2.
    destruct (Z.eqb_spec f 0); [lia|]. cbn [andb].
    by apply (probes_bind _ _ _ _ (probes_func b d f Hok E) IH).
Qed.

Lemma probes_dev b d : 0 ≤ b < 256 → 0 ≤ d < 32 →
  probes (probe_dev (λ _, ops) tbl driver_name attach dom_ b d) (found_dev b d).
Proof.
  intros Hb Hd l rest s. rewrite /found_dev /functions /probe_dev. intros Hs.
  assert (bdf_ok (PCI_BDF b d 0)) as Hok by (apply pci_bdf_ok; lia).
  change (Z.to_nat PCI_NUM_FUNCS) with 8%nat. cbn [probe_funcs].
  apply wp_bind. apply (wp_fid _ _ _ _ _ Hok Hs). clear s Hs. intros s Hs.
  destruct (Z.eqb_spec (fid (PCI_BDF b d 0)) ALL_ONES) as [E|E].
  - apply wp_ret. by rewrite app_nil_r.
  - apply wp_bind. apply (wp_ftype _ _ _ _ _ Hok Hs). clear s Hs. intros s Hs. cbn [Z.eqb andb].
    destruct (ctrue _); cbn [negb].
    + change (seqZ 0 PCI_NUM_FUNCS) with (0 :: seqZ 1 (Z.of_nat 7)).
      change (PCI_BDF b d <$> 0 :: ?k) with ([PCI_BDF b d 0] ++ (PCI_BDF b d <$> k)). rewrite filter_app in Hs |- *.
      apply (probes_bind _ _ _ _ (probes_func b d 0 Hok E) (probes_rest 7 b d 1 Hb Hd ltac:(lia) eq_refl)); done.
    + pose proof (probes_bind _ _ _ _ (probes_func b d 0 Hok E) probes_nil l rest s) as H.
      rewrite app_nil_r in H. by apply H.
Qed.

Lemma probes_domain : probes (probe_domain (λ _, ops) tbl driver_name attach dom_) found.
Proof.
  apply probes_each. intros b Hb. apply probes_each. intros d Hd.
  apply probes_dev; [rewrite /PCI_NUM_BUSSES in Hb; lia|rewrite /PCI_NUM_DEVS in Hd; lia].
Qed.
End probe.

(** ** The theorems *)

(** C32: Enumeration is complete and exact: probing a domain appends to it, in
    the order of busses, devices and functions, exactly the functions that
    answer with an identification, have an ordinary header, and are function 0
    or belong to a device whose function 0 is marked as one of several; each
    gets the first driver whose class matches.  There has to be memory for the
    structure of every one of them and for what its driver needs; a driver may
    keep that memory, and its [attach] may fail, but it returns and leaves the headers
    of the functions and the devices alone. *)
Theorem probe_domain_correct {S P} `{!ObjOps P, !ObjSpec P} (ops : pci_dom_ops S) `{!DomSpec ops}
    dom_ tbl driver_name attach c0 needs l s :
  attach_law ops dom_ attach needs → scanned ops dom_ tbl c0 needs l (found c0) s →
  ∃ s', probe_domain (λ _, ops) tbl driver_name attach dom_ s = Ret (tt, s') ∧
    scanned ops dom_ tbl c0 needs (l ++ found c0) [] s'.
Proof.
  intros Hat Hs. rewrite -(app_nil_r (found c0)) in Hs.
  destruct (wp_elim _ _ _ (probes_domain ops dom_ tbl driver_name attach c0 needs Hat l [] s Hs)) as ([] & s' & E & H).
  by exists s'.
Qed.

(** Configuration space through the ports: what is read after a write to
    a register of a function is what the function kept of it; every register
    of another place reads as before. *)
Theorem conf_write_read `{Conf1Dev D} {P} dev dev' x x' reg reg' v (s : pci (S := conf1 D) (P := P)) :
  latched (cfg s) → pdevs s !! dev = Some x → pdevs s !! dev' = Some x' →
  bdf_ok (pci_bdf x) → bdf_ok (pci_bdf x') → 0 ≤ reg < 256 → 0 ≤ reg' < 256 → 0 ≤ v < 2 ^ 32 →
  let l := loc (pci_bdf x) (reg - reg mod 4) in
  let l' := loc (pci_bdf x') (reg' - reg' mod 4) in
  let c := c1_conf (cdev (cfg s)) in
  ∃ s', (do! pcidev_conf_write32 (λ _, pci_conf1_ops) dev reg v then
         pcidev_conf_read32 (λ _, pci_conf1_ops) dev' reg') s =
      Ret (if decide (l' = l) then c1_wr l v (c l) else c l', s') ∧ latched (cfg s').
Proof.
  intros Hs Hx Hx' Hb Hb' Hr Hr' Hv l l' c.
  match goal with |- ∃ s', ?m s = Ret (?a, s') ∧ _ => destruct (wp_elim m (λ r s', r = a ∧ latched (cfg s')) s) as (r & s' & E & -> & HP) end;
    [|by exists s'].
  apply wp_bind, (wp_write32 _ dev x); [done|done|done|done|done|]. intros c1 Hc1 Hcf1.
  apply (wp_read32 _ dev' x'); [done|done|done|done|]. intros c2 Hc2 Hcf2. split; [|exact Hc2].
  cbn [cfg set_cfg]. rewrite Hcf1. fold l l'. destruct (decide (l' = l)) as [->|]; done.
Qed.

(** Looking at the address registers destroys them: after
    [pcidev_scan_bars] each of the six holds what the device keeps of all
    ones, whatever it held before, and nothing else of the configuration space
    has changed: the addresses the firmware assigned are not written back. *)
Theorem scan_bars_not_restored `{Conf1Dev D} {P} dev x (s : pci (S := conf1 D) (P := P)) :
  latched (cfg s) → pdevs s !! dev = Some x → bdf_ok (pci_bdf x) →
  let c := c1_conf (cdev (cfg s)) in
  ∃ s', pcidev_scan_bars (λ _, pci_conf1_ops) dev s = Ret (tt, s') ∧ latched (cfg s') ∧
    (∀ i, 0 ≤ i < PCI_NUM_BARS → let l := loc (pci_bdf x) (PCI_CONF0_BAR0 + 4 * i) in
       c1_conf (cdev (cfg s')) l = c1_wr l ALL_ONES (c l)) ∧
    (∀ l, ¬ loc (pci_bdf x) PCI_CONF0_BAR0 ≤ l < loc (pci_bdf x) (PCI_CONF0_BAR0 + 4 * PCI_NUM_BARS) →
       c1_conf (cdev (cfg s')) l = c l).
Proof.
  intros Hs Hx Hb c.
  match goal with |- ∃ s', ?m s = _ ∧ @?P s' => destruct (wp_elim m (λ _ s', P s') s) as ([] & s' & E & HP) end; [|by exists s'].
  apply (wp_scan_bars _ dev x); [done|done|done|]. intros s' _ Hok Hw. split; [exact Hok|]. split.
  - intros i Hi l. etransitivity; [apply (Hw l)|]. rewrite decide_True //. rewrite /l /loc /PCI_CONF0_BAR0. rewrite /PCI_NUM_BARS in Hi |- *.
    split; [lia|]. rewrite (_ : 2 ^ 31 + pci_bdf x * 256 + (16 + 4 * i) = (2 ^ 29 + pci_bdf x * 64 + 4 + i) * 4); [lia|]. apply Z_mod_mult.
  - intros l Hl. etransitivity; [apply (Hw l)|]. rewrite decide_False //. intros [? ?]. by apply Hl.
Qed.

(** *** A machine with one device

    A bridge with a register and words of configuration space that keep what
    is written to them. *)
Definition bridge : Type := Z * (Z → Z).
#[export] Instance bridge_dev : PortDev bridge := {|
  dev_in w port d := (if w =? 4 then u32 (snd d (word_of (fst d)))
    else (u32 (snd d (word_of (fst d))) / 2 ^ (8 * (port - PCI_CONFDATA))) mod 256, d);
  dev_out w port v d :=
    if port =? PCI_CONFREG then (v, snd d)
    else (fst d, λ l, if decide (l = word_of (fst d)) then v else snd d l)
|}.
#[export] Program Instance bridge_conf1 : Conf1Dev bridge := {|
  c1_latch := fst;
  c1_conf d l := u32 (snd d l);
  c1_wr l v old := u32 v
|}.
Next Obligation. done. Qed.
Next Obligation. done. Qed.
Next Obligation. intros d k Hk. cbn. by rewrite (_ : PCI_CONFDATA + k - PCI_CONFDATA = k); [lia|]. Qed.
Next Obligation. done. Qed.
Next Obligation. intros d l. apply u32_range. Qed.
Next Obligation. intros d v. split; [done|]. intros l. cbn. by destruct (decide _). Qed.

(** One device, function 0 of device 0 of bus 0. *)
Definition ex_conf (l : Z) : Z :=
  if l <? 2 ^ 31 + 256 then if l =? 2 ^ 31 then 0x12378086 else if l =? 2 ^ 31 + 8 then 0x01018000 else 0 else ALL_ONES.
Definition ex_pci : pci (S := conf1 bridge) (P := opool) :=
  mk_pci (mk_conf1 _ ALL_ONES (0, ex_conf)) {[ 1 := mk_pci_dom [] 0 ]} [1] 1 ∅ [0x100; 0x200; 0x300] [].
Definition ex_pci1 : pci (S := conf1 bridge) (P := opool) :=
  mk_pci (mk_conf1 _ ALL_ONES (0, ex_conf)) {[ 1 := mk_pci_dom [0x100] 0 ]} [1] 1
    {[ 0x100 := mk_pci_dev NULL 1 0 ]} [] [].

Lemma mjoin_nil {A B} (g : A → list B) l : (∀ a, a ∈ l → g a = []) → mjoin (g <$> l) = [].
Proof.
  induction l as [|a l IH]; intros Hg; [done|]. cbn. rewrite Hg; [by left|]. apply IH. intros b Hb. apply Hg. by right.
Qed.

Lemma ex_found_none b d : 0 ≤ b < 256 → 0 ≤ d < 32 → b ≠ 0 ∨ d ≠ 0 → found_dev ex_conf b d = [].
Proof.
  intros Hb Hd H. rewrite /found_dev /functions /fid /ex_conf /loc pci_bdf_eq //.
  destruct (Z.ltb_spec (2 ^ 31 + (b * 256 + d * 8 + 0) * 256 + PCI_CONF_ID) (2 ^ 31 + 256)) as [Hl|_]; [|done].
  rewrite /PCI_CONF_ID in Hl. lia.
Qed.

Lemma ex_found : found ex_conf = [0].
Proof.
  rewrite /found. change (seqZ 0 PCI_NUM_BUSSES) with (0 :: seqZ 1 255). rewrite fmap_cons.
  change (mjoin (?a :: ?k)) with (a ++ mjoin k). rewrite (mjoin_nil _ (seqZ 1 255)).
  - intros b Hb%elem_of_seqZ. apply mjoin_nil. intros d Hd%elem_of_seqZ. rewrite /PCI_NUM_DEVS in Hd. apply ex_found_none; lia.
  - rewrite app_nil_r /found_bus. change (seqZ 0 PCI_NUM_DEVS) with (0 :: seqZ 1 31). rewrite fmap_cons.
    change (mjoin (?a :: ?k)) with (a ++ mjoin k). rewrite (mjoin_nil _ (seqZ 1 31)) //.
    intros d Hd%elem_of_seqZ. apply ex_found_none; lia.
Qed.

(** A driver whose [attach] keeps a structure and gives a second area back. *)
Definition ex_area : Z := general_cache_of 68.
Definition ex_needs (drv : Z) : list Z := [ex_area; ex_area].
Definition ex_attach (drv dev : Z) : M (pci (S := conf1 bridge) (P := opool)) Z :=
  let! a := zoom pk_objs set_pk_objs (obj_alloc ex_area) in
  let! b := zoom pk_objs set_pk_objs (obj_alloc ex_area) in
  do! zoom pk_objs set_pk_objs (obj_free ex_area b) then
  ret 0.
Definition ex_classes : list pci_cls_tbl := [mk_cls 7 0xffff0000 0x01010000].

Lemma ex_attach_ok : attach_law pci_conf1_ops 1 ex_attach ex_needs.
Proof.
  intros drv dev b s A k Hdev Hok HA Hav.
  apply wp_bind, wp_zoom. eapply wp_mono; [exact (objs_alloc_avail _ _ ex_area HA)|]. intros x p1 [H1 Hav1].
  destruct (Hav1 (ex_area :: k) Hav) as [Hx Hk1]. destruct H1 as [[-> _]|(_ & _ & _ & HA1)]; [done|].
  apply wp_bind, wp_zoom. eapply wp_mono; [exact (objs_alloc_avail _ _ ex_area HA1)|]. intros y p2 [H2 Hav2].
  destruct (Hav2 k Hk1) as [Hy Hk2]. destruct H2 as [[-> _]|(_ & _ & HyA & HA2)]; [done|].
  apply wp_bind, wp_zoom. eapply wp_mono; [apply (objs_free_avail _ _ ex_area y HA2); set_solver|].
  intros [] p3 [HA3 Hav3]. apply wp_ret. split_and!; try done.
  - eexists. split; [|exact HA3]. set_solver.
  - specialize (Hav3 k Hk2). simpl in Hav3 |- *. lia.
Qed.

Lemma ex_scanned : scanned pci_conf1_ops 1 ex_classes ex_conf ex_needs [] (found ex_conf) ex_pci.
Proof.
  split.
  - by left.
  - intros b o Hb Ho. apply u32_id. cbn [cfg ex_pci cdev snd]. rewrite /ex_conf /ALL_ONES.
    repeat case_match; lia.
  - exists [], 0. split; [apply lookup_insert_eq|constructor].
  - exists ∅. split; [|cbn; by rewrite dom_empty_L]. split_and!; [decide_closed| |set_solver].
    intros v Hv. split; [|set_solver]. assert (Forall obj_ok (pk_objs ex_pci)) as HF by (repeat constructor).
    exact (proj1 (Forall_forall _ _) HF v Hv).
  - rewrite ex_found. vm_compute. lia.
Qed.

Lemma probe_domain_witness :
  ∃ s', probe_domain (λ _, pci_conf1_ops) ex_classes (λ _, EmptyString) ex_attach 1 ex_pci = Ret (tt, s') ∧
    scanned pci_conf1_ops 1 ex_classes ex_conf ex_needs ([] ++ found ex_conf) [] s'.
Proof.
  apply (probe_domain_correct pci_conf1_ops 1 ex_classes (λ _, EmptyString) ex_attach ex_conf ex_needs [] ex_pci).
  - exact ex_attach_ok.
  - exact ex_scanned.
Defined.

Lemma conf_write_read_witness :
  ∃ s', (do! pcidev_conf_write32 (λ _, pci_conf1_ops) 0x100 4 7 then
         pcidev_conf_read32 (λ _, pci_conf1_ops) 0x100 6) ex_pci1 = Ret (7, s') ∧ latched (cfg s').
Proof.
  destruct (conf_write_read 0x100 0x100 (mk_pci_dev NULL 1 0) (mk_pci_dev NULL 1 0) 4 6 7 ex_pci1) as (s' & E & Hl).
  - by left.
  - reflexivity.
  - reflexivity.
  - rewrite /bdf_ok /=. lia.
  - rewrite /bdf_ok /=. lia.
  - lia.
  - lia.
  - lia.
  - exists s'. split; [|exact Hl]. etransitivity; [exact E|]. reflexivity.
Defined.

Lemma scan_bars_witness : ∃ s',
  pcidev_scan_bars (λ _, pci_conf1_ops) 0x100 ex_pci1 = Ret (tt, s') ∧ latched (cfg s') ∧
    (∀ i, 0 ≤ i < PCI_NUM_BARS → let l := loc 0 (PCI_CONF0_BAR0 + 4 * i) in
       c1_conf (cdev (cfg s')) l = 0xffffffff) ∧
    (∀ l, ¬ loc 0 PCI_CONF0_BAR0 ≤ l < loc 0 (PCI_CONF0_BAR0 + 4 * PCI_NUM_BARS) →
       c1_conf (cdev (cfg s')) l = u32 (ex_conf l)).
Proof.
  destruct (scan_bars_not_restored 0x100 (mk_pci_dev NULL 1 0) ex_pci1) as (s' & E & Hl & Hb & Hr).
  - by left.
  - reflexivity.
  - rewrite /bdf_ok /=. lia.
  - exists s'. split; [exact E|]. split; [exact Hl|]. split; [|exact Hr]. intros i Hi. exact (Hb i Hi).
Defined.
