(* ===== verification/Ata.v ===== *)
(** * The ATA disk driver ([drivers/ata.c], [include/scaraOS/ata.h])

    A channel has two drives behind a block of command registers and a control
    register.  [ata_rw_blk] is the function the driver installs in its block
    devices; the rest detects the drives.  Messages are recorded; [udelay]
    passes time only.  [AtaProps] has the theorems. *)
From stdpp Require Import strings.
From S2P Require Import Prelude ObjAlloc Blk VsprintfProps Intr Io.
Local Open Scope Z_scope.

Definition ATA_STATUS_ERR : Z := Z.shiftl 1 0.
Definition ATA_STATUS_DRQ : Z := Z.shiftl 1 3.
Definition ATA_STATUS_BSY : Z := Z.shiftl 1 7.
Definition ATA_DEVCTL_nIEN : Z := Z.shiftl 1 1.
Definition ATA_DEVCTL_SRST : Z := Z.shiftl 1 2.
Definition ATA_DEVCTL_RSVD : Z := Z.shiftl 1 3.
Definition ATA_CMD_READ_SECTORS : Z := 0x20.
Definition ATA_CMD_IDENTIFY : Z := 0xec.
Definition ATA_CMD_IDENTIFY_PACKET : Z := 0xa1.
Definition PROGIF_X_MODE : Z := Z.shiftl 1 0.
Definition PROGIF_Y_MODE : Z := Z.shiftl 1 2.
Definition PROGIF_BUS_MASTER : Z := Z.shiftl 1 7.
Definition ATA_BAR0 : Z := 0x1F0.
Definition ATA_BAR1 : Z := 0x3F6.
Definition ATA_BAR2 : Z := 0x170.
Definition ATA_BAR3 : Z := 0x376.
Definition ATA_BAR4 : Z := 0x000.
Definition DISK_TYPE_ATA : Z := 1.
Definition DISK_TYPE_ATAPI : Z := 2.

Record ata_chan := mk_ata_chan {
  cmd_bar : Z;
  ctl_bar : Z;
  dma_bar : Z;
  ch_irq : Z;
  num_sect : Z;
  disk_type : Z;
  ch_drvsel : Z
}.
Definition set_ch_drvsel (v : Z) (c : ata_chan) : ata_chan :=
  mk_ata_chan (cmd_bar c) (ctl_bar c) (dma_bar c) (ch_irq c) (num_sect c) (disk_type c) v.
Definition set_disk_type (v : Z) (c : ata_chan) : ata_chan :=
  mk_ata_chan (cmd_bar c) (ctl_bar c) (dma_bar c) (ch_irq c) (num_sect c) v (ch_drvsel c).
Definition set_num_sect (v : Z) (c : ata_chan) : ata_chan :=
  mk_ata_chan (cmd_bar c) (ctl_bar c) (dma_bar c) (ch_irq c) v (disk_type c) (ch_drvsel c).

(** [struct ata_blkdev] behind its [struct blkdev]. *)
Record ata_blkdev := mk_ata_blkdev { abd_dev : Z; abd_chan : Z; abd_drvsel : Z }.

(** [!!x] *)
Definition bool01 (x : Z) : Z := if ctrue x then 1 else 0.

(** ** Registers and transfers

    The state of the driver: the ports, its channels and devices by address. *)
Record adrv {D : Type} := mk_adrv {
  a_dev : D;
  a_chans : gmap Z ata_chan;
  a_bdevs : gmap Z ata_blkdev;
  a_log : list msg
}.
Arguments adrv : clear implicits.

Section ata.
Context `{PortDev D}.
Abbreviation A := (M (adrv D)).

Definition set_a_dev (d : D) (s : adrv D) : adrv D := mk_adrv D d (a_chans s) (a_bdevs s) (a_log s).
Definition upd_chans (f : gmap Z ata_chan → gmap Z ata_chan) (s : adrv D) : adrv D :=
  mk_adrv D (a_dev s) (f (a_chans s)) (a_bdevs s) (a_log s).
Definition upd_abdevs (f : gmap Z ata_blkdev → gmap Z ata_blkdev) (s : adrv D) : adrv D :=
  mk_adrv D (a_dev s) (a_chans s) (f (a_bdevs s)) (a_log s).
Definition add_alog (m : msg) (s : adrv D) : adrv D :=
  mk_adrv D (a_dev s) (a_chans s) (a_bdevs s) (m :: a_log s).
Definition on_adev {X} (m : M D X) : A X := zoom a_dev set_a_dev m.
Definition ata_printk (fmt : string) (args : list parg) : A unit := modify (add_alog (fmt, args)).
Definition ld_chan (a : Z) : A ata_chan := let! s := get in deref (a_chans s !! a).
Definition st_chan (a : Z) (f : ata_chan → ata_chan) : A unit :=
  let! c := ld_chan a in modify (upd_chans (insert a (f c))).
Definition ld_bdev (a : Z) : A ata_blkdev := let! s := get in deref (a_bdevs s !! a).

Definition ata_devctl (chan data : Z) : A unit :=
  let! c := ld_chan chan in on_adev (Io.outb (ctl_bar c) (Z.lor ATA_DEVCTL_RSVD data)).
Definition ata_alt_status (chan : Z) : A Z := let! c := ld_chan chan in on_adev (inb (ctl_bar c)).
Definition ata_data (chan : Z) : A Z := let! c := ld_chan chan in on_adev (inw (cmd_bar c)).
Definition ata_set_sector_count (chan f : Z) : A unit :=
  let! c := ld_chan chan in on_adev (Io.outb (cmd_bar c + 2) f).
Definition ata_set_sector (chan f : Z) : A unit :=
  let! c := ld_chan chan in on_adev (Io.outb (cmd_bar c + 3) f).
Definition ata_get_lcyl (chan : Z) : A Z := let! c := ld_chan chan in on_adev (inb (cmd_bar c + 4)).
Definition ata_set_lcyl (chan f : Z) : A unit :=
  let! c := ld_chan chan in on_adev (Io.outb (cmd_bar c + 4) f).
Definition ata_get_hcyl (chan : Z) : A Z := let! c := ld_chan chan in on_adev (inb (cmd_bar c + 5)).
Definition ata_set_hcyl (chan f : Z) : A unit :=
  let! c := ld_chan chan in on_adev (Io.outb (cmd_bar c + 5) f).
Definition ata_set_drive_head (chan lba d h : Z) : A unit :=
  let! c := ld_chan chan in
  do! on_adev (Io.outb (cmd_bar c + 6)
    (Z.lor (Z.lor (Z.lor 0xa0 (Z.shiftl (bool01 lba) 6)) (Z.shiftl (bool01 d) 4)) (Z.land h 0xf))) then
  st_chan chan (set_ch_drvsel (bool01 d)).
Definition ata_status (chan : Z) : A Z := let! c := ld_chan chan in on_adev (inb (cmd_bar c + 7)).
Definition ata_command (chan f : Z) : A unit :=
  let! c := ld_chan chan in on_adev (Io.outb (cmd_bar c + 7) f).

(** The loop ends when the drive is not busy: [fuel] bounds its patience. *)
Fixpoint ata_busy_wait (fuel : nat) (chan : Z) : A unit :=
  match fuel with
  | O => nofuel
  | S fuel =>
    let! v := ata_alt_status chan in
    if ctrue (Z.land v ATA_STATUS_BSY) then ata_busy_wait fuel chan else ret tt
  end.

Definition ata_drvsel (fuel : nat) (chan drv : Z) : A unit :=
  let! c := ld_chan chan in
  when (negb (ch_drvsel c =? bool01 drv))
    (do! ata_set_drive_head chan 0 (bool01 drv) 0 then ata_busy_wait fuel chan).

Definition ata_chan_reset (fuel : nat) (chan : Z) : A Z :=
  do! ata_devctl chan (Z.lor ATA_DEVCTL_SRST ATA_DEVCTL_nIEN) then
  do! ata_devctl chan ATA_DEVCTL_nIEN then
  do! ata_busy_wait fuel chan then
  ret 0.

(** Words into a buffer, low byte first: the bytes stored. *)
Fixpoint pio_words (n : nat) (chan : Z) : A (list Z) :=
  match n with
  | O => ret []
  | S n =>
    let! w := ata_data chan in
    let! l := pio_words n chan in
    ret (w mod 256 :: w / 256 :: l)
  end.
Definition ata_pio_read_blk (chan : Z) : A (list Z) := pio_words 256 chan.

(** The body of the loop of [ata_rw_blk]: one sector, or [None]. *)
Definition ata_read_sector (fuel : nat) (x : ata_blkdev) (blk : Z) : A (option (list Z)) :=
  let chan := abd_chan x in
  do! ata_set_drive_head chan 1 (abd_drvsel x) (Z.land (Z.shiftr blk 24) 0xf) then
  do! ata_busy_wait fuel chan then
  do! ata_set_sector_count chan 1 then
  do! ata_set_sector chan (Z.land blk 0xff) then
  do! ata_set_lcyl chan (Z.land (Z.shiftr blk 8) 0xff) then
  do! ata_set_hcyl chan (Z.land (Z.shiftr blk 16) 0xff) then
  do! ata_command chan ATA_CMD_READ_SECTORS then
  do! ata_busy_wait fuel chan then
  let! v := ata_alt_status chan in
  if negb (ctrue (Z.land v ATA_STATUS_DRQ)) then
    do! ata_printk "ATA ERROR\n" [] then ret None
  else let! l := ata_pio_read_blk chan in ret (Some l).

(** Bytes stored at an offset of the buffer, of which [acc] is known. *)
Definition store_at (acc : list Z) (off : Z) (l : list Z) : list Z :=
  take (Z.to_nat off) (acc ++ replicate (Z.to_nat off - length acc) 0) ++ l.

(** The loop: [n] sectors from [blk] on, [acc] being the buffer so far and
    [off] the place of the next sector. *)
Fixpoint ata_rw_loop (fuel n : nat) (x : ata_blkdev) (sectsz blk off : Z) (acc : list Z) : A (Z * list Z) :=
  match n with
  | O => ret (0, acc)
  | S n =>
    do! ata_printk " ==== ll_rw_blk: %s %lu\n" [PZ blk] then
    let! r := ata_read_sector fuel x blk in
    match r with
    | None => ret (-1, acc)
    | Some l => ata_rw_loop fuel n x sectsz (u64 (blk + 1)) (off + sectsz) (store_at acc off l)
    end
  end.

(** [write] is not looked at. *)
Definition ata_rw_blk (fuel : nat) (kbdev : Z) (dv : blkdev) (write blk : Z) : A (Z * list Z) :=
  let! x := ld_bdev kbdev in
  ata_rw_loop fuel (Z.to_nat (bd_count dv)) x (sectsize dv) blk 0 [].
End ata.

(** ** Identification *)

(** [be16toh] of the word at a place: its two bytes exchanged. *)
Fixpoint swap_words (n : nat) (l : list Z) : list Z :=
  match n, l with
  | S n, a :: b :: l => b :: a :: swap_words n l
  | _, _ => l
  end.
(** The loop from the end: spaces become NULs, the first character stays. *)
Fixpoint trim_loop (i : nat) (l : list Z) : list Z :=
  match i with
  | O | S O => l
  | S i' => if bool_decide (l !! i' = Some 32) then trim_loop i' (<[i' := 0]> l) else l
  end.
Definition swizzle_string (l : list Z) : list Z :=
  trim_loop (length l) (swap_words (Nat.div2 (length l)) l).

(** [struct ata_identity]: the fields of the 512 bytes. *)
Definition field (ofs n : nat) (l : list Z) : list Z := take n (drop ofs l).
Definition id_serial (l : list Z) : list Z := field 20 20 l.
Definition id_fw_rev (l : list Z) : list Z := field 46 8 l.
Definition id_model (l : list Z) : list Z := field 54 40 l.
Fixpoint le_bytes (l : list Z) : Z := match l with [] => 0 | b :: l => b + 256 * le_bytes l end.
Definition id_max_lba28 (l : list Z) : Z := le_bytes (field 120 4 l).
Definition id_features1 (l : list Z) : Z := le_bytes (field 166 2 l).
Definition id_max_lba (l : list Z) : Z := le_bytes (field 200 8 l).
Definition ident_swizzle (l : list Z) : list Z * list Z * list Z :=
  (swizzle_string (id_model l), swizzle_string (id_serial l), swizzle_string (id_fw_rev l)).

(** ** Detection *)

Section init.
Context `{PortDev D} {P : Type} `{!ObjOps P}.

(** [struct ata_dev] is its two channels, in the driver's state at its
    address and behind it, and [bd]. *)
Record atac := mk_atac {
  c_blk : @blk P (adrv D);
  c_intr : intr;
  nr_controllers : Z;
  c_bd : gmap Z (list Z)
}.
Definition set_c_blk (v : @blk P (adrv D)) (s : atac) : atac := mk_atac v (c_intr s) (nr_controllers s) (c_bd s).
Definition set_c_intr (v : intr) (s : atac) : atac := mk_atac (c_blk s) v (nr_controllers s) (c_bd s).
Definition set_nr (v : Z) (s : atac) : atac := mk_atac (c_blk s) (c_intr s) v (c_bd s).
Definition upd_bd (f : gmap Z (list Z) → gmap Z (list Z)) (s : atac) : atac :=
  mk_atac (c_blk s) (c_intr s) (nr_controllers s) (f (c_bd s)).
Abbreviation T := (M atac).

Definition on_blk {X} (m : M (@blk P (adrv D)) X) : T X := zoom c_blk set_c_blk m.
Definition on_ata {X} (m : M (adrv D) X) : T X := on_blk (zoom bk_drv set_bk_drv m).
Definition on_intr {X} (m : M intr X) : T X := zoom c_intr set_c_intr m.
Definition t_kmalloc (sz : Z) : T Z := on_blk (on_bobjs (obj_alloc (general_cache_of sz))).
Definition t_kfree (a sz : Z) : T unit := on_blk (on_bobjs (obj_free (general_cache_of sz) a)).

Definition sizeof_ata_chan : Z := 24.
Definition sizeof_ata_dev : Z := 68.
Definition sizeof_ata_blkdev : Z := 52.
Definition sizeof_ata_identity : Z := 512.
Definition ATA_MAX_BLKNAME : Z := 64.
Definition ata_x (dev : Z) : Z := dev.
Definition ata_y (dev : Z) : Z := dev + sizeof_ata_chan.

(** What [snprintf] makes of ["ata%u%c%u"] (see [VsprintfProps]). *)
Definition ata_name (dev chan controller_num drvsel : Z) : list Z :=
  [97; 116; 97] ++ num_text controller_num 10 (-1) (-1) 0 ++
  [if chan =? ata_x dev then 88 else 89] ++ num_text drvsel 10 (-1) (-1) 0.

(** [count] and [next] are what was in the memory. *)
Definition ata_new_blkdev (junk_next junk_count dev chan controller_num drvsel : Z) : T Z :=
  let! bdev := t_kmalloc sizeof_ata_blkdev in
  if bdev =? NULL then ret bdev else
  let! name := t_kmalloc ATA_MAX_BLKNAME in
  if name =? NULL then
    do! t_kfree bdev sizeof_ata_blkdev then ret bdev
  else
  do! on_blk (modify (upd_devs (insert bdev
    (mk_blkdev junk_next (ata_name dev chan controller_num drvsel) 512 junk_count 0)))) then
  do! on_ata (modify (upd_abdevs (insert bdev (mk_ata_blkdev dev chan drvsel)))) then
  ret bdev.

(** The address of [ata_isr], the patience of the busy loops, and the
    contents of fresh memory. *)
Context (ata_isr : Z) (fuel : nat) (junk_next junk_count : Z).

(** The body of the loop over the two drives; [base] is the first of the
    channel's entries of [bd]. *)
Definition ata_probe_drive (dev chan : Z) (base : nat) (d : Z) : T unit :=
  do! on_ata (ata_set_drive_head chan 0 d 0) then
  do! on_ata (st_chan chan (set_ch_drvsel d)) then
  do! on_ata (ata_busy_wait fuel chan) then
  do! on_ata (ata_command chan ATA_CMD_IDENTIFY) then
  do! on_ata (ata_busy_wait fuel chan) then
  let! st := on_ata (ata_status chan) in
  if st =? 0 then ret tt else
  let! st := on_ata (ata_status chan) in
  let! go :=
    (if ctrue (Z.land st ATA_STATUS_ERR) then
       let! hi := on_ata (ata_get_hcyl chan) in
       let! lo := on_ata (ata_get_lcyl chan) in
       if negb (hi =? 0xeb) || negb (lo =? 0x14) then ret false else
       do! on_ata (st_chan chan (set_disk_type DISK_TYPE_ATAPI)) then
       do! on_ata (ata_command chan ATA_CMD_IDENTIFY_PACKET) then
       do! on_ata (ata_busy_wait fuel chan) then
       ret true
     else do! on_ata (st_chan chan (set_disk_type DISK_TYPE_ATA)) then ret true) in
  if negb go then ret tt else
  let! ident := on_ata (ata_pio_read_blk chan) in
  let num := if ctrue (Z.land (id_features1 ident) (Z.shiftl 1 10)) then u32 (id_max_lba ident)
             else id_max_lba28 ident in
  do! on_ata (st_chan chan (set_num_sect num)) then
  let! nr := gets nr_controllers in
  let! bdev := ata_new_blkdev junk_next junk_count dev chan nr d in
  if bdev =? NULL then ret tt else
  do! on_ata (ata_printk "%s: %s - %s (%lu MiB) rev=%s\n" [PZ (num / 2048)]) then
  modify (upd_bd (alter (insert (base + Z.to_nat (bool01 d))%nat bdev) dev)).

Definition ata_chan_init (dev chan : Z) (base : nat) : T Z :=
  let! ident := t_kmalloc sizeof_ata_identity in
  if ident =? NULL then ret (-1) else
  let! r := on_ata (ata_chan_reset fuel chan) in
  if ctrue r then do! t_kfree ident sizeof_ata_identity then ret r else
  do! each 2 0 (ata_probe_drive dev chan base) then
  let! c := on_ata (ld_chan chan) in
  do! when (ctrue (ch_irq c))
    (do! on_intr (set_irq_handler (ch_irq c) ata_isr dev) then on_intr (irq_on (ch_irq c))) then
  do! on_ata (ata_devctl chan 0) then
  do! modify (λ s, set_nr (u32 (nr_controllers s + 1)) s) then
  do! t_kfree ident sizeof_ata_identity then
  ret 0.

Definition ata_dev_init (dev : Z) : T Z :=
  let! r := ata_chan_init dev (ata_x dev) 0 in
  if ctrue r then ret r else
  let! r := ata_chan_init dev (ata_y dev) 2 in
  if ctrue r then ret r else
  let! s := get in
  let! bd := deref (c_bd s !! dev) in
  do! foldr (λ b m, do! when (ctrue b) (on_blk (blkdev_add b)) then m) (ret tt) bd then
  ret 0.

(** [pcidev_conf_read32] and [pcidev_conf_read8] of the device (see [Pci]). *)
Context (conf_read32 conf_read8 : Z → T Z).

(** The ports of a channel: those of the device, or the traditional ones. *)
Definition chan_ports (native : bool) (b0 b1 b4 l0 l1 l4 lirq : Z) : T ata_chan :=
  if native then
    let! cmd := conf_read32 b0 in
    let! ctl := conf_read32 b1 in
    let! dma := conf_read32 b4 in
    let! irq := conf_read8 0x3c in
    ret (mk_ata_chan cmd ctl dma irq 0 0 0)
  else ret (mk_ata_chan l0 l1 l4 lirq 0 0 0).
Definition no_dma (c : ata_chan) : ata_chan :=
  mk_ata_chan (cmd_bar c) (ctl_bar c) 0 (ch_irq c) (num_sect c) (disk_type c) (ch_drvsel c).

Definition pci_ata_attach : T Z :=
  let! dev := t_kmalloc sizeof_ata_dev in
  if dev =? NULL then ret (-1) else
  do! modify (upd_bd (insert dev (replicate 4 NULL))) then
  let! progif := conf_read8 0x09 in
  let! x := chan_ports (ctrue (Z.land progif PROGIF_X_MODE)) 0x10 0x14 0x20 ATA_BAR0 ATA_BAR1 (ATA_BAR4 + 0) 14 in
  let! y := chan_ports (ctrue (Z.land progif PROGIF_Y_MODE)) 0x18 0x1c (0x20 + 8) ATA_BAR2 ATA_BAR3 (ATA_BAR4 + 8) 15 in
  let f := if ctrue (Z.land progif PROGIF_BUS_MASTER) then λ c, c else no_dma in
  do! on_ata (modify (upd_chans (insert (ata_x dev) (f x)))) then
  do! on_ata (modify (upd_chans (insert (ata_y dev) (f y)))) then
  let! r := ata_dev_init dev in
  if ctrue r then
    do! on_ata (modify (upd_chans (delete (ata_x dev)))) then
    do! on_ata (modify (upd_chans (delete (ata_y dev)))) then
    do! modify (upd_bd (delete dev)) then
    do! t_kfree dev sizeof_ata_dev then
    ret r
  else ret 0.

Definition pci_ata_detach : T Z := ret (-1).
End init.
