(* ===== verification/AtaProps.v ===== *)
(** * Reading sectors from an ATA disk *)
From stdpp Require Import strings.
From S2P Require Import Prelude ObjAlloc Blk BlkProps VsprintfProps Intr Io Ata.
Local Open Scope Z_scope.

(** ** The drive

    What the manual says of a channel, as far as reading uses it.  Of a
    channel we see: how many more looks at the status find it busy, its
    registers, and the words it has ready. *)
Record aview := mk_aview { v_busy : nat; v_reg : Z → Z; v_data : list Z }.

(** The sector the registers name. *)
Definition reg_lba (r : Z → Z) : Z :=
  Z.land (r 6) 0xf * 2 ^ 24 + r 5 * 2 ^ 16 + r 4 * 2 ^ 8 + r 3.
Definition reg_drive (r : Z → Z) : Z := bool01 (Z.land (r 6) 0x10).
Definition reg_uses_lba (r : Z → Z) : bool := ctrue (Z.land (r 6) 0x40).

(** Words of bytes, low byte first. *)
Fixpoint words_of (l : list Z) : list Z :=
  match l with a :: b :: l => (a + 256 * b) :: words_of l | _ => [] end.

(** [at_chan cmd ctl]: a channel has its command block at [cmd] and its
    control register at [ctl].  [at_disk cmd drive k] is sector [k].  An access
    to one channel leaves the others alone. *)
Class AtaDev (D : Type) `{!PortDev D} := {
  at_chan : Z → Z → Prop;
  at_view : D → Z → aview;
  at_disk : Z → Z → Z → option (list Z);
  at_patience : nat;
  at_ports cmd ctl : at_chan cmd ctl → 0 ≤ cmd ∧ cmd + 7 < 2 ^ 16 ∧ 0 ≤ ctl < 2 ^ 16;
  at_sector cmd drv k l : at_disk cmd drv k = Some l → length l = 512%nat ∧ Forall (λ b, 0 ≤ b < 256) l;
  at_reg d cmd ctl k v : at_chan cmd ctl → 2 ≤ k ≤ 6 → 0 ≤ v < 256 → v_busy (at_view d cmd) = 0%nat →
    let d' := dev_out 1 (cmd + k) v d in
    (v_busy (at_view d' cmd) ≤ if (k =? 6)%Z then at_patience else 0)%nat ∧
    (∀ j, 2 ≤ j ≤ 6 → v_reg (at_view d' cmd) j = if j =? k then v else v_reg (at_view d cmd) j) ∧
    v_data (at_view d' cmd) = v_data (at_view d cmd) ∧
    (∀ c, c ≠ cmd → at_view d' c = at_view d c);
  at_read d cmd ctl : at_chan cmd ctl → v_busy (at_view d cmd) = 0%nat → v_data (at_view d cmd) = [] →
    let r := v_reg (at_view d cmd) in
    r 2 = 1 → reg_uses_lba r = true →
    let d' := dev_out 1 (cmd + 7) ATA_CMD_READ_SECTORS d in
    (v_busy (at_view d' cmd) ≤ at_patience)%nat ∧
    v_data (at_view d' cmd) = match at_disk cmd (reg_drive r) (reg_lba r) with Some l => words_of l | None => [] end ∧
    (∀ c, c ≠ cmd → at_view d' c = at_view d c);
  at_status d cmd ctl : at_chan cmd ctl →
    let r := dev_in 1 ctl d in
    0 ≤ fst r < 256 ∧
    ctrue (Z.land (fst r) ATA_STATUS_BSY) = negb (bool_decide (v_busy (at_view d cmd) = 0%nat)) ∧
    (v_busy (at_view d cmd) = 0%nat →
      ctrue (Z.land (fst r) ATA_STATUS_DRQ) = negb (bool_decide (v_data (at_view d cmd) = []))) ∧
    at_view (snd r) cmd = mk_aview (v_busy (at_view d cmd) - 1) (v_reg (at_view d cmd)) (v_data (at_view d cmd)) ∧
    (∀ c, c ≠ cmd → at_view (snd r) c = at_view d c);
  at_word d cmd ctl w ws : at_chan cmd ctl → v_busy (at_view d cmd) = 0%nat → v_data (at_view d cmd) = w :: ws →
    let r := dev_in 2 cmd d in
    fst r = w ∧ v_busy (at_view (snd r) cmd) = 0%nat ∧ v_data (at_view (snd r) cmd) = ws ∧
    (∀ c, c ≠ cmd → at_view (snd r) c = at_view d c)
}.

Lemma words_bytes l : Nat.Even (length l) → Forall (λ b, 0 ≤ b < 256) l →
  (words_of l ≫= λ w, [w mod 256; w / 256]) = l.
Proof.
  intros [n Hn] Hb. revert l Hn Hb. induction n as [|n IH]; intros [|a [|b l]] Hn Hb; try done; simpl in Hn; try lia.
  apply Forall_cons in Hb as [Ha Hb]. apply Forall_cons in Hb as [Hb Hl].
  cbn. fold (words_of l ≫= λ w, [w mod 256; w / 256]). 
  rewrite (_ : a + 256 * b = a + b * 256); [lia|]. rewrite Z_mod_plus_full Z.mod_small // Z.div_add // Z.div_small //.
  f_equal. f_equal. apply IH; [lia|done].
Qed.

Section read.
Context `{AtaDev D}.
Implicit Types s : adrv D.

(** Channel structure [chan] is for the channel at [cmd]; the rest of the
    driver's data and the other channels of the machine are as in [s0]. *)
Record chan_at (s0 : adrv D) (chan cmd ctl : Z) (v : aview) s : Prop := {
  ca_chan : ∃ c, a_chans s !! chan = Some c ∧ cmd_bar c = cmd ∧ ctl_bar c = ctl;
  ca_real : at_chan cmd ctl;
  ca_view : at_view (a_dev s) cmd = v;
  ca_others : ∀ c, c ≠ cmd → at_view (a_dev s) c = at_view (a_dev s0) c;
  ca_bdevs : a_bdevs s = a_bdevs s0;
  ca_chans : ∀ x, (λ c, (cmd_bar c, ctl_bar c)) <$> a_chans s !! x = (λ c, (cmd_bar c, ctl_bar c)) <$> a_chans s0 !! x
}.

(** Writing a register. *)
Lemma wp_reg s0 chan cmd ctl v k x s (Q : unit → adrv D → Prop) :
  chan_at s0 chan cmd ctl v s → v_busy v = 0%nat → 2 ≤ k ≤ 6 → 0 ≤ x < 256 →
  (∀ s' v', chan_at s0 chan cmd ctl v' s' → (v_busy v' ≤ if (k =? 6)%Z then at_patience else 0)%nat →
     (∀ j, 2 ≤ j ≤ 6 → v_reg v' j = if j =? k then x else v_reg v j) → v_data v' = v_data v → Q tt s') →
  wp (let! c := ld_chan chan in on_adev (Io.outb (cmd_bar c + k) x)) Q s.
Proof.
  intros [(c & Hc & Hcmd & Hctl) Hr Hv Ho Hb Hch] Hbz Hk Hx HQ.
  apply wp_bind, wp_bind, wp_gets. eapply wp_deref; [exact Hc|]. apply wp_zoom, wp_port_out. rewrite Hcmd.
  rewrite /outs /=. destruct (at_ports _ _ Hr) as (H1 & H2 & _).
  assert (u16 (cmd + k) = cmd + k) as -> by (apply Z.mod_small; lia). rewrite (Z.mod_small x) //.
  rewrite -Hv in Hbz HQ. destruct (at_reg (a_dev s) cmd ctl k x Hr Hk Hx Hbz) as (R1 & R2 & R3 & R4).
  eapply HQ; [|exact R1|exact R2|exact R3]. split; cbn; try done; [by exists c|]. intros c' Hc'. by rewrite R4 // Ho.
Qed.

Lemma wp_alt_status s0 chan cmd ctl v s (Q : Z → adrv D → Prop) :
  chan_at s0 chan cmd ctl v s →
  (∀ s' x, chan_at s0 chan cmd ctl (mk_aview (v_busy v - 1) (v_reg v) (v_data v)) s' →
     ctrue (Z.land x ATA_STATUS_BSY) = negb (bool_decide (v_busy v = 0%nat)) →
     (v_busy v = 0%nat → ctrue (Z.land x ATA_STATUS_DRQ) = negb (bool_decide (v_data v = []))) → Q x s') →
  wp (ata_alt_status chan) Q s.
Proof.
  intros [(c & Hc & Hcmd & Hctl) Hr Hv Ho Hb Hch] HQ.
  apply wp_bind, wp_bind, wp_gets. eapply wp_deref; [exact Hc|]. apply wp_zoom, wp_port_in. cbv zeta. rewrite Hctl.
  destruct (at_ports _ _ Hr) as (_ & _ & H3).
  assert (u16 ctl = ctl) as -> by (apply Z.mod_small; lia).
  destruct (at_status (a_dev s) cmd ctl Hr) as (S1 & S2 & S3 & S4 & S5). rewrite Hv in S2 S3 S4.
  rewrite (Z.mod_small (fst _)) //. apply HQ; [|done|done]. split; cbn; try done; [by exists c|]. intros c' Hc'. by rewrite S5 // Ho.
Qed.

Lemma wp_busy_wait fuel s0 chan cmd ctl v s (Q : unit → adrv D → Prop) :
  chan_at s0 chan cmd ctl v s → (v_busy v < fuel)%nat →
  (∀ s', chan_at s0 chan cmd ctl (mk_aview 0 (v_reg v) (v_data v)) s' → Q tt s') →
  wp (ata_busy_wait fuel chan) Q s.
Proof.
  revert v s. induction fuel as [|fuel IH]; intros v s Hs Hf HQ; [lia|]. cbn [ata_busy_wait].
  apply wp_bind. apply (wp_alt_status _ _ _ _ _ _ _ Hs). intros s' x Hs' Hbsy _. rewrite Hbsy.
  destruct (decide (v_busy v = 0%nat)) as [E|E].
  - rewrite bool_decide_eq_true_2 //. cbn [negb]. apply wp_ret, HQ. by rewrite E in Hs'.
  - rewrite bool_decide_eq_false_2 //. cbn [negb]. apply (IH _ _ Hs'); cbn; [lia|]. done.
Qed.

Lemma wp_pio_words n s0 chan cmd ctl v s (Q : list Z → adrv D → Prop) :
  chan_at s0 chan cmd ctl v s → v_busy v = 0%nat → length (v_data v) = n →
  Forall (λ w, 0 ≤ w < 2 ^ 16) (v_data v) →
  (∀ s' v', chan_at s0 chan cmd ctl v' s' → v_busy v' = 0%nat → v_data v' = [] →
     Q (v_data v ≫= λ w, [w mod 256; w / 256]) s') →
  wp (pio_words n chan) Q s.
Proof.
  revert v s Q. induction n as [|n IH]; intros v s Q Hs Hb Hn Hw HQ.
  - apply nil_length_inv in Hn. cbn [pio_words]. apply wp_ret. specialize (HQ _ _ Hs Hb Hn). by rewrite Hn in HQ.
  - destruct (v_data v) as [|w ws] eqn:Ed; [done|]. apply Forall_cons in Hw as [Hw Hws]. cbn [pio_words].
    pose proof Hs as [(c & Hc & Hcmd & Hctl) Hr Hv Ho Hbd Hch].
    apply wp_bind, wp_bind, wp_bind, wp_gets. eapply wp_deref; [exact Hc|]. apply wp_zoom, wp_port_in. cbv zeta. rewrite Hcmd.
    destruct (at_ports _ _ Hr) as (H1 & H2 & _).
    assert (u16 cmd = cmd) as -> by (apply Z.mod_small; lia). rewrite -Hv in Hb Ed.
    destruct (at_word (a_dev s) cmd ctl w ws Hr Hb Ed) as (W1 & W2 & W3 & W4). rewrite W1 (Z.mod_small w) //.
    apply wp_bind. eapply (IH (at_view (snd (dev_in 2 cmd (a_dev s))) cmd)).
    + split; cbn; try done; [by exists c|]. intros c' Hc'. by rewrite W4 // Ho.
    + done.
    + rewrite W3. simpl in Hn. lia.
    + by rewrite W3.
    + rewrite W3. intros s' v' Hs' Hb' Hd'. apply wp_ret. by apply (HQ _ _ Hs').
Qed.

(** The drive and head register. *)
Definition head_byte (drv h : Z) : Z :=
  Z.lor (Z.lor (Z.lor 0xa0 (Z.shiftl (bool01 1) 6)) (Z.shiftl (bool01 drv) 4)) (Z.land h 0xf).

Lemma head_byte_ok drv h : 0 ≤ h < 16 →
  0 ≤ head_byte drv h < 256 ∧ Z.land (head_byte drv h) 0xf = h ∧
  bool01 (Z.land (head_byte drv h) 0x10) = bool01 drv ∧ ctrue (Z.land (head_byte drv h) 0x40) = true.
Proof.
  intros Hh. rewrite /head_byte.
  assert (h = 0 ∨ h = 1 ∨ h = 2 ∨ h = 3 ∨ h = 4 ∨ h = 5 ∨ h = 6 ∨ h = 7 ∨ h = 8 ∨ h = 9 ∨ h = 10 ∨ h = 11 ∨ h = 12 ∨ h = 13 ∨ h = 14 ∨ h = 15) as Hc by lia.
  assert (bool01 drv = 0 ∨ bool01 drv = 1) as [->| ->] by (rewrite /bool01; destruct (ctrue drv); auto);
    destruct_or! Hc; subst h; by vm_compute.
Qed.

(** The sector number the driver can express: 28 bits. *)
Lemma lba_parts blk :
  Z.land (Z.shiftr blk 24) 0xf * 2 ^ 24 + Z.land (Z.shiftr blk 16) 0xff * 2 ^ 16 +
  Z.land (Z.shiftr blk 8) 0xff * 2 ^ 8 + Z.land blk 0xff = blk mod 2 ^ 28.
Proof.
  change 0xf with (Z.ones 4). change 0xff with (Z.ones 8). rewrite !Z.land_ones // !Z.shiftr_div_pow2 //.
  Z.to_euclidean_division_equations. lia.
Qed.

Lemma land_f_range x : 0 ≤ Z.land x 0xf < 16.
Proof. change 0xf with (Z.ones 4). rewrite Z.land_ones //. by apply Z.mod_pos_bound. Qed.
Lemma land_ff_range x : 0 ≤ Z.land x 0xff < 256.
Proof. change 0xff with (Z.ones 8). rewrite Z.land_ones //. by apply Z.mod_pos_bound. Qed.

Lemma words_of_ok l : length l = 512%nat → Forall (λ b, 0 ≤ b < 256) l →
  length (words_of l) = 256%nat ∧ Forall (λ w, 0 ≤ w < 2 ^ 16) (words_of l).
Proof.
  intros Hl Hb. assert (∀ n l, length l = (2 * n)%nat → Forall (λ b, 0 ≤ b < 256) l →
    length (words_of l) = n ∧ Forall (λ w, 0 ≤ w < 2 ^ 16) (words_of l)) as Hg; [|by apply Hg].
  clear l Hl Hb. induction n as [|n IH]; intros [|a [|b l]] Hl Hb; simpl in Hl; try lia.
  - split; [done|constructor].
  - apply Forall_cons in Hb as [Ha Hb]. apply Forall_cons in Hb as [Hb Hl'].
    destruct (IH l ltac:(lia) Hl') as [H1 H2]. split; [simpl; lia|]. constructor; [lia|done].
Qed.

Lemma wp_assoc {X Y Z} (m : M (adrv D) X) (f : X → M (adrv D) Y) (k : M (adrv D) Z) Q s :
  wp (do! (let! c := m in f c) then k) Q s → wp (let! c := m in do! f c then k) Q s.
Proof. rewrite /wp /bind. by destruct (m s) as [[]| | | |]. Qed.

Lemma wp_set_drive_head s0 chan cmd ctl v d h s (Q : unit → adrv D → Prop) :
  chan_at s0 chan cmd ctl v s → v_busy v = 0%nat → 0 ≤ h < 16 →
  (∀ s' v', chan_at s0 chan cmd ctl v' s' → (v_busy v' ≤ at_patience)%nat → v_reg v' 6 = head_byte d h →
     v_data v' = v_data v → Q tt s') →
  wp (ata_set_drive_head chan 1 d h) Q s.
Proof.
  intros Hs Hb Hh HQ. rewrite /ata_set_drive_head. apply wp_assoc, wp_bind. fold (head_byte d h).
  destruct (head_byte_ok d h Hh) as (Hr & _).
  apply (wp_reg _ _ _ _ _ 6 _ _ _ Hs Hb); [lia|done|]. intros s' v' Hs' Hb' Hreg Hd'.
  pose proof Hs' as [(c & Hc & Hcmd & Hctl) Hre Hv Ho Hbd Hch].
  apply wp_bind, wp_bind, wp_gets. eapply wp_deref; [exact Hc|]. apply wp_modify.
  apply (HQ _ v'); [|exact Hb'|by rewrite Hreg|done].
  split; cbn; try done.
  - exists (set_ch_drvsel (bool01 d) c). split; [by rewrite lookup_insert_eq|done].
  - intros y. rewrite -Hch. destruct (decide (y = chan)) as [->|].
    + by rewrite lookup_insert_eq Hc.
    + rewrite lookup_insert_ne; [congruence|done].
Qed.

Lemma wp_read_command s0 chan cmd ctl v s (Q : unit → adrv D → Prop) :
  chan_at s0 chan cmd ctl v s → v_busy v = 0%nat → v_data v = [] → v_reg v 2 = 1 → reg_uses_lba (v_reg v) = true →
  (∀ s' v', chan_at s0 chan cmd ctl v' s' → (v_busy v' ≤ at_patience)%nat →
     v_data v' = match at_disk cmd (reg_drive (v_reg v)) (reg_lba (v_reg v)) with Some l => words_of l | None => [] end →
     Q tt s') →
  wp (ata_command chan ATA_CMD_READ_SECTORS) Q s.
Proof.
  intros [(c & Hc & Hcmd & Hctl) Hr Hv Ho Hb Hch] Hbz Hdz H2 Hlba HQ.
  apply wp_bind, wp_bind, wp_gets. eapply wp_deref; [exact Hc|]. apply wp_zoom, wp_port_out. rewrite Hcmd.
  rewrite /outs /=. destruct (at_ports _ _ Hr) as (P1 & P2 & _).
  assert (u16 (cmd + 7) = cmd + 7) as -> by (apply Z.mod_small; lia).
  rewrite -Hv in Hbz Hdz H2 Hlba HQ. destruct (at_read (a_dev s) cmd ctl Hr Hbz Hdz H2 Hlba) as (R1 & R2 & R3).
  change (ATA_CMD_READ_SECTORS mod 256) with ATA_CMD_READ_SECTORS.
  eapply HQ; [|exact R1|exact R2]. split; cbn; try done; [by exists c|]. intros c' Hc'. by rewrite R3 // Ho.
Qed.

(** One sector. *)
Lemma wp_read_sector fuel s0 cmd ctl v x blk s (Q : option (list Z) → adrv D → Prop) :
  chan_at s0 (abd_chan x) cmd ctl v s → v_busy v = 0%nat → v_data v = [] → (at_patience < fuel)%nat →
  (∀ s' v', chan_at s0 (abd_chan x) cmd ctl v' s' → v_busy v' = 0%nat → v_data v' = [] →
     Q (at_disk cmd (bool01 (abd_drvsel x)) (blk mod 2 ^ 28)) s') →
  wp (ata_read_sector fuel x blk) Q s.
Proof.
  intros Hs Hb Hd Hf HQ. rewrite /ata_read_sector.
  pose proof (land_f_range (Z.shiftr blk 24)) as Hh. destruct (head_byte_ok (abd_drvsel x) _ Hh) as (Hr & Hlo & Hdr & Hlba).
  apply wp_bind, (wp_set_drive_head _ _ _ _ _ _ _ _ _ Hs Hb Hh). intros s1 v1 Hs1 Hb1 Hr1 Hd1.
  apply wp_bind, (wp_busy_wait _ _ _ _ _ _ _ _ Hs1); [lia|]. clear s1 Hs1. intros s1 Hs1.
  apply wp_bind, (wp_reg _ _ _ _ _ 2 1 _ _ Hs1 eq_refl); [lia|lia|]. cbn [v_reg v_data]. intros s2 v2 Hs2 Hb2 Hr2 Hd2.
  apply wp_bind, (wp_reg _ _ _ _ _ 3 _ _ _ Hs2); [cbn in Hb2; lia|lia|apply land_ff_range|]. intros s3 v3 Hs3 Hb3 Hr3 Hd3.
  apply wp_bind, (wp_reg _ _ _ _ _ 4 _ _ _ Hs3); [cbn in Hb3; lia|lia|apply land_ff_range|]. intros s4 v4 Hs4 Hb4 Hr4 Hd4.
  apply wp_bind, (wp_reg _ _ _ _ _ 5 _ _ _ Hs4); [cbn in Hb4; lia|lia|apply land_ff_range|]. intros s5 v5 Hs5 Hb5 Hr5 Hd5.
  assert (v_reg v5 6 = head_byte (abd_drvsel x) (Z.land (Z.shiftr blk 24) 0xf)) as E6
    by (rewrite Hr5 // Hr4 // Hr3 // Hr2 //).
  assert (reg_lba (v_reg v5) = blk mod 2 ^ 28) as Elba.
  { rewrite /reg_lba E6 Hlo -lba_parts. rewrite (Hr5 5) // (Hr5 4) // (Hr5 3) // (Hr4 4) // (Hr4 3) // (Hr3 3) //. }
  apply wp_bind, (wp_read_command _ _ _ _ _ _ _ Hs5); [cbn in Hb5; lia|congruence| | |].
  { rewrite Hr5 // Hr4 // Hr3 // Hr2 //. }
  { by rewrite /reg_uses_lba E6. }
  rewrite Elba /reg_drive E6 Hdr. intros s6 v6 Hs6 Hb6 Hd6.
  apply wp_bind, (wp_busy_wait _ _ _ _ _ _ _ _ Hs6); [lia|]. clear s6 Hs6. intros s6 Hs6.
  apply wp_bind, (wp_alt_status _ _ _ _ _ _ _ Hs6). cbn [v_busy v_reg v_data]. intros s7 y Hs7 _ Hdrq.
  rewrite (Hdrq eq_refl). change (0 - 1)%nat with 0%nat in Hs7. destruct (at_disk cmd _ _) as [l|] eqn:Edisk.
  - destruct (at_sector _ _ _ _ Edisk) as [Hl Hby]. destruct (words_of_ok l Hl Hby) as [Hwl Hww].
    rewrite bool_decide_eq_false_2; [rewrite Hd6; intros E; by rewrite E in Hwl|]. cbn [negb].
    rewrite /ata_pio_read_blk. apply wp_bind, (wp_pio_words _ _ _ _ _ _ _ _ Hs7); [done|by rewrite /= Hd6|by rewrite /= Hd6|].
    intros s8 v8 Hs8 Hb8 Hd8. apply wp_ret. cbn [v_data]. rewrite Hd6 words_bytes //; [exists 256%nat; lia|].
    by apply (HQ _ _ Hs8).
  - rewrite bool_decide_eq_true_2 //. cbn [negb]. apply wp_bind, wp_modify, wp_ret.
    apply (HQ _ (mk_aview 0 (v_reg v6) (v_data v6))); [|done|exact Hd6]. destruct Hs7. split; cbn; eassumption.
Qed.

Lemma chan_at_log s0 chan cmd ctl v m s : chan_at s0 chan cmd ctl v s → chan_at s0 chan cmd ctl v (add_alog m s).
Proof. intros []. split; cbn; eassumption. Qed.

Lemma store_at_end acc l : store_at acc (Z.of_nat (length acc)) l = acc ++ l.
Proof. rewrite /store_at Nat2Z.id Nat.sub_diag app_nil_r firstn_all //. Qed.

Lemma u64_next b k : b mod 2 ^ 28 = k mod 2 ^ 28 → u64 (b + 1) mod 2 ^ 28 = (k + 1) mod 2 ^ 28.
Proof.
  intros E. rewrite /u64 -Znumtheory.Zmod_div_mod //; [by exists (2 ^ 36)|].
  rewrite -(Zplus_mod_idemp_l b) E Zplus_mod_idemp_l //.
Qed.

(** The loop over the sectors. *)
Lemma wp_rw_loop fuel n s0 cmd ctl v x blk k acc s (Q : Z * list Z → adrv D → Prop) :
  chan_at s0 (abd_chan x) cmd ctl v s → v_busy v = 0%nat → v_data v = [] → (at_patience < fuel)%nat →
  blk mod 2 ^ 28 = k mod 2 ^ 28 →
  (∀ s' v' r, chan_at s0 (abd_chan x) cmd ctl v' s' → v_busy v' = 0%nat → v_data v' = [] →
     match mapM (λ j, at_disk cmd (bool01 (abd_drvsel x)) (j mod 2 ^ 28)) (seqZ k (Z.of_nat n)) with
     | Some l => r = (0, acc ++ mjoin l)
     | None => fst r = -1
     end → Q r s') →
  wp (ata_rw_loop fuel n x 512 blk (Z.of_nat (length acc)) acc) Q s.
Proof.
  intros Hs Hb Hd Hf. revert v s blk k acc Hs Hb Hd.
  induction n as [|n IH]; intros v s blk k acc Hs Hb Hd Ek HQ; cbn [ata_rw_loop].
  { apply wp_ret, (HQ _ _ _ Hs Hb Hd). simpl. by rewrite app_nil_r. }
  rewrite seqZ_cons in HQ; [lia|]. rewrite (_ : Z.pred (Z.of_nat (S n)) = Z.of_nat n) in HQ; [lia|]. cbn [mapM] in HQ.
  apply wp_bind, wp_modify. apply wp_bind, (wp_read_sector _ _ _ _ _ _ _ _ _ (chan_at_log _ _ _ _ _ _ _ Hs) Hb Hd Hf).
  intros s1 v1 Hs1 Hb1 Hd1. rewrite Ek. destruct (at_disk cmd _ (k mod 2 ^ 28)) as [l|] eqn:El.
  - destruct (at_sector _ _ _ _ El) as [Hl _]. rewrite store_at_end.
    rewrite (_ : Z.of_nat (length acc) + 512 = Z.of_nat (length (acc ++ l))); [rewrite length_app Hl; lia|].
    apply (IH v1 s1 _ (k + 1)); [done|done|done|by apply u64_next|].
    intros s2 v2 r Hs2 Hb2 Hd2 Hr. apply (HQ _ _ _ Hs2 Hb2 Hd2). rewrite -/(Z.succ k) in Hr. cbn [mbind option_bind].
    destruct (mapM _ (seqZ (Z.succ k) (Z.of_nat n))) as [ls|]; [|exact Hr]. cbn. by rewrite Hr -app_assoc.
  - apply wp_ret, (HQ _ _ _ Hs1 Hb1 Hd1). done.
Qed.

(** ** The driver keeps the promise of the block layer *)

#[export] Instance ata_driver : Driver (adrv D) := ata_rw_blk (S at_patience).

(** The channel of a device. *)
Definition bdev_chan s (a : Z) : option (ata_blkdev * (Z * Z)) :=
  x ← a_bdevs s !! a; c ← a_chans s !! abd_chan x; Some (x, (cmd_bar c, ctl_bar c)).

(** What the driver shows as sector [k] of the device [a]: it puts 28 bits of
    the number into the registers, so a sector of the drive with a greater number is not
    reached, and an earlier one is shown in its place. *)
Definition ata_sector s (a k : Z) : option (list Z) :=
  r ← bdev_chan s a; at_disk (fst (snd r)) (bool01 (abd_drvsel (fst r))) (k mod 2 ^ 28).
Definition ata_idle s (a z : Z) : Prop := z = 512 ∧
  ∃ x cmd ctl, bdev_chan s a = Some (x, (cmd, ctl)) ∧ at_chan cmd ctl ∧
    v_busy (at_view (a_dev s) cmd) = 0%nat ∧ v_data (at_view (a_dev s) cmd) = [].

(** Below 2^28 that is the sector of the drive. *)
Lemma ata_sector_disk s a x cmd ctl k n : bdev_chan s a = Some (x, (cmd, ctl)) → 0 ≤ k → k + n ≤ 2 ^ 28 →
  mapM (ata_sector s a) (seqZ k n) = mapM (at_disk cmd (bool01 (abd_drvsel x))) (seqZ k n).
Proof.
  intros Hx H0 Hn. assert (∀ l, Forall (λ j, 0 ≤ j < 2 ^ 28) l →
    mapM (ata_sector s a) l = mapM (at_disk cmd (bool01 (abd_drvsel x))) l) as Hall.
  { induction 1 as [|j l Hj _ IH]; [done|]. cbn [mapM]. by rewrite IH /ata_sector Hx /= Z.mod_small. }
  apply Hall, Forall_forall. intros j Hj%elem_of_seqZ. lia.
Qed.

Lemma bdev_chan_same s0 chan cmd ctl v s a : chan_at s0 chan cmd ctl v s → bdev_chan s a = bdev_chan s0 a.
Proof.
  intros [_ _ _ _ Hb Hc]. rewrite /bdev_chan Hb. destruct (a_bdevs s0 !! a) as [x|]; [|done]. cbn.
  specialize (Hc (abd_chan x)).
  destruct (a_chans s !! abd_chan x) as [c|], (a_chans s0 !! abd_chan x) as [c0|]; cbn in *; congruence.
Qed.

#[export] Program Instance ata_driver_spec : DriverSpec (adrv D) := {|
  drv_sector := ata_sector;
  drv_ok := ata_idle
|}.
Next Obligation.
  intros s a dv n (Hz & x & cmd & ctl & Hbc & Hch & Hb & Hd).
  pose proof Hbc as Hbc'. rewrite /bdev_chan in Hbc'. destruct (a_bdevs s !! a) as [x'|] eqn:Ex; [|done].
  cbn in Hbc'. destruct (a_chans s !! abd_chan x') as [c|] eqn:Ec; [|done]. injection Hbc' as -> E1 E2.
  apply wp_bind, wp_bind, wp_gets. eapply wp_deref; [exact Ex|]. rewrite Hz.
  assert (chan_at s (abd_chan x) cmd ctl (at_view (a_dev s) cmd) s) as Hs by (split; try done; by exists c).
  apply (wp_rw_loop _ _ s cmd ctl _ x n n [] s _ Hs Hb Hd); [lia|done|].
  intros s' v' r Hs' Hb' Hd' Hr. split; [|split].
  - intros y z (-> & x1 & cmd1 & ctl1 & Hbc1 & Hch1 & Hb1 & Hd1). split; [done|]. exists x1, cmd1, ctl1.
    rewrite (bdev_chan_same _ _ _ _ _ _ _ Hs'). split; [done|]. split; [done|].
    destruct (decide (cmd1 = cmd)) as [->|Hne]; [by rewrite (ca_view _ _ _ _ _ _ Hs')|].
    by rewrite (ca_others _ _ _ _ _ _ Hs').
  - intros y k. by rewrite /ata_sector (bdev_chan_same _ _ _ _ _ _ _ Hs').
  - assert (∀ l, mapM (ata_sector s a) l = mapM (λ j, at_disk cmd (bool01 (abd_drvsel x)) (j mod 2 ^ 28)) l) as Em.
    { intros l. induction l as [|j l IH]; [done|]. cbn [mapM]. rewrite IH /ata_sector Hbc. done. }
    rewrite Em. destruct (Z.le_gt_cases 0 (bd_count dv)) as [Hc|Hc].
    + rewrite Z2Nat.id // in Hr. destruct (mapM _ _); [by rewrite Hr|rewrite Hr; lia].
    + rewrite seqZ_nil; [lia|]. rewrite (_ : Z.to_nat (bd_count dv) = 0%nat) in Hr; [lia|]. by rewrite Hr.
Qed.
End read.

(** [ata_rw_blk] reads the disk: given an idle channel it returns, after
    a bounded number of looks at the status register, with 0 and the bytes of
    the [count] sectors from [blk] on (the number taken modulo 2^28), or with
    -1 when one of them cannot be read; the channel is idle again and the other
    channels are as they were.  The direction asked for makes no difference. *)
Theorem ata_rw_blk_correct `{AtaDev D} (s : adrv D) a dv write blk x cmd ctl :
  bdev_chan s a = Some (x, (cmd, ctl)) → ata_idle s a (sectsize dv) → 0 ≤ bd_count dv →
  ∃ r s', ata_rw_blk (S at_patience) a dv write blk s = Ret (r, s') ∧
    match mapM (λ j, at_disk cmd (bool01 (abd_drvsel x)) (j mod 2 ^ 28)) (seqZ blk (bd_count dv)) with
    | Some l => r = (0, mjoin l)
    | None => fst r = -1
    end ∧
    ata_idle s' a (sectsize dv) ∧ (∀ c, c ≠ cmd → at_view (a_dev s') c = at_view (a_dev s) c).
Proof.
  intros Hx (Hz & x' & cmd' & ctl' & Hbc & Hch & Hb & Hd) Hc. rewrite Hx in Hbc. injection Hbc as <- <- <-.
  pose proof Hx as Hx'. rewrite /bdev_chan in Hx'. destruct (a_bdevs s !! a) as [x'|] eqn:Ex; [|done].
  cbn in Hx'. destruct (a_chans s !! abd_chan x') as [c|] eqn:Ec; [|done]. injection Hx' as -> E1 E2.
  match goal with |- ∃ r s', ?m s = _ ∧ @?P r s' => destruct (wp_elim m (λ r s', P r s') s) as (r & s' & E & HP) end; [|by exists r, s'].
  apply wp_bind, wp_bind, wp_gets. eapply wp_deref; [exact Ex|]. rewrite Hz.
  assert (chan_at s (abd_chan x) cmd ctl (at_view (a_dev s) cmd) s) as Hs by (split; try done; by exists c).
  apply (wp_rw_loop _ _ s cmd ctl _ x blk blk [] s _ Hs Hb Hd); [lia|done|].
  intros s' v' r Hs' Hb' Hd' Hr. rewrite Z2Nat.id // in Hr. split; [done|]. split; [|apply Hs'].
  split; [done|]. exists x, cmd, ctl. rewrite (bdev_chan_same _ _ _ _ _ _ _ Hs') (ca_view _ _ _ _ _ _ Hs'). done.
Qed.

(** C31: The block layer over the driver: reading block [n] of an ATA device,
    with its sectors below 2^28, gives a buffer whose bytes are those of the
    block's sectors on the drive, or NULL, and then no buffer is left behind;
    with memory for a buffer, NULL only when the drive does not give one of the
    sectors.  The channel is left idle, and nothing else of the block
    layer has changed. *)
Theorem ata_blk_read_correct `{AtaDev D} {P} `{!ObjOps P, !ObjSpec P} (b : @blk P (adrv D)) dev dv A n x cmd ctl :
  blk_ok b dev dv A → bdev_chan (bk_drv b) dev = Some (x, (cmd, ctl)) → 0 ≤ n → (n + 1) * bd_count dv ≤ 2 ^ 28 →
  let sectors := mapM (at_disk cmd (bool01 (abd_drvsel x))) (seqZ (n * bd_count dv) (bd_count dv)) in
  ∃ r b', blk_read dev n b = Ret (r, b') ∧ blk_same b b' ∧ ata_idle (bk_drv b') dev (sectsize dv) ∧
    (r ≠ NULL → ∃ buf l, sectors = Some l ∧
       bk_bufs b' = <[r := mk_buffer dev n buf (bd_count dv * sectsize dv)]> (bk_bufs b) ∧
       bk_data b' = <[buf := mjoin l]> (bk_data b)) ∧
    (r = NULL → bk_bufs b' = bk_bufs b ∧ bk_data b' = bk_data b ∧
       (objs_avail (bk_objs b) (block_io dv) → sectors = None)).
Proof.
  intros Hok Hx Hn Hb sectors. pose proof Hok as [].
  assert (block_of b dev dv n = (mjoin (M := list) (A := Z)) <$> sectors) as Hs.
  { rewrite /block_of. unfold sectors. rewrite -(ata_sector_disk _ _ _ _ _ _ _ Hx); [nia|lia|done]. }
  destruct (wp_elim _ _ _ (wp_blk_read b dev dv A n Hok Hn ltac:(lia))) as (r & b' & E & [Hsame Hp] & Hsup).
  exists r, b'. split; [done|]. split; [done|]. split; [by apply Hsame|]. split.
  - intros Hr. destruct Hp as [[-> _]|(buf & l & Hl & _ & _ & _ & _ & Hbufs & Hdata & _)]; [done|].
    rewrite Hs in Hl. apply fmap_Some in Hl as (ls & Hls & ->). by exists buf, ls.
  - intros ->. destruct Hp as [(_ & Hbufs & Hdata & _)|(? & ? & _ & Hne & _)]; [|done]. split; [done|]. split; [done|].
    intros Hav. destruct (Hsup [] Hav) as [Hno _]. rewrite Hs in Hno. by apply fmap_None in Hno.
Qed.

(** ** Identification strings *)

Lemma swap_words_app n l k : length l = (2 * n)%nat → swap_words n (l ++ k) = swap_words n l ++ k.
Proof.
  revert l. induction n as [|n IH]; intros [|a [|b l]] Hl; simpl in Hl; try lia; [done|]. cbn. rewrite IH //. lia.
Qed.

Lemma swap_words_length n l : length (swap_words n l) = length l.
Proof.
  revert l. induction n as [|n IH]; intros l; [done|]. destruct l as [|a [|b l]]; [done..|]. cbn. by rewrite IH.
Qed.

Lemma swap_words_twice n l : swap_words n (swap_words n l) = l.
Proof. revert l. induction n as [|n IH]; intros l; [done|]. destruct l as [|a [|b l]]; [done..|]. cbn. by rewrite IH. Qed.

Lemma trim_loop_S i l : (0 < i)%nat →
  trim_loop (S i) l = if bool_decide (l !! i = Some 32) then trim_loop i (<[i := 0]> l) else l.
Proof. by destruct i; [lia|]. Qed.

Lemma trim_loop_spaces l c k r : c ≠ 32 →
  trim_loop (length (l ++ c :: replicate k 32)) (l ++ c :: replicate k 32 ++ r) = l ++ c :: replicate k 0 ++ r.
Proof.
  intros Hc. revert r. induction k as [|k IH]; intros r.
  - rewrite length_app /= Nat.add_1_r. destruct (length l) as [|n] eqn:En.
    + done.
    + cbn [trim_loop]. rewrite bool_decide_eq_false_2 //. rewrite lookup_app_r; [lia|].
      rewrite En Nat.sub_diag. simpl. congruence.
  - assert (length (l ++ c :: replicate k 32) = S (length l + k)) as Hlen.
    { rewrite length_app /= length_replicate. lia. }
    rewrite (_ : length (l ++ c :: replicate (S k) 32) = S (S (length l + k))); [rewrite length_app /= length_replicate; lia|].
    rewrite trim_loop_S; [lia|].
    rewrite (_ : l ++ c :: replicate (S k) 32 ++ r = (l ++ c :: replicate k 32) ++ 32 :: r);
      [by rewrite replicate_S_end -!app_assoc /=|].
    rewrite bool_decide_eq_true_2; [by rewrite lookup_app_r Hlen // Nat.sub_diag|].
    rewrite (insert_app_r_alt _ _ (S (length l + k))); [by rewrite Hlen|]. rewrite Hlen Nat.sub_diag. cbn [list_insert].
    rewrite -Hlen -app_assoc. change ((c :: ?a) ++ ?b) with (c :: a ++ b). change (<[0%nat := 0]> (32 :: r)) with (0 :: r).
    rewrite IH replicate_S_end -!app_assoc //.
Qed.

(** Identification strings are decoded: a string that the drive sends
    padded with spaces and with the bytes of each word exchanged comes out in
    order, its padding replaced by NULs. *)
Theorem swizzle_string_correct txt c k :
  c ≠ 32 → Nat.Even (length (txt ++ c :: replicate k 32)) →
  let padded := txt ++ c :: replicate k 32 in
  swizzle_string (swap_words (Nat.div2 (length padded)) padded) = txt ++ c :: replicate k 0.
Proof.
  intros Hc Hev padded. rewrite /swizzle_string swap_words_length swap_words_twice.
  pose proof (trim_loop_spaces txt c k [] Hc) as Ht. by rewrite !app_nil_r in Ht.
Qed.

(** ** Errors *)

(** A device that was freed is handed out: when there is no memory for
    the name, [ata_new_blkdev] frees the device structure and returns its
    address, which is not NULL; the caller registers it. *)
Theorem ata_new_blkdev_dangling `{PortDev D} {P} `{!ObjOps P, !ObjSpec P} jn jc dev chan nr d A (s : atac (D := D) (P := P)) p1 p2 bdev :
  objs_live (bk_objs (c_blk s)) A →
  obj_alloc (general_cache_of sizeof_ata_blkdev) (bk_objs (c_blk s)) = Ret (bdev, p1) → bdev ≠ NULL →
  obj_alloc (general_cache_of ATA_MAX_BLKNAME) p1 = Ret (NULL, p2) →
  ∃ s', ata_new_blkdev jn jc dev chan nr d s = Ret (bdev, s') ∧
    objs_live (bk_objs (c_blk s')) A ∧ bdev ∉ A ∧ bk_devs (c_blk s') = bk_devs (c_blk s).
Proof.
  intros HA E1 Hn E2.
  pose proof (objs_alloc _ _ (general_cache_of sizeof_ata_blkdev) HA) as H1. rewrite /wp E1 in H1.
  destruct H1 as [[-> _]|(_ & _ & Hf & HA1)]; [done|].
  pose proof (objs_alloc _ _ (general_cache_of ATA_MAX_BLKNAME) HA1) as H2. rewrite /wp E2 in H2.
  destruct H2 as [[_ HA2]|(Hr & _)]; [|unfold NULL in Hr; lia].
  pose proof (objs_free _ _ (general_cache_of sizeof_ata_blkdev) bdev HA2 ltac:(set_solver)) as H3.
  destruct (wp_elim _ _ _ H3) as ([] & p3 & E3 & HA3).
  exists (set_c_blk (set_bk_objs p3 (c_blk s)) s). split_and!.
  - rewrite /ata_new_blkdev /bind /t_kmalloc /on_blk /on_bobjs /zoom E1 (proj2 (Z.eqb_neq _ _) Hn). cbn. rewrite E2 /=.
    rewrite /t_kfree /on_blk /on_bobjs /zoom /= E3. done.
  - simpl. assert (({[ bdev ]} ∪ A) ∖ {[ bdev ]} = A) as <- by set_solver. exact HA3.
  - done.
  - done.
Qed.

(** ** A drive

    One channel at the traditional ports; drive 0 has four sectors, sector
    [k] filled with [k]; every command and selection keeps it busy for one
    look. *)
Definition drive : Type := aview.
Definition drive_disk (cmd drv k : Z) : option (list Z) :=
  if (drv =? 0) && (0 <=? k) && (k <? 4) then Some (replicate 512 k) else None.
Definition drive_status (v : aview) : Z :=
  (if decide (v_busy v = 0%nat) then 0 else 0x80) + (if decide (v_data v = []) then 0 else 8).

#[export] Instance drive_dev : PortDev drive := {|
  dev_in w port d :=
    if w =? 2 then (default 0 (head (v_data d)), mk_aview (v_busy d) (v_reg d) (tail (v_data d)))
    else (drive_status d, mk_aview (v_busy d - 1) (v_reg d) (v_data d));
  dev_out w port v d :=
    let k := port - ATA_BAR0 in
    if k =? 7 then
      mk_aview 1 (v_reg d) (match drive_disk ATA_BAR0 (reg_drive (v_reg d)) (reg_lba (v_reg d)) with Some l => words_of l | None => [] end)
    else mk_aview (if k =? 6 then 1%nat else 0%nat) (λ j, if j =? k then v else v_reg d j) (v_data d)
|}.

Lemma drive_status_ok v : 0 ≤ drive_status v < 256 ∧
  ctrue (Z.land (drive_status v) ATA_STATUS_BSY) = negb (bool_decide (v_busy v = 0%nat)) ∧
  ctrue (Z.land (drive_status v) ATA_STATUS_DRQ) = negb (bool_decide (v_data v = [])).
Proof.
  rewrite /drive_status. destruct (decide (v_busy v = 0%nat)) as [E|E]; destruct (decide (v_data v = [])) as [F|F];
    rewrite ?(bool_decide_eq_true_2 _ E) ?(bool_decide_eq_false_2 _ E) ?(bool_decide_eq_true_2 _ F) ?(bool_decide_eq_false_2 _ F);
    by vm_compute.
Qed.

#[export] Program Instance drive_ata : AtaDev drive := {|
  at_chan cmd ctl := cmd = ATA_BAR0 ∧ ctl = ATA_BAR1;
  at_view d c := if c =? ATA_BAR0 then d else mk_aview 0 (λ _, 0) [];
  at_disk := drive_disk;
  at_patience := 1
|}.
Next Obligation. intros cmd ctl [-> ->]. rewrite /ATA_BAR0 /ATA_BAR1. lia. Qed.
Next Obligation.
  intros cmd drv k l Hl. rewrite /drive_disk in Hl. destruct (drv =? 0), (Z.leb_spec 0 k), (Z.ltb_spec k 4); try done. cbn [andb] in Hl.
  apply (inj Some) in Hl as <-. split; [apply length_replicate|]. apply Forall_replicate. lia.
Qed.
Next Obligation.
  intros d cmd ctl k v [-> ->] Hk Hv Hb. cbn [dev_out drive_dev]. rewrite (_ : ATA_BAR0 + k - ATA_BAR0 = k); [lia|].
  rewrite !Z.eqb_refl. destruct (Z.eqb_spec k 7); [lia|]. cbn. split_and!; [by destruct (k =? 6)|done|done|].
  intros c Hc. by rewrite (proj2 (Z.eqb_neq _ _) Hc).
Qed.
Next Obligation.
  intros d cmd ctl [-> ->] Hb Hd r H2 Hl. cbn. split_and!; [done|done|]. intros c Hc. by rewrite (proj2 (Z.eqb_neq _ _) Hc).
Qed.
Next Obligation.
  intros d cmd ctl [-> ->]. cbn. destruct (drive_status_ok d) as (S1 & S2 & S3). split_and!; [lia|lia|done|done|done|].
  intros c Hc. by rewrite (proj2 (Z.eqb_neq _ _) Hc).
Qed.
Next Obligation.
  intros d cmd ctl w ws [-> ->] Hb Hd. cbn in *. rewrite Hd /=. split_and!; [done|done|done|].
  intros c Hc. by rewrite (proj2 (Z.eqb_neq _ _) Hc).
Qed.

Definition ex_adrv : adrv drive :=
  mk_adrv drive (mk_aview 0 (λ _, 0) []) {[ 0x500 := mk_ata_chan ATA_BAR0 ATA_BAR1 0 14 4 DISK_TYPE_ATA 0 ]}
    {[ 0x600 := mk_ata_blkdev 0x500 0x500 0 ]} [].
Definition ex_ata_blkdev : blkdev := mk_blkdev NULL [] 512 2 1.

Lemma ex_idle : ata_idle ex_adrv 0x600 512.
Proof. split; [done|]. by exists (mk_ata_blkdev 0x500 0x500 0), ATA_BAR0, ATA_BAR1. Qed.

Lemma ata_rw_blk_witness : ∃ s', ata_rw_blk 2 0x600 ex_ata_blkdev 0 1 ex_adrv =
  Ret ((0, mjoin [replicate 512 1; replicate 512 2]), s') ∧ ata_idle s' 0x600 512.
Proof.
  destruct (ata_rw_blk_correct ex_adrv 0x600 ex_ata_blkdev 0 1 (mk_ata_blkdev 0x500 0x500 0) ATA_BAR0 ATA_BAR1)
    as (r & s' & E & Hr & Hi & _).
  - reflexivity.
  - exact ex_idle.
  - simpl. lia.
  - exists s'. split; [|exact Hi]. cbn [ex_ata_blkdev bd_count] in Hr.
    change (seqZ 1 2) with [1; 2] in Hr. cbn [mapM] in Hr. change (1 mod 2 ^ 28) with 1 in Hr. change (2 mod 2 ^ 28) with 2 in Hr.
    change (at_disk ATA_BAR0 _ 1) with (Some (replicate 512 1)) in Hr. change (at_disk ATA_BAR0 _ 2) with (Some (replicate 512 2)) in Hr.
    cbn [mbind option_bind mret option_ret] in Hr. by rewrite -Hr.
Defined.

Definition ex_ata_blk : @blk opool (adrv drive) :=
  mk_blk {[ 0x600 := ex_ata_blkdev ]} 0x600 ∅ ∅ [0x1000; 0x2000] ex_adrv.

Lemma ex_ata_blk_ok : blk_ok ex_ata_blk 0x600 ex_ata_blkdev ∅.
Proof.
  split; try done.
  - exact ex_idle.
  - intros k l Hl. cbn [ex_ata_blkdev sectsize]. change (drv_sector (bk_drv ex_ata_blk) 0x600 k) with
      (at_disk ATA_BAR0 (bool01 0) (k mod 2 ^ 28)) in Hl. by destruct (at_sector _ _ _ _ Hl) as [-> _].
  - split_and!; [decide_closed| |set_solver].
    intros v Hv. split; [|set_solver]. assert (Forall obj_ok (bk_objs ex_ata_blk)) as HF by (repeat constructor).
    exact (proj1 (Forall_forall _ _) HF v Hv).
  - intros a [x Hx]. done.
  - intros a [x Hx]. done.
Qed.

(** Sectors 2 and 3 of the drive. *)
Lemma ata_blk_read_witness : ∃ r b', blk_read 0x600 1 ex_ata_blk = Ret (r, b') ∧ blk_same ex_ata_blk b' ∧ r ≠ NULL.
Proof.
  destruct (ata_blk_read_correct ex_ata_blk 0x600 ex_ata_blkdev ∅ 1 (mk_ata_blkdev 0x500 0x500 0) ATA_BAR0 ATA_BAR1)
    as (r & b' & E & Hs & _ & _ & Hnull).
  - exact ex_ata_blk_ok.
  - reflexivity.
  - lia.
  - simpl. lia.
  - exists r, b'. split; [exact E|]. split; [exact Hs|]. intros Hr. destruct (Hnull Hr) as (_ & _ & Hno).
    assert (objs_avail (bk_objs ex_ata_blk) (block_io ex_ata_blkdev)) as Hav by (simpl; lia).
    specialize (Hno Hav). vm_compute in Hno. discriminate Hno.
Defined.

(** "QEMU" in a field of six bytes. *)
Lemma swizzle_string_witness : swizzle_string [69; 81; 85; 77; 32; 32] = [81; 69; 77; 85; 0; 0].
Proof. apply (swizzle_string_correct [81; 69; 77] 85 2); [lia|by exists 3%nat]. Defined.

Definition ex_atac : atac (D := trace) (P := opool) :=
  mk_atac (mk_blk ∅ NULL ∅ ∅ [0x1000] (mk_adrv trace [] ∅ ∅ [])) (mk_intr pics0 [] [] [] []) 0 ∅.

Lemma ata_new_blkdev_witness : ∃ s',
  ata_new_blkdev 0 0 0x500 0x500 0 1 ex_atac = Ret (0x1000, s') ∧
  objs_live (bk_objs (c_blk s')) ∅ ∧ 0x1000 ∉ (∅ : gset Z) ∧ bk_devs (c_blk s') = bk_devs (c_blk ex_atac).
Proof.
  apply (ata_new_blkdev_dangling 0 0 0x500 0x500 0 1 ∅ ex_atac [] [] 0x1000).
  - split_and!; [apply NoDup_singleton| |set_solver]. intros v ->%list_elem_of_singleton. split; [split; [lia|done]|set_solver].
  - reflexivity.
  - done.
  - reflexivity.
Defined.
