(* ===== verification/Floppy.v ===== *)
(** * The floppy driver and the DMA controller ([arch-ia32/floppy.c],
      [arch-ia32/dma.c])

    The driver sends commands byte by byte and sleeps until the controller's
    interrupt, whose handler collects the result bytes. *)
From stdpp Require Import strings.
From S2P Require Import Prelude Blk Io.
Local Open Scope Z_scope.

(** ** DMA ([arch-ia32/dma.c]) *)

(** [struct dma] *)
Record dma := mk_dma { dma_page : Z; dma_addr : Z; dma_count : Z; dma_mask : Z; dma_mode : Z; dma_clear : Z }.
Definition dma_chan : list dma := [
  mk_dma 0x87 0x00 0x01 0x0a 0x0b 0x0c;
  mk_dma 0x83 0x02 0x03 0x0a 0x0b 0x0c;
  mk_dma 0x81 0x04 0x05 0x0a 0x0b 0x0c;
  mk_dma 0x82 0x06 0x07 0x0a 0x0b 0x0c;
  mk_dma 0x8f 0xc0 0xc2 0xd4 0xd6 0xd8;
  mk_dma 0x8b 0xc6 0xc6 0xd4 0xd6 0xd8;
  mk_dma 0x89 0xc8 0xca 0xd4 0xd6 0xd8;
  mk_dma 0x8a 0xcc 0xce 0xd4 0xd6 0xd8 ].

Section dma.
Context `{PortDev D}.

Definition dma_cmd (chan page ofs len mode : Z) : M D unit :=
  do! bug_on (Z.of_nat (length dma_chan) <=? chan) then
  let! c := deref (dma_chan !! Z.to_nat chan) in
  do! outb (dma_mask c) (Z.lor 0x04 chan) then
  do! outb (dma_clear c) 0x00 then
  do! outb (dma_mode c) mode then
  do! outb (dma_addr c) (Z.land ofs 0xff) then
  do! outb (dma_addr c) (Z.land (Z.shiftr ofs 8) 0xff) then
  do! outb (dma_page c) page then
  do! outb (dma_count c) (Z.land len 0xff) then
  do! outb (dma_count c) (Z.land (Z.shiftr len 8) 0xff) then
  outb (dma_mask c) chan.

Definition dma_write (chan addr len : Z) : M D unit :=
  dma_cmd chan (u8 (Z.shiftr addr 16)) (Z.land addr 0xffff) (u16 (len - 1)) (u8 (0x48 + chan)).
Definition dma_read (chan addr len : Z) : M D unit :=
  dma_cmd chan (u8 (Z.shiftr addr 16)) (Z.land addr 0xffff) (u16 (len - 1)) (u8 (0x44 + chan)).
End dma.

(** ** Geometry *)

Record floppy_media := mk_media { fm_heads : Z; fm_tracks : Z; fm_spt : Z; fm_g3_fmt : Z; fm_g3_rw : Z }.
Definition geom : floppy_media := mk_media 2 80 18 0x54 0x1b.

(** [struct floppy_ports], the registers that are used; the primary
    controller. *)
Record floppy_ports := mk_ports { fp_dor : Z; fp_msr : Z; fp_data : Z; fp_dir : Z; fp_ccr : Z }.
Definition dprts : floppy_ports := mk_ports 0x3f2 0x3f4 0x3f5 0x3f7 0x3f7.

(** Head, track, sector. *)
Definition floppy_block (block : Z) : Z * Z * Z :=
  ((block mod (fm_spt geom * fm_heads geom)) / fm_spt geom,
   block / (fm_spt geom * fm_heads geom),
   block mod fm_spt geom + 1).

Definition DOR_RSET : Z := Z.shiftl 1 2.
Definition DOR_DMA : Z := Z.shiftl 1 3.
Definition DOR_MOTA : Z := Z.shiftl 1 4.
Definition MSR_BUSY : Z := Z.shiftl 1 4.
Definition DIR_CHAN : Z := Z.shiftl 1 7.
Definition ST0_SE : Z := Z.shiftl 1 5.
Definition CMD_READ : Z := 0xe6.
Definition CMD_FIX : Z := 0x03.
Definition CMD_RECAL : Z := 0x07.
Definition CMD_SENSEI : Z := 0x08.
Definition CMD_SEEK : Z := 0x0f.
Definition CMD_VERSION : Z := 0x10.

(** ** The driver

    Waiting for the interrupt lets the controller work: [dev_wait]. *)
Class IrqDev (D : Type) := dev_wait : M D unit.

(** [status], [slen] and the messages. *)
Record floppy {D : Type} := mk_floppy { f_dev : D; f_status : list Z; f_slen : Z; f_log : list msg }.
Arguments floppy : clear implicits.

Section floppy.
Context `{PortDev D, !IrqDev D}.
Abbreviation F := (M (floppy D)).

Definition set_f_dev (d : D) (s : floppy D) : floppy D := mk_floppy D d (f_status s) (f_slen s) (f_log s).
Definition set_f_status (l : list Z) (n : Z) (s : floppy D) : floppy D := mk_floppy D (f_dev s) l n (f_log s).
Definition add_flog (m : msg) (s : floppy D) : floppy D := mk_floppy D (f_dev s) (f_status s) (f_slen s) (m :: f_log s).
Definition on_fdev {A} (m : M D A) : F A := zoom f_dev set_f_dev m.
Definition floppy_printk (fmt : string) (args : list parg) : F unit := modify (add_flog (fmt, args)).
Definition ld_status (i : nat) : F Z := let! s := get in deref (f_status s !! i).

(** The loops of at most 128 rounds. *)
Fixpoint send_loop (n : nat) (p : floppy_ports) (b : Z) : F unit :=
  match n with
  | O => ret tt
  | S n =>
    let! msr := on_fdev (inb (fp_msr p)) in
    if Z.land msr 0xc0 =? 0x80 then on_fdev (outb (fp_data p) b)
    else let! _ := on_fdev (inb 0x80) in send_loop n p b
  end.
Definition floppy_send (p : floppy_ports) (b : Z) : F unit := send_loop 128 p b.

Fixpoint recv_loop (n : nat) (p : floppy_ports) : F Z :=
  match n with
  | O => ret 0xff
  | S n =>
    let! msr := on_fdev (inb (fp_msr p)) in
    if Z.land msr 0xd0 =? 0xd0 then on_fdev (inb (fp_data p))
    else let! _ := on_fdev (inb 0x80) in recv_loop n p
  end.
Definition floppy_recv (p : floppy_ports) : F Z := recv_loop 128 p.

(** Result bytes from [slen] on, at most seven. *)
Fixpoint isr_loop (n : nat) (slen : Z) : F unit :=
  match n with
  | O => modify (λ s, set_f_status (f_status s) slen s)
  | S n =>
    let! msr := on_fdev (inb (fp_msr dprts)) in
    if ctrue (Z.land msr MSR_BUSY) then
      let! b := floppy_recv dprts in
      do! modify (λ s, set_f_status (<[Z.to_nat slen := b]> (f_status s)) slen s) then
      isr_loop n (slen + 1)
    else modify (λ s, set_f_status (f_status s) slen s)
  end.
Definition floppy_isr : F unit :=
  do! floppy_send dprts CMD_SENSEI then isr_loop 7 0.

(** [sleep_on(&floppyq)]: the interrupt handler runs and wakes the task up. *)
Definition sleep_on_floppyq : F unit := do! on_fdev dev_wait then floppy_isr.

Definition floppy_seek (p : floppy_ports) (trk : Z) : F Z :=
  let! st1 := ld_status 1 in
  if trk =? st1 then ret 1 else
  do! floppy_send p CMD_SEEK then
  do! floppy_send p 0 then
  do! floppy_send p trk then
  do! sleep_on_floppyq then
  let! st0 := ld_status 0 in
  if negb (ctrue (Z.land st0 ST0_SE)) then
    do! floppy_printk "floppy: seek failed\n" [] then ret 0
  else
  let! st1 := ld_status 1 in
  if negb (st1 =? trk) then
    do! floppy_printk "floppy: seek to %u failed (%u)\n" [PZ trk; PZ st1] then ret 0
  else ret 1.

Definition floppy_recal (p : floppy_ports) : F unit :=
  do! floppy_send p CMD_RECAL then
  do! floppy_send p 0 then
  sleep_on_floppyq.

(** One pass from the label [try_again]: [None] when the disk was changed,
    otherwise whether the read succeeded. *)
Definition floppy_try (sectsz blk buf : Z) : F (option bool) :=
  let! dir := on_fdev (inb (fp_dir dprts)) in
  if ctrue (Z.land dir DIR_CHAN) then
    do! floppy_printk "floppy: disk change on read\n" [] then ret None
  else
  let '(head, track, sector) := floppy_block blk in
  let! _ := floppy_seek dprts (u8 track) in
  do! on_fdev (outb (fp_ccr dprts) 0) then
  do! on_fdev (dma_read 2 buf sectsz) then
  do! floppy_send dprts CMD_READ then
  do! floppy_send dprts (u8 (Z.shiftl head 2)) then
  do! floppy_send dprts (u8 track) then
  do! floppy_send dprts (u8 head) then
  do! floppy_send dprts (u8 sector) then
  do! floppy_send dprts 2 then
  do! floppy_send dprts (fm_spt geom) then
  do! floppy_send dprts (fm_g3_rw geom) then
  do! floppy_send dprts 0xff then
  do! sleep_on_floppyq then
  let! st0 := ld_status 0 in
  ret (Some (Z.land st0 0xc0 =? 0)).

(** The loop over the sectors and the retries. *)
Fixpoint floppy_rw_loop (fuel : nat) (sectsz count tries blk buf : Z) : F Z :=
  match fuel with
  | O => nofuel
  | S fuel =>
    let! r := floppy_try sectsz blk buf in
    match r with
    | None => ret (-1)
    | Some true =>
      let count := u32 (count - 1) in
      if ctrue count then floppy_rw_loop fuel sectsz count tries (u64 (blk + 1)) (u32 (buf + sectsz))
      else ret 0
    | Some false =>
      let tries := tries - 1 in
      if ctrue tries then
        do! floppy_printk "floppy_rw_block: I/O err, try again\n" [] then
        do! floppy_recal dprts then
        floppy_rw_loop fuel sectsz count tries blk buf
      else ret (-1)
    end
  end.

Definition floppy_rw_blk (fuel : nat) (dv : blkdev) (write blk buf : Z) : F Z :=
  if ctrue write then
    do! floppy_printk "floppy0: read-only device\n" [] then ret (-1)
  else floppy_rw_loop fuel (sectsize dv) (bd_count dv) 3 blk buf.

Definition floppy_reset (p : floppy_ports) : F unit :=
  do! on_fdev (outb (fp_dor p) 0) then
  do! on_fdev (outb (fp_ccr p) 0) then
  do! on_fdev (outb (fp_dor p) (Z.lor (Z.lor DOR_DMA DOR_RSET) DOR_MOTA)) then
  do! floppy_send p CMD_FIX then
  do! floppy_send p 0xcf then
  do! floppy_send p (Z.shiftl 16 1) then
  do! sleep_on_floppyq then
  floppy_recal p.
End floppy.
