(* ===== verification/FloppyProps.v ===== *)
(** * Geometry, DMA programming, and the end of every floppy request *)
From stdpp Require Import strings.
From S2P Require Import Prelude Blk Io Floppy.
Local Open Scope Z_scope.

(** ** Geometry *)

(** [floppy_block] is a bijection between the 2880 blocks of a disk and
    its addresses: head, track and sector are in range, and the block is the
    number of the sector in the order of tracks, heads and sectors; every
    address is that of exactly one block. *)
Theorem floppy_block_roundtrip block head track sector :
  0 ≤ block →
  floppy_block block = (head, track, sector) ↔
    0 ≤ head < fm_heads geom ∧ 0 ≤ track ∧ 1 ≤ sector ≤ fm_spt geom ∧
    block = (track * fm_heads geom + head) * fm_spt geom + (sector - 1) ∧
    (block < fm_heads geom * fm_tracks geom * fm_spt geom ↔ track < fm_tracks geom).
Proof.
  intros Hb. rewrite /floppy_block /geom /=. split.
  - intros E. injection E as <- <- <-. Z.to_euclidean_division_equations. lia.
  - intros (Hh & Ht & Hs & -> & _). f_equal; [f_equal|]; Z.to_euclidean_division_equations; lia.
Qed.

Lemma floppy_block_witness : floppy_block 37 = (0, 1, 2).
Proof.
  apply (proj2 (floppy_block_roundtrip 37 0 1 2 ltac:(lia))). rewrite /geom /=. lia.
Defined.

(** ** DMA

    The 8237 controllers as their manual describes them, seen from one
    channel: a flip-flop selects the byte of the address and count registers;
    a write to the mask or mode register names its channel in the low two
    bits, bit 2 of a mask is its new value. *)
Record dmac := mk_dmac { dc_ff : bool; dc_addr : Z; dc_page : Z; dc_count : Z; dc_mode : Z; dc_masked : bool }.

(** The ports of the PC: page, address, count, mask, mode, clear. *)
Definition hw_dma (chan : nat) : dma :=
  if (chan =? 5)%nat then mk_dma 0x8b 0xc4 0xc6 0xd4 0xd6 0xd8
  else default (mk_dma 0 0 0 0 0 0) (dma_chan !! chan).

(** Replacing one byte of a register of two. *)
Definition set_half (ff : bool) (v r : Z) : Z := if ff then r mod 256 + 256 * v else r / 256 * 256 + v.

Definition dmac_write (chan : nat) (e : Z * Z * Z) (s : dmac) : dmac :=
  let p := hw_dma chan in
  let port := snd (fst e) in
  let v := snd e in
  let mine := v mod 4 =? Z.of_nat chan mod 4 in
  if port =? dma_mask p then
    if mine then mk_dmac (dc_ff s) (dc_addr s) (dc_page s) (dc_count s) (dc_mode s) (ctrue (Z.land v 4)) else s
  else if port =? dma_clear p then mk_dmac false (dc_addr s) (dc_page s) (dc_count s) (dc_mode s) (dc_masked s)
  else if port =? dma_mode p then
    if mine then mk_dmac (dc_ff s) (dc_addr s) (dc_page s) (dc_count s) (v / 4) (dc_masked s) else s
  else if port =? dma_addr p then
    mk_dmac (negb (dc_ff s)) (set_half (dc_ff s) v (dc_addr s)) (dc_page s) (dc_count s) (dc_mode s) (dc_masked s)
  else if port =? dma_count p then
    mk_dmac (negb (dc_ff s)) (dc_addr s) (dc_page s) (set_half (dc_ff s) v (dc_count s)) (dc_mode s) (dc_masked s)
  else if port =? dma_page p then mk_dmac (dc_ff s) (dc_addr s) v (dc_count s) (dc_mode s) (dc_masked s)
  else s.
Definition dmac_run (chan : nat) (l : list (Z * Z * Z)) (s : dmac) : dmac :=
  foldl (λ s e, dmac_write chan e s) s l.

(** The writes of [dma_cmd]. *)
Definition dma_events (c : dma) (chan page ofs len mode : Z) : list (Z * Z * Z) :=
  [ (1, dma_mask c, Z.lor 0x04 chan); (1, dma_clear c, 0); (1, dma_mode c, mode);
    (1, dma_addr c, ofs mod 256); (1, dma_addr c, ofs / 256); (1, dma_page c, page);
    (1, dma_count c, len mod 256); (1, dma_count c, len / 256); (1, dma_mask c, chan) ].

Lemma byte_lo x : Z.land x 0xff mod 2 ^ 8 = x mod 256.
Proof. change 0xff with (Z.ones 8). rewrite Z.land_ones // Zmod_mod //. Qed.
Lemma byte_hi x : 0 ≤ x < 2 ^ 16 → Z.land (Z.shiftr x 8) 0xff mod 2 ^ 8 = x / 256.
Proof.
  intros Hx. rewrite byte_lo Z.shiftr_div_pow2 // Z.mod_small //. split; [apply Z.div_pos; lia|].
  apply Z.div_lt_upper_bound; lia.
Qed.

Lemma dma_cmd_events `{PortDev D} chan page ofs len mode (d : D) :
  0 ≤ chan < 8 → 0 ≤ page < 256 → 0 ≤ ofs < 2 ^ 16 → 0 ≤ len < 2 ^ 16 → 0 ≤ mode < 256 →
  ∃ c, dma_chan !! Z.to_nat chan = Some c ∧
    dma_cmd chan page ofs len mode d = Ret (tt, outs (dma_events c chan page ofs len mode) d).
Proof.
  intros Hc Hp Ho Hl Hm.
  assert (chan = 0 ∨ chan = 1 ∨ chan = 2 ∨ chan = 3 ∨ chan = 4 ∨ chan = 5 ∨ chan = 6 ∨ chan = 7) as Hcs by lia.
  destruct_or! Hcs; subst chan; (eexists; split; [reflexivity|]);
    rewrite /dma_events -(byte_hi ofs) // -(byte_hi len) // -(byte_lo ofs) -(byte_lo len)
      -{2}(Z.mod_small page 256) // -{2}(Z.mod_small mode 256) //.
Qed.

Lemma set_half_both x r : set_half true (x / 256) (set_half false (x mod 256) r) = x.
Proof.
  rewrite /set_half. rewrite (Z.add_comm (r / 256 * 256)) Z_mod_plus_full Zmod_mod. pose proof (Z.div_mod x 256). lia.
Qed.

(** Programming a DMA channel: [dma_read] makes its nine writes, and with
    them a channel below 4, in whatever state it was, is set up for the 24 low
    bits of the address and [len - 1], for a transfer to memory, and is
    enabled.  A channel from 4 on is left disabled: its number is written
    to the mask register with bit 2 set. *)
Theorem dma_read_programs `{PortDev D} chan addr len (d : D) :
  0 ≤ chan < 8 → 0 ≤ addr < 2 ^ 32 → 0 < len ≤ 2 ^ 16 →
  ∃ ev, dma_read chan addr len d = Ret (tt, outs ev d) ∧
    (chan < 4 → ∀ s, dmac_run (Z.to_nat chan) ev s =
       mk_dmac false (addr mod 2 ^ 16) (addr / 2 ^ 16 mod 2 ^ 8) (len - 1) 17 false) ∧
    (4 ≤ chan → ∀ s, dc_masked (dmac_run (Z.to_nat chan) ev s) = true).
Proof.
  intros Hc Ha Hl. rewrite /dma_read. change 0xffff with (Z.ones 16). rewrite Z.land_ones // Z.shiftr_div_pow2 //.
  assert (u16 (len - 1) = len - 1) as -> by (apply Z.mod_small; lia).
  pose proof (Z.mod_pos_bound addr (2 ^ 16) ltac:(lia)) as Ho.
  pose proof (Z.mod_pos_bound (addr / 2 ^ 16) (2 ^ 8) ltac:(lia)) as Hp. rewrite -/(u8 (addr / 2 ^ 16)) in Hp |- *.
  destruct (dma_cmd_events chan (u8 (addr / 2 ^ 16)) (addr mod 2 ^ 16) (len - 1) (u8 (68 + chan)) d) as (c & Ec & E);
    [lia|exact Hp|exact Ho|lia|apply u8_range|].
  exists (dma_events c chan (u8 (addr / 2 ^ 16)) (addr mod 2 ^ 16) (len - 1) (u8 (68 + chan))). split; [exact E|].
  generalize dependent (u8 (addr / 2 ^ 16)). generalize dependent (addr mod 2 ^ 16). intros ofs Ho page Hp _.
  assert (chan = 0 ∨ chan = 1 ∨ chan = 2 ∨ chan = 3 ∨ chan = 4 ∨ chan = 5 ∨ chan = 6 ∨ chan = 7) as Hcs by lia.
  split; intros Hlt [ff a p n m k]; destruct_or! Hcs; subst chan; try lia; injection Ec as <-; try done.
  all: rewrite -{2}(set_half_both ofs a) -{2}(set_half_both (len - 1) n); reflexivity.
Qed.

Lemma dma_read_witness : ∃ ev, dma_read 2 0xc0123400 512 ([] : trace) = Ret (tt, outs ev []) ∧
  (∀ s, dmac_run 2 ev s = mk_dmac false 0x3400 0x12 511 17 false).
Proof.
  destruct (dma_read_programs 2 0xc0123400 512 ([] : trace)) as (ev & E & H & _); [lia|lia|lia|].
  exists ev. split; [exact E|]. exact (H eq_refl).
Defined.

(** ** Every request ends *)

Section ends.
Context `{PortDev D, !IrqDev D}.
Hypothesis wait_ends : ∀ d : D, wp dev_wait (λ _ _, True) d.
Implicit Types s : floppy D.

Definition fl_ok s : Prop := length (f_status s) = 7%nat.

(** [m] returns and keeps the driver's data in order. *)
Definition ends {A} (m : M (floppy D) A) : Prop := ∀ s, fl_ok s → wp m (λ _ s', fl_ok s') s.

Lemma ends_ret {A} (a : A) : ends (ret a).
Proof. by intros s Hs. Qed.
Lemma ends_bind {A B} (m : M (floppy D) A) (k : A → M (floppy D) B) : ends m → (∀ a, ends (k a)) → ends (bind m k).
Proof.
  intros Hm Hk s Hs. apply wp_bind. eapply wp_mono; [exact (Hm s Hs)|]. intros a s' Hs'. exact (Hk a s' Hs').
Qed.
Lemma ends_if {A} (b : bool) (m k : M (floppy D) A) : ends m → ends k → ends (if b then m else k).
Proof. by destruct b. Qed.
Lemma ends_in w port : ends (on_fdev (port_in w port)).
Proof. intros s Hs. by apply wp_zoom. Qed.
Lemma ends_out w port v : ends (on_fdev (port_out w port v)).
Proof. intros s Hs. by apply wp_zoom. Qed.
Lemma ends_printk fmt args : ends (floppy_printk fmt args).
Proof. by intros s Hs. Qed.
Lemma ends_status i : (i < 7)%nat → ends (ld_status i).
Proof.
  intros Hi s Hs. apply wp_bind, wp_gets. destruct (lookup_lt_is_Some_2 (f_status s) i) as [v Hv]; [by rewrite Hs|].
  eapply wp_deref; [exact Hv|exact Hs].
Qed.
Lemma ends_set_status (f : floppy D → list Z) n : (∀ s, fl_ok s → length (f s) = 7%nat) →
  ends (modify (λ s, set_f_status (f s) n s)).
Proof. intros Hf s Hs. apply wp_modify, (Hf s Hs). Qed.
Lemma ends_dma chan addr len : 0 ≤ chan < 8 → 0 ≤ len → ends (on_fdev (dma_read chan addr len)).
Proof.
  intros Hc Hl s Hs. apply wp_zoom. rewrite /dma_read. change 0xffff with (Z.ones 16). rewrite Z.land_ones //.
  destruct (dma_cmd_events chan (u8 (Z.shiftr addr 16)) (addr mod 2 ^ 16) (u16 (len - 1)) (u8 (68 + chan)) (f_dev s)) as (c & _ & E);
    [lia|apply u8_range|by apply Z.mod_pos_bound|by apply Z.mod_pos_bound|apply u8_range|].
  rewrite /wp E. done.
Qed.
Lemma ends_wait : ends (on_fdev dev_wait).
Proof. intros s Hs. apply wp_zoom. eapply wp_mono; [apply wait_ends|]. intros [] d _. exact Hs. Qed.

Create HintDb ends discriminated.
#[local] Hint Resolve ends_ret ends_printk ends_in ends_out ends_wait : ends.
#[local] Hint Opaque floppy_send floppy_recv floppy_seek floppy_recal sleep_on_floppyq : ends.

(** The structure of a routine, down to what the hints know. *)
Ltac ends_step :=
  lazymatch goal with
  | |- ends (bind _ _) => apply ends_bind; [|intros ?]
  | |- ends (if _ then _ else _) => apply ends_if
  | |- ends (on_fdev (inb _)) => apply ends_in
  | |- ends (on_fdev (outb _ _)) => apply ends_out
  | |- ends (ld_status _) => apply ends_status; lia
  | |- ends (on_fdev (dma_read _ _ _)) => apply ends_dma; lia
  | |- ends _ => solve [auto with ends]
  end.

Lemma ends_send p b : ends (floppy_send p b).
Proof.
  rewrite /floppy_send. generalize 128%nat. intros n. induction n as [|n IH]; cbn [send_loop]; repeat ends_step.
Qed.
Lemma ends_recv p : ends (floppy_recv p).
Proof.
  rewrite /floppy_recv. generalize 128%nat. intros n. induction n as [|n IH]; cbn [recv_loop]; repeat ends_step.
Qed.
#[local] Hint Resolve ends_send ends_recv : ends.
Lemma ends_sleep : ends sleep_on_floppyq.
Proof.
  rewrite /sleep_on_floppyq /floppy_isr. repeat ends_step.
  assert (∀ n k, ends (isr_loop n k)) as Hg; [|apply Hg].
  induction n as [|n IH]; intros k; cbn [isr_loop]; [by apply ends_set_status|].
  apply ends_bind; [apply ends_in|intros v]. apply ends_if; [|by apply ends_set_status].
  apply ends_bind; [apply ends_recv|intros b]. apply ends_bind; [|intros _; apply IH].
  apply ends_set_status. intros s Hs. by rewrite length_insert.
Qed.
#[local] Hint Resolve ends_sleep : ends.
Lemma ends_seek p trk : ends (floppy_seek p trk).
Proof. rewrite /floppy_seek. repeat ends_step. Qed.
Lemma ends_recal p : ends (floppy_recal p).
Proof. rewrite /floppy_recal. repeat ends_step. Qed.
#[local] Hint Resolve ends_seek ends_recal : ends.
Lemma ends_try sectsz blk buf : 0 ≤ sectsz → ends (floppy_try sectsz blk buf).
Proof.
  intros Hs. rewrite /floppy_try. destruct (floppy_block blk) as [[h t] sct]. repeat ends_step.
Qed.
Lemma ends_reset p : ends (floppy_reset p).
Proof. rewrite /floppy_reset. repeat ends_step. Qed.

(** Each pass takes a sector or an attempt away. *)
Lemma wp_floppy_loop fuel sectsz count tries blk buf s :
  0 ≤ sectsz → 0 < count < 2 ^ 32 → 0 < tries → count + tries ≤ Z.of_nat fuel + 1 → fl_ok s →
  wp (floppy_rw_loop fuel sectsz count tries blk buf) (λ r s', (r = 0 ∨ r = -1) ∧ fl_ok s') s.
Proof.
  intros Hsz. revert count tries blk buf s. induction fuel as [|fuel IH]; intros count tries blk buf s Hc Ht Hf Hs; [lia|].
  cbn [floppy_rw_loop]. apply wp_bind. eapply wp_mono; [exact (ends_try sectsz blk buf Hsz s Hs)|].
  intros [[]|] s1 Hs1; [| |apply wp_ret; by split; [right|]].
  - assert (u32 (count - 1) = count - 1) as -> by (apply u32_id; lia).
    rewrite /ctrue. destruct (Z.eqb_spec (count - 1) 0); cbn [negb]; [apply wp_ret; by split; [left|]|].
    apply IH; [lia|lia|lia|done].
  - rewrite /ctrue. destruct (Z.eqb_spec (tries - 1) 0); cbn [negb]; [apply wp_ret; by split; [right|]|].
    apply wp_bind, wp_modify, wp_bind. eapply wp_mono; [apply (ends_recal dprts); exact Hs1|]. intros [] s2 Hs2.
    apply IH; [lia|lia|lia|done].
Qed.
End ends.

(** A request to the floppy disk ends: whatever the controller answers,
    as long as its interrupts arrive, [floppy_rw_blk] returns 0 or -1 after at
    most [count + 2] attempts to read a sector, of which at most two are
    repeated after a failure; a request to write is refused. *)
Theorem floppy_rw_blk_ends `{PortDev D, !IrqDev D} (s : floppy D) dv write blk buf :
  (∀ d : D, wp dev_wait (λ _ _, True) d) → length (f_status s) = 7%nat →
  0 ≤ sectsize dv → 0 < bd_count dv < 2 ^ 32 →
  ∃ r s', floppy_rw_blk (Z.to_nat (bd_count dv + 2)) dv write blk buf s = Ret (r, s') ∧
    (if ctrue write then r = -1 else r = 0 ∨ r = -1) ∧ length (f_status s') = 7%nat.
Proof.
  intros Hw Hs Hz Hc. rewrite /floppy_rw_blk. destruct (ctrue write); [by eexists _, _|].
  destruct (wp_elim _ _ _ (wp_floppy_loop Hw (Z.to_nat (bd_count dv + 2)) (sectsize dv) (bd_count dv) 3 blk buf s Hz Hc ltac:(lia) ltac:(lia) Hs))
    as (r & s' & E & HP). by exists r, s'.
Qed.

(** A controller that never answers. *)
#[export] Instance trace_irq : IrqDev trace := ret tt.
Lemma floppy_rw_blk_witness : ∃ r s',
  floppy_rw_blk 4 (mk_blkdev NULL [] 512 2 1) 0 5 0xc0100000 (mk_floppy trace [] (replicate 7 0) 0 []) = Ret (r, s') ∧
  (r = 0 ∨ r = -1) ∧ length (f_status s') = 7%nat.
Proof.
  apply (floppy_rw_blk_ends (mk_floppy trace [] (replicate 7 0) 0 []) (mk_blkdev NULL [] 512 2 1) 0 5 0xc0100000).
  - intros d. exact I.
  - reflexivity.
  - simpl. lia.
  - simpl. lia.
Defined.
