(* ===== verification/Task.v ===== *)
(** * Segment descriptors, task switches and new tasks ([arch-ia32/task.c],
      [include/arch-ia32/descriptor.h], [kernel/fork.c])

    A task switch writes the descriptor of the next task's state into the one
    of two entries of the table that is not in use, and jumps to it.  [fork]
    makes a task that returns from the same system call as its parent. *)
From S2P Require Import Prelude Regs PageAlloc ObjAlloc Kmem Buddy Rbtree Vma Vfs.

(** ** Descriptors *)

Definition D_TSS : Z := 0x0900.
Definition D_DATA : Z := 0x1000.
Definition D_CODE : Z := 0x1800.
Definition D_DPL3 : Z := 0x6000.
Definition D_PRESENT : Z := 0x8000.
Definition D_WRITE : Z := 0x0200.
Definition D_READ : Z := 0x0200.
Definition D_BIG : Z := 0x0040.
Definition D_BIG_LIM : Z := 0x0080.

(** [struct ia32_desc] *)
Record ia32_desc := mk_desc {
  limit_low : Z; base_low : Z; base_med : Z; d_access : Z;
  limit_high : Z; granularity : Z; base_high : Z
}.

(** The members have 16, 16, 8, 8, 4, 4 and 8 bits. *)
Definition stnd_desc (base limit control : Z) : ia32_desc :=
  mk_desc (Z.land limit 0xffff) (Z.land base 0xffff) (Z.land (Z.shiftr base 16) 0xff)
    (u8 (Z.shiftr (Z.lor control D_PRESENT) 8)) (Z.shiftr limit 16 mod 16)
    (Z.shiftr (Z.land control 0xff) 4 mod 16) (u8 (Z.shiftr base 24)).

Definition null_desc : ia32_desc := mk_desc 0 0 0 0 0 0 0.
Definition GDT_init : list ia32_desc := [
  null_desc;
  stnd_desc 0 0xFFFFF (Z.lor (Z.lor (Z.lor D_CODE D_READ) D_BIG) D_BIG_LIM);
  stnd_desc 0 0xFFFFF (Z.lor (Z.lor (Z.lor D_DATA D_WRITE) D_BIG) D_BIG_LIM);
  stnd_desc 0 0xFFFFF (Z.lor (Z.lor (Z.lor (Z.lor D_CODE D_READ) D_BIG) D_BIG_LIM) D_DPL3);
  stnd_desc 0 0xFFFFF (Z.lor (Z.lor (Z.lor (Z.lor D_DATA D_WRITE) D_BIG) D_BIG_LIM) D_DPL3);
  null_desc;
  null_desc ].

(** The descriptor of a task's state at an address. *)
Definition tss_desc (tss : Z) : ia32_desc :=
  stnd_desc (u32 tss) (sizeof_tss - 1) (Z.lor (Z.lor D_TSS D_BIG) D_BIG_LIM).

(** ** Switching: the table and the task register *)

Record cpu := mk_cpu { GDT : list ia32_desc; tr : Z }.
Definition set_GDT (i d : _) (c : cpu) : cpu := mk_cpu (<[Z.to_nat i := d]> (GDT c)) (tr c).
Definition set_tr (v : Z) (c : cpu) : cpu := mk_cpu (GDT c) v.

(** [next_tss] is the address of the state of [next]; the jump to a task
    selector loads the register. *)
Definition switch_task_desc (next_tss : Z) : M cpu unit :=
  let! c := get in
  let t := Z.shiftr (tr c) 3 in
  do! bug_on (negb (t =? TSS0) && negb (t =? TSS1)) then
  let t := if t =? TSS0 then TSS1 else TSS0 in
  do! modify (set_GDT t (tss_desc next_tss)) then
  modify (set_tr (if t =? TSS1 then __TSS1 else __TSS0)).

(** [scratch] is the address of the unused state. *)
Definition task_init_exec_desc (scratch tss : Z) : M cpu unit :=
  let! c := get in
  let t := Z.shiftr (tr c) 3 in
  do! bug_on (negb (t =? TSS0) && negb (t =? TSS1)) then
  let scratch_tr := if t =? TSS0 then TSS1 else TSS0 in
  do! modify (set_GDT scratch_tr (tss_desc scratch)) then
  do! modify (set_tr (Z.shiftl scratch_tr 3)) then
  do! modify (set_GDT t (tss_desc tss)) then
  modify (set_tr (if t =? TSS1 then __TSS1 else __TSS0)).

Definition ia32_gdt_finalize (tss : Z) : M cpu unit :=
  do! modify (set_GDT TSS0 (tss_desc tss)) then
  modify (set_tr __TSS0).

(** ** Tasks *)

(** [struct task]: the members [fork] deals with; [t_intr_ctx] is the address
    of the frame of the last system call. *)
Record ftask := mk_ftask {
  f_state : Z;
  f_pid : Z;
  f_ctx : Z;
  f_root : Z;
  f_cwd : Z;
  f_fd_table : Z;
  f_tss : ia32_tss;
  f_intr_ctx : Z
}.
Definition FORK_MEM : Z := Z.shiftl 1 0.
Definition FORK_PID : Z := Z.shiftl 1 1.
Definition FORK_FUNC : Z := Z.shiftl 1 4.
Definition MAP_INVALID : Z := 0xFFFFFFFF.
Definition TASK_READY : Z := 1.

Section fork.
Context {P E : Type} `{!ObjOps P, !MmuOps E}.

(** Memory, the tasks by address, the frames on their stacks, the run queue
    and the counter of process numbers. *)
Record fk := mk_fk {
  fk_mm : @mm P E;
  fk_tasks : gmap Z ftask;
  fk_frames : gmap Z intr_ctx;
  fk_runq : list Z;
  next_pid : Z
}.
Definition set_fk_mm (v : mm) (s : fk) : fk := mk_fk v (fk_tasks s) (fk_frames s) (fk_runq s) (next_pid s).
Definition upd_tasks (f : gmap Z ftask → gmap Z ftask) (s : fk) : fk :=
  mk_fk (fk_mm s) (f (fk_tasks s)) (fk_frames s) (fk_runq s) (next_pid s).
Definition upd_frames (f : gmap Z intr_ctx → gmap Z intr_ctx) (s : fk) : fk :=
  mk_fk (fk_mm s) (fk_tasks s) (f (fk_frames s)) (fk_runq s) (next_pid s).
Definition set_fk_runq (l : list Z) (s : fk) : fk :=
  mk_fk (fk_mm s) (fk_tasks s) (fk_frames s) l (next_pid s).
Definition set_next_pid (v : Z) (s : fk) : fk :=
  mk_fk (fk_mm s) (fk_tasks s) (fk_frames s) (fk_runq s) v.
Abbreviation F := (M fk).
Definition on_fmm {A} (m : M (@mm P E) A) : F A := zoom fk_mm set_fk_mm m.
Definition ld_ftask (a : Z) : F ftask := let! s := get in deref (fk_tasks s !! a).
Definition st_ftask (a : Z) (t : ftask) : F unit := modify (upd_tasks (insert a t)).
Definition ld_frame (a : Z) : F intr_ctx := let! s := get in deref (fk_frames s !! a).

Definition pid_alloc : F Z :=
  let! s := get in
  do! modify (set_next_pid (u32 (next_pid s + 1))) then ret (u32 (next_pid s + 1)).
Definition pid_release (pid : Z) : F unit := ret tt.
Definition task_to_runq (t : Z) : F unit :=
  let! x := ld_ftask t in
  do! st_ftask t (mk_ftask TASK_READY (f_pid x) (f_ctx x) (f_root x) (f_cwd x) (f_fd_table x) (f_tss x) (f_intr_ctx x)) then
  modify (λ s, set_fk_runq (fk_runq s ++ [t]) s).

(** The address of [ret_from_fork_in_child]. *)
Context (ret_from_fork_in_child : Z).

(** [task_clone]; [cr3] comes from the context of [new]. *)
Definition task_clone (parent new ip sp : Z) : F unit :=
  let! p := ld_ftask parent in
  let! n := ld_ftask new in
  let! c := on_fmm (ld_ctx (f_ctx n)) in
  let! regs := ld_frame (f_intr_ctx p) in
  let stack_top := u32 (new + PAGE_SIZE) in
  let at_ := u32 (stack_top - sizeof_intr_ctx) in
  let regs := set_eax 0 regs in
  do! modify (upd_frames (insert at_ regs)) then
  let! ds := return_from_intr regs in
  do! st_ftask new (mk_ftask (f_state n) (f_pid n) (f_ctx n) (f_root n) (f_cwd n) (f_fd_table n)
    (mk_tss stack_top __KERNEL_DS (mc_pgd c) ret_from_fork_in_child
       (Z.lor (tss_flags (f_tss p)) (Z.shiftl 1 9)) ds at_
       __KERNEL_DS __KERNEL_CS __KERNEL_DS __KERNEL_DS (tss_fs (f_tss p)) (tss_gs (f_tss p)) 0x8000) (f_intr_ctx n)) then
  do! when (negb (ip =? MAP_INVALID)) (modify (upd_frames (alter (set_eip ip) at_))) then
  when (negb (sp =? MAP_INVALID)) (modify (upd_frames (alter (set_esp3 sp) at_))).

(** The new task has everything zero but the members that are set. *)
Definition zero_tss : ia32_tss := mk_tss 0 0 0 0 0 0 0 0 0 0 0 0 0 0.

(** [iref] where there is an inode. *)
Definition iref_opt (i : Z) : F Z :=
  if ctrue i then on_fmm (zoom mm_env set_env (iref i)) else ret NULL.

(** The second half: the task itself. *)
Definition fork_task (current flags pid mm ip sp : Z) : F Z :=
  let! cur := ld_ftask current in
  let! tsk := on_fmm (zoom mm_bd set_mm_bd (alloc_pages 1)) in
  if tsk =? NULL then
    do! when (ctrue (Z.land flags FORK_PID)) (pid_release pid) then ret (-1)
  else
  let! root := iref_opt (f_root cur) in
  let! cwd := iref_opt (f_cwd cur) in
  do! st_ftask tsk (mk_ftask 0 pid mm root cwd NULL zero_tss NULL) then
  do! task_clone current tsk ip sp then
  do! task_to_runq tsk then
  ret pid.

(** The context of the child. *)
Definition fork_ctx (fuel : nat) (flags ctx : Z) : F Z :=
  if ctrue (Z.land flags FORK_MEM) then on_fmm (mem_ctx_clone fuel ctx) else on_fmm (mem_ctx_get ctx).

Definition sys_fork (fuel : nat) (current flags fn priv stack : Z) : F Z :=
  let! cur := ld_ftask current in
  let func := ctrue (Z.land flags FORK_FUNC) in
  if func && (negb (uaddr_ok fn 0) || negb (uaddr_ok stack 0)) then ret (-1) else
  let ip := if func then fn else MAP_INVALID in
  let sp := if func then stack else MAP_INVALID in
  let! pid := (if ctrue (Z.land flags FORK_PID) then pid_alloc else ret (f_pid cur)) in
  let! mm := fork_ctx fuel flags (f_ctx cur) in
  fork_task current flags pid mm ip sp.
End fork.
