(* ===== verification/TaskProps.v ===== *)
(** * Descriptors decode, switches alternate, children return zero *)
From S2P Require Import Prelude Regs PageAlloc ObjAlloc Kmem Buddy Rbtree RbtreeRep RbtreeInsert RbtreeErase RbtreeWalk.
From S2P Require Import Vma VmaProps VmaFree Vfs Task.

(** ** Descriptors as the processor reads them *)

Definition d_base (d : ia32_desc) : Z := base_low d + base_med d * 2 ^ 16 + base_high d * 2 ^ 24.
Definition d_limit (d : ia32_desc) : Z := limit_low d + limit_high d * 2 ^ 16.
Definition d_dpl (d : ia32_desc) : Z := d_access d / 32 mod 4.
Definition d_present (d : ia32_desc) : bool := Z.testbit (d_access d) 7.
(** The last byte of the segment: the limit counts bytes, or pages. *)
Definition seg_limit (d : ia32_desc) : Z :=
  if Z.testbit (granularity d) 3 then d_limit d * 4096 + 4095 else d_limit d.

(** Descriptors are encoded as the processor decodes them: base and limit
    come back from their parts, the segment is present, and its kind,
    privilege and flags are those asked for. *)
Theorem stnd_desc_roundtrip base limit control :
  0 ≤ base < 2 ^ 32 → 0 ≤ limit < 2 ^ 20 → 0 ≤ control < 2 ^ 15 →
  let d := stnd_desc base limit control in
  d_base d = base ∧ d_limit d = limit ∧ d_present d = true ∧
  d_access d mod 128 = control / 256 ∧ d_dpl d = control / 2 ^ 13 ∧ granularity d = control / 16 mod 16.
Proof.
  intros Hb Hl Hc d. rewrite /d /d_base /d_limit /d_present /d_dpl /stnd_desc. cbn [limit_low base_low base_med d_access limit_high granularity base_high].
  change 0xffff with (Z.ones 16). change 0xff with (Z.ones 8). rewrite !Z.land_ones // !Z.shiftr_div_pow2 //.
  assert (Z.lor control D_PRESENT = control + 2 ^ 15) as Hlor.
  { rewrite -Z.add_lor_land (_ : Z.land control D_PRESENT = 0); [|change D_PRESENT with (2 ^ 15); lia].
    apply Z.bits_inj'. intros i Hi. rewrite Z.land_spec Z.bits_0. change D_PRESENT with (2 ^ 15).
    destruct (decide (i = 15)) as [->|Hne]; [|rewrite Z.pow2_bits_false; [lia|apply andb_false_r]].
    destruct (Z.eq_dec control 0) as [->|]; [done|]. rewrite (Z.bits_above_log2 control) //; [lia|]. by apply Z.log2_lt_pow2; lia. }
  rewrite Hlor /u8.
  assert (((control + 2 ^ 15) / 2 ^ 8) mod 2 ^ 8 = control / 256 + 128) as ->.
  { Z.to_euclidean_division_equations. lia. }
  assert (0 ≤ control / 256 < 128) as Hq by (Z.to_euclidean_division_equations; lia).
  split_and!.
  - Z.to_euclidean_division_equations. lia.
  - Z.to_euclidean_division_equations. lia.
  - apply Z.testbit_true; [lia|]. Z.to_euclidean_division_equations. lia.
  - Z.to_euclidean_division_equations. lia.
  - Z.to_euclidean_division_equations. lia.
  - Z.to_euclidean_division_equations. lia.
Qed.

(** The user code segment. *)
Lemma stnd_desc_witness : d_dpl (stnd_desc 0 0xFFFFF 0x7ac0) = 3 ∧ d_base (stnd_desc 0 0xFFFFF 0x7ac0) = 0.
Proof.
  destruct (stnd_desc_roundtrip 0 0xFFFFF 0x7ac0) as (Hb & _ & _ & _ & Hd & _); [lia|lia|lia|].
  split; [exact Hd|exact Hb].
Defined.

(** The permission bits of every port lie inside the task segment: the
    bitmap offset 0x8000 is meant to be beyond the end, but the limit counts
    pages, so the processor takes the right of user programs to use a port
    from whatever memory follows the task. *)
Theorem tss_io_bitmap_inside tss port :
  0 ≤ tss < 2 ^ 32 → 0 ≤ port < 2 ^ 16 → 0x8000 + port / 8 + 1 ≤ seg_limit (tss_desc tss).
Proof.
  intros Ht Hp. rewrite /seg_limit /tss_desc. cbn [granularity stnd_desc d_limit limit_low limit_high].
  change (Z.testbit _ 3) with true. cbv iota. change (d_limit _) with 103.
  Z.to_euclidean_division_equations. lia.
Qed.

Lemma tss_io_bitmap_witness : 0x8000 + 0x60 / 8 + 1 ≤ seg_limit (tss_desc 0xc0100000).
Proof. apply (tss_io_bitmap_inside 0xc0100000 0x60); lia. Defined.

(** ** Switching *)

(** The other of the two entries. *)
Definition other_tss (t : Z) : Z := if t =? TSS0 then TSS1 else TSS0.

(** A task switch alternates between the two task entries: it describes
    the next task in the one that is not loaded and loads it; no other entry,
    in particular that of the running task, is touched. *)
Theorem switch_task_alternates (c : cpu) t next :
  t = TSS0 ∨ t = TSS1 → tr c = Z.shiftl t 3 → length (GDT c) = 7%nat →
  ∃ c', switch_task_desc next c = Ret (tt, c') ∧
    tr c' = Z.shiftl (other_tss t) 3 ∧ GDT c' !! Z.to_nat (other_tss t) = Some (tss_desc next) ∧
    length (GDT c') = 7%nat ∧
    ∀ i, i ≠ Z.to_nat (other_tss t) → GDT c' !! i = GDT c !! i.
Proof.
  intros Ht Htr Hl. rewrite /switch_task_desc /bind /get Htr.
  destruct Ht as [-> | ->]; cbn; (eexists; split; [reflexivity|]); cbn; split_and!; try done.
  - apply list_lookup_insert_eq. rewrite Hl. by apply Nat.ltb_lt.
  - by rewrite length_insert.
  - intros i Hi. rewrite list_lookup_insert_ne; [by apply not_eq_sym|done].
  - apply list_lookup_insert_eq. rewrite Hl. by apply Nat.ltb_lt.
  - by rewrite length_insert.
  - intros i Hi. rewrite list_lookup_insert_ne; [by apply not_eq_sym|done].
Qed.

Lemma switch_task_alternates_witness :
  ∃ c', switch_task_desc 0xc0200024 (mk_cpu GDT_init __TSS0) = Ret (tt, c') ∧ tr c' = __TSS1 ∧
    GDT c' !! 6%nat = Some (tss_desc 0xc0200024) ∧ length (GDT c') = 7%nat ∧ ∀ i, i ≠ 6%nat → GDT c' !! i = GDT_init !! i.
Proof.
  apply (switch_task_alternates (mk_cpu GDT_init __TSS0) TSS0 0xc0200024).
  - by left.
  - reflexivity.
  - reflexivity.
Defined.

(** ** Fork *)

Section fork.
Context {P E : Type} `{!ObjOps P, !ObjSpec P, !MmuOps E} {spec : MmuSpec E} {cspec : CloneSpec E} (rfc : Z).
Implicit Types s : @fk P E.

(** The frame of the child: that of the parent with 0 as the result, and with
    the function and stack asked for. *)
Definition child_frame (flags fn stack : Z) (regs : intr_ctx) : intr_ctx :=
  if ctrue (Z.land flags FORK_FUNC) then set_esp3 stack (set_eip fn (set_eax 0 regs)) else set_eax 0 regs.
Definition frame_of_task (tsk : Z) : Z := u32 (u32 (tsk + PAGE_SIZE) - sizeof_intr_ctx).

(** The state after the process number has been taken. *)
Definition with_pid (flags : Z) s : @fk P E :=
  if ctrue (Z.land flags FORK_PID) then set_next_pid (u32 (next_pid s + 1)) s else s.
Definition fork_pid (flags : Z) (cur : ftask) s : Z :=
  if ctrue (Z.land flags FORK_PID) then u32 (next_pid s + 1) else f_pid cur.

Lemma uaddr_ok_0 a : uaddr_ok a 0 = bool_decide (a < USER_TOP).
Proof.
  rewrite /uaddr_ok. destruct (Z.leb_spec USER_TOP a); [by rewrite bool_decide_eq_false_2; [lia|]|].
  rewrite bool_decide_eq_true_2 // (proj2 (Z.ltb_ge _ _)) //. lia.
Qed.
Lemma uaddr_valid a : a < USER_TOP → (a =? MAP_INVALID) = false.
Proof. intros H. apply Z.eqb_neq. rewrite /MAP_INVALID. change USER_TOP with 0xc0000000 in H. lia. Qed.

(** A reference to the inode [i] is taken, if there is one. *)
Definition iref_to (i : Z) (e e' : E) : Prop := if decide (i = NULL) then e' = e else iref i e = Ret (i, e').

Lemma wp_iref_opt i I D s (Q : Z → @fk P E → Prop) :
  env_ok (mm_env (fk_mm s)) I D → i = NULL ∨ i ∈ I →
  (∀ e', iref_to i (mm_env (fk_mm s)) e' → env_ok e' I D → Q i (set_fk_mm (set_env e' (fk_mm s)) s)) → wp (iref_opt i) Q s.
Proof.
  intros He Hi HQ. rewrite /iref_opt /iref_to in HQ |- *. destruct (decide (i = NULL)) as [->|Hn].
  - apply wp_ret. specialize (HQ _ eq_refl He). by destruct s as [[]].
  - destruct Hi as [|Hi]; [done|]. assert (ctrue i = true) as -> by (rewrite /ctrue; by rewrite (proj2 (Z.eqb_neq i 0) Hn)).
    destruct (wp_elim _ _ _ (env_iref _ _ _ _ He Hi)) as (r & e' & Er & -> & He').
    apply wp_zoom, wp_zoom. rewrite /wp Er. by apply HQ.
Qed.

(** What [task_clone] and [task_to_runq] make of a task with a context. *)
Lemma wp_clone_run current cur regs tsk t c ip sp s (Q : unit → @fk P E → Prop) :
  fk_tasks s !! current = Some cur → fk_frames s !! f_intr_ctx cur = Some regs →
  fk_tasks s !! tsk = Some t → mm_ctxs (fk_mm s) !! f_ctx t = Some c → Z.land (r_cs regs) __CPL3 = __CPL3 →
  (∀ s', fk_mm s' = fk_mm s → next_pid s' = next_pid s → fk_runq s' = fk_runq s ++ [tsk] →
     (∃ tss, fk_tasks s' = <[tsk := mk_ftask TASK_READY (f_pid t) (f_ctx t) (f_root t) (f_cwd t) (f_fd_table t) tss (f_intr_ctx t)]> (fk_tasks s) ∧
        tss_cr3 tss = mc_pgd c ∧ tss_eip tss = rfc ∧ tss_esp tss = frame_of_task tsk ∧ tss_eax tss = Z.lor __USER_DS __CPL3) →
     (∀ a, fk_frames s' !! a = if decide (a = frame_of_task tsk) then
        Some ((if sp =? MAP_INVALID then id else set_esp3 sp) ((if ip =? MAP_INVALID then id else set_eip ip) (set_eax 0 regs)))
        else fk_frames s !! a) → Q tt s') →
  wp (do! task_clone rfc current tsk ip sp then task_to_runq tsk) Q s.
Proof.
  intros Hcur Hfr Ht Hc Hcs HQ. rewrite /task_clone. fold (frame_of_task tsk). apply wp_bind.
  apply wp_bind, wp_bind, wp_gets. eapply wp_deref; [exact Hcur|]. apply wp_bind, wp_bind, wp_gets. eapply wp_deref; [exact Ht|].
  apply wp_bind, wp_zoom, wp_bind, wp_gets. eapply wp_deref; [exact Hc|]. apply wp_bind, wp_bind, wp_gets.
  eapply wp_deref; [exact Hfr|]. apply wp_bind, wp_modify. apply wp_bind.
  apply wp_return_to_user; [done|]. apply wp_bind, wp_modify.
  assert (∀ s1, fk_tasks s1 = <[tsk := mk_ftask (f_state t) (f_pid t) (f_ctx t) (f_root t) (f_cwd t) (f_fd_table t)
      (mk_tss (u32 (tsk + PAGE_SIZE)) __KERNEL_DS (mc_pgd c) rfc (Z.lor (tss_flags (f_tss cur)) (Z.shiftl 1 9))
         (Z.lor __USER_DS __CPL3) (frame_of_task tsk) __KERNEL_DS __KERNEL_CS __KERNEL_DS __KERNEL_DS (tss_fs (f_tss cur)) (tss_gs (f_tss cur)) 0x8000)
      (f_intr_ctx t)]> (fk_tasks s) → fk_mm s1 = fk_mm s → next_pid s1 = next_pid s → fk_runq s1 = fk_runq s →
      (∀ a, fk_frames s1 !! a = if decide (a = frame_of_task tsk) then
        Some ((if sp =? MAP_INVALID then id else set_esp3 sp) ((if ip =? MAP_INVALID then id else set_eip ip) (set_eax 0 regs)))
        else fk_frames s !! a) → wp (task_to_runq tsk) Q s1) as Htail.
  { intros s1 Ht1 Hm1 Hp1 Hr1 Hf1. apply wp_bind, wp_bind, wp_gets. eapply wp_deref; [rewrite Ht1; apply lookup_insert_eq|].
    apply wp_bind, wp_modify, wp_modify. apply HQ; cbn; [done|done|by rewrite Hr1| |done].
    eexists. split; [by rewrite Ht1 insert_insert_eq|done]. }
  destruct (ip =? MAP_INVALID), (sp =? MAP_INVALID); cbn [negb when]; apply wp_bind; first [apply wp_ret|apply wp_modify];
    first [apply wp_ret|apply wp_modify]; apply Htail; try done; intros a; cbn;
    rewrite ?alter_insert_eq; (destruct (decide (a = frame_of_task tsk)) as [->|Hne];
      [by rewrite lookup_insert_eq|rewrite lookup_insert_ne; [congruence|done]]).
Qed.

(** The function and the stack of the child, when they are given, are
    addresses of programs. *)
Definition func_ok (flags fn stack : Z) : Prop := ctrue (Z.land flags FORK_FUNC) = true → fn < USER_TOP ∧ stack < USER_TOP.

(** [sys_fork] in two halves: the context, then the task. *)
Lemma sys_fork_start fuel current cur flags fn priv stack s mm m1 :
  fk_tasks s !! current = Some cur → func_ok flags fn stack →
  (if ctrue (Z.land flags FORK_MEM) then mem_ctx_clone fuel (f_ctx cur) (fk_mm s) else mem_ctx_get (f_ctx cur) (fk_mm s)) = Ret (mm, m1) →
  sys_fork rfc fuel current flags fn priv stack s =
    fork_task rfc current flags (fork_pid flags cur s) mm
      (if ctrue (Z.land flags FORK_FUNC) then fn else MAP_INVALID)
      (if ctrue (Z.land flags FORK_FUNC) then stack else MAP_INVALID) (set_fk_mm m1 (with_pid flags s)).
Proof.
  intros Hcur Hf Hctx. rewrite /sys_fork /ld_ftask. unfold bind at 1 2. rewrite /get /= Hcur /=.
  assert (ctrue (Z.land flags FORK_FUNC) && (negb (uaddr_ok fn 0) || negb (uaddr_ok stack 0)) = false) as ->.
  { rewrite !uaddr_ok_0. destruct (ctrue (Z.land flags FORK_FUNC)) eqn:Ef; [|done]. destruct (Hf Ef). by rewrite !bool_decide_eq_true_2. }
  assert (fork_ctx fuel flags (f_ctx cur) (with_pid flags s) = Ret (mm, set_fk_mm m1 (with_pid flags s))) as Hc.
  { assert (fk_mm (with_pid flags s) = fk_mm s) as Em by (rewrite /with_pid; by destruct (ctrue (Z.land flags FORK_PID))).
    rewrite /fork_ctx. destruct (ctrue (Z.land flags FORK_MEM)); by rewrite /on_fmm /zoom Em Hctx. }
  rewrite /with_pid in Hc |- *. rewrite /fork_pid /pid_alloc.
  destruct (ctrue (Z.land flags FORK_PID)); rewrite /bind /= Hc //.
Qed.

Lemma child_frame_eq flags fn stack regs
    (ip := if ctrue (Z.land flags FORK_FUNC) then fn else MAP_INVALID)
    (sp := if ctrue (Z.land flags FORK_FUNC) then stack else MAP_INVALID) : func_ok flags fn stack →
  (if sp =? MAP_INVALID then id else set_esp3 sp) ((if ip =? MAP_INVALID then id else set_eip ip) (set_eax 0 regs)) =
  child_frame flags fn stack regs.
Proof.
  rewrite /func_ok /child_frame /ip /sp. destruct (ctrue (Z.land flags FORK_FUNC)); [|done]. intros Hf. destruct (Hf eq_refl) as [H1 H2].
  by rewrite (uaddr_valid _ H1) (uaddr_valid _ H2).
Qed.

(** Free pages hold no task and no frame. *)
Definition pages_fresh (fl : list Z) s : Prop := ∀ pfn, pfn ∈ fl →
  fk_tasks s !! page_address pfn = None ∧ fk_frames s !! frame_of_task (page_address pfn) = None ∧ page_address pfn ≠ NULL.

(** What [fork] leaves, when [m1] is the memory with the context of the
    child, which is [c] at [mm]. *)
Definition fork_post flags fn stack (cur : ftask) regs mm (c : mem_ctx) fl s (m1 : @Vma.mm P E) (r : Z) s' : Prop :=
  (fl = [] ∧ r = -1 ∧ s' = set_fk_mm m1 (with_pid flags s)) ∨
  (∃ pfn rest tss e1, fl = pfn :: rest ∧ let tsk := page_address pfn in
     r = fork_pid flags cur s ∧ next_pid s' = next_pid (with_pid flags s) ∧ fk_runq s' = fk_runq s ++ [tsk] ∧
     fk_tasks s' = <[tsk := mk_ftask TASK_READY r mm (f_root cur) (f_cwd cur) NULL tss NULL]> (fk_tasks s) ∧
     tss_cr3 tss = mc_pgd c ∧ tss_eip tss = rfc ∧ tss_esp tss = frame_of_task tsk ∧ tss_eax tss = Z.lor __USER_DS __CPL3 ∧
     fk_frames s' !! frame_of_task tsk = Some (child_frame flags fn stack regs) ∧
     (∀ a, a ≠ frame_of_task tsk → fk_frames s' !! a = fk_frames s !! a) ∧
     mm_ctxs (fk_mm s') !! mm = Some c ∧ mm_ctxs (fk_mm s') = mm_ctxs m1 ∧
     mm_nodes (fk_mm s') = mm_nodes m1 ∧ mm_vmas (fk_mm s') = mm_vmas m1 ∧ mm_objs (fk_mm s') = mm_objs m1 ∧
     iref_to (f_root cur) (mm_env m1) e1 ∧ iref_to (f_cwd cur) e1 (mm_env (fk_mm s')) ∧
     buddy_inv (mm_bd (fk_mm s')) rest).

(** The parent: a program in a system call. *)
Record forker s current cur regs (I : gset Z) : Prop := {
  fo_task : fk_tasks s !! current = Some cur;
  fo_frame : fk_frames s !! f_intr_ctx cur = Some regs;
  fo_user : Z.land (r_cs regs) __CPL3 = __CPL3;
  fo_root : f_root cur = NULL ∨ f_root cur ∈ I;
  fo_cwd : f_cwd cur = NULL ∨ f_cwd cur ∈ I
}.

Lemma with_pid_same flags s :
  fk_tasks (with_pid flags s) = fk_tasks s ∧ fk_frames (with_pid flags s) = fk_frames s ∧ fk_runq (with_pid flags s) = fk_runq s.
Proof. rewrite /with_pid. by destruct (ctrue (Z.land flags FORK_PID)). Qed.

Lemma wp_fork_task current cur regs flags fn stack s mm m1 c fl I D :
  forker s current cur regs I → func_ok flags fn stack → mm_ctxs m1 !! mm = Some c →
  buddy_inv (mm_bd m1) fl → pages_fresh fl s → env_ok (mm_env m1) I D →
  wp (fork_task rfc current flags (fork_pid flags cur s) mm
      (if ctrue (Z.land flags FORK_FUNC) then fn else MAP_INVALID)
      (if ctrue (Z.land flags FORK_FUNC) then stack else MAP_INVALID))
    (λ r s', fork_post flags fn stack cur regs mm c fl s m1 r s') (set_fk_mm m1 (with_pid flags s)).
Proof.
  intros [Hcur Hfr Hcs Hr Hw] Hf Hc Hb Hfresh He. destruct (with_pid_same flags s) as (E1 & E2 & E3).
  apply wp_bind, wp_bind, wp_gets. cbn [fk_tasks set_fk_mm]. rewrite E1. eapply wp_deref; [exact Hcur|]. apply wp_bind, wp_zoom, wp_zoom.
  apply (wp_alloc_pages _ _ Hb).
  - intros ->. cbn. apply wp_bind.
    destruct (ctrue (Z.land flags FORK_PID)); cbn [when]; apply wp_ret, wp_ret; left; (split; [done|]; split; [done|]);
      by destruct m1.
  - intros pfn p rest Hl Hp Hp0. destruct (Hfresh pfn) as (Hft & Hff & Hnn); [rewrite Hl; by left|].
    rewrite (proj2 (Z.eqb_neq _ _) Hnn). apply wp_bind, (wp_iref_opt _ I D); [exact He|done|]. intros e1 Hi1 He1.
    apply wp_bind, (wp_iref_opt _ I D); [exact He1|done|]. intros e2 Hi2 He2. apply wp_bind, wp_modify.
    match goal with |- wp (do! ?a then do! ?b then ?k) _ _ =>
      change (wp (do! a then do! b then k)) with (wp (λ s, bind a (λ _, bind b (λ _, k)) s)) end.
    assert (∀ (m k : M (@fk P E) unit) (x : Z) Q s, wp (do! m then k) (λ _ s', Q x s') s → wp (do! m then do! k then ret x) Q s) as Hre.
    { intros m k x Q s2. rewrite /wp /bind. destruct (m s2) as [[]| | | |]; try done. by destruct (k _) as [[]| | | |]. }
    apply Hre. eapply (wp_clone_run current cur regs); cbn.
    + rewrite lookup_insert_ne; [|by rewrite E1]. intros E'. rewrite E' Hcur in Hft. done.
    + by rewrite E2.
    + apply lookup_insert_eq.
    + exact Hc.
    + done.
    + intros s' Hmm Hnp Hq (tss & Ht & H1 & H2 & H3 & H4) Hfs. right. exists pfn, rest, tss, e1. cbn in *.
      split; [done|]. split; [done|]. split; [done|]. rewrite Hq E3. split; [done|]. rewrite Ht insert_insert_eq E1. split; [done|].
      do 4 (split; [done|]). split.
      { rewrite Hfs decide_True //. by rewrite child_frame_eq. }
      split; [intros a Ha; by rewrite Hfs decide_False // E2|]. rewrite Hmm /=. split_and!; try done.
      by apply (taken_inv _ _ Hb).
Qed.

(** Without a context, [fork_task] follows a NULL pointer as soon as it has a page. *)
Lemma fork_task_null current cur flags pid ip sp s m1 fl regs I D :
  forker s current cur regs I → mm_ctxs m1 !! NULL = None → buddy_inv (mm_bd m1) fl → pages_fresh fl s → env_ok (mm_env m1) I D →
  fork_task rfc current flags pid NULL ip sp (set_fk_mm m1 (with_pid flags s)) =
    match fl with [] => Ret (-1, set_fk_mm m1 (with_pid flags s)) | _ => Fault end.
Proof.
  intros [Hcur Hfr Hcs Hr Hw] Hc Hb Hfresh He. destruct (with_pid_same flags s) as (E1 & _ & _).
  rewrite /fork_task /ld_ftask /bind /get /= E1 Hcur /=. destruct fl as [|pfn rest].
  - destruct (wp_elim (alloc_pages 1) (λ a b', a = NULL ∧ b' = mm_bd m1) (mm_bd m1)) as (a & bd & Ea & -> & ->).
    { by apply (wp_alloc_pages _ _ Hb). }
    rewrite /on_fmm /zoom Ea /=. replace (set_mm_bd (mm_bd m1) m1) with m1 by (by destruct m1).
    by destruct (ctrue (Z.land flags FORK_PID)).
  - destruct (Hfresh pfn) as (Hft & _ & Hnn); [by left|].
    destruct (wp_elim (alloc_pages 1) (λ a _, a = page_address pfn) (mm_bd m1)) as (a & bd & Ea & ->).
    { apply (wp_alloc_pages _ _ Hb); [done|]. by intros ? ? ? [= <- <-]. }
    rewrite /on_fmm /zoom Ea (proj2 (Z.eqb_neq _ _) Hnn).
    match goal with |- context [iref_opt (f_root cur) ?s2] => set (sa := s2) end.
    destruct (wp_elim (iref_opt (f_root cur)) (λ r s', ∃ e, env_ok e I D ∧ r = f_root cur ∧ s' = set_fk_mm (set_env e (fk_mm sa)) sa) sa)
      as (? & ? & -> & e1 & He1 & -> & ->).
    { apply (wp_iref_opt _ I D); [done|done|]. intros e _ He1. by exists e. }
    set (sb := set_fk_mm _ sa).
    destruct (wp_elim (iref_opt (f_cwd cur)) (λ r s', ∃ e, env_ok e I D ∧ r = f_cwd cur ∧ s' = set_fk_mm (set_env e (fk_mm sb)) sb) sb)
      as (? & ? & -> & e2 & He2 & -> & ->).
    { apply (wp_iref_opt _ I D); [done|done|]. intros e _ He2. by exists e. }
    assert (current ≠ page_address pfn) as Hne by (intros E'; rewrite -E' Hcur in Hft; done).
    rewrite /= /task_clone /ld_ftask /bind /get /= lookup_insert_ne; [congruence|]. rewrite E1 Hcur /= lookup_insert_eq /=.
    by rewrite /on_fmm /zoom /ld_ctx /bind /= Hc.
Qed.

(** A copy of the context was made at [new]: an object that was not live, with
    one user, on the directory that [clone_ctx] made of the parent's; the parent's
    context and areas are as they were. *)
Definition cloned (m : @Vma.mm P E) (c : mem_ctx) (A D : gset Z) (new : Z) (m1 : @Vma.mm P E) (d : Z) : Prop :=
  new ∉ A ∧ d ∉ D ∧ (∃ e, clone_ctx (mc_pgd c) (mm_env m) = Ret (Some d, e)) ∧
  mm_ctxs m1 = <[new := mk_mem_ctx NULL d 1]> (mm_ctxs m) ∧
  (∀ a, a ∈ A → mm_nodes m1 !! a = mm_nodes m !! a ∧ mm_vmas m1 !! a = mm_vmas m !! a).

(** C33: [fork] with a function or a stack that is not an address of programs
    gives -1 and does nothing.  Otherwise it makes a task that returns from the
    same call: the result for the caller is the process number, and the new
    task is last in the run queue, has references to root and directory of its own
    and no table of files, and will return to the caller's registers with 0 as the result, or to
    the function and stack asked for; no other frame changes.  It runs in the
    caller's context, which has one more user, or with [FORK_MEM] in a
    new context on a copy of the page directory.  When there is no page for
    the task the result is -1 and there is no new task, but the context stays taken; when
    there is a page but the context could not be copied, the kernel
    follows a NULL pointer. *)
Theorem sys_fork_correct fuel current cur regs flags fn priv stack s c t A I D fl :
  forker s current cur regs I → ctx_live (fk_mm s) (f_ctx cur) c t A D → 0 < mc_count c < 2 ^ 32 - 1 →
  files_in (fk_mm s) t I → (∀ d, is_Some (mm_ctxs (fk_mm s) !! d) → d ∈ A ∧ d ≠ NULL) →
  objs_live (mm_objs (fk_mm s)) A → env_ok (mm_env (fk_mm s)) I D → (height t < fuel)%nat →
  buddy_inv (mm_bd (fk_mm s)) fl → pages_fresh fl s →
  (¬ func_ok flags fn stack → sys_fork rfc fuel current flags fn priv stack s = Ret (-1, s)) ∧
  (func_ok flags fn stack → if ctrue (Z.land flags FORK_MEM)
   then ∃ new m1, mem_ctx_clone fuel (f_ctx cur) (fk_mm s) = Ret (new, m1) ∧
     if decide (new = NULL)
     then sys_fork rfc fuel current flags fn priv stack s =
       match fl with [] => Ret (-1, set_fk_mm m1 (with_pid flags s)) | _ => Fault end
     else ∃ d r s', cloned (fk_mm s) c A D new m1 d ∧ sys_fork rfc fuel current flags fn priv stack s = Ret (r, s') ∧
       fork_post flags fn stack cur regs new (mk_mem_ctx NULL d 1) fl s m1 r s'
   else ∃ r s', sys_fork rfc fuel current flags fn priv stack s = Ret (r, s') ∧
     let c1 := set_ctx_count (mc_count c + 1) c in
     fork_post flags fn stack cur regs (f_ctx cur) c1 fl s (upd_ctxs (insert (f_ctx cur) c1) (fk_mm s)) r s').
Proof.
  intros Hfo Hcl Hcnt Hfi Hcs Ho He Hh Hb Hfresh. pose proof Hfo as []. pose proof (ar_ctx _ _ _ _ (cl_areas _ _ _ _ _ _ Hcl)) as Hc.
  split.
  { rewrite /func_ok. intros Hbad. rewrite /sys_fork /ld_ftask /bind /get /= fo_task0 /= !uaddr_ok_0.
    destruct (ctrue (Z.land flags FORK_FUNC)); [|by destruct Hbad]. simpl.
    destruct (decide (fn < USER_TOP)) as [H1|H1]; [|by rewrite bool_decide_eq_false_2].
    destruct (decide (stack < USER_TOP)) as [H2|H2]; [by destruct Hbad|]. by rewrite (bool_decide_eq_false_2 _ H2) orb_true_r. }
  intros Hf. destruct (ctrue (Z.land flags FORK_MEM)) eqn:Em.
  - destruct (wp_elim _ _ _ (wp_mem_ctx_clone fuel (fk_mm s) (f_ctx cur) c t A I D Hcl Hfi (λ d Hd, proj1 (Hcs d Hd)) Ho He Hh))
      as (new & m1 & Ec & Ebd & Hpost).
    exists new, m1. split; [done|]. rewrite (sys_fork_start fuel current cur _ _ _ _ _ new m1 fo_task0 Hf); [by rewrite Em|].
    destruct Hpost as [(-> & Ectx & D' & He1)|(Hn & HnA & d & e & Hd1 & Hd2 & Ectx & Hk & He1 & _)].
    + case_decide; [|done]. apply (fork_task_null _ _ _ _ _ _ _ _ _ regs I D' Hfo); [|by rewrite Ebd|done|done].
      rewrite Ectx. apply eq_None_not_Some. intros Hs. by destruct (Hcs _ Hs).
    + case_decide; [done|].
      destruct (wp_elim _ _ _ (wp_fork_task current cur regs flags fn stack s new m1 (mk_mem_ctx NULL d 1) fl I ({[ d ]} ∪ D)
        Hfo Hf ltac:(rewrite Ectx; apply lookup_insert_eq) ltac:(by rewrite Ebd) Hfresh He1)) as (r & s' & Es & Hp).
      exists d, r, s'. split; [|done]. split_and!; try done. by exists e.
  - set (c1 := set_ctx_count (mc_count c + 1) c). set (m1 := upd_ctxs (insert (f_ctx cur) c1) (fk_mm s)).
    assert (mem_ctx_get (f_ctx cur) (fk_mm s) = Ret (f_ctx cur, m1)) as Eg.
    { rewrite /mem_ctx_get /st_ctx /ld_ctx /bind /= Hc /= u32_id; [lia|]. done. }
    rewrite (sys_fork_start fuel current cur _ _ _ _ _ (f_ctx cur) m1 fo_task0 Hf); [by rewrite Em|].
    apply wp_elim, (wp_fork_task current cur regs flags fn stack s (f_ctx cur) m1 c1 fl I D Hfo Hf); try done.
    apply lookup_insert_eq.
Qed.
End fork.

(** ** A task at frame 1 that forks; frames 2 and 0 are free.

    The inodes are counted, and the directories come from a list. *)
Record fenv := mk_fenv { tv_refs : gmap Z Z; tv_dirs : list Z }.
Definition take_dir : M fenv (option Z) := λ e,
  match tv_dirs e with [] => Ret (None, e) | d :: l => Ret (Some d, mk_fenv (tv_refs e) l) end.

#[export] Instance fenv_mmu : MmuOps fenv := {|
  iref i := λ e, match tv_refs e !! i with Some c => Ret (i, mk_fenv (<[i := u32 (c + 1)]> (tv_refs e)) (tv_dirs e)) | None => Fault end;
  readpage _ _ := ret None;
  map_page_to_ctx _ _ _ _ := ret 0;
  clone_ctx _ := take_dir;
  setup_new_ctx := take_dir;
  destroy_ctx d := λ e, Ret (tt, mk_fenv (tv_refs e) (d :: tv_dirs e))
|}.

Definition fenv_ok (e : fenv) (I D : gset Z) : Prop :=
  I ⊆ dom (tv_refs e) ∧ NoDup (tv_dirs e) ∧ ∀ d, d ∈ tv_dirs e → d ∉ D.
Lemma wp_take_dir e I D : fenv_ok e I D →
  wp take_dir (λ r e', match r with None => fenv_ok e' I D | Some d => d ∉ D ∧ fenv_ok e' I ({[ d ]} ∪ D) end) e.
Proof.
  intros (H1 & H2 & H3). rewrite /wp /take_dir. destruct (tv_dirs e) as [|d l] eqn:El.
  - split_and!; [done|by rewrite El|by rewrite El].
  - apply NoDup_cons in H2 as [Hd Hl]. split; [apply H3; by left|]. split_and!; [done|done|]. cbn.
    intros x Hx. apply not_elem_of_union. split; [rewrite elem_of_singleton; congruence|]. apply H3. by right.
Qed.

#[export] Program Instance fenv_spec : MmuSpec fenv := {| env_ok := fenv_ok |}.
Next Obligation.
  intros e I D i (H1 & H2 & H3) Hi. assert (i ∈ dom (tv_refs e)) as [c Hc]%elem_of_dom by set_solver.
  rewrite /wp /= Hc. split; [done|]. split; [|done]. cbn. rewrite dom_insert_L. set_solver.
Qed.
Next Obligation. intros. by apply wp_take_dir. Qed.
Next Obligation.
  intros e I D d (H1 & H2 & H3) Hd. split_and!; [done| |].
  - apply NoDup_cons. split; [|done]. intros Hin. by apply (H3 d).
  - intros x [->|Hx]%elem_of_cons; [set_solver|]. specialize (H3 x Hx). set_solver.
Qed.
#[export] Instance fenv_clone : CloneSpec fenv.
Proof. split. intros e I D d He _. by apply wp_take_dir. Qed.

Definition ex_regs : intr_ctx := mk_intr_ctx 0 0 0 0 2 0 0 2 0 0x8048010 0x1b 0x200 0x7ffffff0 0x23.
Definition ex_parent : ftask := mk_ftask 0 5 64 0x900 0x940 0x980 zero_tss 0xc0001fc8.
(** One area, of the file 0x900, set up by the code. *)
Definition ex_fmm : @mm opool fenv :=
  match setup_vma 8 64 0x8000 0x1800 PROT_READ 0x900 0x2000
    (mk_mm ∅ ∅ {[ 64 := mk_mem_ctx NULL 7 1 ]} [0x100; 0x200; 0x300] (mk_fenv {[ 0x900 := 1; 0x940 := 1 ]} [9; 8]) ex_buddy NULL) with
  | Ret (_, m) => m
  | _ => mk_mm ∅ ∅ ∅ [] (mk_fenv ∅ []) ex_buddy NULL
  end.
Definition ex_fk : @fk opool fenv := mk_fk ex_fmm {[ 0xc0001000 := ex_parent ]} {[ 0xc0001fc8 := ex_regs ]} [] 5.

Lemma ex_forker : forker ex_fk 0xc0001000 ex_parent ex_regs {[ 0x900; 0x940 ]}.
Proof. split; [reflexivity..|right; decide_closed|right; decide_closed]. Qed.

Lemma ex_fresh : pages_fresh [2; 0] ex_fk.
Proof.
  intros pfn H. rewrite !elem_of_cons elem_of_nil in H. destruct H as [->|[->|[]]]; cbn [fk_tasks fk_frames ex_fk]; (split; [reflexivity|split; [reflexivity|done]]).
Qed.

Definition ex_area_tree : tree := Node true Leaf 0x100 Leaf.
Lemma ex_ctx_live : ctx_live ex_fmm 64 (mk_mem_ctx 0x100 7 1) ex_area_tree {[ 64; 0x100 ]} {[ 7 ]}.
Proof.
  split.
  - split.
    + vm_compute. reflexivity.
    + apply repb_rep. vm_compute. reflexivity.
    + split; [done|]. exists 1%nat. repeat constructor.
    + split; repeat constructor. eexists. split; [vm_compute; reflexivity|simpl; lia].
  - decide_closed.
  - intros a ->%list_elem_of_singleton. split; [decide_closed|done].
  - decide_closed.
Qed.

Lemma ex_fobjs : objs_live (mm_objs ex_fmm) {[ 64; 0x100 ]}.
Proof.
  split_and!; [decide_closed| |].
  - intros v Hv. split; [|revert v Hv; apply Forall_forall; decide_closed].
    assert (Forall obj_ok (mm_objs ex_fmm)) as HF by (repeat constructor). exact (proj1 (Forall_forall _ _) HF v Hv).
  - intros v Hv. rewrite elem_of_union !elem_of_singleton in Hv. destruct Hv as [-> | ->]; by vm_compute.
Qed.
Lemma ex_fenv_ok : env_ok (mm_env ex_fmm) {[ 0x900; 0x940 ]} {[ 7 ]}.
Proof. split_and!; [decide_closed|decide_closed|]. apply Forall_forall. decide_closed. Qed.
Lemma ex_files : files_in ex_fmm ex_area_tree {[ 0x900; 0x940 ]}.
Proof.
  intros a ->%list_elem_of_singleton. eexists. split; [vm_compute; reflexivity|]. right. simpl. decide_closed.
Qed.
Lemma ex_fctxs d : is_Some (mm_ctxs ex_fmm !! d) → d ∈ ({[ 64; 0x100 ]} : gset Z) ∧ d ≠ NULL.
Proof.
  intros Hd. assert (d = 64) as ->; [|split; [decide_closed|done]].
  assert (mm_ctxs ex_fmm = {[ 64 := mk_mem_ctx 0x100 7 1 ]}) as E by (vm_compute; reflexivity).
  rewrite E in Hd. apply lookup_singleton_is_Some in Hd. done.
Qed.

(** With a copy of the context, in the caller's, and with a bad function. *)
Lemma sys_fork_witness :
  (∃ s', sys_fork 0x100 8 0xc0001000 (Z.lor FORK_PID FORK_MEM) 0 0 0 ex_fk = Ret (6, s') ∧ fk_runq s' = [0xc0002000]) ∧
  (∃ s', sys_fork 0x100 8 0xc0001000 0 0 0 0 ex_fk = Ret (5, s') ∧
     mm_ctxs (fk_mm s') !! 64 = Some (mk_mem_ctx 0x100 7 2)) ∧
  sys_fork 0x100 8 0xc0001000 FORK_FUNC USER_TOP 0 0 ex_fk = Ret (-1, ex_fk).
Proof.
  split_and!.
  - destruct (sys_fork_correct 0x100 8 0xc0001000 ex_parent ex_regs (Z.lor FORK_PID FORK_MEM) 0 0 0 ex_fk (mk_mem_ctx 0x100 7 1) ex_area_tree
      _ _ _ [2; 0] ex_forker ex_ctx_live ltac:(simpl; lia) ex_files ex_fctxs ex_fobjs ex_fenv_ok ltac:(simpl; lia) ex_buddy_inv ex_fresh)
      as [_ H].
    destruct (H ltac:(done)) as (new & m1 & Ec & Hp).
    assert (new = 0x200) as ->.
    { assert (match mem_ctx_clone 8 64 ex_fmm with Ret (n, _) => n | _ => 0 end = 0x200) as Hn by (vm_compute; reflexivity).
      change (f_ctx ex_parent) with 64 in Ec. change (fk_mm ex_fk) with ex_fmm in Ec. rewrite Ec in Hn. exact Hn. }
    case_decide as Hd; [discriminate Hd|]. destruct Hp as (d & r & s' & _ & Es & [(Hbad & _)|Hok]); [discriminate Hbad|].
    destruct Hok as (pfn & rest & tss & e1 & [= <- <-] & -> & _ & Hq & _). exists s'. split; [exact Es|exact Hq].
  - destruct (sys_fork_correct 0x100 8 0xc0001000 ex_parent ex_regs 0 0 0 0 ex_fk (mk_mem_ctx 0x100 7 1) ex_area_tree
      _ _ _ [2; 0] ex_forker ex_ctx_live ltac:(simpl; lia) ex_files ex_fctxs ex_fobjs ex_fenv_ok ltac:(simpl; lia) ex_buddy_inv ex_fresh)
      as [_ H].
    destruct (H ltac:(done)) as (r & s' & Es & [(Hbad & _)|Hok]); [discriminate Hbad|].
    destruct Hok as (pfn & rest & tss & e1 & [= <- <-] & -> & _ & _ & _ & _ & _ & _ & _ & _ & _ & Hc & _).
    exists s'. split; [exact Es|exact Hc].
  - destruct (sys_fork_correct 0x100 8 0xc0001000 ex_parent ex_regs FORK_FUNC USER_TOP 0 0 ex_fk (mk_mem_ctx 0x100 7 1) ex_area_tree
      _ _ _ [2; 0] ex_forker ex_ctx_live ltac:(simpl; lia) ex_files ex_fctxs ex_fobjs ex_fenv_ok ltac:(simpl; lia) ex_buddy_inv ex_fresh)
      as [H _].
    apply H. intros Hf. destruct (Hf eq_refl) as [Hlt _]. lia.
Defined.
