(* ===== verification/Syscall.v ===== *)
(** * System call entry and the write call ([arch-ia32/syscalls.c],
      [include/arch-ia32/syscalls.h], [include/arch-ia32/syscall-numbers.h])

    The dispatcher runs on the state of the whole kernel, of which the calls
    are given; [_sys_write], the only call the file contains, on memory, the
    allocator and the console. *)
From S2P Require Import Prelude Regs ObjAlloc Kmem Blk Vsprintf Io Vga Vfs.

Definition _SYS_exit : Z := 0.
Definition _SYS_exec : Z := 1.
Definition _SYS_fork : Z := 2.
Definition _SYS_open : Z := 3.
Definition _SYS_close : Z := 4.
Definition _SYS_read : Z := 5.
Definition _SYS_write : Z := 6.
Definition _SYS_NR_SYSCALLS : Z := 7.

(** [struct syscall_desc]: the type is the constructor. *)
Inductive syscall_desc {S : Type} :=
  | arg0 (f : M S Z)
  | arg1 (f : Z → M S Z)
  | arg2 (f : Z → Z → M S Z)
  | arg3 (f : Z → Z → Z → M S Z)
  | arg4 (f : Z → Z → Z → Z → M S Z)
  | arg5 (f : Z → Z → Z → Z → Z → M S Z).
Arguments syscall_desc : clear implicits.

Section dispatch.
Context {S : Type}.
Context (_sys_exit : Z → M S Z) (_sys_exec : Z → M S Z) (_sys_fork : Z → Z → Z → Z → M S Z)
  (_sys_open : Z → Z → M S Z) (_sys_close : Z → M S Z) (_sys_read _sys_write : Z → Z → Z → M S Z).
(** [__this_task->t.intr_ctx = &ctx] *)
Context (note_frame : intr_ctx → M S unit).

(** By number. *)
Definition syscall_tbl : list (syscall_desc S) := [
  arg1 _sys_exit; arg1 _sys_exec; arg4 _sys_fork; arg2 _sys_open; arg1 _sys_close;
  arg3 _sys_read; arg3 _sys_write ].

Definition do_call (sys : syscall_desc S) (ctx : intr_ctx) : M S Z :=
  match sys with
  | arg0 f => f
  | arg1 f => f (r_ebx ctx)
  | arg2 f => f (r_ebx ctx) (r_ecx ctx)
  | arg3 f => f (r_ebx ctx) (r_ecx ctx) (r_edx ctx)
  | arg4 f => f (r_ebx ctx) (r_ecx ctx) (r_edx ctx) (r_esi ctx)
  | arg5 f => f (r_ebx ctx) (r_ecx ctx) (r_edx ctx) (r_esi ctx) (r_edi ctx)
  end.

(** The frame to return to, and the data selector. *)
Definition syscall_exc (ctx : intr_ctx) : M S (intr_ctx * Z) :=
  if _SYS_NR_SYSCALLS <=? r_eax ctx then
    let ctx := set_eax (u32 (-1)) ctx in
    let! ds := return_from_intr ctx in ret (ctx, ds)
  else
  let! sys := deref (syscall_tbl !! Z.to_nat (r_eax ctx)) in
  do! note_frame ctx then
  let! r := do_call sys ctx in
  let ctx := set_eax (u32 r) ctx in
  let! ds := return_from_intr ctx in
  ret (ctx, ds).
End dispatch.

(** ** Writing *)

Record wr {D P : Type} := mk_wr { w_con : console D; w_objs : P }.
Arguments wr : clear implicits.

Section write.
Context `{PortDev D} {P : Type} `{!ObjOps P}.
Definition set_w_con (v : console D) (s : wr D P) : wr D P := mk_wr D P v (w_objs s).
Definition set_w_objs (v : P) (s : wr D P) : wr D P := mk_wr D P (w_con s) v.
Abbreviation W := (M (wr D P)).
Definition on_con {A} (m : M (console D) A) : W A := zoom w_con set_w_con m.
Definition on_wmem {A} (m : Mem A) : W A := on_con (on_vs (Vsprintf.on_mem m)).

(** [copy_from_user]: the count, or -1 when a byte is not there. *)
Fixpoint copy_user_bytes (n : nat) (d s : Z) : Mem bool :=
  match n with
  | O => ret true
  | S n =>
    let! m := get in
    match m !! s with
    | None => ret false
    | Some b => do! st8 d b then copy_user_bytes n (d + 1) (s + 1)
    end
  end.

(** The places of [printk]'s buffer and of the literals; the bound on formats
    and strings. *)
Context (pbuf null_str fmt_str fmt_unimpl : Z) (fuel : nat).

Definition sys_write (fd buf count : Z) : W Z :=
  if negb (uaddr_ok buf count) then ret (-1) else
  if fd =? 1 then
    let! kbuf := (if 4096 <? count then ret NULL else zoom w_objs set_w_objs (obj_alloc (general_cache_of count))) in
    if kbuf =? NULL then ret (-1) else
    let! ok := on_wmem (copy_user_bytes (Z.to_nat count) kbuf buf) in
    let sz := if (ok : bool) then s32 count else -1 in
    if sz <? 0 then ret (-1) else
    do! on_con (printk pbuf null_str fuel fmt_str [u32 sz; kbuf]) then
    do! zoom w_objs set_w_objs (obj_free (general_cache_of count) kbuf) then
    ret (s32 count)
  else
  do! on_con (printk pbuf null_str fuel fmt_unimpl [u32 fd; count]) then
  ret (-1).
End write.

(** ** What the calls promise *)

Lemma copy_user_false (m : mem) n d s k : (k < n)%nat → m !! (s + Z.of_nat k) = None →
  (∀ i, (i < n)%nat → is_Some (m !! (d + Z.of_nat i))) → d + Z.of_nat n ≤ s ∨ s + Z.of_nat n ≤ d →
  ∃ m', copy_user_bytes n d s m = Ret (false, m').
Proof.
  revert m d s k. induction n as [|n IH]; intros m d s k Hk Hm Hd Hdis; [lia|]. cbn [copy_user_bytes]. rewrite /bind /get /=.
  destruct (m !! s) as [b|] eqn:Es; [|by exists m].
  destruct k as [|k]; [rewrite Z.add_0_r Es in Hm; done|].
  destruct (Hd 0%nat ltac:(lia)) as [x Hx]. rewrite Z.add_0_r in Hx. rewrite /st8 /bind /get /= Hx /=.
  apply (IH _ _ _ k); [lia| | |lia].
  - rewrite lookup_insert_ne; [lia|]. by rewrite (_ : s + 1 + Z.of_nat k = s + Z.of_nat (S k)); [lia|].
  - intros i Hi. destruct (Hd (S i) ltac:(lia)) as [y Hy]. rewrite lookup_insert_ne; [lia|].
    rewrite (_ : d + 1 + Z.of_nat i = d + Z.of_nat (S i)); [lia|]. by exists y.
Qed.

(** A write from an address that is not mapped loses memory: the call
    answers -1, and the buffer it allocated for the copy stays allocated. *)
Theorem sys_write_leaks `{PortDev D} {P} `{!ObjOps P, !ObjSpec P} pbuf ns f1 f2 fuel buf count (s : wr D P) A kbuf p k :
  uaddr_ok buf count = true → 0 ≤ count ≤ 4096 →
  objs_live (w_objs s) A → obj_alloc (general_cache_of count) (w_objs s) = Ret (kbuf, p) → kbuf ≠ NULL →
  (k < Z.to_nat count)%nat → vs_mem (con_vs (w_con s)) !! (buf + Z.of_nat k) = None →
  owned (vs_mem (con_vs (w_con s))) kbuf (Z.to_nat count) → kbuf + count ≤ buf ∨ buf + count ≤ kbuf →
  ∃ s', sys_write pbuf ns f1 f2 fuel 1 buf count s = Ret (-1, s') ∧
    objs_live (w_objs s') ({[ kbuf ]} ∪ A) ∧ kbuf ∉ A.
Proof.
  intros Hu Hc HA Ha Hn Hk Hm Ho Hd.
  pose proof (objs_alloc _ _ (general_cache_of count) HA) as H1. rewrite /wp Ha in H1.
  destruct H1 as [[-> _]|(_ & _ & Hf & HA1)]; [done|].
  destruct (copy_user_false (vs_mem (con_vs (w_con s))) (Z.to_nat count) kbuf buf k) as [m' Em]; [done|done| |lia|].
  { intros i Hi. apply Ho. lia. }
  rewrite /sys_write Hu. destruct (Z.ltb_spec 4096 count); [lia|]. cbn [negb Z.eqb Pos.eqb].
  rewrite /bind /zoom Ha (proj2 (Z.eqb_neq _ _) Hn) /on_wmem /on_con /on_vs /Vsprintf.on_mem /zoom /= Em /=.
  eexists. split; [reflexivity|]. split; [exact HA1|done].
Qed.

Definition ex_wr : wr trace opool :=
  mk_wr trace opool (mk_console trace (mk_vga trace [] 0x17 0 0 0 []) (mk_vs (list_to_map [(0x2000, 7); (0x2001, 7)]) [])) [0x2000].

Lemma sys_write_leaks_witness : ∃ s', sys_write 0 0 0 0 0 1 0x8048000 2 ex_wr = Ret (-1, s') ∧
  objs_live (w_objs s') ({[ 0x2000 ]} ∪ ∅) ∧ 0x2000 ∉ (∅ : gset Z).
Proof.
  apply (sys_write_leaks 0 0 0 0 0 0x8048000 2 ex_wr ∅ 0x2000 [] 0).
  - reflexivity.
  - lia.
  - split_and!; [apply NoDup_singleton| |set_solver]. intros v ->%list_elem_of_singleton. split; [split; [lia|done]|set_solver].
  - reflexivity.
  - done.
  - simpl. lia.
  - reflexivity.
  - intros b Hb. simpl in Hb. assert (b = 0x2000 ∨ b = 0x2001) as [->| ->] by lia; by eexists.
  - left. lia.
Defined.
