(* ===== verification/UString.v ===== *)
(** * The string routines of the user library ([src/user/string.c])

    The file is the one of the kernel, function by function, without [strdup]:
    the definitions are those of [Kmem], and so are their theorems. *)
From S2P Require Import Prelude Kmem.

Definition itoa := Kmem.itoa.
Definition strlen := Kmem.strlen.
Definition strnlen := Kmem.strnlen.
Definition strcmp := Kmem.strcmp.
Definition memcmp := Kmem.memcmp.
Definition memcpy := Kmem.memcpy.
Definition strchr := Kmem.strchr.
Definition memset := Kmem.memset.

(** [init] prints its text whole: the length it passes to [_write] is that of
    the string. *)
Lemma strlen_string m a l : cstr m a l → Z.of_nat (length l) < 2 ^ 32 →
  strlen (S (length l)) a m = Ret (Z.of_nat (length l), m).
Proof.
  intros Hl Hn. assert (Hw : wp (strlen (S (length l)) a) (λ v m', m' = m ∧ v = 0 + Z.of_nat (length l)) m).
  { by apply (wp_strlen_from l a 0); [|lia..]. }
  destruct (wp_elim _ _ _ Hw) as (v & m' & E & -> & ->). exact E.
Qed.
