(* ===== verification/User.v ===== *)
(** * The user library and programs ([src/user])

    The stubs of the system calls load the registers and trap into the
    dispatcher of [Syscall]; the programs are functions of the calls. *)
From S2P Require Import Prelude Regs Kmem ObjAlloc Blk Vsprintf Io Vga Vfs Task Syscall.

(** ** The stubs ([_SYSCALL1] to [_SYSCALL4] of [syscall-numbers.h]) *)

Section stubs.
Context {S : Type}.
Context (_sys_exit : Z → M S Z) (_sys_exec : Z → M S Z) (_sys_fork : Z → Z → Z → Z → M S Z)
  (_sys_open : Z → Z → M S Z) (_sys_close : Z → M S Z) (_sys_read _sys_write : Z → Z → Z → M S Z).
Context (note_frame : intr_ctx → M S unit).

(** [int $0xff]: the frame the kernel returns to. *)
Definition int_ff (r : intr_ctx) : M S intr_ctx :=
  let! x := syscall_exc _sys_exit _sys_exec _sys_fork _sys_open _sys_close _sys_read _sys_write note_frame r in
  ret (fst x).

(** The registers the assembler statement loads. *)
Definition load_regs (eax edi ecx edx esi : option Z) (r : intr_ctx) : intr_ctx :=
  mk_intr_ctx (default (r_edi r) edi) (default (r_esi r) esi) (r_ebp r) (r_esp r) (r_ebx r)
    (default (r_edx r) edx) (default (r_ecx r) ecx) (default (r_eax r) eax)
    (r_err_code r) (r_eip r) (r_cs r) (r_eflags r) (r_esp3 r) (r_ss r).
(** [xchgl %edi,%ebx] *)
Definition xchg_edi_ebx (r : intr_ctx) : intr_ctx :=
  mk_intr_ctx (r_ebx r) (r_esi r) (r_ebp r) (r_esp r) (r_edi r) (r_edx r) (r_ecx r) (r_eax r)
    (r_err_code r) (r_eip r) (r_cs r) (r_eflags r) (r_esp3 r) (r_ss r).

(** The three instructions. *)
Definition trap (r : intr_ctx) : M S (Z * intr_ctx) :=
  let! r := int_ff (xchg_edi_ebx r) in
  let r := xchg_edi_ebx r in
  ret (s32 (r_eax r), r).

Definition _SYSCALL1 (nr a1 : Z) (r : intr_ctx) : M S (Z * intr_ctx) :=
  trap (load_regs (Some nr) (Some a1) None None None r).
Definition _SYSCALL2 (nr a1 a2 : Z) (r : intr_ctx) : M S (Z * intr_ctx) :=
  trap (load_regs (Some nr) (Some a1) (Some a2) None None r).
Definition _SYSCALL3 (nr a1 a2 a3 : Z) (r : intr_ctx) : M S (Z * intr_ctx) :=
  trap (load_regs (Some nr) (Some a1) (Some a2) (Some a3) None r).
Definition _SYSCALL4 (nr a1 a2 a3 a4 : Z) (r : intr_ctx) : M S (Z * intr_ctx) :=
  trap (load_regs (Some nr) (Some a1) (Some a2) (Some a3) (Some a4) r).

Definition _exit := _SYSCALL1 _SYS_exit.
Definition _exec := _SYSCALL1 _SYS_exec.
Definition __fork := _SYSCALL4 _SYS_fork.
Definition _open := _SYSCALL2 _SYS_open.
Definition _close := _SYSCALL1 _SYS_close.
Definition _read := _SYSCALL3 _SYS_read.
Definition _write := _SYSCALL3 _SYS_write.

(** The call of the kernel a stub stands for. *)
Definition stub_of (nr : Z) (args : Z * Z * Z * Z) : option (M S Z) :=
  let '(a1, a2, a3, a4) := args in
  if nr =? _SYS_exit then Some (_sys_exit a1)
  else if nr =? _SYS_exec then Some (_sys_exec a1)
  else if nr =? _SYS_fork then Some (_sys_fork a1 a2 a3 a4)
  else if nr =? _SYS_open then Some (_sys_open a1 a2)
  else if nr =? _SYS_close then Some (_sys_close a1)
  else if nr =? _SYS_read then Some (_sys_read a1 a2 a3)
  else if nr =? _SYS_write then Some (_sys_write a1 a2 a3)
  else None.

Lemma stub_tbl nr r f : stub_of nr (r_ebx r, r_ecx r, r_edx r, r_esi r) = Some f → nr < _SYS_NR_SYSCALLS ∧
  ∃ sys, syscall_tbl _sys_exit _sys_exec _sys_fork _sys_open _sys_close _sys_read _sys_write !! Z.to_nat nr = Some sys ∧ do_call sys r = f.
Proof.
  rewrite /stub_of.
  repeat match goal with |- context [nr =? ?y] =>
    destruct (Z.eqb_spec nr y) as [->|_]; [intros [= <-]; split; [done|]; eexists; split; reflexivity|] end.
  done.
Qed.

Lemma s32_u32 v : - 2 ^ 31 ≤ v < 2 ^ 31 → s32 (u32 v) = v.
Proof. intros Hv. etrans; [|by apply s32_id]. by rewrite /s32 /sign /u32 Zmod_mod. Qed.

Lemma trap_call r f s s1 v s2 :
  Z.land (r_cs r) __CPL3 = __CPL3 → note_frame (xchg_edi_ebx r) s = Ret (tt, s1) →
  stub_of (r_eax r) (r_edi r, r_ecx r, r_edx r, r_esi r) = Some f → f s1 = Ret (v, s2) → - 2 ^ 31 ≤ v < 2 ^ 31 →
  trap r s = Ret ((v, set_eax (u32 v) r), s2).
Proof.
  intros Hcs Hn Hf Hv Hr. destruct (stub_tbl (r_eax r) (xchg_edi_ebx r) f Hf) as (Hlt & sys & Hs & <-).
  rewrite /trap /int_ff /syscall_exc /bind. cbn [r_eax xchg_edi_ebx]. destruct (Z.leb_spec _SYS_NR_SYSCALLS (r_eax r)); [lia|].
  rewrite Hs /= Hn Hv return_to_user //= s32_u32 //.
Qed.

(** Of the registers of the program, those that do not carry the number, the
    arguments or the result are as before. *)
Definition regs_kept (r r' : intr_ctx) : Prop :=
  r_ebx r' = r_ebx r ∧ r_ebp r' = r_ebp r ∧ r_esp r' = r_esp r ∧ r_eip r' = r_eip r ∧ r_esp3 r' = r_esp3 r ∧
  r_cs r' = r_cs r ∧ r_ss r' = r_ss r ∧ r_eflags r' = r_eflags r.

(** The stub [run] is the call [f] of the kernel, made after the place of the
    frame has been noted: it has its effect and gives its result. *)
Definition stands_for (run : M S (Z * intr_ctx)) (f : M S Z) (r : intr_ctx) : Prop := ∀ s s1 v s2,
  (∀ x, note_frame x s = Ret (tt, s1)) → f s1 = Ret (v, s2) → - 2 ^ 31 ≤ v < 2 ^ 31 →
  ∃ r', run s = Ret ((v, r'), s2) ∧ regs_kept r r'.

Lemma trap_stands_for r r0 f : Z.land (r_cs r) __CPL3 = __CPL3 → regs_kept r0 r →
  stub_of (r_eax r) (r_edi r, r_ecx r, r_edx r, r_esi r) = Some f → stands_for (trap r) f r0.
Proof.
  intros Hcs Hk Hf s s1 v s2 Hn Hv Hr. exists (set_eax (u32 v) r). split; [|exact Hk].
  eapply trap_call; [exact Hcs|apply Hn|exact Hf|exact Hv|exact Hr].
Qed.

(** C34: From user mode, each stub of the library is its call of the kernel: it
    runs the function of that name with the arguments it was given, in their
    order, and returns its result, with the other registers of the program as
    they were.  A number that is no call gives -1 and runs nothing. *)
Theorem stubs_correct a1 a2 a3 a4 r : Z.land (r_cs r) __CPL3 = __CPL3 →
  stands_for (_exit a1 r) (_sys_exit a1) r ∧
  stands_for (_exec a1 r) (_sys_exec a1) r ∧
  stands_for (__fork a1 a2 a3 a4 r) (_sys_fork a1 a2 a3 a4) r ∧
  stands_for (_open a1 a2 r) (_sys_open a1 a2) r ∧
  stands_for (_close a1 r) (_sys_close a1) r ∧
  stands_for (_read a1 a2 a3 r) (_sys_read a1 a2 a3) r ∧
  stands_for (_write a1 a2 a3 r) (_sys_write a1 a2 a3) r ∧
  (∀ nr s, _SYS_NR_SYSCALLS ≤ nr → ∃ r', _SYSCALL4 nr a1 a2 a3 a4 r s = Ret ((-1, r'), s) ∧ regs_kept r r').
Proof.
  intros Hcs. split_and!; try (by apply trap_stands_for).
  intros nr s Hnr. eexists. rewrite /_SYSCALL4 /trap /int_ff /syscall_exc /bind. cbn [r_eax xchg_edi_ebx load_regs default].
  rewrite (proj2 (Z.leb_le _ _) Hnr) return_to_user //.
Qed.
End stubs.

(** ** The library ([fork.c]; [string.c] is in [UString]) *)

Definition EXIT_SUCCESS : Z := 0.
Definition EXIT_FAILURE : Z := 1.
Definition STDOUT_FILENO : Z := 1.

Definition FORK_FD : Z := Z.shiftl 1 2.
Definition FORK_FS : Z := Z.shiftl 1 3.

(** ** The programs *)

(** The calls as the programs see them, on the state of the process and the
    kernel; the literals and the buffer have addresses. *)
Class Libc (S : Type) := {
  c_open : Z → Z → M S Z;
  c_close : Z → M S Z;
  c_read : Z → Z → Z → M S Z;
  c_write : Z → Z → Z → M S Z;
  c_fork : Z → Z → Z → Z → M S Z;
  c_exec : Z → M S Z
}.

Section programs.
Context {S : Type} `{!Libc S}.

Definition fork : M S Z :=
  let! r := c_fork (Z.lor (Z.lor FORK_MEM FORK_PID) (Z.lor FORK_FD FORK_FS)) NULL NULL NULL in
  if r <? 0 then ret (-1) else if r =? 0 then ret 0 else ret r.

(** [cat]: the addresses of ["/README"], the two messages and [buf]. *)
Context (filename msg_open msg_read buf : Z).

(** From the label [again]. *)
Fixpoint cat_again (fuel : nat) (fd : Z) : M S Z :=
  match fuel with
  | O => nofuel
  | Datatypes.S fuel =>
    let! len := c_read fd buf 512 in
    if len <? 0 then
      let! _ := c_write STDOUT_FILENO msg_read 23 in
      let! _ := c_close fd in
      ret EXIT_FAILURE
    else
    let! _ := c_write STDOUT_FILENO buf len in
    if negb (len =? 0) then cat_again fuel fd else
    let! _ := c_close fd in
    ret EXIT_SUCCESS
  end.
Definition cat_main (fuel : nat) : M S Z :=
  let! fd := c_open filename 0 in
  if fd =? 1 then
    let! _ := c_write STDOUT_FILENO msg_open 23 in
    ret EXIT_FAILURE
  else cat_again fuel fd.

(** [init]: the addresses of the text, of the message and of the two paths. *)
Context (hello hello_len msg_fork path_a path_b : Z).
Definition init_main : M S Z :=
  let! r := c_write STDOUT_FILENO hello hello_len in
  if r <=? 0 then ret EXIT_FAILURE else
  let! _ := c_write STDOUT_FILENO 0xdeadbeef 20 in
  let! _ := c_write STDOUT_FILENO 0xbeefdead 20 in
  let! p := c_fork (Z.lor (Z.lor FORK_PID FORK_FD) (Z.lor FORK_FS FORK_MEM)) NULL NULL NULL in
  let! _ := (if p =? -1 then c_write STDOUT_FILENO msg_fork 13
             else if p =? 0 then c_exec path_b else c_exec path_a) in
  ret EXIT_FAILURE.
End programs.

(** ** What [cat] does *)

(** What a program sees of a file it has open and of its output: the bytes not
    yet read, the bytes in [buf], the bytes written. *)
Class FileView (S : Type) := {
  v_ok : S → Prop;
  v_rest : S → list Z;
  v_held : S → list Z;
  v_out : S → list Z
}.

(** The calls on descriptor [fd] work: a read gives a part of the rest, and
    nothing at its end only; a write of bytes in [buf] puts them out. *)
Class FileLaws (S : Type) `{!Libc S, !FileView S} (buf fd : Z) := {
  fl_read s : v_ok s → ∃ k s', c_read fd buf 512 s = Ret (k, s') ∧ v_ok s' ∧ 0 ≤ k ≤ Z.of_nat (length (v_rest s)) ∧
    (k = 0 → v_rest s = []) ∧ v_held s' = take (Z.to_nat k) (v_rest s) ∧ v_rest s' = drop (Z.to_nat k) (v_rest s) ∧ v_out s' = v_out s;
  fl_write s k : v_ok s → 0 ≤ k ≤ Z.of_nat (length (v_held s)) → ∃ r s', c_write STDOUT_FILENO buf k s = Ret (r, s') ∧ v_ok s' ∧
    v_rest s' = v_rest s ∧ v_out s' = v_out s ++ take (Z.to_nat k) (v_held s);
  fl_close s : v_ok s → ∃ r s', c_close fd s = Ret (r, s') ∧ v_out s' = v_out s
}.

Section cat.
Context {S : Type} `{!Libc S, !FileView S} (filename msg_open msg_read buf : Z).

Lemma cat_again_copies `{!FileLaws S buf fd} fuel s : v_ok s → (length (v_rest s) < fuel)%nat →
  ∃ s', cat_again msg_read buf fuel fd s = Ret (EXIT_SUCCESS, s') ∧ v_out s' = v_out s ++ v_rest s.
Proof.
  revert s. induction fuel as [|fuel IH]; intros s Hs Hf; [lia|]. cbn [cat_again].
  destruct (fl_read s Hs) as (k & s1 & E1 & Hs1 & Hk & H0 & Hh & Hr & Ho). rewrite /bind E1.
  destruct (Z.ltb_spec k 0); [lia|].
  destruct (fl_write (fd := fd) s1 k Hs1) as (w & s2 & E2 & Hs2 & Hr2 & Ho2). { rewrite Hh length_take. lia. }
  rewrite E2. rewrite Hh take_take Nat.min_id Ho in Ho2. destruct (Z.eqb_spec k 0) as [-> |Hk0]; cbn [negb].
  - destruct (fl_close s2 Hs2) as (c & s3 & E3 & Ho3). rewrite E3. exists s3. split; [done|]. rewrite Ho3 Ho2 (H0 eq_refl) //.
  - destruct (IH s2 Hs2) as (s' & E & Ho'). { rewrite Hr2 Hr length_drop. lia. }
    exists s'. split; [done|]. rewrite Ho' Ho2 Hr2 Hr -app_assoc take_drop //.
Qed.

(** [cat] copies the file to the standard output: when the file can be opened
    and the calls work, it ends, with success, and has written the bytes of the
    file, all of them and nothing else. *)
Theorem cat_correct `{!FileLaws S buf fd} fuel s s1 : c_open filename 0 s = Ret (fd, s1) → fd ≠ 1 → v_ok s1 →
  (length (v_rest s1) < fuel)%nat →
  ∃ s', cat_main filename msg_open msg_read buf fuel s = Ret (EXIT_SUCCESS, s') ∧ v_out s' = v_out s1 ++ v_rest s1.
Proof.
  intros Ho Hfd Hs Hf. rewrite /cat_main /bind Ho (proj2 (Z.eqb_neq _ _) Hfd). by apply cat_again_copies.
Qed.

(** A failing [open] is not noticed: its -1 is compared with 1, and [cat] goes
    on to read from descriptor -1 and reports that instead. *)
Theorem cat_open_error fuel s s1 k s2 w s3 c s4 : c_open filename 0 s = Ret (-1, s1) → c_read (-1) buf 512 s1 = Ret (k, s2) → k < 0 →
  c_write STDOUT_FILENO msg_read 23 s2 = Ret (w, s3) → c_close (-1) s3 = Ret (c, s4) →
  cat_main filename msg_open msg_read buf (Datatypes.S fuel) s = Ret (EXIT_FAILURE, s4).
Proof.
  intros E1 E2 Hk E3 E4. rewrite /cat_main /bind E1. cbn [Z.eqb cat_again]. rewrite /bind E2 (proj2 (Z.ltb_lt _ _) Hk) E3 E4 //.
Qed.
End cat.

(** ** A process with one file *)

Record proc := mk_proc { p_rest : list Z; p_held : list Z; p_out : list Z }.
#[export] Instance proc_libc : Libc proc := {|
  c_open _ _ := ret 3;
  c_close _ := ret 0;
  c_read fd _ n := λ s, if fd =? 3 then
    Ret (Z.of_nat (Nat.min (Z.to_nat n) (length (p_rest s))),
         mk_proc (drop (Z.to_nat n) (p_rest s)) (take (Z.to_nat n) (p_rest s)) (p_out s)) else Ret (-1, s);
  c_write _ _ n := λ s, Ret (n, mk_proc (p_rest s) (p_held s) (p_out s ++ take (Z.to_nat n) (p_held s)));
  c_fork _ _ _ _ := ret (-1);
  c_exec _ := ret (-1)
|}.
#[export] Instance proc_view : FileView proc := {| v_ok _ := True; v_rest := p_rest; v_held := p_held; v_out := p_out |}.
#[export] Instance proc_laws buf : FileLaws proc buf 3.
Proof.
  split.
  - intros s _. eexists _, _. split; [reflexivity|]. cbn [v_ok v_rest v_held v_out proc_view p_rest p_held p_out].
    change (Z.to_nat 512) with 512%nat. rewrite Nat2Z.id. split_and!; [done|lia|lia| | | |done].
    + intros H. destruct (p_rest s); [done|]. cbn [length] in H. lia.
    + destruct (Nat.min_spec 512 (length (p_rest s))) as [[_ ->]|[? ->]]; [done|]. rewrite !firstn_all2 //; lia.
    + destruct (Nat.min_spec 512 (length (p_rest s))) as [[_ ->]|[? ->]]; [done|]. rewrite !skipn_all2 //; lia.
  - intros s k _ Hk. by eexists _, _.
  - intros s _. by eexists _, _.
Qed.

Definition ex_file : list Z := replicate 600 65.
Lemma cat_witness : ∃ s', cat_main 100 200 300 400 601 (mk_proc ex_file [] []) = Ret (EXIT_SUCCESS, s') ∧ p_out s' = ex_file.
Proof.
  destruct (cat_correct 100 200 300 400 (fd := 3) 601 (mk_proc ex_file [] []) (mk_proc ex_file [] [])) as (s' & E & Ho);
    [reflexivity|done|done|apply Nat.ltb_lt; reflexivity|].
  exists s'. split; [exact E|exact Ho].
Defined.

(** Reading the number of a descriptor from user mode. *)
Definition ex_regs : intr_ctx := mk_intr_ctx 0 0 0 0 77 0 0 0 0 0x8048010 0x1b 0x200 0x7ffffff0 0x23.
Lemma stubs_witness :
  let no := λ _ : Z, ret (-1) in let no3 := λ _ _ _ : Z, ret (-1) in
  let rd := λ fd b n : Z, (λ s : Z, Ret (fd + b + 2 * n, s + 1)) in
  ∃ r', _read no no (λ _ _ _ _, ret (-1)) (λ _ _, ret (-1)) no rd no3 (λ _, ret tt) 3 40 500 ex_regs 0 = Ret ((1043, r'), 1) ∧
    r_ebx r' = 77.
Proof.
  intros no no3 rd.
  destruct (stubs_correct no no (λ _ _ _ _, ret (-1)) (λ _ _, ret (-1)) no rd no3 (λ _, ret tt) 3 40 500 0 ex_regs eq_refl)
    as (_ & _ & _ & _ & _ & H & _).
  destruct (H 0 0 1043 1) as (r' & E & Hb & _); [reflexivity|reflexivity|lia|].
  exists r'. split; [exact E|exact Hb].
Defined.
