(* ===== verification/TimerProps.v ===== *)
(** * What the timer and the keyboard promise ([arch-ia32/timer.c],
      [arch-ia32/pc_keyb.c]) *)
From S2P Require Import Prelude Intr Io Timer.

(** ** The counter of an 8254

    [pit_run d c]: channel 0 counts down in mode 0 and stands at [c]. *)
Class PitDev (D : Type) `{TimeDev D} (elapsed : Z → Z) := {
  pit_ok : D → Prop;
  pit_run : D → Z → Prop;
  pit_load d : pit_ok d →
    pit_run (outs [(1, TMR_PORT, 0x30); (1, 0x80, 0x30); (1, 0x40, 0xff); (1, 0x80, 0xff); (1, 0x40, 0xff); (1, 0x80, 0xff)] d) 0xffff;
  pit_wait d c n : pit_run d c → pit_run (dev_wait n d) ((c - elapsed n) mod 65536);
  pit_latch d c : pit_run d c →
    let r := dev_in 1 0x40 (outs [(1, TMR_PORT, PIT_LATCH); (1, 0x80, PIT_LATCH)] d) in
    let q := dev_in 1 0x40 (outs [(1, 0x80, c mod 256)] (snd r)) in
    fst r = c mod 256 ∧ fst q = c / 256 ∧ pit_ok (outs [(1, 0x80, c / 256)] (snd q))
}.

Section calibrate.
Context {D : Type} `{TimeDev D} (elapsed : Z → Z) `{!PitDev D elapsed}.
(** The counter never runs backwards; twice the rounds take at most twice the
    time (up to a tick); the shortest measurement is within its range. *)
Context (el_mono : ∀ a b, 0 ≤ a ≤ b → elapsed a ≤ elapsed b) (el_pos : 0 ≤ elapsed 0)
  (el_twice : ∀ n, 0 ≤ n → elapsed (2 * n) ≤ 2 * elapsed n + 1) (el_start : elapsed (2 ^ 13 + 1) ≤ 65535).

(** The counter moves by more than the threshold of the calibration. *)
Definition too_long (l : Z) : Prop := 1535 < elapsed (l + 1).
#[local] Instance too_long_dec l : Decision (too_long l).
Proof. unfold too_long. apply _. Defined.

Lemma too_long_mono a b : 0 ≤ a ≤ b → too_long a → too_long b.
Proof. intros Hab. rewrite /too_long. pose proof (el_mono (a + 1) (b + 1)). lia. Qed.

Lemma oneshot_eq (d : D) : set_timer_chan_oneshot 0xFFFF 0 d =
  Ret (tt, outs [(1, TMR_PORT, 0x30); (1, 0x80, 0x30); (1, 0x40, 0xff); (1, 0x80, 0xff); (1, 0x40, 0xff); (1, 0x80, 0xff)] d).
Proof. reflexivity. Qed.

Lemma get_timer_eq (d : D) : get_timer_chan 0 1 d =
  let r := dev_in 1 0x40 (outs [(1, TMR_PORT, PIT_LATCH); (1, 0x80, PIT_LATCH)] d) in
  let q := dev_in 1 0x40 (outs [(1, 0x80, fst r mod 256)] (snd r)) in
  Ret (u32 (fst r mod 256 + Z.shiftl (fst q mod 256) 8), outs [(1, 0x80, fst q mod 256)] (snd q)).
Proof. rewrite /get_timer_chan /outb_p /inb_p /bind /= /inb /outb /port_in /port_out /modify /=. by rewrite !Z.mod_mod. Qed.

Lemma wp_measure (s : timer D) (Q : Z → timer D → Prop) :
  pit_ok (t_dev s) → 0 ≤ loops_ms s ≤ 2 ^ 31 → elapsed (loops_ms s + 1) ≤ 65535 →
  (∀ x d, pit_ok d → (x <? 64000) = bool_decide (too_long (loops_ms s)) → Q x (set_t_dev d s)) → wp measure Q s.
Proof.
  intros Hok Hl He HQ. pose proof (el_mono 0 (loops_ms s + 1) ltac:(lia)) as Hm.
  pose proof (pit_latch _ _ (pit_wait _ _ (loops_ms s + 1) (pit_load _ Hok))) as (Hlo & Hhi & Hok').
  rewrite (Z.mod_small (0xffff - elapsed (loops_ms s + 1)) 65536) in Hlo Hhi Hok'; [lia..|].
  set (c := 0xffff - elapsed (loops_ms s + 1)) in *. assert (0 ≤ c < 65536) by lia.
  assert (Hc : 0 ≤ c / 256 < 256). { split; [apply Z.div_pos; lia|apply Z.div_lt_upper_bound; lia]. }
  rewrite /measure. wp_step. apply wp_zoom. rewrite /wp oneshot_eq. wp_step. apply wp_gets.
  wp_step. apply wp_zoom, wp_modify. apply wp_zoom. cbn [t_dev set_t_dev loops_ms].
  rewrite /delay_rounds (proj2 (Z.leb_le _ _) (proj2 Hl)) /wp get_timer_eq.
  match type of Hlo with fst (dev_in _ _ ?d) = _ => set (d1 := d) in * end.
  cbv zeta. rewrite Hlo Zmod_mod Hhi (Z.mod_small (c / 256)); [lia|].
  apply (HQ _ _ Hok'). rewrite Z.shiftl_mul_pow2; [lia|]. change (2 ^ 8) with 256.
  pose proof (Z.div_mod c 256 ltac:(lia)). rewrite (_ : c mod 256 + c / 256 * 256 = c); [lia|].
  rewrite u32_id; [lia|]. subst c.
  case_bool_decide as Ht; unfold too_long in Ht; [apply Z.ltb_lt|apply Z.ltb_ge]; lia.
Qed.

(** The search: a power of two that is not too long (or the first) and the
    next, which is. *)
Definition bracket (k : Z) : Prop := k = 12 ∨ ¬ too_long (2 ^ k).

Lemma bracket_fits k : 12 ≤ k → bracket k → elapsed (2 ^ (k + 1) + 1) ≤ 65535.
Proof.
  intros Hk [-> |Hb]; [exact el_start|]. unfold too_long in Hb. pose proof (Z.pow_pos_nonneg 2 k ltac:(lia) ltac:(lia)).
  pose proof (el_twice (2 ^ k + 1) ltac:(lia)). assert (2 ^ (k + 1) = 2 * 2 ^ k) by (rewrite Z.pow_add_r; lia).
  pose proof (el_mono (2 ^ (k + 1) + 1) (2 * (2 ^ k + 1)) ltac:(lia)). lia.
Qed.

Lemma wp_coarse fuel k (s : timer D) (Q : unit → timer D → Prop) :
  too_long (2 ^ 31) → pit_ok (t_dev s) → 12 ≤ k ≤ 30 → loops_ms s = 2 ^ k → bracket k → 31 - k ≤ Z.of_nat fuel →
  (∀ k' d, pit_ok d → 12 ≤ k' ≤ 30 → bracket k' → too_long (2 ^ (k' + 1)) →
     Q tt (mk_timer D d (2 ^ (k' + 1)) (ticks s) (t_intr s))) → wp (coarse_loop fuel) Q s.
Proof.
  intros Hend. revert k s. induction fuel as [|fuel IH]; intros k s Hok Hk Hl Hb Hf HQ; [lia|].
  pose proof (Z.pow_le_mono_r 2 12 k ltac:(lia) ltac:(lia)). pose proof (Z.pow_le_mono_r 2 (k + 1) 31 ltac:(lia) ltac:(lia)).
  assert (Hp : 2 ^ (k + 1) = 2 * 2 ^ k) by (rewrite Z.pow_add_r; lia).
  cbn [coarse_loop]. wp_step. apply wp_modify. wp_step. apply wp_gets. cbn [loops_ms set_loops_ms].
  rewrite Hl Z.shiftl_mul_pow2; [lia|]. change (2 ^ 1) with 2. rewrite u32_id; [lia|].
  rewrite (_ : 2 ^ k * 2 = 2 ^ (k + 1)); [lia|]. rewrite {1}/ctrue (proj2 (Z.eqb_neq _ _)); [lia|]. cbn [negb].
  wp_step. apply wp_measure; cbn [t_dev loops_ms set_loops_ms]; [exact Hok|lia|by apply bracket_fits; [lia|]|].
  intros x d Hd ->. case_bool_decide as Ht.
  - apply wp_ret. by apply HQ.
  - destruct (decide (k = 30)) as [-> |Hk30]; [done|].
    apply (IH (k + 1)); [exact Hd|lia|done|by right|lia|]. intros k' d' Hd' Hk' Hb' Ht'. by apply HQ.
Qed.

Lemma lor_pow2 q i : 0 ≤ i → Z.lor (q * 2 ^ (i + 1)) (2 ^ i) = q * 2 ^ (i + 1) + 2 ^ i.
Proof.
  intros Hi. symmetry. apply Z.add_nocarry_lor, Z.bits_inj'. intros n Hn.
  rewrite Z.land_spec Z.bits_0 Z.pow2_bits_eqb; [lia|].
  destruct (Z.eqb_spec i n) as [-> |]; [|by rewrite andb_false_r]. by rewrite Z.mul_pow2_bits_low; [lia|].
Qed.

Lemma land_not_pow2 q i : 0 ≤ i → 0 ≤ q * 2 ^ (i + 1) < 2 ^ 32 →
  Z.land (q * 2 ^ (i + 1) + 2 ^ i) (u32 (Z.lnot (2 ^ i))) = q * 2 ^ (i + 1).
Proof.
  intros Hi Hr. rewrite -lor_pow2; [lia|]. apply Z.bits_inj'. intros n Hn.
  rewrite Z.land_spec Z.lor_spec /u32 -{2}(Z.mod_small (q * 2 ^ (i + 1)) (2 ^ 32)); [lia|].
  destruct (Z.lt_ge_cases n 32).
  - rewrite !Z.mod_pow2_bits_low; [lia..|]. rewrite Z.lnot_spec; [lia|]. rewrite Z.pow2_bits_eqb; [lia|].
    destruct (Z.eqb_spec i n) as [-> |]; [|by rewrite orb_false_r andb_true_r].
    rewrite andb_false_r Z.mul_pow2_bits_low; [lia|done].
  - by rewrite !Z.mod_pow2_bits_high ?andb_false_r; [lia..|].
Qed.

(** One more bit of the answer in each round. *)
Lemma wp_fine lp k j q (s : timer D) (Q : unit → timer D → Prop) :
  pit_ok (t_dev s) → 12 ≤ k ≤ 30 → Z.of_nat lp ≤ j → j ≤ k → loops_ms s = q * 2 ^ j →
  2 ^ k ≤ loops_ms s → loops_ms s + 2 ^ j ≤ 2 ^ (k + 1) → elapsed (loops_ms s + 2 ^ j + 1) ≤ 65535 →
  (loops_ms s = 2 ^ 12 ∨ ¬ too_long (loops_ms s)) → too_long (loops_ms s + 2 ^ j) →
  (∀ L d, pit_ok d → 2 ^ k ≤ L < 2 ^ (k + 1) → (2 ^ (j - Z.of_nat lp) | L) → (L = 2 ^ 12 ∨ ¬ too_long L) →
     too_long (L + 2 ^ (j - Z.of_nat lp)) → Q tt (mk_timer D d L (ticks s) (t_intr s))) →
  wp (fine_loop lp (2 ^ j)) Q s.
Proof.
  revert j q s. induction lp as [|lp IH]; intros j q s Hok Hk Hlp Hjk Hl Hlo Hhi He Hb Ht HQ; cbn [fine_loop].
  { apply wp_ret. rewrite Z.sub_0_r in HQ. destruct s as [d L tk it]. cbn in *. apply HQ; try done; [|by exists q].
    pose proof (Z.pow_pos_nonneg 2 j). lia. }
  set (i := j - 1). assert (Hj : j = i + 1) by lia. assert (Hi : 0 ≤ i) by lia. clearbody i. subst j.
  assert (Hp : 2 ^ (i + 1) = 2 * 2 ^ i) by (rewrite Z.pow_add_r; lia).
  pose proof (Z.pow_pos_nonneg 2 i ltac:(lia) Hi). pose proof (Z.pow_pos_nonneg 2 k ltac:(lia) ltac:(lia)). pose proof (Z.pow_le_mono_r 2 (k + 1) 31 ltac:(lia) ltac:(lia)).
  assert (Hs : Z.shiftr (2 ^ (i + 1)) 1 = 2 ^ i). { rewrite Z.shiftr_div_pow2; [lia|]. change (2 ^ 1) with 2. rewrite Hp Z.mul_comm Z.div_mul; lia. }
  rewrite Hs {1}/ctrue (proj2 (Z.eqb_neq _ _)); [lia|]. cbn [negb].
  wp_step. apply wp_modify. rewrite Hl lor_pow2; [lia|]. rewrite -Hl.
  wp_step. apply wp_measure; cbn [t_dev loops_ms set_loops_ms]; [exact Hok|lia| |].
  { pose proof (el_mono (loops_ms s + 2 ^ i + 1) (loops_ms s + 2 ^ (i + 1) + 1) ltac:(lia)). lia. }
  intros x d Hd ->. rewrite (_ : i + 1 - Z.of_nat (S lp) = i - Z.of_nat lp) in HQ; [lia|].
  wp_step. case_bool_decide as Hm; cbn [when].
  - apply wp_modify. cbn [set_t_dev set_loops_ms loops_ms t_dev ticks t_intr]. rewrite Hl land_not_pow2; [lia..|]. rewrite -Hl.
    pose proof (el_mono (loops_ms s + 2 ^ i + 1) (loops_ms s + 2 ^ (i + 1) + 1) ltac:(lia)).
    apply (IH i (2 * q)); try done. all: cbn [loops_ms set_loops_ms set_t_dev t_dev]. all: first [lia|rewrite Hl Hp; ring].
  - apply wp_ret. assert (Hdd : loops_ms s + 2 ^ i + 2 ^ i = loops_ms s + 2 ^ (i + 1)) by lia.
    apply (IH i (2 * q + 1)); try done. all: cbn [loops_ms set_loops_ms set_t_dev t_dev]. all: rewrite ?Hdd.
    all: first [done|by right|lia|rewrite Hl Hp; ring].
Qed.

Lemma wp_calibrate fuel (s : timer D) :
  too_long (2 ^ 31) → pit_ok (t_dev s) → (19 <= fuel)%nat →
  wp (calibrate_delay_loop fuel) (λ _ s', ∃ k L, 12 ≤ k ≤ 30 ∧ 2 ^ k ≤ L < 2 ^ (k + 1) ∧
    (L = 2 ^ 12 ∨ ¬ too_long L) ∧ too_long (L + 2 ^ (k - 8)) ∧
    loops_ms s' = u32 (L * 777) / 1000 ∧ ticks s' = ticks s ∧ t_intr s' = t_intr s) s.
Proof.
  intros Hend Hok Hf. rewrite /calibrate_delay_loop. wp_step. apply wp_modify. wp_step.
  apply (wp_coarse fuel 12); [done|exact Hok|lia|done|by left|lia|]. intros k d Hd Hk Hb Ht.
  wp_step. apply wp_modify. wp_step. apply wp_gets. wp_step. cbn [loops_ms set_loops_ms t_dev ticks t_intr].
  assert (Hp : 2 ^ (k + 1) = 2 * 2 ^ k) by (rewrite Z.pow_add_r; lia).
  rewrite (_ : Z.shiftr (2 ^ (k + 1)) 1 = 2 ^ k).
  { rewrite Z.shiftr_div_pow2; [lia|]. change (2 ^ 1) with 2. rewrite Hp Z.mul_comm Z.div_mul; lia. }
  assert (Hdd : 2 ^ k + 2 ^ k = 2 ^ (k + 1)) by lia. pose proof (Z.pow_pos_nonneg 2 k ltac:(lia) ltac:(lia)).
  pose proof (bracket_fits k ltac:(lia) Hb) as He.
  apply (wp_fine 8 k k 1); cbn [loops_ms set_loops_ms set_t_dev t_dev ticks t_intr]; rewrite ?Hdd; try done; try lia.
  { destruct Hb as [-> |Hb]; [by left|by right]. }
  intros L d' Hd' HL _ HLb HLt. wp_step. apply wp_modify. apply wp_modify. cbn. exists k, L. done.
Qed.

(** C35: The calibration of the delay loop ends, after at most 19 rounds of
    doubling and 8 of refinement, and measures the machine: [L] rounds take
    at most 1535 ticks of the timer (unless the search stays at its start,
    2^12), one step of an eight bit precision more takes longer.  The rounds
    of a millisecond are [L * 777 / 1000], with the product modulo 2^32. *)
Theorem calibrate_delay_loop_correct fuel (s : timer D) :
  1535 < elapsed (2 ^ 31 + 1) → pit_ok (t_dev s) → (19 <= fuel)%nat →
  ∃ s' k L, calibrate_delay_loop fuel s = Ret (tt, s') ∧ 12 ≤ k ≤ 30 ∧ 2 ^ k ≤ L < 2 ^ (k + 1) ∧
    (L = 2 ^ 12 ∨ elapsed (L + 1) ≤ 1535) ∧ 1535 < elapsed (L + 2 ^ (k - 8) + 1) ∧
    loops_ms s' = u32 (L * 777) / 1000 ∧ (L < 5527629 → loops_ms s' = L * 777 / 1000).
Proof.
  intros Hend Hok Hf. destruct (wp_elim _ _ _ (wp_calibrate fuel s Hend Hok Hf)) as ([] & s' & E & k & L & Hk & HL & Hb & Ht & HE & _).
  exists s', k, L. unfold too_long in *. split_and!; [exact E|lia..|destruct Hb; [by left|right; lia]|exact Ht|exact HE|].
  intros Hlt. rewrite HE u32_id //. pose proof (Z.pow_pos_nonneg 2 k ltac:(lia) ltac:(lia)). lia.
Qed.
End calibrate.

(** A machine that runs a hundred rounds in a tick: the ticks since the
    counter was loaded, and whether the high byte is read next. *)
Definition pit100 : Type := Z * bool.
Definition pit100_ports : PortDev pit100 := {|
  dev_in w port (d : Z * bool) := (if snd d then (65535 - fst d) / 256 else (65535 - fst d) mod 256, (fst d, negb (snd d)));
  dev_out w port v (d : Z * bool) := if port =? TMR_PORT then (if v =? 0 then (fst d, false) else (0, false)) else d
|}.
#[export] Instance pit100_time : TimeDev pit100 := {|
  time_ports := pit100_ports;
  dev_wait n (d : Z * bool) := (65535 - (65535 - fst d - n / 100) mod 65536, snd d)
|}.
#[export] Program Instance pit100_pit : PitDev pit100 (λ n, n / 100) := {|
  pit_ok (d : pit100) := True;
  pit_run (d : Z * bool) c := c = 65535 - fst d
|}.
Next Obligation. intros d _. reflexivity. Qed.
Next Obligation. intros [t b] c n ->. cbn. lia. Qed.
Next Obligation. intros [t b] c ->. cbn. done. Qed.

Definition ex_timer : timer pit100 := mk_timer pit100 (0, false) 0 0 (mk_intr [] [] [] [] []).

Lemma calibrate_witness : ∃ s' k L, calibrate_delay_loop 19 ex_timer = Ret (tt, s') ∧ 12 ≤ k ≤ 30 ∧ 2 ^ k ≤ L < 2 ^ (k + 1) ∧
  (L = 2 ^ 12 ∨ (L + 1) / 100 ≤ 1535) ∧ 1535 < (L + 2 ^ (k - 8) + 1) / 100 ∧
  loops_ms s' = u32 (L * 777) / 1000 ∧ (L < 5527629 → loops_ms s' = L * 777 / 1000).
Proof.
  apply (calibrate_delay_loop_correct (λ n, n / 100)).
  - intros a b [_ Hab]. by apply Z.div_le_mono.
  - done.
  - intros n Hn. pose proof (Z.div_mod n 100 ltac:(lia)). pose proof (Z.mod_pos_bound n 100 ltac:(lia)).
    assert (2 * n / 100 < 2 * (n / 100) + 2); [|lia]. apply Z.div_lt_upper_bound; lia.
  - vm_compute. discriminate.
  - vm_compute. reflexivity.
  - exact Logic.I.
  - lia.
Defined.

Example calibrate_ex : (λ r, match r with Ret (_, s) => loops_ms s | _ => 0 end) (calibrate_delay_loop 19 ex_timer) = 118949.
Proof. reflexivity. Qed.

(** ** The keyboard's ring *)

Section ring.
Context `{PortDev D}.

(** The codes the controller gives on successive reads of its data port, and
    the controller after them. *)
Fixpoint kb_reads (n : nat) (d : D) : list Z * D :=
  match n with
  | O => ([], d)
  | S n => let r := dev_in 1 KBR_DATA (snd (kb_reads n d)) in (fst (kb_reads n d) ++ [fst r mod 256], snd r)
  end.

Lemma kb_reads_length n d : length (fst (kb_reads n d)) = n.
Proof. induction n as [|n IH]; [done|]. rewrite /= length_app IH /=. lia. Qed.

(** [n] interrupts after the buffer was empty. *)
Definition kb_inv (d0 : D) (log : list msg) (n : nat) (s : keyb D) : Prop :=
  k_dev s = snd (kb_reads n d0) ∧ length (kb_buffer s) = 256%nat ∧ kb_len s = Z.of_nat n mod 256 ∧ k_log s = log ∧
  ∀ j, (n - 256 ≤ j < n)%nat → kb_buffer s !! (j mod 256)%nat = fst (kb_reads n d0) !! j.

Lemma kb_isr_inv d0 log n s : kb_inv d0 log n s → wp kb_isr (λ _ s', kb_inv d0 log (S n) s') s.
Proof.
  intros (Hd & Hb & Hl & Hlog & Hr). pose proof (Z.mod_pos_bound (Z.of_nat n) 256 ltac:(lia)).
  rewrite /kb_isr. wp_step. apply wp_zoom, wp_port_in. cbv zeta. wp_step. rewrite /wp /get. cbn [set_k_dev kb_len kb_buffer].
  destruct (Z.leb_spec KB_BUFLEN (kb_len s)); [unfold KB_BUFLEN in *; lia|].
  assert (Hi : Z.to_nat (kb_len s) = (n mod 256)%nat) by (rewrite Hl -(Nat2Z.inj_mod n 256) Nat2Z.id //).
  rewrite Hi. destruct (lookup_lt_is_Some_2 (kb_buffer s) (n mod 256)) as [old Ho].
  { rewrite Hb. apply Nat.mod_upper_bound. lia. }
  rewrite /bind Ho /=. rewrite /kb_inv /=. rewrite Hd. split_and!; [done|by rewrite length_insert| |done|].
  - rewrite Hl /u8. change (2 ^ 8) with 256. rewrite Zplus_mod_idemp_l. f_equal. lia.
  - intros j Hj. destruct (decide (j = n)) as [-> |Hn].
    + rewrite list_lookup_insert_eq; [by apply lookup_lt_Some in Ho|].
      rewrite lookup_app_r; [by rewrite kb_reads_length|]. by rewrite kb_reads_length Nat.sub_diag.
    + rewrite list_lookup_insert_ne.
      { intros E. change ((n mod 256)%nat = (j mod 256)%nat) in E.
        pose proof (Nat.div_mod_eq n 256). pose proof (Nat.div_mod_eq j 256). lia. }
      rewrite lookup_app_l; [rewrite kb_reads_length; lia|]. apply Hr. lia.
Qed.

(** C39: The keyboard's buffer is a ring of 256 codes.  Whatever the
    controller sends, after [n] interrupts the write index is [n mod 256] and
    within the buffer, the last 256 codes are there in order, and the overflow
    message of the source is never printed (an 8 bit length cannot reach 256). *)
Theorem kb_isr_ring n (s : keyb D) :
  length (kb_buffer s) = 256%nat → kb_len s = 0 →
  ∃ s', each n 0 (λ _, kb_isr) s = Ret (tt, s') ∧ k_log s' = k_log s ∧ length (kb_buffer s') = 256%nat ∧
    kb_len s' = Z.of_nat n mod 256 ∧
    ∀ j, (n - 256 ≤ j < n)%nat → kb_buffer s' !! (j mod 256)%nat = fst (kb_reads n (k_dev s)) !! j.
Proof.
  intros Hb Hl.
  assert (Hw : wp (each n 0 (λ _, kb_isr)) (λ _ s', kb_inv (k_dev s) (k_log s) n s') s).
  { apply (wp_each _ _ _ (λ i s', 0 ≤ i ∧ kb_inv (k_dev s) (k_log s) (Z.to_nat i) s')).
    - split; [lia|]. split_and!; try done. intros j Hj. lia.
    - intros j s1 _ [Hj Hi]. eapply wp_mono; [apply (kb_isr_inv _ _ _ _ Hi)|]. intros [] s2 H2. split; [lia|].
      by rewrite (_ : Z.to_nat (j + 1) = S (Z.to_nat j)); [lia|].
    - intros s1 [_ Hi]. by rewrite Z.add_0_l Nat2Z.id in Hi. }
  destruct (wp_elim _ _ _ Hw) as ([] & s' & E & _ & ? & ? & ? & ?). by exists s'.
Qed.
End ring.

Definition ex_keyb : keyb trace := mk_keyb trace [] (replicate 256 0) 0 (mk_intr [] [] [] [] []) [].

Lemma kb_isr_witness : ∃ s', each 300 0 (λ _, kb_isr) ex_keyb = Ret (tt, s') ∧ k_log s' = [] ∧
  length (kb_buffer s') = 256%nat ∧ kb_len s' = 300 mod 256 ∧
  ∀ j, (300 - 256 ≤ j < 300)%nat → kb_buffer s' !! (j mod 256)%nat = fst (kb_reads 300 ([] : trace)) !! j.
Proof. apply (kb_isr_ring 300 ex_keyb); reflexivity. Defined.
