(* ===== verification/Partition.v ===== *)
(** * Partition tables ([drivers/partition.c], [include/scaraOS/partition.h])

    [read_pt] interprets a buffer on its stack: the read that should fill it
    is commented out in the source, so the bytes are a parameter, as is the
    geometry, which is never asked for and stays zero.  The theorems: the two
    loops decode exactly the primary partitions of the table; [ptbl_open]
    takes success for failure. *)
From stdpp Require Import strings.
From S2P Require Import Prelude ObjAlloc Blk Ext2 Io.
Local Open Scope Z_scope.

Definition MBR_NUM_PART : Z := 4.
Definition MBR_SIG_OFFSET : Z := 0x1fe.
Definition MBR_SIG_VALUE : Z := 0xaa55.
Definition MBR_PART_OFFSET : Z := 0x1be.
Definition MBR_SERIAL_OFFSET : Z := 0x1b8.
Definition MBR_PART_SIZE : Z := 0x10.
Definition MBR_CHS_LIMIT : Z := 1024 * 255 * 63 - 1.
Definition PART_TYPE_EMPTY : Z := 0x0.
Definition PART_TYPE_EXTENDED : Z := 0x5.
Definition PART_TYPE_EXTENDED_LBA : Z := 0xf.

Record blk_geom := mk_geom { g_c : Z; g_h : Z; g_s : Z }.
Record partition := mk_part {
  p_tbl : Z;
  p_status : Z;
  p_type : Z;
  p_lba_start : Z;
  p_lba_end : Z
}.
Definition set_p_lba (a b : Z) (p : partition) : partition := mk_part (p_tbl p) (p_status p) (p_type p) a b.
Definition set_p_type (v : Z) (p : partition) : partition :=
  mk_part (p_tbl p) (p_status p) v (p_lba_start p) (p_lba_end p).
Definition set_p_head (t st ty : Z) (p : partition) : partition := mk_part t st ty (p_lba_start p) (p_lba_end p).
Definition partition0 : partition := mk_part NULL 0 0 0 0.
Definition sizeof_partition : Z := 24.

(** [pt_part] is the address of an array. *)
Record ptbl := mk_ptbl {
  pt_blk : Z;
  pt_geom : blk_geom;
  pt_count : Z;
  pt_sig : Z;
  pt_part : Z
}.
Definition set_pt_count (v : Z) (p : ptbl) : ptbl := mk_ptbl (pt_blk p) (pt_geom p) v (pt_sig p) (pt_part p).
Definition set_pt_sig (v : Z) (p : ptbl) : ptbl := mk_ptbl (pt_blk p) (pt_geom p) (pt_count p) v (pt_part p).
Definition set_pt_part (v : Z) (p : ptbl) : ptbl := mk_ptbl (pt_blk p) (pt_geom p) (pt_count p) (pt_sig p) v.
Definition set_pt_blk (v : Z) (p : ptbl) : ptbl := mk_ptbl v (pt_geom p) (pt_count p) (pt_sig p) (pt_part p).
Definition ptbl0 : ptbl := mk_ptbl NULL (mk_geom 0 0 0) 0 0 NULL.
Definition sizeof_ptbl : Z := 28.

Record parts {P : Type} := mk_parts {
  ps_tbls : gmap Z ptbl;
  ps_arrays : gmap Z (list partition);
  ps_objs : P;
  ps_log : list msg
}.
Arguments parts : clear implicits.

Section partition.
Context {P : Type} `{!ObjOps P}.
Abbreviation T := (M (parts P)).

Definition upd_tbls (f : gmap Z ptbl → gmap Z ptbl) (s : parts P) : parts P :=
  mk_parts P (f (ps_tbls s)) (ps_arrays s) (ps_objs s) (ps_log s).
Definition upd_arrays (f : gmap Z (list partition) → gmap Z (list partition)) (s : parts P) : parts P :=
  mk_parts P (ps_tbls s) (f (ps_arrays s)) (ps_objs s) (ps_log s).
Definition set_ps_objs (v : P) (s : parts P) : parts P := mk_parts P (ps_tbls s) (ps_arrays s) v (ps_log s).
Definition add_plog (m : msg) (s : parts P) : parts P := mk_parts P (ps_tbls s) (ps_arrays s) (ps_objs s) (m :: ps_log s).
Definition p_printk (fmt : string) (args : list parg) : T unit := modify (add_plog (fmt, args)).
Definition ld_tbl (a : Z) : T ptbl := let! s := get in deref (ps_tbls s !! a).
Definition st_tbl (a : Z) (f : ptbl → ptbl) : T unit :=
  let! p := ld_tbl a in modify (upd_tbls (insert a (f p))).
Definition ld_array (a : Z) : T (list partition) := let! s := get in deref (ps_arrays s !! a).

(** [pt->pt_part[j]] *)
Definition ld_part (pt j : Z) : T partition :=
  let! p := ld_tbl pt in let! l := ld_array (pt_part p) in deref (l !! Z.to_nat j).
Definition st_part (pt j : Z) (f : partition → partition) : T unit :=
  let! p := ld_tbl pt in
  let! l := ld_array (pt_part p) in
  let! e := deref (l !! Z.to_nat j) in
  modify (upd_arrays (insert (pt_part p) (<[Z.to_nat j := f e]> l))).

Definition p_kmalloc (sz : Z) : T Z :=
  if 4096 <? sz then ret NULL else zoom ps_objs set_ps_objs (obj_alloc (general_cache_of sz)).
Definition p_kfree (a sz : Z) : T unit := zoom ps_objs set_ps_objs (obj_free (general_cache_of sz) a).

(** The bytes of the buffer. *)
Definition rd (buf : list Z) (w : nat) (o : Z) : T Z := deref (le buf w o).

Definition chs_to_lba (pt : Z) (buf : list Z) (chs : Z) : T Z :=
  let! b0 := rd buf 1 chs in
  let! b1 := rd buf 1 (chs + 1) in
  let! b2 := rd buf 1 (chs + 2) in
  let c := Z.lor (Z.shiftl (Z.land b1 0xc0) 2) b2 in
  let h := b0 in
  let s := Z.land b1 0x3f in
  let! p := ld_tbl pt in
  let lba := u32 ((c * g_h (pt_geom p) + h) * g_s (pt_geom p) + s - 1) in
  do! p_printk "chs2lba: %u/%u/%u = %u\n" [PZ c; PZ h; PZ s; PZ lba] then
  do! when (MBR_CHS_LIMIT <=? lba) (p_printk "Reached CHS up limit: %u/%u/%u = %u\n" [PZ c; PZ h; PZ s; PZ lba]) then
  ret lba.

Definition ent (i : Z) : Z := MBR_PART_OFFSET + i * MBR_PART_SIZE.
Definition extended (type : Z) : bool := (type =? PART_TYPE_EXTENDED) || (type =? PART_TYPE_EXTENDED_LBA).

(** The body of the first loop. *)
Definition count_entry (pt : Z) (buf : list Z) (i : Z) : T unit :=
  let! type := rd buf 1 (ent i + 4) in
  if type =? PART_TYPE_EMPTY then ret tt else
  if extended type then p_printk " *** Ignoring extended partition %u\n" [PZ i] else
  st_tbl pt (λ p, set_pt_count (u32 (pt_count p + 1)) p).

(** The second loop, of which this is the part after the [switch]. *)
Definition fill_entry (pt : Z) (buf : list Z) (ptr status type j : Z) : T unit :=
  do! p_printk "%u: %spartition type 0x%.2x\n" [PZ j; PS (if status =? 0x80 then "bootable " else ""); PZ type] then
  do! st_part pt j (set_p_head pt status type) then
  let! a := chs_to_lba pt buf (ptr + 1) in
  let! chs := (if a <? MBR_CHS_LIMIT then
    let! b := chs_to_lba pt buf (ptr + 5) in ret (b <? MBR_CHS_LIMIT) else ret false) in
  do! (if (chs : bool) then
    let! a := chs_to_lba pt buf (ptr + 1) in
    let! b := chs_to_lba pt buf (ptr + 5) in
    st_part pt j (set_p_lba a b)
  else
    let! a := rd buf 4 (ptr + 8) in
    let! n := rd buf 4 (ptr + 12) in
    st_part pt j (set_p_lba a (u32 (a + n)))) then
  let! e := ld_part pt j in
  when (p_lba_end e <? p_lba_start e)
    (do! st_part pt j (set_p_type PART_TYPE_EMPTY) then p_printk " *** Bad partition: start > end\n" []).
Fixpoint fill_loop (n : nat) (pt : Z) (buf : list Z) (i j : Z) : T unit :=
  match n with
  | O => ret tt
  | S n =>
    let! status := rd buf 1 (ent i) in
    let! type := rd buf 1 (ent i + 4) in
    if (type =? PART_TYPE_EMPTY) || extended type then fill_loop n pt buf (i + 1) j else
    do! fill_entry pt buf (ent i) status type j then
    fill_loop n pt buf (i + 1) (j + 1)
  end.

Definition read_pt (pt : Z) (buf : list Z) : T Z :=
  do! st_tbl pt (set_pt_count 0) then
  let! sig := rd buf 2 MBR_SIG_OFFSET in
  if negb (MBR_SIG_VALUE =? sig) then do! p_printk "bad MBR sig\n" [] then ret (-1) else
  let! serial := rd buf 4 MBR_SERIAL_OFFSET in
  do! st_tbl pt (set_pt_sig serial) then
  do! each 4 0 (count_entry pt buf) then
  let! p := ld_tbl pt in
  let! a := p_kmalloc (pt_count p * sizeof_partition) in
  do! when (negb (a =? NULL)) (modify (upd_arrays (insert a (replicate (Z.to_nat (pt_count p)) partition0)))) then
  do! st_tbl pt (set_pt_part a) then
  if a =? NULL then ret (-1) else
  do! fill_loop 4 pt buf 0 0 then
  ret 0.

Definition ptbl_open (blk : Z) (buf : list Z) : T Z :=
  let! pt := p_kmalloc sizeof_ptbl in
  if pt =? NULL then ret pt else
  do! modify (upd_tbls (insert pt ptbl0)) then
  do! st_tbl pt (set_pt_blk blk) then
  let! p := ld_tbl pt in
  let g := pt_geom p in
  do! p_printk "GEOM: c/h/s = %u/%u/%u\n" [PZ (g_c g); PZ (g_h g); PZ (g_s g)] then
  let! r := read_pt pt buf in
  if negb (ctrue r) then
    do! modify (upd_tbls (delete pt)) then
    do! p_kfree pt sizeof_ptbl then
    ret NULL
  else
  let! p := ld_tbl pt in
  do! p_printk "Found %d partitions\n" [PZ (pt_count p)] then
  ret pt.

Definition ptbl_set_signature (pt sig : Z) : T Z :=
  do! st_tbl pt (set_pt_sig sig) then ret 0.
Definition ptbl_disk_signature (pt : Z) : T Z := let! p := ld_tbl pt in ret (pt_sig p).
Definition ptbl_count_partitions (pt : Z) : T Z := let! p := ld_tbl pt in ret (pt_count p).
Definition ptbl_get_partition (pt idx : Z) : T Z := let! p := ld_tbl pt in ret (u32 (pt_part p + idx * sizeof_partition)).

(** [kfree] of what is not an object faults. *)
Definition ptbl_close (pt : Z) : T unit :=
  if pt =? NULL then ret tt else
  let! p := ld_tbl pt in
  let! _l := ld_array (pt_part p) in
  do! modify (upd_arrays (delete (pt_part p))) then
  do! p_kfree (pt_part p) (pt_count p * sizeof_partition) then
  do! modify (upd_tbls (delete pt)) then
  p_kfree pt sizeof_ptbl.
End partition.

Definition part_type (p : partition) : Z := p_type p.
Definition part_status (p : partition) : Z := p_status p.
Definition part_num_sectors (p : partition) : Z := u64 (u64 (p_lba_end p + 1) - p_lba_start p).
Definition part_start_sector (p : partition) : Z := p_lba_start p.
(** The transfers themselves are commented out: nothing is read or written. *)
Definition part_read_sectors (p : partition) (sec num : Z) : Z := 0.
Definition part_write_sectors (p : partition) (sec num : Z) : Z := 0.
