(* ===== verification/PartitionProps.v ===== *)
(** * What the partition table promises ([drivers/partition.c]) *)
From stdpp Require Import strings.
From S2P Require Import Prelude ObjAlloc Blk Ext2 Io Partition.
Local Open Scope Z_scope.

(** ** The table as it is written on a disk *)

Definition rdv (buf : list Z) (w : nat) (o : Z) : Z := default 0 (le buf w o).
Arguments rdv : simpl never.
Definition chs_value (g : blk_geom) (buf : list Z) (o : Z) : Z :=
  let b1 := rdv buf 1 (o + 1) in
  u32 ((Z.lor (Z.shiftl (Z.land b1 0xc0) 2) (rdv buf 1 (o + 2)) * g_h g + rdv buf 1 o) * g_s g + Z.land b1 0x3f - 1).

(** Entry [i] is a primary partition. *)
Definition primary (buf : list Z) (i : Z) : bool :=
  negb ((rdv buf 1 (ent i + 4) =? PART_TYPE_EMPTY) || extended (rdv buf 1 (ent i + 4))).

(** What it says: the CHS fields count when both are below the limit. *)
Definition entry_of (pt : Z) (g : blk_geom) (buf : list Z) (i : Z) : partition :=
  let a := chs_value g buf (ent i + 1) in
  let b := chs_value g buf (ent i + 5) in
  let lba := rdv buf 4 (ent i + 8) in
  let se := if (a <? MBR_CHS_LIMIT) && (b <? MBR_CHS_LIMIT) then (a, b)
            else (lba, u32 (lba + rdv buf 4 (ent i + 12))) in
  mk_part pt (rdv buf 1 (ent i)) (if snd se <? fst se then PART_TYPE_EMPTY else rdv buf 1 (ent i + 4)) (fst se) (snd se).

Definition entries (pt : Z) (g : blk_geom) (buf : list Z) (l : list Z) : list partition :=
  entry_of pt g buf <$> filter (λ i, primary buf i = true) l.

Lemma entries_cons pt g buf i l : entries pt g buf (i :: l) =
  if primary buf i then entry_of pt g buf i :: entries pt g buf l else entries pt g buf l.
Proof.
  rewrite /entries. destruct (primary buf i) eqn:E; [rewrite filter_cons_True //|rewrite filter_cons_False //]. congruence.
Qed.

Section proofs.
Context {P : Type} `{!ObjOps P}.
Context (buf : list Z) (buf_len : length buf = 512%nat).

Lemma le_total w o : 0 ≤ o → o + Z.of_nat w ≤ 512 → le buf w o = Some (rdv buf w o).
Proof.
  intros Ho Hw. assert (is_Some (le buf w o)) as [v Hv]; [|by rewrite /rdv Hv].
  revert o Ho Hw. induction w as [|w IH]; intros o Ho Hw; [by eexists|]. cbn [le].
  destruct (Z.ltb_spec o 0); [lia|]. destruct (lookup_lt_is_Some_2 buf (Z.to_nat o)) as [b Hb]; [lia|].
  destruct (IH (o + 1)) as [h Hh]; [lia..|]. rewrite Hb Hh /=. by eexists.
Qed.

Lemma wp_rd w o (Q : Z → parts P → Prop) s :
  0 ≤ o → o + Z.of_nat w ≤ 512 → Q (rdv buf w o) s → wp (rd buf w o) Q s.
Proof. intros Ho Hw HQ. rewrite /rd (le_total w o Ho Hw). by apply wp_ret. Qed.

(** The states of a run of [read_pt]: the table [p] at [pt], with its array. *)
Context (pt : Z).
Definition same (s s' : parts P) : Prop :=
  ps_tbls s' = ps_tbls s ∧ ps_arrays s' = ps_arrays s ∧ ps_objs s' = ps_objs s.

Lemma wp_p_printk fmt args (Q : unit → parts P → Prop) s :
  (∀ s', same s s' → Q tt s') → wp (p_printk fmt args) Q s.
Proof. intros HQ. apply wp_modify, HQ. done. Qed.

Lemma wp_ld_tbl p (Q : ptbl → parts P → Prop) s : ps_tbls s !! pt = Some p → Q p s → wp (ld_tbl pt) Q s.
Proof. intros Hp HQ. rewrite /ld_tbl. wp_step. rewrite /wp /get Hp. exact HQ. Qed.

Lemma wp_st_tbl p f (Q : unit → parts P → Prop) s :
  ps_tbls s !! pt = Some p → Q tt (upd_tbls (insert pt (f p)) s) → wp (st_tbl pt f) Q s.
Proof. intros Hp HQ. rewrite /st_tbl. wp_step. apply (wp_ld_tbl p); [done|]. by apply wp_modify. Qed.

Lemma wp_chs p o (Q : Z → parts P → Prop) s :
  0 ≤ o → o + 3 ≤ 512 → ps_tbls s !! pt = Some p →
  (∀ s', same s s' → Q (chs_value (pt_geom p) buf o) s') → wp (chs_to_lba pt buf o) Q s.
Proof.
  intros Ho Hw Hp HQ. rewrite /chs_to_lba. do 3 (wp_step; apply wp_rd; [lia..|]). wp_step. apply (wp_ld_tbl p); [done|].
  wp_step. apply wp_p_printk. intros s1 (H1 & H2 & H3). wp_step. fold (chs_value (pt_geom p) buf o).
  destruct (MBR_CHS_LIMIT <=? _); cbn [when].
  - apply wp_p_printk. intros s2 (? & ? & ?). apply wp_ret, HQ. split_and!; congruence.
  - apply wp_ret, wp_ret, HQ. done.
Qed.

Definition at_array (p : ptbl) (l : list partition) (s : parts P) : Prop :=
  ps_tbls s !! pt = Some p ∧ ps_arrays s !! pt_part p = Some l.

Lemma at_array_same p l s s' : same s s' → at_array p l s → at_array p l s'.
Proof. intros (H1 & H2 & _). by rewrite /at_array H1 H2. Qed.

Lemma wp_st_part p l1 e l2 f (Q : unit → parts P → Prop) s :
  at_array p (l1 ++ e :: l2) s →
  (∀ s', ps_tbls s' = ps_tbls s → ps_objs s' = ps_objs s → at_array p (l1 ++ f e :: l2) s' → Q tt s') →
  wp (st_part pt (Z.of_nat (length l1)) f) Q s.
Proof.
  intros [Hp Ha] HQ. rewrite /st_part. wp_step. apply (wp_ld_tbl p); [done|]. wp_step.
  rewrite /ld_array. wp_step. rewrite {1}/wp /get Ha. apply wp_ret. wp_step. rewrite Nat2Z.id.
  apply (wp_deref _ e); [by apply list_lookup_middle|]. apply wp_modify, HQ; [done|done|].
  split; [done|]. cbn. by rewrite lookup_insert_eq insert_app_r_alt ?Nat.sub_diag.
Qed.

Lemma wp_ld_part p l1 e l2 (Q : partition → parts P → Prop) s :
  at_array p (l1 ++ e :: l2) s → Q e s → wp (ld_part pt (Z.of_nat (length l1))) Q s.
Proof.
  intros [Hp Ha] HQ. rewrite /ld_part. wp_step. apply (wp_ld_tbl p); [done|]. wp_step.
  rewrite /ld_array. wp_step. rewrite {1}/wp /get Ha. apply wp_ret. rewrite Nat2Z.id.
  apply (wp_deref _ e); [by apply list_lookup_middle|done].
Qed.

(** One entry of the second loop. *)
Lemma wp_fill_entry p l1 l2 i (Q : unit → parts P → Prop) s :
  0 ≤ i < 4 → at_array p (l1 ++ partition0 :: l2) s →
  (∀ s', ps_tbls s' = ps_tbls s → ps_objs s' = ps_objs s →
     at_array p (l1 ++ entry_of pt (pt_geom p) buf i :: l2) s' → Q tt s') →
  wp (fill_entry pt buf (ent i) (rdv buf 1 (ent i)) (rdv buf 1 (ent i + 4)) (Z.of_nat (length l1))) Q s.
Proof.
  intros Hi Hs HQ. assert (He : 446 ≤ ent i ∧ ent i + 16 ≤ 510) by (rewrite /ent /MBR_PART_OFFSET /MBR_PART_SIZE; lia).
  rewrite /fill_entry. wp_step. apply wp_p_printk. intros s1 S1. wp_step.
  apply (wp_st_part p _ partition0 l2); [by apply (at_array_same _ _ s)|]. intros s2 T2 O2 A2.
  assert (Hmid : ps_tbls s2 = ps_tbls s ∧ ps_objs s2 = ps_objs s) by (destruct S1 as (? & ? & ?); split; congruence).
  clear T2 O2 S1. set (a := chs_value (pt_geom p) buf (ent i + 1)). set (b := chs_value (pt_geom p) buf (ent i + 5)).
  set (chs := (a <? MBR_CHS_LIMIT) && (b <? MBR_CHS_LIMIT)).
  wp_step. apply (wp_chs p); [lia..|apply A2|]. intros s3 S3. fold a. wp_step.
  assert (A3 : at_array p (l1 ++ set_p_head pt (rdv buf 1 (ent i)) (rdv buf 1 (ent i + 4)) partition0 :: l2) s3)
    by by apply (at_array_same _ _ s2).
  eapply (wp_mono _ (λ c s4, c = chs ∧ same s3 s4)).
  { subst chs. destruct (a <? MBR_CHS_LIMIT); cbn [andb]; [|by apply wp_ret].
    wp_step. apply (wp_chs p); [lia..|apply A3|]. intros s4 S4. apply wp_ret. done. }
  intros c s4 [-> S4]. pose proof (at_array_same _ _ _ _ S4 A3) as A4.
  set (se := if chs then (a, b) else (rdv buf 4 (ent i + 8), u32 (rdv buf 4 (ent i + 8) + rdv buf 4 (ent i + 12)))).
  wp_step. eapply (wp_mono _ (λ _ s5, at_array p (l1 ++ mk_part pt (rdv buf 1 (ent i)) (rdv buf 1 (ent i + 4)) (fst se) (snd se) :: l2) s5 ∧
    ps_tbls s5 = ps_tbls s4 ∧ ps_objs s5 = ps_objs s4)).
  { subst se. destruct chs.
    - wp_step. apply (wp_chs p); [lia..|apply A4|]. intros s5 S5. fold a. pose proof (at_array_same _ _ _ _ S5 A4) as A5.
      wp_step. apply (wp_chs p); [lia..|apply A5|]. intros s6 S6. fold b.
      eapply wp_st_part; [apply (at_array_same _ _ _ _ S6 A5)|]. intros s7 T7 O7 A7. cbn. split; [exact A7|].
      destruct S5 as (? & ? & ?), S6 as (? & ? & ?). split; congruence.
    - do 2 (wp_step; apply wp_rd; [lia..|]). eapply wp_st_part; [exact A4|]. intros s7 T7 O7 A7. done. }
  intros [] s5 (A5 & T5 & O5). wp_step. eapply wp_ld_part; [exact A5|]. cbn [p_lba_end p_lba_start].
  destruct S3 as (? & ? & ?), S4 as (? & ? & ?), Hmid. unfold when. rewrite /entry_of -/a -/b -/chs in HQ.
  cbv zeta in HQ. fold se in HQ.
  destruct (snd se <? fst se).
  - wp_step. eapply wp_st_part; [exact A5|]. intros s6 T6 O6 A6. apply wp_p_printk. intros s7 S7.
    apply HQ; [destruct S7 as (? & ? & ?); congruence..|]. apply (at_array_same _ _ _ _ S7 A6).
  - apply wp_ret. apply HQ; [congruence..|exact A5].
Qed.

Lemma wp_fill_loop p n i l1 (Q : unit → parts P → Prop) s :
  0 ≤ i → i + Z.of_nat n ≤ 4 →
  at_array p (l1 ++ replicate (length (entries pt (pt_geom p) buf (seqZ i (Z.of_nat n)))) partition0) s →
  (∀ s', ps_tbls s' = ps_tbls s → ps_objs s' = ps_objs s →
     at_array p (l1 ++ entries pt (pt_geom p) buf (seqZ i (Z.of_nat n))) s' → Q tt s') →
  wp (fill_loop n pt buf i (Z.of_nat (length l1))) Q s.
Proof.
  revert i l1 s. induction n as [|n IH]; intros i l1 s Hi Hn Hs HQ; cbn [fill_loop].
  { apply wp_ret. by apply HQ. }
  rewrite Nat2Z.inj_succ seqZ_cons in Hs HQ; [lia..|]. rewrite Z.pred_succ -Z.add_1_r in Hs HQ.
  assert (He : 446 ≤ ent i ∧ ent i + 16 ≤ 510) by (rewrite /ent /MBR_PART_OFFSET /MBR_PART_SIZE; lia).
  do 2 (wp_step; apply wp_rd; [lia..|]). rewrite -(negb_involutive (_ || _)) -/(primary buf i).
  rewrite entries_cons in Hs HQ. destruct (primary buf i); cbn [negb].
  - wp_step.
    eapply wp_fill_entry; [lia|exact Hs|]. intros s1 T1 O1 A1.
    rewrite (_ : Z.of_nat (length l1) + 1 = Z.of_nat (length (l1 ++ [entry_of pt (pt_geom p) buf i]))).
    { rewrite length_app /=. lia. }
    apply IH; [lia..|by rewrite -app_assoc|]. intros s2 T2 O2 A2. apply HQ; [congruence..|]. by rewrite -app_assoc in A2.
  - apply IH; [lia..|exact Hs|exact HQ].
Qed.

(** The first loop counts the same entries. *)
Lemma wp_count_loop n i p (Q : unit → parts P → Prop) s :
  0 ≤ i → i + Z.of_nat n ≤ 4 → ps_tbls s !! pt = Some p → 0 ≤ pt_count p ≤ i →
  (∀ s', ps_tbls s' = <[pt := set_pt_count (pt_count p + Z.of_nat (length (entries pt (pt_geom p) buf (seqZ i (Z.of_nat n))))) p]> (ps_tbls s) →
     ps_objs s' = ps_objs s → ps_arrays s' = ps_arrays s → Q tt s') →
  wp (each n i (count_entry pt buf)) Q s.
Proof.
  revert i p s. induction n as [|n IH]; intros i p s Hi Hn Hp Hc HQ; cbn [each].
  { apply wp_ret, HQ; [|done|done]. rewrite Z.add_0_r insert_id // Hp. by destruct p. }
  rewrite Nat2Z.inj_succ seqZ_cons in HQ; [lia|]. rewrite Z.pred_succ -Z.add_1_r entries_cons /primary in HQ.
  assert (He : 446 ≤ ent i ∧ ent i + 16 ≤ 510) by (rewrite /ent /MBR_PART_OFFSET /MBR_PART_SIZE; lia).
  wp_step. rewrite /count_entry. wp_step. apply wp_rd; [lia..|].
  destruct (_ =? PART_TYPE_EMPTY); cbn [orb negb] in HQ; [apply wp_ret, (IH _ p); [lia..|done|lia|exact HQ]|].
  destruct (extended _); cbn [negb length] in HQ.
  - apply wp_p_printk. intros s1 (T1 & A1 & O1). apply (IH _ p); [lia..|congruence|lia|].
    intros s2 T2 O2 A2. apply HQ; congruence.
  - apply (wp_st_tbl p); [done|]. rewrite u32_id; [lia|].
    apply (IH _ (set_pt_count (pt_count p + 1) p)); [lia..|apply lookup_insert_eq|cbn; lia|].
    intros s2 T2 O2 A2. apply HQ; [|done|done]. rewrite T2 /= insert_insert_eq. f_equal. rewrite /set_pt_count /=. f_equal. lia.
Qed.
End proofs.

Section read.
Context {P : Type} `{!ObjOps P, !ObjSpec P}.

(** The table after [read_pt]: as many partitions as there are primary
    entries, the disk's serial number, the array at [a]. *)
Definition read_table (pt : Z) (p : ptbl) (buf : list Z) (a : Z) : ptbl :=
  mk_ptbl (pt_blk p) (pt_geom p) (Z.of_nat (length (entries pt (pt_geom p) buf (seqZ 0 4)))) (rdv buf 4 MBR_SERIAL_OFFSET) a.

Lemma entries_length pt g buf : (length (entries pt g buf (seqZ 0 4)) ≤ 4)%nat.
Proof. rewrite /entries length_fmap. apply (length_filter _ (seqZ 0 4)). Qed.

Lemma wp_read_pt pt p buf (s : parts P) A (Q : Z → parts P → Prop) :
  length buf = 512%nat → rdv buf 2 MBR_SIG_OFFSET = MBR_SIG_VALUE →
  ps_tbls s !! pt = Some p → objs_live (ps_objs s) A →
  (∀ s', ps_tbls s' = <[pt := read_table pt p buf NULL]> (ps_tbls s) → ps_arrays s' = ps_arrays s →
     objs_live (ps_objs s') A → Q (-1) s') →
  (∀ s' a, a ≠ NULL → a ∉ A → ps_tbls s' = <[pt := read_table pt p buf a]> (ps_tbls s) →
     objs_live (ps_objs s') ({[ a ]} ∪ A) → ps_arrays s' !! a = Some (entries pt (pt_geom p) buf (seqZ 0 4)) → Q 0 s') →
  wp (read_pt pt buf) Q s.
Proof.
  intros Hlen Hsig Hp HA HQ1 HQ0. rewrite /read_pt. wp_step. apply (wp_st_tbl pt p); [done|].
  wp_step. apply wp_rd; [done|done|done|]. rewrite Hsig Z.eqb_refl. cbn [negb].
  wp_step. apply wp_rd; [done|done|done|]. wp_step. eapply wp_st_tbl; [apply lookup_insert_eq|].
  wp_step. eapply (wp_count_loop buf Hlen pt 4 0); [lia|lia|apply lookup_insert_eq|done|].
  intros s1 T1 O1 A1. cbn in T1. rewrite !insert_insert_eq in T1. change (Z.of_nat 4) with 4 in T1. cbn in O1, A1.
  pose proof (entries_length pt (pt_geom p) buf) as Hle.
  wp_step. eapply wp_ld_tbl; [rewrite T1; apply lookup_insert_eq|]. cbn [pt_count set_pt_count set_pt_sig pt_geom].
  set (n := Z.of_nat (length (entries pt (pt_geom p) buf (seqZ 0 4)))) in *.
  rewrite Z.add_0_l. wp_step. rewrite /p_kmalloc /sizeof_partition. destruct (Z.ltb_spec 4096 (n * 24)); [lia|].
  apply wp_zoom. rewrite O1. eapply wp_mono; [apply (objs_alloc _ _ _ HA)|].
  intros a p1 [[-> HA1]|(Ha & _ & Hf & HA1)].
  - cbn [negb when NULL Z.eqb]. wp_step. apply wp_ret. wp_step. eapply wp_st_tbl; [cbn; rewrite T1; apply lookup_insert_eq|].
    apply wp_ret, HQ1; [|done|done]. cbn. by rewrite T1 insert_insert_eq.
  - assert (Hn : a ≠ NULL) by (unfold NULL; lia). rewrite (proj2 (Z.eqb_neq _ _) Hn). cbn [negb when].
    wp_step. apply wp_modify. wp_step. eapply wp_st_tbl; [cbn; rewrite T1; apply lookup_insert_eq|]. wp_step.
    eapply (wp_fill_loop buf Hlen pt (read_table pt p buf a) 4 0 []); [lia..| |].
    + split; cbn; [rewrite T1 insert_insert_eq|]; rewrite lookup_insert_eq // /n Nat2Z.id //.
    + intros s2 T2 O2 [_ A2]. apply wp_ret. apply (HQ0 _ a Hn Hf).
      * rewrite T2 /= T1 insert_insert_eq. done.
      * by rewrite O2.
      * exact A2.
Qed.

Lemma wp_read_pt_bad pt p buf (s : parts P) (Q : Z → parts P → Prop) :
  length buf = 512%nat → rdv buf 2 MBR_SIG_OFFSET ≠ MBR_SIG_VALUE → ps_tbls s !! pt = Some p →
  (∀ s', ps_tbls s' = <[pt := set_pt_count 0 p]> (ps_tbls s) → ps_arrays s' = ps_arrays s → ps_objs s' = ps_objs s → Q (-1) s') →
  wp (read_pt pt buf) Q s.
Proof.
  intros Hlen Hsig Hp HQ. rewrite /read_pt. wp_step. apply (wp_st_tbl pt p); [done|].
  wp_step. apply wp_rd; [done|done|done|]. rewrite (proj2 (Z.eqb_neq _ _)); [congruence|]. cbn [negb].
  wp_step. apply wp_p_printk. intros s1 (T1 & A1 & O1). by apply wp_ret, HQ.
Qed.

(** C36: Reading a partition table decodes it: from a buffer with the boot
    signature the two loops produce, in the order of the table and without an
    access outside the array, the primary partitions only (not the empty and
    not the extended entries), with the sectors of the CHS fields where both
    are below the limit and of the LBA fields otherwise, and an entry that
    ends before it starts marked empty.  Other tables are untouched, and the
    array is the only new object. *)
Theorem read_pt_correct pt p buf (s : parts P) A :
  length buf = 512%nat → rdv buf 2 MBR_SIG_OFFSET = MBR_SIG_VALUE →
  ps_tbls s !! pt = Some p → objs_live (ps_objs s) A →
  ∃ r s', read_pt pt buf s = Ret (r, s') ∧
    (r = -1 ∧ objs_live (ps_objs s') A ∧ ps_tbls s' = <[pt := read_table pt p buf NULL]> (ps_tbls s) ∨
     r = 0 ∧ ∃ a, a ≠ NULL ∧ a ∉ A ∧ objs_live (ps_objs s') ({[ a ]} ∪ A) ∧
       ps_tbls s' = <[pt := read_table pt p buf a]> (ps_tbls s) ∧
       ps_arrays s' !! a = Some (entry_of pt (pt_geom p) buf <$> filter (λ i, primary buf i = true) [0; 1; 2; 3])).
Proof.
  intros Hlen Hsig Hp HA. apply (wp_elim (read_pt pt buf) (λ r s', _) s), (wp_read_pt pt p buf s A); [done..| |].
  - intros s' T1 A1 O1. by left.
  - intros s' a Ha Hf T1 O1 A1. right. split; [done|]. by exists a.
Qed.

(** [ptbl_open] never opens a table: it takes the success of [read_pt]
    for its failure.  Whatever the buffer holds, it returns NULL (and for a
    good table that was read the array of partitions stays allocated), or a
    table without partitions. *)
Theorem ptbl_open_inverted blk buf (s : parts P) A :
  length buf = 512%nat → objs_live (ps_objs s) A →
  ∃ r s', ptbl_open blk buf s = Ret (r, s') ∧
    (r = NULL ∨ ∃ p, ps_tbls s' !! r = Some p ∧ pt_part p = NULL) ∧
    (objs_live (ps_objs s') A ∨ ∃ a, a ≠ NULL ∧ a ∉ A ∧
       (r ≠ NULL ∧ a = r ∨ r = NULL ∧ rdv buf 2 MBR_SIG_OFFSET = MBR_SIG_VALUE) ∧ objs_live (ps_objs s') ({[ a ]} ∪ A)).
Proof.
  intros Hlen HA. apply (wp_elim (ptbl_open blk buf) (λ r s', _) s). match goal with |- wp _ ?R _ => set (Q := R) end.
  rewrite /ptbl_open. wp_step.
  rewrite /p_kmalloc. change (4096 <? sizeof_ptbl) with false. apply wp_zoom.
  eapply wp_mono; [apply (objs_alloc _ _ _ HA)|]. intros pt p1 [[-> HA1]|(Hpt & _ & Hf & HA1)].
  { apply wp_ret. split; by left. }
  assert (Hn : pt ≠ NULL) by (unfold NULL; lia). rewrite (proj2 (Z.eqb_neq _ _) Hn).
  wp_step. apply wp_modify. wp_step. eapply wp_st_tbl; [apply lookup_insert_eq|].
  wp_step. eapply wp_ld_tbl; [apply lookup_insert_eq|]. wp_step. apply wp_p_printk. intros s1 (T1 & A1 & O1).
  cbn in T1, O1. rewrite insert_insert_eq in T1.
  assert (Hout : ∀ q s2, ps_tbls s2 = <[pt := q]> (ps_tbls s1) → pt_part q = NULL → objs_live (ps_objs s2) ({[pt]} ∪ A) →
    wp (let! p := ld_tbl pt in do! p_printk "Found %d partitions\n" [PZ (pt_count p)] then ret pt) Q s2).
  { intros q s2 T2 Hq O2. wp_step. eapply wp_ld_tbl; [rewrite T2; apply lookup_insert_eq|]. wp_step. apply wp_p_printk.
    intros s3 (T3 & _ & O3). apply wp_ret. split; [right; exists q; by rewrite T3 T2 lookup_insert_eq|].
    right. exists pt. rewrite O3. split_and!; [done|done|by left|done]. }
  wp_step. destruct (decide (rdv buf 2 MBR_SIG_OFFSET = MBR_SIG_VALUE)) as [Hsig|Hsig].
  - eapply (wp_read_pt pt _ buf _ ({[pt]} ∪ A) _ Hlen Hsig); [rewrite T1; apply lookup_insert_eq|by rewrite O1| |].
    + intros s2 T2 A2 O2. cbn [ctrue Z.eqb negb]. eapply Hout; [exact T2|done|exact O2].
    + intros s2 a Ha Hfa T2 O2 A2. cbn [ctrue Z.eqb negb]. wp_step. apply wp_modify. wp_step. apply wp_zoom.
      eapply wp_mono; [apply (objs_free _ _ _ pt O2); set_solver|]. intros [] p3 HA3. apply wp_ret. split; [by left|].
      right. exists a. split_and!; [done|set_solver|by right|].
      cbn. by rewrite (_ : {[a]} ∪ A = ({[a]} ∪ ({[pt]} ∪ A)) ∖ {[pt]}); [set_solver|].
  - eapply (wp_read_pt_bad pt _ buf _ _ Hlen Hsig); [rewrite T1; apply lookup_insert_eq|].
    intros s2 T2 A2 O2. cbn [ctrue Z.eqb negb]. eapply Hout; [exact T2|done|by rewrite O2 O1].
Qed.
End read.

(** A table with one bootable Linux partition and an extended one. *)
Definition ex_mbr : list Z :=
  replicate 440 0 ++ [1; 2; 3; 4; 0; 0] ++
  [0x80; 1; 1; 0; 0x83; 254; 0xff; 0xff; 63; 0; 0; 0; 100; 0; 0; 0] ++ [0; 0; 0; 0; 5; 0; 0; 0; 0; 0; 0; 0; 0; 0; 0; 0] ++
  replicate 32 0 ++ [0x55; 0xaa].
Definition ex_parts : parts opool := mk_parts opool {[ 0x1000 := ptbl0 ]} ∅ [0x2000; 0x3000] [].

Lemma ex_parts_live : objs_live (ps_objs ex_parts) ∅.
Proof. split_and!; [decide_closed| |set_solver]. intros v Hv. split; [|set_solver].
  repeat (apply elem_of_cons in Hv as [-> |Hv]; [split; [lia|done]|]). by apply elem_of_nil in Hv. Qed.

Lemma read_pt_witness : ∃ r s', read_pt 0x1000 ex_mbr ex_parts = Ret (r, s') ∧
  (r = -1 ∧ objs_live (ps_objs s') ∅ ∧ ps_tbls s' = <[0x1000 := read_table 0x1000 ptbl0 ex_mbr NULL]> (ps_tbls ex_parts) ∨
   r = 0 ∧ ∃ a, a ≠ NULL ∧ a ∉ (∅ : gset Z) ∧ objs_live (ps_objs s') ({[ a ]} ∪ ∅) ∧
     ps_tbls s' = <[0x1000 := read_table 0x1000 ptbl0 ex_mbr a]> (ps_tbls ex_parts) ∧
     ps_arrays s' !! a = Some (entry_of 0x1000 (mk_geom 0 0 0) ex_mbr <$> filter (λ i, primary ex_mbr i = true) [0; 1; 2; 3])).
Proof.
  apply (read_pt_correct 0x1000 ptbl0 ex_mbr ex_parts ∅).
  - reflexivity.
  - reflexivity.
  - reflexivity.
  - exact ex_parts_live.
Defined.

Lemma ptbl_open_witness : ∃ r s', ptbl_open 7 ex_mbr ex_parts = Ret (r, s') ∧
  (r = NULL ∨ ∃ p, ps_tbls s' !! r = Some p ∧ pt_part p = NULL) ∧
  (objs_live (ps_objs s') ∅ ∨ ∃ a, a ≠ NULL ∧ a ∉ (∅ : gset Z) ∧
     (r ≠ NULL ∧ a = r ∨ r = NULL ∧ rdv ex_mbr 2 MBR_SIG_OFFSET = MBR_SIG_VALUE) ∧ objs_live (ps_objs s') ({[ a ]} ∪ ∅)).
Proof. apply (ptbl_open_inverted 7 ex_mbr ex_parts ∅); [reflexivity|exact ex_parts_live]. Defined.

Example read_pt_ex : (λ r, match r with Ret (_, s) => ps_arrays s !! 0x2000 | _ => None end) (read_pt 0x1000 ex_mbr ex_parts) =
  Some [mk_part 0x1000 0x80 0x83 0 62].
Proof. reflexivity. Qed.
