(* ===== verification/Setup.v ===== *)
(** * The start of the kernel ([arch-ia32/setup.c], [kernel/init.c])

    The check of what the boot loader has passed, the identification of the
    processor, the table of initialisation functions, and the order in which
    [setup] and the first task start the subsystems, whose own functions are
    modelled in their files and operations here. *)
From Stdlib Require Import String.
From S2P Require Import Prelude PageAlloc Kmem Buddy Paging Ext2 Boot Regs ObjAlloc Vma Exec.
Open Scope Z_scope.

(** ** The boot loader *)

Definition MULTIBOOT_BOOTLOADER_MAGIC : Z := 0x2BADB002.
Definition MBF_CMDLINE : Z := 0x04.
Definition MBF_AOUT : Z := 0x10.
Definition MBF_ELF : Z := 0x20.
Definition MBF_MMAP : Z := 0x40.

(** The fields of [multiboot_info_t] that are used. *)
Record multiboot_info := mk_mbi { mb_flags : Z; mb_cmdline : Z; mb_mmap_length : Z; mb_mmap : Z }.

Definition multiboot_check (pgd pgt magic : Z) (mbi : multiboot_info) : BT Z :=
  if negb (magic =? MULTIBOOT_BOOTLOADER_MAGIC) then ret 1 else
  if ctrue (Z.land (mb_flags mbi) MBF_AOUT) && ctrue (Z.land (mb_flags mbi) MBF_ELF) then ret 2 else
  if Z.land (mb_flags mbi) MBF_MEM =? 0 then ret 3 else
  do! ia32_setup_initmem pgd pgt then
  ret 0.

(** ** The processor *)

Inductive parg := AInt (v : Z) | AStr (s : list Z) | ALit (s : string).

Definition cpuid_str : list string := (
  ["fpu"; "vme"; "de"; "pse"; "tse"; "msr2"; "pae"; "mce"; "cx8"; "apic"; "_r1"; "sep"; "mtrr"; "pge"; "mca"; "cmov";
   "pat"; "pse36"; "psn"; "clflush"; "_r2"; "dts"; "acpi"; "mmx"; "fxsr"; "sse"; "sse2"; "ss"; "htt"; "tm"; "ia64"; "pbe"])%string.

Record cpu_info := mk_cpu { features : Z; loops_ms : Z }.

(** The bytes of a register, as [memcpy] takes them. *)
Definition reg_bytes (v : Z) : list Z := [u8 v; u8 (Z.shiftr v 8); u8 (Z.shiftr v 16); u8 (Z.shiftr v 24)].

Section cpuid.
Context {S : Type} (cpuid : Z → Z * Z * Z * Z) (printk : string → list parg → M S unit).
Context (this_cpu : S → cpu_info) (set_cpu : cpu_info → S → S).

Definition cpuid_init : M S unit :=
  let '(eax, ebx, ecx, edx) := cpuid 0 in
  let cpuid_level := eax in
  let desc := (reg_bytes ebx ++ reg_bytes edx ++ reg_bytes ecx)%list in
  let '(eax, ebx, ecx, edx) := cpuid 1 in
  do! modify (λ s, set_cpu (mk_cpu edx (loops_ms (this_cpu s))) s) then
  let! s := get in
  let ms := loops_ms (this_cpu s) in
  do! printk "cpu: %lu.%luMHz %s cpuid=%i "%string
    [AInt (u32 (ms * 10) / 5000); AInt ((u32 (ms * 10) / 50) mod 100); AStr desc; AInt (s32 cpuid_level)] then
  do! each 32 0 (λ i, when (ctrue (Z.land edx (u32 (Z.shiftl 1 i))))
    (let! n := deref (cpuid_str !! Z.to_nat i) in printk "%s "%string [ALit n])) then
  printk "\n"%string [].
End cpuid.

(** ** Initialisation functions *)

Section initcalls.
Context {S : Type} (table : Z → option Z) (call : Z → M S unit).

(** [for(fptr = start; fptr < end; fptr++)] *)
Fixpoint initcalls_loop (fuel : nat) (fptr fend : Z) : M S unit :=
  match fuel with
  | O => nofuel
  | Datatypes.S fuel =>
    if fptr <? fend then
      let! fn := deref (table fptr) in
      do! call fn then
      initcalls_loop fuel (fptr + 4) fend
    else ret tt
  end.
Definition do_initcalls (fuel : nat) (__initcall_start __initcall_end : Z) : M S unit :=
  initcalls_loop fuel __initcall_start __initcall_end.
End initcalls.

(** ** The order of the start *)

Class StartOps (S : Type) := {
  k_serio_init : M S unit; k_vga_preinit : M S unit; k_idt_init : M S unit;
  k_printk : string → list parg → M S unit;
  k_calibrate_delay_loop : M S unit; k_cpuid_init : M S unit; k_ia32_mm_init : Z → Z → M S unit;
  k_sched_init : M S unit; k_gdt_finalize : M S unit; k_pic_init : M S unit; k_pit_start_timer1 : M S unit;
  k_fdt_init : M S unit; k_kernel_thread : string → M S Z; k_sti : M S unit; k_sched : M S unit;
  k_blk_init : M S unit; k_vfs_init : M S unit; k_pci_init : M S unit; k_do_initcalls : M S unit;
  k_vfs_mount_root : string → string → M S Z; k_kernel_exec : string → M S exec_result
}.

Section start.
Context {S : Type} `{!StartOps S}.

(** Up to the idle loop. *)
Definition setup (mbi : multiboot_info) : M S unit :=
  do! k_serio_init then
  do! k_vga_preinit then
  do! k_idt_init then
  do! k_printk "ScaraOS v0.0.7 for IA-32"%string [] then
  do! when (ctrue (Z.land (mb_flags mbi) MBF_CMDLINE)) (k_printk ": %s"%string [AInt (__va (mb_cmdline mbi))]) then
  do! k_printk "\n"%string [] then
  do! k_calibrate_delay_loop then
  do! k_cpuid_init then
  do! bug_on (Z.land (mb_flags mbi) MBF_MMAP =? 0) then
  do! k_ia32_mm_init (__va (mb_mmap mbi)) (mb_mmap_length mbi) then
  do! k_sched_init then
  do! k_gdt_finalize then
  do! k_pic_init then
  do! k_pit_start_timer1 then
  do! k_fdt_init then
  let! _ := k_kernel_thread "[init]"%string in
  do! k_sti then
  k_sched.

(** A program that is loaded does not come back. *)
Definition exec_or {A} (path : string) (k : Z → M S (A + ia32_tss)) : M S (A + ia32_tss) :=
  let! x := k_kernel_exec path in
  match x with ExecUser tss => ret (inr tss) | ExecRet r => k r end.

Definition init_task : M S (Z + ia32_tss) :=
  do! k_blk_init then
  do! k_vfs_init then
  do! k_pci_init then
  do! k_do_initcalls then
  let! r := k_vfs_mount_root "ext2"%string "floppy0"%string in
  do! when (ctrue r) panic then
  exec_or "/bin/bash"%string (λ _,
  exec_or "/sbin/init"%string (λ _,
  exec_or "/bin/cat"%string (λ ret_,
  do! k_printk "exec: /sbin/init: %i\n"%string [AInt ret_] then
  ret (inl (u32 ret_))))).
End start.

(** ** Theorems *)

(** The check accepts exactly a compliant loader that tells the size of the
    memory and not two kinds of symbols; otherwise nothing is touched. *)
Theorem multiboot_check_correct pgd pgt magic mbi s s' : ia32_setup_initmem pgd pgt s = Ret (tt, s') →
  let ok := magic = MULTIBOOT_BOOTLOADER_MAGIC ∧ Z.testbit (mb_flags mbi) 0 = true ∧
            (Z.testbit (mb_flags mbi) 4 && Z.testbit (mb_flags mbi) 5) = false in
  (ok → multiboot_check pgd pgt magic mbi s = Ret (0, s')) ∧
  (¬ ok → ∃ e, multiboot_check pgd pgt magic mbi s = Ret (e, s) ∧ 1 ≤ e ≤ 3).
Proof.
  intros E. assert (Hbit : ∀ f k, 0 ≤ k → (Z.land f (2 ^ k) =? 0) = negb (Z.testbit f k)).
  { intros f k Hk. rewrite -(Z.shiftl_1_l k). destruct (Z.testbit f k) eqn:Eb; cbn [negb].
    - apply Z.eqb_neq. intros H0. apply (f_equal (λ x, Z.testbit x k)) in H0.
      rewrite Z.land_spec Z.shiftl_spec // Z.sub_diag Eb Z.bits_0 in H0. done.
    - apply Z.eqb_eq, Z.bits_inj'. intros i Hi. rewrite Z.land_spec Z.bits_0 Z.shiftl_spec //.
      destruct (decide (i = k)) as [-> |Hne]; [by rewrite Eb|]. replace (Z.testbit 1 (i - k)) with false; [by rewrite andb_false_r|].
      symmetry. destruct (decide (i < k)); [apply Z.testbit_neg_r; lia|]. rewrite (Z.bits_above_log2 1) //; cbn; lia. }
  rewrite /multiboot_check /ctrue. pose proof (Hbit (mb_flags mbi) 4 ltac:(lia)) as H4. pose proof (Hbit (mb_flags mbi) 5 ltac:(lia)) as H5.
  pose proof (Hbit (mb_flags mbi) 0 ltac:(lia)) as H0. change (2 ^ 4) with MBF_AOUT in H4. change (2 ^ 5) with MBF_ELF in H5. change (2 ^ 0) with MBF_MEM in H0.
  rewrite H4 H5 H0 !negb_involutive. destruct (Z.eqb_spec magic MULTIBOOT_BOOTLOADER_MAGIC) as [Em|Em]; cbn [negb];
    [|split; [by intros []|intros _; by exists 1]].
  destruct (Z.testbit (mb_flags mbi) 4 && Z.testbit (mb_flags mbi) 5); [split; [by intros (_ & _ & ?)|intros _; by exists 2]|].
  destruct (Z.testbit (mb_flags mbi) 0); cbn [negb]; [|split; [by intros (_ & ? & _)|intros _; by exists 3]].
  split; [intros _; by rewrite /bind E|intros H; by destruct H].
Qed.

(** The initialisation functions are called once each, in the order of the
    table. *)
Fixpoint call_all {S} (call : Z → M S unit) (fns : list Z) : M S unit :=
  match fns with [] => ret tt | f :: fns => do! call f then call_all call fns end.

Theorem do_initcalls_correct {S} table (call : Z → M S unit) fns start s :
  (∀ i f, fns !! i = Some f → table (start + 4 * Z.of_nat i) = Some f) →
  do_initcalls table call (Datatypes.S (length fns)) start (start + 4 * Z.of_nat (length fns)) s = call_all call fns s.
Proof.
  rewrite /do_initcalls. revert start s. induction fns as [|f fns IH]; intros start s Ht; cbn [length initcalls_loop call_all].
  - rewrite (proj2 (Z.ltb_ge _ _)); [lia|done].
  - rewrite (proj2 (Z.ltb_lt _ _)); [lia|]. pose proof (Ht 0%nat f eq_refl) as H0. rewrite Z.add_0_r in H0. rewrite H0 /bind /=.
    destruct (call f s) as [[[] s1]| | | |]; try done.
    replace (start + 4 * Z.of_nat (Datatypes.S (length fns))) with (start + 4 + 4 * Z.of_nat (length fns)) by lia.
    apply IH. intros i g Hg. rewrite -(Ht (Datatypes.S i) g Hg). f_equal. lia.
Qed.

(** The start relies on more than the check asks for: a loader that passes the
    check without a memory map stops the kernel, after it has touched
    the console, the interrupt table and the timer only. *)
Theorem setup_needs_map {S : Type} `{!StartOps S} mbi (s : S) :
  (∀ f l s, ∃ s', k_printk f l s = Ret (tt, s')) →
  (∀ op, op ∈ [k_serio_init; k_vga_preinit; k_idt_init; k_calibrate_delay_loop; k_cpuid_init] → ∀ s, ∃ s', op s = Ret (tt, s')) →
  Z.land (mb_flags mbi) MBF_MMAP = 0 → setup mbi s = Bug.
Proof.
  intros Hp Hop Hm. rewrite /setup /bind.
  destruct (Hop k_serio_init ltac:(set_solver) s) as [s1 ->]. destruct (Hop k_vga_preinit ltac:(set_solver) s1) as [s2 ->].
  destruct (Hop k_idt_init ltac:(set_solver) s2) as [s3 ->]. destruct (Hp "ScaraOS v0.0.7 for IA-32"%string [] s3) as [s4 ->].
  assert (∃ s5, when (ctrue (Z.land (mb_flags mbi) MBF_CMDLINE)) (k_printk ": %s"%string [AInt (__va (mb_cmdline mbi))]) s4 = Ret (tt, s5)) as [s5 ->].
  { destruct (ctrue _); cbn [when]; [apply Hp|by exists s4]. }
  destruct (Hp "\n"%string [] s5) as [s6 ->]. destruct (Hop k_calibrate_delay_loop ltac:(set_solver) s6) as [s7 ->].
  destruct (Hop k_cpuid_init ltac:(set_solver) s7) as [s8 ->]. by rewrite Hm.
Qed.

(** The first task: without a root file system the kernel stops; otherwise
    the first of the three programs that can be loaded is run. *)
Theorem init_task_correct {S : Type} `{!StartOps S} (s s1 : S) r s2 :
  (do! k_blk_init then do! k_vfs_init then do! k_pci_init then k_do_initcalls) s = Ret (tt, s1) →
  k_vfs_mount_root "ext2"%string "floppy0"%string s1 = Ret (r, s2) →
  (r ≠ 0 → init_task s = Bug) ∧
  (r = 0 → ∀ pre p tss s3, ["/bin/bash"; "/sbin/init"; "/bin/cat"]%string = (pre ++ p :: drop (Datatypes.S (length pre)) ["/bin/bash"; "/sbin/init"; "/bin/cat"]%string)%list →
     (∀ q s, q ∈ pre → ∃ e, k_kernel_exec q s = Ret (ExecRet e, s)) → k_kernel_exec p s2 = Ret (ExecUser tss, s3) →
     init_task s = Ret (inr tss, s3)).
Proof.
  intros Hi Hm. rewrite /bind in Hi. rewrite /init_task /bind.
  destruct (k_blk_init s) as [[[] t1]| | | |]; try done. destruct (k_vfs_init t1) as [[[] t2]| | | |]; try done.
  destruct (k_pci_init t2) as [[[] t3]| | | |]; try done. rewrite Hi Hm. split.
  - intros Hr. rewrite /ctrue (proj2 (Z.eqb_neq _ _) Hr). done.
  - intros -> pre p tss s3 Hl Hpre Hp. cbn [ctrue Z.eqb negb when]. rewrite /ret /exec_or /bind.
    destruct pre as [|q1 pre]; [cbn in Hl; injection Hl as <-; by rewrite Hp|]. cbn in Hl. injection Hl as <- Hl.
    destruct (Hpre "/bin/bash"%string s2 ltac:(set_solver)) as [e1 ->].
    destruct pre as [|q2 pre]; [cbn in Hl; injection Hl as <-; by rewrite Hp|]. cbn in Hl. injection Hl as <- Hl.
    destruct (Hpre "/sbin/init"%string s2 ltac:(set_solver)) as [e2 ->].
    destruct pre as [|q3 pre]; [cbn in Hl; injection Hl as <-; by rewrite Hp|]. cbn in Hl. injection Hl as <- Hl. by destruct pre.
Qed.

(** The processor's features are printed by name, those whose bits are set and
    in the order of the bits, and kept for later. *)
Definition cpu_log : Type := cpu_info * list (string * list parg).
Definition log_printk (f : string) (l : list parg) : M cpu_log unit := modify (λ s, (fst s, (snd s ++ [(f, l)])%list)).
Definition feature_names (edx : Z) (n : nat) : list string :=
  omap (λ i, if ctrue (Z.land edx (u32 (Z.shiftl 1 i))) then cpuid_str !! Z.to_nat i else None) (seqZ 0 (Z.of_nat n)).

Lemma feature_names_S edx n : feature_names edx (Datatypes.S n) =
  (feature_names edx n ++ omap (λ i, if ctrue (Z.land edx (u32 (Z.shiftl 1 i))) then cpuid_str !! Z.to_nat i else None) [Z.of_nat n])%list.
Proof.
  rewrite /feature_names (_ : Z.of_nat (Datatypes.S n) = Z.of_nat n + 1); [lia|]. rewrite seqZ_app; [lia|lia|].
  rewrite omap_app. done.
Qed.

Theorem cpuid_init_features cpuid c log a b d edx : cpuid 1 = (a, b, d, edx) →
  ∃ first, cpuid_init cpuid log_printk fst (λ c s, (c, snd s)) (c, log) =
    Ret (tt, (mk_cpu edx (loops_ms c), (log ++ first :: ((λ n, ("%s "%string, [ALit n])) <$> feature_names edx 32) ++ [("\n"%string, [])])%list)).
Proof.
  intros E1. destruct (cpuid 0) as [[[a0 b0] d0] e0] eqn:E0.
  match goal with |- ∃ first, ?m ?s = Ret (tt, @?P first) => assert (Hw : wp m (λ _ s', ∃ first, s' = P first) s) end.
  2: { destruct (wp_elim _ _ _ Hw) as ([] & s' & E & first & ->). by exists first. }
  rewrite /cpuid_init E0 E1. apply wp_bind, wp_modify, wp_bind, wp_gets, wp_bind, wp_modify, wp_bind. cbn [fst snd loops_ms].
  match goal with |- wp _ _ (?c1, (log ++ [?f])%list) => set (first := f); set (c' := c1) end.
  apply (wp_each _ _ _ (λ j s, s = (c', (log ++ first :: ((λ n, ("%s "%string, [ALit n])) <$> feature_names edx (Z.to_nat j)))%list))).
  - done.
  - intros j s Hj ->. rewrite (_ : Z.to_nat (j + 1) = Datatypes.S (Z.to_nat j)); [lia|]. rewrite feature_names_S Z2Nat.id; [lia|]. cbn [omap list_omap].
    destruct (ctrue _); cbn [when].
    + destruct (lookup_lt_is_Some_2 cpuid_str (Z.to_nat j)) as [n Hn]; [cbn; lia|]. rewrite Hn. apply wp_bind, wp_ret, wp_modify.
      cbn [fst snd]. by rewrite fmap_app -app_assoc -app_comm_cons.
    + apply wp_ret. by rewrite app_nil_r.
  - intros s ->. apply wp_modify. exists first. cbn [fst snd]. by rewrite -app_assoc -app_comm_cons.
Qed.
