(* ===== verification/Drivers.v ===== *)
(** * The initialisation functions of drivers and the dump of a frame
      ([floppy_init] of [arch-ia32/floppy.c], [serio_driver_init] of
      [arch-ia32/serio.c], [vga_init] of [arch-ia32/vga.c], [stack_dump]
      and [ctx_dump] of [arch-ia32/idt.c])

    They connect what the other files model: a driver installs its handler,
    opens its interrupt line and registers its device. *)
From stdpp Require Import strings.
From S2P Require Import Prelude ObjAlloc Kmem PageAlloc Blk Regs Intr Io Vsprintf Vga Floppy FloppyProps.
Local Open Scope Z_scope.

(** ** The floppy disk *)

Section floppy_init.
Context {P D DD : Type} `{!ObjOps P, !Driver DD, !PortDev D, !IrqDev D}.

Record drv := mk_drv { dr_intr : intr; dr_fl : floppy D; dr_blk : @blk P DD }.
Definition set_dr_intr (v : intr) (s : drv) : drv := mk_drv v (dr_fl s) (dr_blk s).
Definition set_dr_fl (v : floppy D) (s : drv) : drv := mk_drv (dr_intr s) v (dr_blk s).
Definition set_dr_blk (v : @blk P DD) (s : drv) : drv := mk_drv (dr_intr s) (dr_fl s) v.
Definition on_dintr {A} (m : M intr A) : M drv A := zoom dr_intr set_dr_intr m.
Definition on_dfl {A} (m : M (floppy D) A) : M drv A := zoom dr_fl set_dr_fl m.
Definition on_dblk {A} (m : M (@blk P DD) A) : M drv A := zoom dr_blk set_dr_blk m.

(** The addresses of [floppy_isr] and of [floppy0]. *)
Context (floppy_isr_fn floppy0 : Z).

Definition floppy_init : M drv unit :=
  do! on_dintr (set_irq_handler 6 floppy_isr_fn NULL) then
  do! on_dintr (irq_on 6) then
  do! on_dfl (floppy_reset dprts) then
  do! on_dfl (floppy_send dprts CMD_VERSION) then
  let! v := on_dfl (floppy_recv dprts) in
  do! on_dfl (if v =? 0x80 then floppy_printk "floppy: NEC765 controller detected\n" []
              else floppy_printk "floppy: enhanced controller detected (0x%x)\n" [PZ v]) then
  let! _ := on_dfl (on_fdev (inb (fp_dir dprts))) in
  on_dblk (blkdev_add floppy0).

Lemma irq_on_keeps s im sl n s' : pics_ok s im sl → irq_on n s = Ret (tt, s') → irq_fns s' = irq_fns s.
Proof.
  intros [Hp _ _ _ _]. destruct s as [ps idt f pv log]. simpl in Hp. subst ps. rewrite /irq_on. destruct (_ <? _); by intros [= <-].
Qed.

Lemma wp_on_dfl {A} (m : M (floppy D) A) (Q : A → drv → Prop) s : (fl_ok (dr_fl s) → wp m (λ _ s', fl_ok s') (dr_fl s)) → fl_ok (dr_fl s) →
  (∀ a f, fl_ok f → Q a (set_dr_fl f s)) → wp (on_dfl m) Q s.
Proof. intros Hm Hs HQ. apply wp_zoom. eapply wp_mono; [by apply Hm|]. intros a f Hf. by apply HQ. Qed.

(** [floppy_init] ends whatever the controller answers, as long as it raises
    its interrupts; then the handler is installed, its line open, and the
    device the first of the list, free to use. *)
Theorem floppy_init_correct s im sl d :
  (∀ d : D, wp dev_wait (λ _ _, True) d) → fl_ok (dr_fl s) → pics_ok (dr_intr s) im sl → length (irq_fns (dr_intr s)) = 16%nat →
  floppy0 ≠ NULL → bk_devs (dr_blk s) !! floppy0 = Some d →
  ∃ s' im' sl', floppy_init s = Ret (tt, s') ∧ pics_ok (dr_intr s') im' sl' ∧ delivered im' sl' 6 = true ∧
    irq_fns (dr_intr s') !! 6%nat = Some floppy_isr_fn ∧ bdevs (dr_blk s') = floppy0 ∧
    bk_devs (dr_blk s') !! floppy0 = Some (set_blksem 1 (set_bd_next (bdevs (dr_blk s)) d)).
Proof.
  intros Hw Hfl Hp Hlen Hn Hd.
  assert (Hq : wp floppy_init (λ _ s', ∃ im' sl', pics_ok (dr_intr s') im' sl' ∧ delivered im' sl' 6 = true ∧
    irq_fns (dr_intr s') !! 6%nat = Some floppy_isr_fn ∧ bdevs (dr_blk s') = floppy0 ∧
    bk_devs (dr_blk s') !! floppy0 = Some (set_blksem 1 (set_bd_next (bdevs (dr_blk s)) d))) s).
  2: { destruct (wp_elim _ _ _ Hq) as ([] & s' & E & im' & sl' & H). by exists s', im', sl'. }
  rewrite /floppy_init. apply wp_bind, wp_zoom. rewrite /set_irq_handler. apply wp_modify. set (i1 := upd_irqs _ _ _).
  assert (Hp1 : pics_ok i1 im sl) by (destruct Hp; by split).
  destruct (irq_on_line i1 im sl 6 Hp1 ltac:(lia)) as (i2 & im2 & sl2 & E2 & Hp2 & Hdel & _).
  pose proof (irq_on_keeps _ _ _ _ _ Hp1 E2) as Hf2.
  apply wp_bind, wp_zoom. rewrite /wp. cbn [dr_intr set_dr_intr]. rewrite E2.
  apply wp_bind, wp_on_dfl; [by apply ends_reset|exact Hfl|]. intros _ f3 Hf3.
  apply wp_bind, wp_on_dfl; [by apply ends_send|done|]. intros _ f4 Hf4. apply wp_bind, wp_on_dfl; [by apply ends_recv|done|]. intros v f5 Hf5.
  apply wp_bind, wp_on_dfl; [by destruct (v =? 0x80)|done|]. intros _ f6 Hf6. apply wp_bind, wp_on_dfl; [by apply ends_in|done|]. intros _ f7 Hf7.
  apply wp_zoom. cbn [dr_blk set_dr_fl set_dr_intr]. rewrite /blkdev_add. apply wp_bind, wp_bug_on; [by apply Z.eqb_neq|].
  apply wp_bind, wp_gets. rewrite /st_dev /ld_dev. apply wp_bind, wp_bind, wp_bind, wp_gets. eapply wp_deref; [exact Hd|]. apply wp_modify, wp_bind, wp_modify.
  apply wp_bind, wp_bind, wp_gets. eapply wp_deref; [apply lookup_insert_eq|]. apply wp_modify.
  exists im2, sl2. cbn. split_and!; [done|done| |done|by rewrite lookup_insert_eq].
  rewrite Hf2 /i1 /=. apply list_lookup_insert_eq. lia.
Qed.
End floppy_init.

(** ** The serial line and the screen *)

Section serio_init.
Context `{PortDev D}.
Record srv := mk_srv { sv_con : console D; sv_intr : intr }.
Definition set_sv_con (v : console D) (s : srv) : srv := mk_srv v (sv_intr s).
Definition set_sv_intr (v : intr) (s : srv) : srv := mk_srv (sv_con s) v.
Definition on_scon {A} (m : M (console D) A) : M srv A := zoom sv_con set_sv_con m.
Definition on_sintr {A} (m : M intr A) : M srv A := zoom sv_intr set_sv_intr m.

(** The addresses of the log's buffer, of its constant, of the literals and of
    [serio_isr]; the bound on formats. *)
Context (buf null_str : Z) (fuel : nat) (msg_com1 serio_isr_fn : Z).
Definition serio_driver_init : M srv unit :=
  do! on_scon (printk buf null_str fuel msg_com1 []) then
  do! on_scon (on_vga (on_vdev (Io.outb (COM1 + 1) 1))) then
  do! on_sintr (set_irq_handler 4 serio_isr_fn NULL) then
  on_sintr (irq_on 4).

(** A recognised monitor is only reported by [dprintk], which is empty here. *)
Context (msg_unknown : Z).
Definition vga_init : M (console D) unit :=
  let! s := get in
  if monitor (con_vga s) <? 3 then ret tt
  else printk buf null_str fuel msg_unknown [].
End serio_init.

(** ** The dump of the stack *)

(** What is printed for a word, if it lies on the stack of [n] words at [stop]. *)
Definition word_msg (w : Z) : msg := (" 0x%.8lx"%string, [PZ w]).
Definition dump_word (stop n i : Z) : Mem (list msg) :=
  if i <? n then let! w := ld32 (stop + 4 * i) in ret [word_msg w] else ret [].
Definition dump_row (stop n i : Z) : Mem (list msg) :=
  let! a := ld32 (stop + 4 * i) in
  let! b := dump_word stop n (i + 1) in
  let! c := dump_word stop n (i + 2) in
  let! d := dump_word stop n (i + 3) in
  ret (word_msg a :: b ++ c ++ d ++ [("\n"%string, [])]).
Fixpoint dump_loop (fuel : nat) (stop n max i : Z) : Mem (list msg) :=
  match fuel with
  | O => nofuel
  | S fuel =>
    if i <? max then
      let! r := dump_row stop n i in
      let! rest := dump_loop fuel stop n max (i + 4) in
      ret (r ++ rest)
    else ret []
  end.
(** The messages printed for the frame at [ctx] of the task at [this]; at most
    eight rows, and the test after the last. *)
Definition stack_dump (this ctx : Z) : Mem (list msg) :=
  let stop := ctx + sizeof_intr_ctx in
  let sbase := this + PAGE_SIZE in
  let n := Z.quot (sbase - stop) 4 in
  let max := if 32 <? n then 32 else n in
  dump_loop 9 stop n max 0.

(** The frame at [ctx] has the registers [r]; [pdbr] is the register CR3. *)
Definition ctx_dump (pdbr pid : Z) (name : string) (this ctx : Z) (r : intr_ctx) : Mem (list msg) :=
  let regs : list msg := ([
    ("Task pid=%lu name=%s: CS=0x%lx tsk=%p\n", [PZ pid; PS name; PZ (r_cs r); PZ this]);
    ("  EIP=0x%.8lx EFLAGS=0x%.8lx\n", [PZ (r_eip r); PZ (r_eflags r)]);
    ("  EAX=0x%.8lx    EBX=0x%.8lx\n", [PZ (r_eax r); PZ (r_ebx r)]);
    ("  ECX=0x%.8lx    EDX=0x%.8lx\n", [PZ (r_ecx r); PZ (r_edx r)]);
    ("  ESP=0x%.8lx    EBP=0x%.8lx\n", [PZ (r_esp r); PZ (r_ebp r)]);
    ("  ESI=0x%.8lx    EDI=0x%.8lx\n", [PZ (r_edi r); PZ (r_esi r)]);
    ("  CR3=0x%.8lx    \n", [PZ pdbr])])%string in
  if (PAGE_OFFSET <=? r_esp r) && (0 =? Z.land (r_cs r) __CPL3) then
    let! st := stack_dump this ctx in ret (regs ++ st)
  else ret regs.

(** A row of words as it is printed. *)
Definition row_msgs (r : list Z) : list msg := map word_msg r ++ [("\n"%string, [])].

Section dump.
Context (m : mem) (stop : Z) (ws : list Z).
(** The stack holds the words [ws]. *)
Hypothesis Hws : ∀ i w, ws !! i = Some w → ld32 (stop + 4 * Z.of_nat i) m = Ret (w, m).

Lemma wp_stack_word (i : nat) w (Q : Z → mem → Prop) : ws !! i = Some w → Q w m → wp (ld32 (stop + 4 * Z.of_nat i)) Q m.
Proof. intros Hi HQ. by rewrite /wp (Hws i w Hi). Qed.

Lemma wp_dump_word (i : nat) (Q : list msg → mem → Prop) : Q (map word_msg (take 1 (drop i ws))) m →
  wp (dump_word stop (Z.of_nat (length ws)) (Z.of_nat i)) Q m.
Proof.
  intros HQ. rewrite /dump_word. destruct (Z.ltb_spec (Z.of_nat i) (Z.of_nat (length ws))) as [Hlt|Hge].
  - destruct (lookup_lt_is_Some_2 ws i) as [w Hw]; [lia|]. apply wp_bind. eapply wp_stack_word; [exact Hw|]. apply wp_ret.
    by rewrite (drop_S _ _ _ Hw) in HQ.
  - apply wp_ret. by rewrite skipn_all2 in HQ; [lia|].
Qed.

Lemma wp_dump_row (i : nat) (Q : list msg → mem → Prop) : (i < length ws)%nat → Q (row_msgs (take 4 (drop i ws))) m →
  wp (dump_row stop (Z.of_nat (length ws)) (Z.of_nat i)) Q m.
Proof.
  intros Hi HQ. destruct (lookup_lt_is_Some_2 ws i Hi) as [w Hw]. rewrite /dump_row.
  apply wp_bind. eapply wp_stack_word; [exact Hw|]. rewrite (_ : Z.of_nat i + 1 = Z.of_nat (i + 1)); [lia|].
  rewrite (_ : Z.of_nat i + 2 = Z.of_nat (i + 2)); [lia|]. rewrite (_ : Z.of_nat i + 3 = Z.of_nat (i + 3)); [lia|].
  apply wp_bind, wp_dump_word, wp_bind, wp_dump_word, wp_bind, wp_dump_word, wp_ret.
  assert (E : ∀ l : list Z, take 4 l = take 1 l ++ take 1 (drop 1 l) ++ take 1 (drop 2 l) ++ take 1 (drop 3 l)) by (by intros [|? [|? [|? [|? ?]]]]).
  rewrite /row_msgs E !drop_drop !map_app -!app_assoc in HQ. by rewrite {1}(drop_S _ _ _ Hw) in HQ.
Qed.

(** The loop from the word [i]: as many rows of four words as reach [max]. *)
Lemma dump_loop_rows (fuel i : nat) (max : Z) : max ≤ Z.of_nat (length ws) → Z.of_nat i < max + 4 → max < Z.of_nat (i + 4 * fuel) - 3 →
  wp (dump_loop fuel stop (Z.of_nat (length ws)) max (Z.of_nat i))
     (λ out m', m' = m ∧ ∃ rows, out = concat (map row_msgs rows) ∧ concat rows = take (4 * length rows) (drop i ws) ∧
        max ≤ Z.of_nat (i + 4 * length rows) < max + 4) m.
Proof.
  revert i. induction fuel as [|fuel IH]; intros i Hmax Hi Hf; [lia|]. cbn [dump_loop].
  destruct (Z.ltb_spec (Z.of_nat i) max) as [Hlt|Hge]; [|apply wp_ret; split; [done|]; exists []; cbn; split_and!; [done|done|lia|lia]].
  apply wp_bind, wp_dump_row; [lia|]. rewrite (_ : Z.of_nat i + 4 = Z.of_nat (i + 4)); [lia|].
  apply wp_bind. eapply wp_mono; [apply IH; lia|]. intros out m' (-> & rows & -> & Hr & Hk). apply wp_ret. split; [done|].
  exists (take 4 (drop i ws) :: rows). cbn [concat map length]. split_and!; [done| |lia|lia].
  rewrite Hr -drop_drop take_take_drop. f_equal. lia.
Qed.
End dump.

(** The dump of a frame on the task's stack prints, in rows of four, the words
    above the frame: at most thirty-two, and none past the page's end. *)
Lemma stack_dump_rows m this ctx ws :
  (∀ i w, ws !! i = Some w → ld32 (ctx + sizeof_intr_ctx + 4 * Z.of_nat i) m = Ret (w, m)) →
  this + PAGE_SIZE = ctx + sizeof_intr_ctx + 4 * Z.of_nat (length ws) →
  ∃ rows, stack_dump this ctx m = Ret (concat (map row_msgs rows), m) ∧ concat rows = take 32 ws ∧ (length rows ≤ 8)%nat.
Proof.
  intros Hws Hpg. rewrite /stack_dump. rewrite (_ : this + PAGE_SIZE - (ctx + sizeof_intr_ctx) = Z.of_nat (length ws) * 4); [lia|].
  rewrite Z.quot_mul; [done|]. set (max := if _ <? _ then _ else _).
  assert (Hmax : max = Z.min 32 (Z.of_nat (length ws))) by (rewrite /max; destruct (Z.ltb_spec 32 (Z.of_nat (length ws))); lia).
  destruct (wp_elim _ _ _ (dump_loop_rows m (ctx + sizeof_intr_ctx) ws Hws 9 0 max ltac:(lia) ltac:(lia) ltac:(lia))) as (out & m' & E & -> & rows & -> & Hr & Hk).
  exists rows. split_and!; [exact E| |lia]. rewrite Hr drop_0. destruct (decide (length ws ≤ 32)%nat).
  - by rewrite !take_ge; [lia..|].
  - f_equal. lia.
Qed.

(** A frame of user mode, or one whose stack is not the kernel's, is printed
    without reading memory; any other with the words of its stack. *)
Theorem ctx_dump_correct pdbr pid name m this ctx ws r :
  (∀ i w, ws !! i = Some w → ld32 (ctx + sizeof_intr_ctx + 4 * Z.of_nat i) m = Ret (w, m)) →
  this + PAGE_SIZE = ctx + sizeof_intr_ctx + 4 * Z.of_nat (length ws) →
  ∃ regs rows, ctx_dump pdbr pid name this ctx r m = Ret (regs ++ concat (map row_msgs rows), m) ∧ length regs = 7%nat ∧
    concat rows = (if (PAGE_OFFSET <=? r_esp r) && (0 =? Z.land (r_cs r) __CPL3) then take 32 ws else []).
Proof.
  intros Hws Hpg. rewrite /ctx_dump. destruct (_ && _).
  - destruct (stack_dump_rows m this ctx ws Hws Hpg) as (rows & E & Hr & _). rewrite /bind E. by eexists _, rows.
  - eexists _, []. by rewrite app_nil_r.
Qed.
